(** * lsif-tsc: the indexer engine of [tsc/src/lsif.ts]

    A shallow embedding of the data layer (ProjectData, DocumentData,
    SymbolData and its variants, SymbolDataPartition, DataManager), of the
    semantic cache (Symbols) and of the indexing driver (Visitor), followed
    by the properties established about them.

    Conventions.
    - Objects that the TypeScript code shares by reference (SymbolData,
      DocumentData, the arrays cached by Symbols) live in a heap; a handle
      is an index into that heap.
    - A JavaScript [Map] is an insertion-ordered association list.
    - Code that can throw runs in a state-and-exception monad; an exception
      keeps the state reached at the [throw].
    - The TypeScript compiler (syntax tree, type checker, language service)
      is an oracle: a record of functions. *)

From Stdlib Require Import ZArith String Ascii List Bool Lia.
From stdpp Require Import base list strings.
Import ListNotations.

Local Open Scope Z_scope.
Local Open Scope string_scope.
Local Open Scope list_scope.

#[global] Set Warnings "-register-all".

(* ================================================================== *)
(** * JavaScript maps: insertion-ordered association lists             *)
(* ================================================================== *)

Module JsMap.
Section Ops.
Context {K V : Type} `{EqDecision K}.

Fixpoint get (k : K) (m : list (K * V)) : option V :=
  match m with
  | [] => None
  | (k', v) :: m' => if decide (k = k') then Some v else get k m'
  end.

(** [set] keeps the position of a key that is already present and puts a
    new key last. *)
Fixpoint set (k : K) (v : V) (m : list (K * V)) : list (K * V) :=
  match m with
  | [] => [(k, v)]
  | (k', v') :: m' =>
      if decide (k = k') then (k, v) :: m' else (k', v') :: set k v m'
  end.

Fixpoint delete (k : K) (m : list (K * V)) : list (K * V) :=
  match m with
  | [] => []
  | (k', v') :: m' =>
      if decide (k = k') then m' else (k', v') :: delete k m'
  end.

Definition has (k : K) (m : list (K * V)) : bool :=
  match get k m with Some _ => true | None => false end.

Definition size (m : list (K * V)) : nat := length m.
Definition keys (m : list (K * V)) : list K := map fst m.
Definition values (m : list (K * V)) : list V := map snd m.
End Ops.
End JsMap.

(* ================================================================== *)
(** * The LSIF protocol elements the engine manipulates                *)
(* ================================================================== *)

Abbreviation Id := Z (only parsing).

Module ItemEdgeProperties.
Inductive t := declarations | definitions | references.
#[global] Instance eq_dec : EqDecision t.
Proof. solve_decision. Defined.
End ItemEdgeProperties.

Module EventKind.
Inductive t := begin | end_.
End EventKind.

Module MonikerKind.
Inductive t := import | export.
End MonikerKind.

Record Position := { line : Z; character : Z }.

Module lsp.
Record Range := { start : Position; end_ : Position }.
Record Diagnostic :=
  { severity : Z; code : Z; message : string; range : Range }.
Record FoldingRange :=
  { kind : option string;
    startLine : Z; startCharacter : Z; endLine : Z; endCharacter : Z }.
Inductive MarkedString :=
| Marked (language value : string)
| Plain (value : string).
Record Hover := { contents : list MarkedString; hoverRange : Range }.
End lsp.

Inductive RangeBasedDocumentSymbol :=
| DocumentSymbol (id : Id) (children : option (list RangeBasedDocumentSymbol)).

Inductive RangeTag :=
| TagDefinition (text : string) (kind : Z) (fullRange : lsp.Range)
| TagReference (text : string).

Inductive VertexData :=
| MetaData (version projectRoot : string)
| Project
| Document (uri : string) (contents : option string)
| Event (kind : EventKind.t) (data : Id)
| ResultSet
| Range (span : lsp.Range) (tag : option RangeTag)
| DefinitionResult
| ReferenceResult
| HoverResult (result : lsp.Hover)
| Moniker (kind : MonikerKind.t) (scheme identifier : string)
| DiagnosticResult (result : list lsp.Diagnostic)
| FoldingRangeResult (result : list lsp.FoldingRange)
| DocumentSymbolResult (result : list RangeBasedDocumentSymbol).

Record Vertex := { vid : Id; vdata : VertexData }.

(** The [label] property of a vertex. *)
Definition label (v : Vertex) : string :=
  match vdata v with
  | MetaData _ _ => "metaData"
  | Project => "project"
  | Document _ _ => "document"
  | Event _ _ => "event"
  | ResultSet => "resultSet"
  | Range _ _ => "range"
  | DefinitionResult => "definitionResult"
  | ReferenceResult => "referenceResult"
  | HoverResult _ => "hoverResult"
  | Moniker _ _ _ => "moniker"
  | DiagnosticResult _ => "diagnosticResult"
  | FoldingRangeResult _ => "foldingRangeResult"
  | DocumentSymbolResult _ => "documentSymbolResult"
  end.

(** The span of a range vertex; other vertices carry none. *)
Definition spanOf (v : Vertex) : option lsp.Range :=
  match vdata v with Range s _ => Some s | _ => None end.

Inductive EdgeData :=
| E11 (elabel : string) (outV inV : Id)
| E1N (elabel : string) (outV : Id) (inVs : list Id)
| EItem (outV : Id) (inVs : list Id) (shard : Id)
        (property : option ItemEdgeProperties.t).

Record Edge := { eid : Id; edata : EdgeData }.

Inductive Element :=
| EV (v : Vertex)
| EE (e : Edge).

Definition elementId (x : Element) : Id :=
  match x with EV v => vid v | EE e => eid e end.

(** The ids an element names besides its own. An event vertex names the
    project or document it is about; an edge names its end points and, for
    an item edge, the document it is scoped to. *)
Definition referencedIds (x : Element) : list Id :=
  match x with
  | EV v => match vdata v with Event _ d => [d] | _ => [] end
  | EE e =>
      match edata e with
      | E11 _ o i => [o; i]
      | E1N _ o is_ => o :: is_
      | EItem o is_ d _ => o :: d :: is_
      end
  end.

Definition isVertex (x : Element) : bool :=
  match x with EV _ => true | EE _ => false end.

Definition isEdge (x : Element) : bool :=
  match x with EV _ => false | EE _ => true end.

(* ================================================================== *)
(** * The syntax tree as the engine sees it                            *)
(* ================================================================== *)

Module SyntaxKind.
Inductive t :=
| SourceFile | ModuleDeclaration | ClassDeclaration | InterfaceDeclaration
| TypeParameter | MethodDeclaration | MethodSignature | FunctionDeclaration
| Parameter_ | ClassExpression | Identifier | Other (k : nat).
#[global] Instance eq_dec : EqDecision t.
Proof. solve_decision. Defined.
End SyntaxKind.

(** A [ts.Node]. [nodeId] stands for the identity of the JavaScript object:
    [===] on nodes and the keys of a [Map<ts.Node, _>] compare it.
    [fileName] and [isDeclarationFile] are the properties of a source-file
    node and are meaningless on the others. *)
Record Node :=
  { nodeId : nat;
    kind : SyntaxKind.t;
    fileName : string;
    isDeclarationFile : bool }.

Definition sameNode (a b : Node) : bool := Nat.eqb (nodeId a) (nodeId b).

Definition isSourceFile (n : Node) : bool :=
  bool_decide (kind n = SyntaxKind.SourceFile).

Inductive Tree := TreeNode (node : Node) (children : list Tree).

(** [tss.DefinitionInfo]: the declaration site an identifier sits on. The
    equality [tss.DefinitionInfo.equals] is a parameter of the functions
    that use it. *)
Record DefinitionInfo := { diFile : string; diStart : Z; diEnd : Z }.

(* ================================================================== *)
(** * Objects of the data layer                                        *)
(* ================================================================== *)

Abbreviation SymbolId := string (only parsing).

(** Handles of the shared objects. *)
Abbreviation SymbolDataRef := nat (only parsing).
Abbreviation DocumentDataRef := nat (only parsing).
Abbreviation ArrayRef := nat (only parsing).
Abbreviation CacheRef := nat (only parsing).

(** A [ts.Symbol], by identity. *)
Abbreviation Symbol := nat (only parsing).

Record ProjectData :=
  { pd_project : Vertex;
    pd_documents : list Vertex;
    pd_diagnostics : list lsp.Diagnostic }.

Record DocumentData :=
  { dd_document : Vertex;
    monikerPath : option string;
    externalLibrary : bool;
    dd_ranges : list Vertex;
    dd_diagnostics : option (list lsp.Diagnostic);
    dd_foldingRanges : option (list lsp.FoldingRange);
    dd_documentSymbols : option (list RangeBasedDocumentSymbol) }.

(** [declarationInfo : tss.DefinitionInfo | tss.DefinitionInfo[] | undefined] *)
Inductive DeclarationInfo :=
| DeclUndefined
| DeclSingle (info : DefinitionInfo)
| DeclArray (infos : list DefinitionInfo).

Record SymbolDataPartition :=
  { sp_symbolData : SymbolDataRef;
    sp_document : Vertex;
    definitionRanges : option (list Vertex);
    referenceRanges : option (list (ItemEdgeProperties.t * list Vertex));
    referenceResults : option (list Vertex) }.

(** [partitions : Map<string, SymbolDataPartition | null> | null | undefined].
    [null] in a slot is the tombstone of a flushed partition, [null] for the
    whole field the cleared state of the symbol. *)
Inductive Partitions :=
| PartitionsUndefined
| PartitionsNull
| PartitionsMap (m : list (string * option SymbolDataPartition)).

(** The four closed variants of SymbolData with their own fields. *)
Inductive Variant :=
| StandardV
| AliasedV (aliased : SymbolDataRef) (rename : bool)
| MethodV (sourceFile : option Node) (bases : option (list SymbolDataRef))
| UnionOrIntersectionV (sourceFile : option Node) (elements : list SymbolDataRef).

Record SymbolData :=
  { sd_id : SymbolId;
    resultSet : Vertex;
    declarationInfo : DeclarationInfo;
    definitionResult : option Vertex;
    referenceResult : option Vertex;
    partitions : Partitions;
    scope : option Node;
    variant : Variant }.

(** Modelled from the spec: the LRU cache of [utils/linkedMap], which is not
    part of the sources at hand. A bounded cache: [entries] is kept from the
    least to the most recently used key, a read or a write makes its key the
    most recent one, and a write that exceeds [limit] drops the oldest
    entries. *)
Record LRUCache (K V : Type) :=
  { limit : nat;
    entries : list (K * V) }.
Arguments limit {K V} _.
Arguments entries {K V} _.

(** Frames of the document-symbol stack of the visitor: the id of the frame
    and the children collected so far. *)
Record SymbolFrame :=
  { frameId : Id;
    frameChildren : option (list RangeBasedDocumentSymbol) }.

(** The whole mutable state of one indexing run. *)
Record State :=
  { (* Builder: the id generator and its option *)
    nextId : Id;
    emitSource : bool;
    (* Emitter: everything emitted so far, in program order *)
    emitted : list Element;
    (* the heaps *)
    documentHeap : list DocumentData;
    symbolHeap : list SymbolData;
    arrayHeap : list (list Symbol);
    cacheHeap : list (LRUCache string ArrayRef);
    (* DataManager *)
    projectData : ProjectData;
    documentDatas : list (string * option DocumentDataRef);
    symbolDatas : list (string * option SymbolDataRef);
    clearOnNode : list (nat * list SymbolDataRef);
    (* Symbols *)
    baseSymbolCache : LRUCache string (list Symbol);
    baseMemberCache : LRUCache string CacheRef;
    exportedPaths : LRUCache Symbol (option string);
    (* Visitor *)
    projectRoot : string;
    rootDir : option string;
    outDir : option string;
    dependentOutDirs : list string;
    currentSourceFile : option Node;
    _currentDocumentData : option DocumentDataRef;
    symbolContainer : list SymbolFrame;
    recordDocumentSymbol : list bool;
    externalLibraryImports : list (string * unit) }.

(* ================================================================== *)
(** * The state-and-exception monad                                    *)
(* ================================================================== *)

Inductive Result (A : Type) :=
| Ok (a : A)
| Throw (msg : string)
| OutOfFuel.
Arguments Ok {A} _.
Arguments Throw {A} _.
Arguments OutOfFuel {A}.

Definition M (A : Type) : Type := State -> Result A * State.

Definition ret {A} (a : A) : M A := fun st => (Ok a, st).

Definition bind {A B} (m : M A) (k : A -> M B) : M B :=
  fun st =>
    match m st with
    | (Ok a, st') => k a st'
    | (Throw msg, st') => (Throw msg, st')
    | (OutOfFuel, st') => (OutOfFuel, st')
    end.

Definition throw {A} (msg : string) : M A := fun st => (Throw msg, st).
Definition outOfFuel {A} : M A := fun st => (OutOfFuel, st).
Definition gets {A} (f : State -> A) : M A := fun st => (Ok (f st), st).
Definition modify (f : State -> State) : M unit := fun st => (Ok tt, f st).

Notation "'do' x <- m ; k" := (bind m (fun x => k))
  (at level 10, x name, m at level 100, k at level 200, only parsing).
Notation "'do' ' pat <- m ; k" :=
  (bind m (fun x => match x with pat => k end))
  (at level 10, pat pattern, m at level 100, k at level 200, only parsing).
Notation "m >> k" := (bind m (fun _ => k))
  (at level 61, left associativity, only parsing).

(** [for (let x of xs) body(x)] *)
Fixpoint forEach {A} (xs : list A) (body : A -> M unit) : M unit :=
  match xs with
  | [] => ret tt
  | x :: xs' => body x >> forEach xs' body
  end.

(** [xs.map(f)] with an effectful [f]. *)
Fixpoint mapM {A B} (f : A -> M B) (xs : list A) : M (list B) :=
  match xs with
  | [] => ret []
  | x :: xs' => do y <- f x; do ys <- mapM f xs'; ret (y :: ys)
  end.

Definition when (b : bool) (m : M unit) : M unit := if b then m else ret tt.

(** Field updates of the state. *)
Definition set_nextId x (st : State) : State :=
  {| nextId := x; emitSource := emitSource st; emitted := emitted st;
     documentHeap := documentHeap st; symbolHeap := symbolHeap st;
     arrayHeap := arrayHeap st; cacheHeap := cacheHeap st;
     projectData := projectData st; documentDatas := documentDatas st;
     symbolDatas := symbolDatas st; clearOnNode := clearOnNode st;
     baseSymbolCache := baseSymbolCache st;
     baseMemberCache := baseMemberCache st; exportedPaths := exportedPaths st;
     projectRoot := projectRoot st; rootDir := rootDir st;
     outDir := outDir st; dependentOutDirs := dependentOutDirs st;
     currentSourceFile := currentSourceFile st;
     _currentDocumentData := _currentDocumentData st;
     symbolContainer := symbolContainer st;
     recordDocumentSymbol := recordDocumentSymbol st;
     externalLibraryImports := externalLibraryImports st |}.
Definition set_emitted x (st : State) : State :=
  {| nextId := nextId st; emitSource := emitSource st; emitted := x;
     documentHeap := documentHeap st; symbolHeap := symbolHeap st;
     arrayHeap := arrayHeap st; cacheHeap := cacheHeap st;
     projectData := projectData st; documentDatas := documentDatas st;
     symbolDatas := symbolDatas st; clearOnNode := clearOnNode st;
     baseSymbolCache := baseSymbolCache st;
     baseMemberCache := baseMemberCache st; exportedPaths := exportedPaths st;
     projectRoot := projectRoot st; rootDir := rootDir st;
     outDir := outDir st; dependentOutDirs := dependentOutDirs st;
     currentSourceFile := currentSourceFile st;
     _currentDocumentData := _currentDocumentData st;
     symbolContainer := symbolContainer st;
     recordDocumentSymbol := recordDocumentSymbol st;
     externalLibraryImports := externalLibraryImports st |}.
Definition set_documentHeap x (st : State) : State :=
  {| nextId := nextId st; emitSource := emitSource st; emitted := emitted st;
     documentHeap := x; symbolHeap := symbolHeap st;
     arrayHeap := arrayHeap st; cacheHeap := cacheHeap st;
     projectData := projectData st; documentDatas := documentDatas st;
     symbolDatas := symbolDatas st; clearOnNode := clearOnNode st;
     baseSymbolCache := baseSymbolCache st;
     baseMemberCache := baseMemberCache st; exportedPaths := exportedPaths st;
     projectRoot := projectRoot st; rootDir := rootDir st;
     outDir := outDir st; dependentOutDirs := dependentOutDirs st;
     currentSourceFile := currentSourceFile st;
     _currentDocumentData := _currentDocumentData st;
     symbolContainer := symbolContainer st;
     recordDocumentSymbol := recordDocumentSymbol st;
     externalLibraryImports := externalLibraryImports st |}.
Definition set_symbolHeap x (st : State) : State :=
  {| nextId := nextId st; emitSource := emitSource st; emitted := emitted st;
     documentHeap := documentHeap st; symbolHeap := x;
     arrayHeap := arrayHeap st; cacheHeap := cacheHeap st;
     projectData := projectData st; documentDatas := documentDatas st;
     symbolDatas := symbolDatas st; clearOnNode := clearOnNode st;
     baseSymbolCache := baseSymbolCache st;
     baseMemberCache := baseMemberCache st; exportedPaths := exportedPaths st;
     projectRoot := projectRoot st; rootDir := rootDir st;
     outDir := outDir st; dependentOutDirs := dependentOutDirs st;
     currentSourceFile := currentSourceFile st;
     _currentDocumentData := _currentDocumentData st;
     symbolContainer := symbolContainer st;
     recordDocumentSymbol := recordDocumentSymbol st;
     externalLibraryImports := externalLibraryImports st |}.
Definition set_arrayHeap x (st : State) : State :=
  {| nextId := nextId st; emitSource := emitSource st; emitted := emitted st;
     documentHeap := documentHeap st; symbolHeap := symbolHeap st;
     arrayHeap := x; cacheHeap := cacheHeap st; projectData := projectData st;
     documentDatas := documentDatas st; symbolDatas := symbolDatas st;
     clearOnNode := clearOnNode st; baseSymbolCache := baseSymbolCache st;
     baseMemberCache := baseMemberCache st; exportedPaths := exportedPaths st;
     projectRoot := projectRoot st; rootDir := rootDir st;
     outDir := outDir st; dependentOutDirs := dependentOutDirs st;
     currentSourceFile := currentSourceFile st;
     _currentDocumentData := _currentDocumentData st;
     symbolContainer := symbolContainer st;
     recordDocumentSymbol := recordDocumentSymbol st;
     externalLibraryImports := externalLibraryImports st |}.
Definition set_cacheHeap x (st : State) : State :=
  {| nextId := nextId st; emitSource := emitSource st; emitted := emitted st;
     documentHeap := documentHeap st; symbolHeap := symbolHeap st;
     arrayHeap := arrayHeap st; cacheHeap := x; projectData := projectData st;
     documentDatas := documentDatas st; symbolDatas := symbolDatas st;
     clearOnNode := clearOnNode st; baseSymbolCache := baseSymbolCache st;
     baseMemberCache := baseMemberCache st; exportedPaths := exportedPaths st;
     projectRoot := projectRoot st; rootDir := rootDir st;
     outDir := outDir st; dependentOutDirs := dependentOutDirs st;
     currentSourceFile := currentSourceFile st;
     _currentDocumentData := _currentDocumentData st;
     symbolContainer := symbolContainer st;
     recordDocumentSymbol := recordDocumentSymbol st;
     externalLibraryImports := externalLibraryImports st |}.
Definition set_projectData x (st : State) : State :=
  {| nextId := nextId st; emitSource := emitSource st; emitted := emitted st;
     documentHeap := documentHeap st; symbolHeap := symbolHeap st;
     arrayHeap := arrayHeap st; cacheHeap := cacheHeap st; projectData := x;
     documentDatas := documentDatas st; symbolDatas := symbolDatas st;
     clearOnNode := clearOnNode st; baseSymbolCache := baseSymbolCache st;
     baseMemberCache := baseMemberCache st; exportedPaths := exportedPaths st;
     projectRoot := projectRoot st; rootDir := rootDir st;
     outDir := outDir st; dependentOutDirs := dependentOutDirs st;
     currentSourceFile := currentSourceFile st;
     _currentDocumentData := _currentDocumentData st;
     symbolContainer := symbolContainer st;
     recordDocumentSymbol := recordDocumentSymbol st;
     externalLibraryImports := externalLibraryImports st |}.
Definition set_documentDatas x (st : State) : State :=
  {| nextId := nextId st; emitSource := emitSource st; emitted := emitted st;
     documentHeap := documentHeap st; symbolHeap := symbolHeap st;
     arrayHeap := arrayHeap st; cacheHeap := cacheHeap st;
     projectData := projectData st; documentDatas := x;
     symbolDatas := symbolDatas st; clearOnNode := clearOnNode st;
     baseSymbolCache := baseSymbolCache st;
     baseMemberCache := baseMemberCache st; exportedPaths := exportedPaths st;
     projectRoot := projectRoot st; rootDir := rootDir st;
     outDir := outDir st; dependentOutDirs := dependentOutDirs st;
     currentSourceFile := currentSourceFile st;
     _currentDocumentData := _currentDocumentData st;
     symbolContainer := symbolContainer st;
     recordDocumentSymbol := recordDocumentSymbol st;
     externalLibraryImports := externalLibraryImports st |}.
Definition set_symbolDatas x (st : State) : State :=
  {| nextId := nextId st; emitSource := emitSource st; emitted := emitted st;
     documentHeap := documentHeap st; symbolHeap := symbolHeap st;
     arrayHeap := arrayHeap st; cacheHeap := cacheHeap st;
     projectData := projectData st; documentDatas := documentDatas st;
     symbolDatas := x; clearOnNode := clearOnNode st;
     baseSymbolCache := baseSymbolCache st;
     baseMemberCache := baseMemberCache st; exportedPaths := exportedPaths st;
     projectRoot := projectRoot st; rootDir := rootDir st;
     outDir := outDir st; dependentOutDirs := dependentOutDirs st;
     currentSourceFile := currentSourceFile st;
     _currentDocumentData := _currentDocumentData st;
     symbolContainer := symbolContainer st;
     recordDocumentSymbol := recordDocumentSymbol st;
     externalLibraryImports := externalLibraryImports st |}.
Definition set_clearOnNode x (st : State) : State :=
  {| nextId := nextId st; emitSource := emitSource st; emitted := emitted st;
     documentHeap := documentHeap st; symbolHeap := symbolHeap st;
     arrayHeap := arrayHeap st; cacheHeap := cacheHeap st;
     projectData := projectData st; documentDatas := documentDatas st;
     symbolDatas := symbolDatas st; clearOnNode := x;
     baseSymbolCache := baseSymbolCache st;
     baseMemberCache := baseMemberCache st; exportedPaths := exportedPaths st;
     projectRoot := projectRoot st; rootDir := rootDir st;
     outDir := outDir st; dependentOutDirs := dependentOutDirs st;
     currentSourceFile := currentSourceFile st;
     _currentDocumentData := _currentDocumentData st;
     symbolContainer := symbolContainer st;
     recordDocumentSymbol := recordDocumentSymbol st;
     externalLibraryImports := externalLibraryImports st |}.
Definition set_baseSymbolCache x (st : State) : State :=
  {| nextId := nextId st; emitSource := emitSource st; emitted := emitted st;
     documentHeap := documentHeap st; symbolHeap := symbolHeap st;
     arrayHeap := arrayHeap st; cacheHeap := cacheHeap st;
     projectData := projectData st; documentDatas := documentDatas st;
     symbolDatas := symbolDatas st; clearOnNode := clearOnNode st;
     baseSymbolCache := x; baseMemberCache := baseMemberCache st;
     exportedPaths := exportedPaths st; projectRoot := projectRoot st;
     rootDir := rootDir st; outDir := outDir st;
     dependentOutDirs := dependentOutDirs st;
     currentSourceFile := currentSourceFile st;
     _currentDocumentData := _currentDocumentData st;
     symbolContainer := symbolContainer st;
     recordDocumentSymbol := recordDocumentSymbol st;
     externalLibraryImports := externalLibraryImports st |}.
Definition set_baseMemberCache x (st : State) : State :=
  {| nextId := nextId st; emitSource := emitSource st; emitted := emitted st;
     documentHeap := documentHeap st; symbolHeap := symbolHeap st;
     arrayHeap := arrayHeap st; cacheHeap := cacheHeap st;
     projectData := projectData st; documentDatas := documentDatas st;
     symbolDatas := symbolDatas st; clearOnNode := clearOnNode st;
     baseSymbolCache := baseSymbolCache st; baseMemberCache := x;
     exportedPaths := exportedPaths st; projectRoot := projectRoot st;
     rootDir := rootDir st; outDir := outDir st;
     dependentOutDirs := dependentOutDirs st;
     currentSourceFile := currentSourceFile st;
     _currentDocumentData := _currentDocumentData st;
     symbolContainer := symbolContainer st;
     recordDocumentSymbol := recordDocumentSymbol st;
     externalLibraryImports := externalLibraryImports st |}.
Definition set_exportedPaths x (st : State) : State :=
  {| nextId := nextId st; emitSource := emitSource st; emitted := emitted st;
     documentHeap := documentHeap st; symbolHeap := symbolHeap st;
     arrayHeap := arrayHeap st; cacheHeap := cacheHeap st;
     projectData := projectData st; documentDatas := documentDatas st;
     symbolDatas := symbolDatas st; clearOnNode := clearOnNode st;
     baseSymbolCache := baseSymbolCache st;
     baseMemberCache := baseMemberCache st; exportedPaths := x;
     projectRoot := projectRoot st; rootDir := rootDir st;
     outDir := outDir st; dependentOutDirs := dependentOutDirs st;
     currentSourceFile := currentSourceFile st;
     _currentDocumentData := _currentDocumentData st;
     symbolContainer := symbolContainer st;
     recordDocumentSymbol := recordDocumentSymbol st;
     externalLibraryImports := externalLibraryImports st |}.
Definition set_rootDir x (st : State) : State :=
  {| nextId := nextId st; emitSource := emitSource st; emitted := emitted st;
     documentHeap := documentHeap st; symbolHeap := symbolHeap st;
     arrayHeap := arrayHeap st; cacheHeap := cacheHeap st;
     projectData := projectData st; documentDatas := documentDatas st;
     symbolDatas := symbolDatas st; clearOnNode := clearOnNode st;
     baseSymbolCache := baseSymbolCache st;
     baseMemberCache := baseMemberCache st; exportedPaths := exportedPaths st;
     projectRoot := projectRoot st; rootDir := x; outDir := outDir st;
     dependentOutDirs := dependentOutDirs st;
     currentSourceFile := currentSourceFile st;
     _currentDocumentData := _currentDocumentData st;
     symbolContainer := symbolContainer st;
     recordDocumentSymbol := recordDocumentSymbol st;
     externalLibraryImports := externalLibraryImports st |}.
Definition set_outDir x (st : State) : State :=
  {| nextId := nextId st; emitSource := emitSource st; emitted := emitted st;
     documentHeap := documentHeap st; symbolHeap := symbolHeap st;
     arrayHeap := arrayHeap st; cacheHeap := cacheHeap st;
     projectData := projectData st; documentDatas := documentDatas st;
     symbolDatas := symbolDatas st; clearOnNode := clearOnNode st;
     baseSymbolCache := baseSymbolCache st;
     baseMemberCache := baseMemberCache st; exportedPaths := exportedPaths st;
     projectRoot := projectRoot st; rootDir := rootDir st; outDir := x;
     dependentOutDirs := dependentOutDirs st;
     currentSourceFile := currentSourceFile st;
     _currentDocumentData := _currentDocumentData st;
     symbolContainer := symbolContainer st;
     recordDocumentSymbol := recordDocumentSymbol st;
     externalLibraryImports := externalLibraryImports st |}.
Definition set_dependentOutDirs x (st : State) : State :=
  {| nextId := nextId st; emitSource := emitSource st; emitted := emitted st;
     documentHeap := documentHeap st; symbolHeap := symbolHeap st;
     arrayHeap := arrayHeap st; cacheHeap := cacheHeap st;
     projectData := projectData st; documentDatas := documentDatas st;
     symbolDatas := symbolDatas st; clearOnNode := clearOnNode st;
     baseSymbolCache := baseSymbolCache st;
     baseMemberCache := baseMemberCache st; exportedPaths := exportedPaths st;
     projectRoot := projectRoot st; rootDir := rootDir st;
     outDir := outDir st; dependentOutDirs := x;
     currentSourceFile := currentSourceFile st;
     _currentDocumentData := _currentDocumentData st;
     symbolContainer := symbolContainer st;
     recordDocumentSymbol := recordDocumentSymbol st;
     externalLibraryImports := externalLibraryImports st |}.
Definition set_currentSourceFile x (st : State) : State :=
  {| nextId := nextId st; emitSource := emitSource st; emitted := emitted st;
     documentHeap := documentHeap st; symbolHeap := symbolHeap st;
     arrayHeap := arrayHeap st; cacheHeap := cacheHeap st;
     projectData := projectData st; documentDatas := documentDatas st;
     symbolDatas := symbolDatas st; clearOnNode := clearOnNode st;
     baseSymbolCache := baseSymbolCache st;
     baseMemberCache := baseMemberCache st; exportedPaths := exportedPaths st;
     projectRoot := projectRoot st; rootDir := rootDir st;
     outDir := outDir st; dependentOutDirs := dependentOutDirs st;
     currentSourceFile := x; _currentDocumentData := _currentDocumentData st;
     symbolContainer := symbolContainer st;
     recordDocumentSymbol := recordDocumentSymbol st;
     externalLibraryImports := externalLibraryImports st |}.
Definition set_currentDocumentData x (st : State) : State :=
  {| nextId := nextId st; emitSource := emitSource st; emitted := emitted st;
     documentHeap := documentHeap st; symbolHeap := symbolHeap st;
     arrayHeap := arrayHeap st; cacheHeap := cacheHeap st;
     projectData := projectData st; documentDatas := documentDatas st;
     symbolDatas := symbolDatas st; clearOnNode := clearOnNode st;
     baseSymbolCache := baseSymbolCache st;
     baseMemberCache := baseMemberCache st; exportedPaths := exportedPaths st;
     projectRoot := projectRoot st; rootDir := rootDir st;
     outDir := outDir st; dependentOutDirs := dependentOutDirs st;
     currentSourceFile := currentSourceFile st; _currentDocumentData := x;
     symbolContainer := symbolContainer st;
     recordDocumentSymbol := recordDocumentSymbol st;
     externalLibraryImports := externalLibraryImports st |}.
Definition set_symbolContainer x (st : State) : State :=
  {| nextId := nextId st; emitSource := emitSource st; emitted := emitted st;
     documentHeap := documentHeap st; symbolHeap := symbolHeap st;
     arrayHeap := arrayHeap st; cacheHeap := cacheHeap st;
     projectData := projectData st; documentDatas := documentDatas st;
     symbolDatas := symbolDatas st; clearOnNode := clearOnNode st;
     baseSymbolCache := baseSymbolCache st;
     baseMemberCache := baseMemberCache st; exportedPaths := exportedPaths st;
     projectRoot := projectRoot st; rootDir := rootDir st;
     outDir := outDir st; dependentOutDirs := dependentOutDirs st;
     currentSourceFile := currentSourceFile st;
     _currentDocumentData := _currentDocumentData st; symbolContainer := x;
     recordDocumentSymbol := recordDocumentSymbol st;
     externalLibraryImports := externalLibraryImports st |}.
Definition set_recordDocumentSymbol x (st : State) : State :=
  {| nextId := nextId st; emitSource := emitSource st; emitted := emitted st;
     documentHeap := documentHeap st; symbolHeap := symbolHeap st;
     arrayHeap := arrayHeap st; cacheHeap := cacheHeap st;
     projectData := projectData st; documentDatas := documentDatas st;
     symbolDatas := symbolDatas st; clearOnNode := clearOnNode st;
     baseSymbolCache := baseSymbolCache st;
     baseMemberCache := baseMemberCache st; exportedPaths := exportedPaths st;
     projectRoot := projectRoot st; rootDir := rootDir st;
     outDir := outDir st; dependentOutDirs := dependentOutDirs st;
     currentSourceFile := currentSourceFile st;
     _currentDocumentData := _currentDocumentData st;
     symbolContainer := symbolContainer st; recordDocumentSymbol := x;
     externalLibraryImports := externalLibraryImports st |}.
Definition set_externalLibraryImports x (st : State) : State :=
  {| nextId := nextId st; emitSource := emitSource st; emitted := emitted st;
     documentHeap := documentHeap st; symbolHeap := symbolHeap st;
     arrayHeap := arrayHeap st; cacheHeap := cacheHeap st;
     projectData := projectData st; documentDatas := documentDatas st;
     symbolDatas := symbolDatas st; clearOnNode := clearOnNode st;
     baseSymbolCache := baseSymbolCache st;
     baseMemberCache := baseMemberCache st; exportedPaths := exportedPaths st;
     projectRoot := projectRoot st; rootDir := rootDir st;
     outDir := outDir st; dependentOutDirs := dependentOutDirs st;
     currentSourceFile := currentSourceFile st;
     _currentDocumentData := _currentDocumentData st;
     symbolContainer := symbolContainer st;
     recordDocumentSymbol := recordDocumentSymbol st;
     externalLibraryImports := x |}.

(** Field updates of a symbol data. *)
Definition with_declarationInfo x (sd : SymbolData) : SymbolData :=
  {| sd_id := sd_id sd; resultSet := resultSet sd; declarationInfo := x;
     definitionResult := definitionResult sd;
     referenceResult := referenceResult sd; partitions := partitions sd;
     scope := scope sd; variant := variant sd |}.
Definition with_definitionResult x (sd : SymbolData) : SymbolData :=
  {| sd_id := sd_id sd; resultSet := resultSet sd;
     declarationInfo := declarationInfo sd; definitionResult := x;
     referenceResult := referenceResult sd; partitions := partitions sd;
     scope := scope sd; variant := variant sd |}.
Definition with_referenceResult x (sd : SymbolData) : SymbolData :=
  {| sd_id := sd_id sd; resultSet := resultSet sd;
     declarationInfo := declarationInfo sd;
     definitionResult := definitionResult sd; referenceResult := x;
     partitions := partitions sd; scope := scope sd; variant := variant sd |}.
Definition with_partitions x (sd : SymbolData) : SymbolData :=
  {| sd_id := sd_id sd; resultSet := resultSet sd;
     declarationInfo := declarationInfo sd;
     definitionResult := definitionResult sd;
     referenceResult := referenceResult sd; partitions := x;
     scope := scope sd; variant := variant sd |}.
Definition with_variant x (sd : SymbolData) : SymbolData :=
  {| sd_id := sd_id sd; resultSet := resultSet sd;
     declarationInfo := declarationInfo sd;
     definitionResult := definitionResult sd;
     referenceResult := referenceResult sd; partitions := partitions sd;
     scope := scope sd; variant := x |}.

(** Field updates of a partition. *)
Definition with_definitionRanges x (p : SymbolDataPartition) : SymbolDataPartition :=
  {| sp_symbolData := sp_symbolData p; sp_document := sp_document p;
     definitionRanges := x; referenceRanges := referenceRanges p;
     referenceResults := referenceResults p |}.
Definition with_referenceRanges x (p : SymbolDataPartition) : SymbolDataPartition :=
  {| sp_symbolData := sp_symbolData p; sp_document := sp_document p;
     definitionRanges := definitionRanges p; referenceRanges := x;
     referenceResults := referenceResults p |}.
Definition with_referenceResults x (p : SymbolDataPartition) : SymbolDataPartition :=
  {| sp_symbolData := sp_symbolData p; sp_document := sp_document p;
     definitionRanges := definitionRanges p;
     referenceRanges := referenceRanges p; referenceResults := x |}.

(** Field updates of a document data. *)
Definition with_dd_ranges x (d : DocumentData) : DocumentData :=
  {| dd_document := dd_document d; monikerPath := monikerPath d;
     externalLibrary := externalLibrary d; dd_ranges := x;
     dd_diagnostics := dd_diagnostics d;
     dd_foldingRanges := dd_foldingRanges d;
     dd_documentSymbols := dd_documentSymbols d |}.
Definition with_dd_diagnostics x (d : DocumentData) : DocumentData :=
  {| dd_document := dd_document d; monikerPath := monikerPath d;
     externalLibrary := externalLibrary d; dd_ranges := dd_ranges d;
     dd_diagnostics := x; dd_foldingRanges := dd_foldingRanges d;
     dd_documentSymbols := dd_documentSymbols d |}.
Definition with_dd_foldingRanges x (d : DocumentData) : DocumentData :=
  {| dd_document := dd_document d; monikerPath := monikerPath d;
     externalLibrary := externalLibrary d; dd_ranges := dd_ranges d;
     dd_diagnostics := dd_diagnostics d; dd_foldingRanges := x;
     dd_documentSymbols := dd_documentSymbols d |}.
Definition with_dd_documentSymbols x (d : DocumentData) : DocumentData :=
  {| dd_document := dd_document d; monikerPath := monikerPath d;
     externalLibrary := externalLibrary d; dd_ranges := dd_ranges d;
     dd_diagnostics := dd_diagnostics d;
     dd_foldingRanges := dd_foldingRanges d; dd_documentSymbols := x |}.

(** Field updates of the project data. *)
Definition with_pd_documents x (d : ProjectData) : ProjectData :=
  {| pd_project := pd_project d; pd_documents := x; pd_diagnostics := pd_diagnostics d |}.
Definition with_pd_diagnostics x (d : ProjectData) : ProjectData :=
  {| pd_project := pd_project d; pd_documents := pd_documents d; pd_diagnostics := x |}.

(* ================================================================== *)
(** * IdFactory / Builder and the emitter                              *)
(* ================================================================== *)

(** Modelled from the spec: the Builder of [graph.ts] and the id generator
    it is given, which are not part of the sources at hand. Every call of a
    vertex or edge builder draws a fresh id from the generator; the ids are
    sequential integers. *)
Definition freshId : M Id :=
  fun st => (Ok (nextId st), set_nextId (nextId st + 1) st).

Module vertex.
Definition make (d : VertexData) : M Vertex :=
  do i <- freshId; ret {| vid := i; vdata := d |}.
Definition metaData (version root : string) := make (MetaData version root).
Definition project := make Project.
Definition document (path contents : string) : M Vertex :=
  do src <- gets emitSource;
  make (Document path (if src then Some contents else None)).
Definition event (kind : EventKind.t) (scope : Vertex) :=
  make (Event kind (vid scope)).
Definition resultSet := make ResultSet.
Definition range (span : lsp.Range) (tag : RangeTag) :=
  make (Range span (Some tag)).
Definition definitionResult := make DefinitionResult.
Definition referencesResult := make ReferenceResult.
Definition hoverResult (h : lsp.Hover) := make (HoverResult h).
Definition moniker (kind : MonikerKind.t) (scheme identifier : string) :=
  make (Moniker kind scheme identifier).
Definition diagnosticResult (ds : list lsp.Diagnostic) :=
  make (DiagnosticResult ds).
Definition foldingRangeResult (fs : list lsp.FoldingRange) :=
  make (FoldingRangeResult fs).
Definition documentSymbolResult (ds : list RangeBasedDocumentSymbol) :=
  make (DocumentSymbolResult ds).
End vertex.

Module edge.
Definition make (d : EdgeData) : M Edge :=
  do i <- freshId; ret {| eid := i; edata := d |}.
Definition contains (from : Vertex) (to : list Vertex) :=
  make (E1N "contains" (vid from) (map vid to)).
Definition next (from to : Vertex) := make (E11 "next" (vid from) (vid to)).
Definition item (from : Vertex) (to : list Vertex) (shard : Vertex)
    (property : option ItemEdgeProperties.t) :=
  make (EItem (vid from) (map vid to) (vid shard) property).
Definition definition (from to : Vertex) :=
  make (E11 "textDocument/definition" (vid from) (vid to)).
Definition references (from to : Vertex) :=
  make (E11 "textDocument/references" (vid from) (vid to)).
Definition hover (from to : Vertex) :=
  make (E11 "textDocument/hover" (vid from) (vid to)).
Definition moniker (from to : Vertex) :=
  make (E11 "moniker" (vid from) (vid to)).
Definition diagnostic (from to : Vertex) :=
  make (E11 "textDocument/diagnostic" (vid from) (vid to)).
Definition foldingRange (from to : Vertex) :=
  make (E11 "textDocument/foldingRange" (vid from) (vid to)).
Definition documentSymbols (from to : Vertex) :=
  make (E11 "textDocument/documentSymbol" (vid from) (vid to)).
End edge.

(** [context.emit(element)]: hand the element to the emitter. *)
Definition emit (x : Element) : M unit :=
  modify (fun st => set_emitted (emitted st ++ [x]) st).

(* ================================================================== *)
(** * ProjectData                                                      *)
(* ================================================================== *)

Definition ProjectData_new (project : Vertex) : ProjectData :=
  {| pd_project := project; pd_documents := []; pd_diagnostics := [] |}.

Definition ProjectData_update (f : ProjectData -> ProjectData) : M unit :=
  modify (fun st => set_projectData (f (projectData st)) st).

Definition ProjectData_begin : M unit :=
  do pd <- gets projectData;
  do _ <- emit (EV (pd_project pd));
  do ev <- vertex.event EventKind.begin (pd_project pd);
  emit (EV ev).

Definition ProjectData_addDocument (document : Vertex) : M unit :=
  do _ <- ProjectData_update
            (fun pd => with_pd_documents (pd_documents pd ++ [document]) pd);
  do pd <- gets projectData;
  if (32 <? length (pd_documents pd))%nat then
    do e <- edge.contains (pd_project pd) (pd_documents pd);
    do _ <- emit (EE e);
    ProjectData_update (with_pd_documents [])
  else ret tt.

Definition ProjectData_addDiagnostic (diagnostic : lsp.Diagnostic) : M unit :=
  ProjectData_update
    (fun pd => with_pd_diagnostics (pd_diagnostics pd ++ [diagnostic]) pd).

Definition ProjectData_end : M unit :=
  do pd <- gets projectData;
  do _ <- (if (0 <? length (pd_documents pd))%nat then
             do e <- edge.contains (pd_project pd) (pd_documents pd);
             do _ <- emit (EE e);
             ProjectData_update (with_pd_documents [])
           else ret tt);
  do _ <- (if (0 <? length (pd_diagnostics pd))%nat then
             do dr <- vertex.diagnosticResult (pd_diagnostics pd);
             do _ <- emit (EV dr);
             do e <- edge.diagnostic (pd_project pd) dr;
             emit (EE e)
           else ret tt);
  do ev <- vertex.event EventKind.end_ (pd_project pd);
  emit (EV ev).

(* ================================================================== *)
(** * DocumentData                                                     *)
(* ================================================================== *)

(** The constructors build a value; the object gets its identity (its place
    in the heap) when its creator stores it, which is the first point where
    it can be shared. *)
Definition DocumentData_new (document : Vertex) (monikerPath : option string)
    (externalLibrary : bool) : DocumentData :=
  {| dd_document := document; monikerPath := monikerPath;
     externalLibrary := externalLibrary; dd_ranges := [];
     dd_diagnostics := None; dd_foldingRanges := None;
     dd_documentSymbols := None |}.

Definition DocumentData_alloc (data : DocumentData) : M DocumentDataRef :=
  fun st => (Ok (length (documentHeap st)),
             set_documentHeap (documentHeap st ++ [data]) st).

(** A handle that points outside the heap cannot arise from the operations
    below; reading one is reported as an exception of the model. *)
Definition DocumentData_deref (d : DocumentDataRef) : M DocumentData :=
  fun st =>
    match documentHeap st !! d with
    | Some data => (Ok data, st)
    | None => (Throw "invalid DocumentData reference", st)
    end.

Definition DocumentData_update (d : DocumentDataRef)
    (f : DocumentData -> DocumentData) : M unit :=
  modify (fun st => set_documentHeap (alter f d (documentHeap st)) st).

Definition DocumentData_begin (d : DocumentDataRef) : M unit :=
  do data <- DocumentData_deref d;
  do _ <- emit (EV (dd_document data));
  do ev <- vertex.event EventKind.begin (dd_document data);
  emit (EV ev).

Definition DocumentData_addRange (d : DocumentDataRef) (range : Vertex) : M unit :=
  do _ <- DocumentData_deref d;
  do _ <- emit (EV range);
  DocumentData_update d (fun data => with_dd_ranges (dd_ranges data ++ [range]) data).

Definition DocumentData_addDiagnostics (d : DocumentDataRef)
    (diagnostics : list lsp.Diagnostic) : M unit :=
  DocumentData_update d (with_dd_diagnostics (Some diagnostics)).

Definition DocumentData_addFoldingRanges (d : DocumentDataRef)
    (foldingRanges : list lsp.FoldingRange) : M unit :=
  DocumentData_update d (with_dd_foldingRanges (Some foldingRanges)).

Definition DocumentData_addDocumentSymbols (d : DocumentDataRef)
    (documentSymbols : list RangeBasedDocumentSymbol) : M unit :=
  DocumentData_update d (with_dd_documentSymbols (Some documentSymbols)).

Definition DocumentData_end (d : DocumentDataRef) : M unit :=
  do data <- DocumentData_deref d;
  do _ <- (if (0 <=? length (dd_ranges data))%nat then
             do e <- edge.contains (dd_document data) (dd_ranges data);
             emit (EE e)
           else ret tt);
  do _ <- match dd_diagnostics data with
          | Some diagnostics =>
              do dr <- vertex.diagnosticResult diagnostics;
              do _ <- emit (EV dr);
              do e <- edge.diagnostic (dd_document data) dr;
              emit (EE e)
          | None => ret tt
          end;
  do _ <- match dd_foldingRanges data with
          | Some foldingRanges =>
              do fr <- vertex.foldingRangeResult foldingRanges;
              do _ <- emit (EV fr);
              do e <- edge.foldingRange (dd_document data) fr;
              emit (EE e)
          | None => ret tt
          end;
  do _ <- match dd_documentSymbols data with
          | Some documentSymbols =>
              do ds <- vertex.documentSymbolResult documentSymbols;
              do _ <- emit (EV ds);
              do e <- edge.documentSymbols (dd_document data) ds;
              emit (EE e)
          | None => ret tt
          end;
  do ev <- vertex.event EventKind.end_ (dd_document data);
  emit (EV ev).

(* ================================================================== *)
(** * DataManager, the part SymbolData calls back (SymbolDataContext)  *)
(* ================================================================== *)

Definition DataManager_getDocumentData (fileName : string)
    : M (option DocumentDataRef) :=
  do result <- gets (fun st => JsMap.get fileName (documentDatas st));
  match result with
  | Some None =>
      throw ("There was already a managed document data for file: " +:+ fileName)
  | Some (Some d) => ret (Some d)
  | None => ret None
  end.

Definition DataManager_manageLifeCycle (node : Node) (symbolData : SymbolDataRef)
    : M unit :=
  modify (fun st =>
    let datas :=
      match JsMap.get (nodeId node) (clearOnNode st) with
      | Some datas => datas
      | None => []
      end in
    set_clearOnNode
      (JsMap.set (nodeId node) (datas ++ [symbolData]) (clearOnNode st)) st).

(* ================================================================== *)
(** * SymbolData: the shared part of the four variants                 *)
(* ================================================================== *)

Definition SymbolData_alloc (data : SymbolData) : M SymbolDataRef :=
  fun st => (Ok (length (symbolHeap st)),
             set_symbolHeap (symbolHeap st ++ [data]) st).

Definition SymbolData_deref (h : SymbolDataRef) : M SymbolData :=
  fun st =>
    match symbolHeap st !! h with
    | Some data => (Ok data, st)
    | None => (Throw "invalid SymbolData reference", st)
    end.

Definition SymbolData_update (h : SymbolDataRef)
    (f : SymbolData -> SymbolData) : M unit :=
  modify (fun st => set_symbolHeap (alter f h (symbolHeap st)) st).

(** [constructor(context, id)]: draws the result-set vertex. *)
Definition SymbolData_new (id : SymbolId) (scope : option Node)
    (variant : Variant) : M SymbolData :=
  do rs <- vertex.resultSet;
  ret {| sd_id := id; resultSet := rs; declarationInfo := DeclUndefined;
         definitionResult := None; referenceResult := None;
         partitions := PartitionsUndefined; scope := scope;
         variant := variant |}.

Definition SymbolData_getId (h : SymbolDataRef) : M SymbolId :=
  do sd <- SymbolData_deref h; ret (sd_id sd).

Definition SymbolData_getResultSet (h : SymbolDataRef) : M Vertex :=
  do sd <- SymbolData_deref h; ret (resultSet sd).

(** [SymbolData.begin], the body the variants reach through [super]. *)
Definition SymbolData_super_begin (h : SymbolDataRef) : M unit :=
  do sd <- SymbolData_deref h; emit (EV (resultSet sd)).

(** [SymbolData.recordDefinitionInfo], on the field it updates. *)
Definition recordInfo (info : DefinitionInfo) (d : DeclarationInfo)
    : DeclarationInfo :=
  match d with
  | DeclUndefined => DeclSingle info
  | DeclArray infos => DeclArray (infos ++ [info])
  | DeclSingle first => DeclArray ([first] ++ [info])
  end.

(** [SymbolData.hasDefinitionInfo], on the field it reads; [equals] is
    [tss.DefinitionInfo.equals]. *)
Definition hasInfo (equals : DefinitionInfo -> DefinitionInfo -> bool)
    (info : DefinitionInfo) (d : DeclarationInfo) : bool :=
  match d with
  | DeclUndefined => false
  | DeclArray infos => existsb (fun item => equals item info) infos
  | DeclSingle item => equals item info
  end.

(** The method as the objects have it: UnionOrIntersectionSymbolData
    overrides it with an empty body. *)
Definition SymbolData_recordDefinitionInfo (h : SymbolDataRef)
    (info : DefinitionInfo) : M unit :=
  do sd <- SymbolData_deref h;
  match variant sd with
  | UnionOrIntersectionV _ _ => ret tt
  | _ => SymbolData_update h
           (fun sd => with_declarationInfo (recordInfo info (declarationInfo sd)) sd)
  end.

Definition SymbolData_hasDefinitionInfo
    (equals : DefinitionInfo -> DefinitionInfo -> bool)
    (h : SymbolDataRef) (info : DefinitionInfo) : M bool :=
  do sd <- SymbolData_deref h;
  ret (hasInfo equals info (declarationInfo sd)).

Definition SymbolData_addHover (h : SymbolDataRef) (hover : lsp.Hover) : M unit :=
  do sd <- SymbolData_deref h;
  do hr <- vertex.hoverResult hover;
  do _ <- emit (EV hr);
  do e <- edge.hover (resultSet sd) hr;
  emit (EE e).

Definition SymbolData_addMoniker (h : SymbolDataRef) (kind : MonikerKind.t)
    (identifier : string) : M unit :=
  do sd <- SymbolData_deref h;
  do moniker <- vertex.moniker kind "tsc" identifier;
  do _ <- emit (EV moniker);
  do e <- edge.moniker (resultSet sd) moniker;
  emit (EE e).

(* ---------------------------------------------------------------- *)
(** ** The result vertices of a symbol                                *)

Definition StandardSymbolData_getOrCreateDefinitionResult (h : SymbolDataRef)
    : M Vertex :=
  do sd <- SymbolData_deref h;
  match definitionResult sd with
  | Some r => ret r
  | None =>
      do r <- vertex.definitionResult;
      do _ <- SymbolData_update h (with_definitionResult (Some r));
      do _ <- emit (EV r);
      do e <- edge.definition (resultSet sd) r;
      do _ <- emit (EE e);
      ret r
  end.

Definition StandardSymbolData_getOrCreateReferenceResult (h : SymbolDataRef)
    : M Vertex :=
  do sd <- SymbolData_deref h;
  match referenceResult sd with
  | Some r => ret r
  | None =>
      do r <- vertex.referencesResult;
      do _ <- SymbolData_update h (with_referenceResult (Some r));
      do _ <- emit (EV r);
      do e <- edge.references (resultSet sd) r;
      do _ <- emit (EE e);
      ret r
  end.

Definition AliasedSymbolData_getOrCreateReferenceResult (h : SymbolDataRef)
    : M Vertex :=
  throw "Shouldn't be called".

(** Dynamic dispatch of the two methods. *)
Definition SymbolData_getOrCreateDefinitionResult (h : SymbolDataRef) : M Vertex :=
  StandardSymbolData_getOrCreateDefinitionResult h.

Definition SymbolData_getOrCreateReferenceResult (h : SymbolDataRef) : M Vertex :=
  do sd <- SymbolData_deref h;
  match variant sd with
  | AliasedV _ _ => AliasedSymbolData_getOrCreateReferenceResult h
  | _ => StandardSymbolData_getOrCreateReferenceResult h
  end.

(* ================================================================== *)
(** * SymbolDataPartition                                              *)
(* ================================================================== *)

Definition SymbolDataPartition_new (symbolData : SymbolDataRef)
    (document : Vertex) : SymbolDataPartition :=
  {| sp_symbolData := symbolData; sp_document := document;
     definitionRanges := None; referenceRanges := None;
     referenceResults := None |}.

Definition SymbolDataPartition_begin : M unit := ret tt.

(** [addReference(value, property?)]: it neither emits nor throws, so it is
    a function on the partition. *)
Definition SymbolDataPartition_addReference (value : Vertex)
    (property : option ItemEdgeProperties.t) (p : SymbolDataPartition)
    : SymbolDataPartition :=
  match bool_decide (label value = "range"), property with
  | true, Some property =>
      let ranges :=
        match referenceRanges p with Some m => m | None => [] end in
      let values :=
        match JsMap.get property ranges with Some vs => vs | None => [] end in
      with_referenceRanges
        (Some (JsMap.set property (values ++ [value]) ranges)) p
  | _, _ =>
      if bool_decide (label value = "referenceResult") then
        let results :=
          match referenceResults p with Some rs => rs | None => [] end in
        with_referenceResults (Some (results ++ [value])) p
      else p
  end.

Definition SymbolDataPartition_addDefinition (value : Vertex)
    (recordAsReference : bool) (p : SymbolDataPartition) : SymbolDataPartition :=
  let ranges := match definitionRanges p with Some rs => rs | None => [] end in
  let p := with_definitionRanges (Some (ranges ++ [value])) p in
  if recordAsReference then
    SymbolDataPartition_addReference value (Some ItemEdgeProperties.definitions) p
  else p.

Definition sameSpan (a b : lsp.Range) : bool :=
  Z.eqb (line (lsp.start a)) (line (lsp.start b))
  && Z.eqb (character (lsp.start a)) (character (lsp.start b))
  && Z.eqb (line (lsp.end_ a)) (line (lsp.end_ b))
  && Z.eqb (character (lsp.end_ a)) (character (lsp.end_ b)).

Definition SymbolDataPartition_findDefinition (range : lsp.Range)
    (p : SymbolDataPartition) : option Vertex :=
  match definitionRanges p with
  | None => None
  | Some ranges =>
      find (fun definitionRange =>
              match spanOf definitionRange with
              | Some s => sameSpan s range
              | None => false
              end) ranges
  end.

Definition SymbolDataPartition_end (p : SymbolDataPartition) : M unit :=
  do _ <- match definitionRanges p with
          | Some ranges =>
              do definitionResult <-
                SymbolData_getOrCreateDefinitionResult (sp_symbolData p);
              do e <- edge.item definitionResult ranges (sp_document p) None;
              emit (EE e)
          | None => ret tt
          end;
  do _ <- match referenceRanges p with
          | Some ranges =>
              do referenceResult <-
                SymbolData_getOrCreateReferenceResult (sp_symbolData p);
              forEach ranges (fun '(property, values) =>
                do e <- edge.item referenceResult values (sp_document p)
                                  (Some property);
                emit (EE e))
          | None => ret tt
          end;
  match referenceResults p with
  | Some results =>
      do referenceResult <-
        SymbolData_getOrCreateReferenceResult (sp_symbolData p);
      do e <- edge.item referenceResult results (sp_document p) None;
      emit (EE e)
  | None => ret tt
  end.

(* ================================================================== *)
(** * StandardSymbolData                                               *)
(* ================================================================== *)

(** A reference to a partition: the symbol data that owns it and the file
    name of its slot. *)
Definition PartitionRef := (SymbolDataRef * string)%type.

Definition SymbolDataPartition_update (r : PartitionRef)
    (f : SymbolDataPartition -> SymbolDataPartition) : M unit :=
  SymbolData_update (fst r) (fun sd =>
    match partitions sd with
    | PartitionsMap m =>
        match JsMap.get (snd r) m with
        | Some (Some p) =>
            with_partitions (PartitionsMap (JsMap.set (snd r) (Some (f p)) m)) sd
        | _ => sd
        end
    | _ => sd
    end).

(** [this.partitions.set(fileName, slot)] on the map the symbol holds. *)
Definition setSlot (fileName : string) (slot : option SymbolDataPartition)
    (sd : SymbolData) : SymbolData :=
  match partitions sd with
  | PartitionsMap m => with_partitions (PartitionsMap (JsMap.set fileName slot m)) sd
  | _ => sd
  end.

Definition StandardSymbolData_getOrCreatePartition (h : SymbolDataRef)
    (sourceFile : Node) : M PartitionRef :=
  let fileName := fileName sourceFile in
  do sd <- SymbolData_deref h;
  match partitions sd with
  | PartitionsNull =>
      throw ("Partition for symbol " +:+ sd_id sd +:+ " have already been cleared")
  | _ =>
      do _ <- match partitions sd with
              | PartitionsUndefined =>
                  SymbolData_update h (with_partitions (PartitionsMap []))
              | _ => ret tt
              end;
      let m := match partitions sd with PartitionsMap m => m | _ => [] end in
      match JsMap.get fileName m with
      | Some None =>
          throw ("Partition for file " +:+ fileName +:+ " has already been cleared.")
      | Some (Some _) => ret (h, fileName)
      | None =>
          do documentData <- DataManager_getDocumentData fileName;
          match documentData with
          | None => throw ("No document data for " +:+ fileName)
          | Some d =>
              do data <- DocumentData_deref d;
              let result := SymbolDataPartition_new h (dd_document data) in
              do _ <- DataManager_manageLifeCycle sourceFile h;
              do _ <- SymbolDataPartition_begin;
              do _ <- SymbolData_update h (setSlot fileName (Some result));
              ret (h, fileName)
          end
      end
  end.

Definition StandardSymbolData_addDefinition (h : SymbolDataRef)
    (sourceFile : Node) (definition : Vertex) (recordAsReference : bool)
    : M unit :=
  do sd <- SymbolData_deref h;
  do e <- edge.next definition (resultSet sd);
  do _ <- emit (EE e);
  do r <- StandardSymbolData_getOrCreatePartition h sourceFile;
  SymbolDataPartition_update r
    (SymbolDataPartition_addDefinition definition recordAsReference).

Definition StandardSymbolData_findDefinition (h : SymbolDataRef)
    (sourceFile : Node) (range : lsp.Range) : M (option Vertex) :=
  do sd <- SymbolData_deref h;
  match partitions sd with
  | PartitionsUndefined => ret None
  | PartitionsNull => throw "The symbol data has already been cleared"
  | PartitionsMap m =>
      match JsMap.get (fileName sourceFile) m with
      | Some None =>
          throw ("The partition for source file " +:+ fileName sourceFile)
      | None => ret None
      | Some (Some partition) =>
          ret (SymbolDataPartition_findDefinition range partition)
      end
  end.

Definition StandardSymbolData_addReference (h : SymbolDataRef)
    (sourceFile : Node) (reference : Vertex)
    (property : option ItemEdgeProperties.t) : M unit :=
  do sd <- SymbolData_deref h;
  do _ <- (if bool_decide (label reference = "range") then
             do e <- edge.next reference (resultSet sd); emit (EE e)
           else ret tt);
  do r <- StandardSymbolData_getOrCreatePartition h sourceFile;
  SymbolDataPartition_update r (SymbolDataPartition_addReference reference property).

Definition StandardSymbolData_nodeProcessed (h : SymbolDataRef) (node : Node)
    : M bool :=
  do sd <- SymbolData_deref h;
  match partitions sd with
  | PartitionsUndefined => ret true
  | PartitionsNull =>
      throw ("Partition for symbol " +:+ sd_id sd +:+ " have already been cleared")
  | PartitionsMap m =>
      if match scope sd with Some s => sameNode node s | None => false end then
        if negb (Nat.eqb (JsMap.size m) 1) then
          throw "Local Symbol data has more than one partition."
        else
          do _ <- match JsMap.values m with
                  | Some parition :: _ => SymbolDataPartition_end parition
                  | _ => ret tt
                  end;
          do _ <- SymbolData_update h (with_partitions PartitionsNull);
          ret true
      else if isSourceFile node then
        let fileName := fileName node in
        match JsMap.get fileName m with
        | Some None =>
            throw ("Partition for file " +:+ fileName +:+ " has already been cleared.")
        | None =>
            throw ("Symbol data doesn't manage a partition for " +:+ fileName)
        | Some (Some partition) =>
            do _ <- SymbolDataPartition_end partition;
            do _ <- SymbolData_update h (setSlot fileName None);
            ret false
        end
      else throw "Node is neither a source file nor does it match the scope"
  end.

Definition StandardSymbolData_end (h : SymbolDataRef) : M unit :=
  do sd <- SymbolData_deref h;
  match partitions sd with
  | PartitionsUndefined => ret tt
  | PartitionsNull =>
      throw ("Partition for symbol " +:+ sd_id sd +:+ " have already been cleared")
  | PartitionsMap m =>
      forEach m (fun entry =>
        match snd entry with
        | Some partition =>
            do _ <- SymbolDataPartition_end partition;
            SymbolData_update h (setSlot (fst entry) None)
        | None => ret tt
        end)
  end.

(** [getOrCreatePartition], [nodeProcessed] and [end] are not overridden. *)
Definition SymbolData_getOrCreatePartition := StandardSymbolData_getOrCreatePartition.
Definition SymbolData_nodeProcessed := StandardSymbolData_nodeProcessed.
Definition SymbolData_end := StandardSymbolData_end.

(* ================================================================== *)
(** * AliasedSymbolData                                                *)
(* ================================================================== *)

Definition StandardSymbolData_new (id : SymbolId) (scope : option Node)
    : M SymbolData :=
  SymbolData_new id scope StandardV.

Definition AliasedSymbolData_new (id : SymbolId) (aliased : SymbolDataRef)
    (scope : option Node) (rename : bool) : M SymbolData :=
  SymbolData_new id scope (AliasedV aliased rename).

Definition AliasedSymbolData_begin (h : SymbolDataRef) (aliased : SymbolDataRef)
    : M unit :=
  do _ <- SymbolData_super_begin h;
  do sd <- SymbolData_deref h;
  do target <- SymbolData_getResultSet aliased;
  do e <- edge.next (resultSet sd) target;
  emit (EE e).

Definition AliasedSymbolData_addDefinition (h : SymbolDataRef)
    (aliased : SymbolDataRef) (rename : bool)
    (sourceFile : Node) (definition : Vertex) : M unit :=
  if rename then
    StandardSymbolData_addDefinition h sourceFile definition false
  else
    do sd <- SymbolData_deref h;
    do e <- edge.next definition (resultSet sd);
    do _ <- emit (EE e);
    do r <- SymbolData_getOrCreatePartition aliased sourceFile;
    SymbolDataPartition_update r
      (SymbolDataPartition_addReference definition
         (Some ItemEdgeProperties.references)).

Definition AliasedSymbolData_addReference (h : SymbolDataRef)
    (aliased : SymbolDataRef) (sourceFile : Node) (reference : Vertex)
    (property : option ItemEdgeProperties.t) : M unit :=
  do sd <- SymbolData_deref h;
  do _ <- (if bool_decide (label reference = "range") then
             do e <- edge.next reference (resultSet sd); emit (EE e)
           else ret tt);
  do r <- SymbolData_getOrCreatePartition aliased sourceFile;
  SymbolDataPartition_update r (SymbolDataPartition_addReference reference property).

(* ================================================================== *)
(** * MethodSymbolData                                                 *)
(* ================================================================== *)

(** The constructor turns an empty list of bases into an absent one. *)
Definition MethodSymbolData_new (id : SymbolId) (sourceFile : Node)
    (bases : option (list SymbolDataRef)) (scope : option Node) : M SymbolData :=
  let bases :=
    match bases with
    | Some [] => None
    | _ => bases
    end in
  SymbolData_new id scope (MethodV (Some sourceFile) bases).

(** [super.addReference(this.sourceFile!, r)]: the assertion [!] is erased at
    run time, and an absent file fails at its first property access. *)
Definition addReferenceAtOwnFile (h : SymbolDataRef) (sourceFile : option Node)
    (r : Vertex) : M unit :=
  match sourceFile with
  | Some file => StandardSymbolData_addReference h file r None
  | None => throw "TypeError: Cannot read properties of undefined (reading 'fileName')"
  end.

Definition MethodSymbolData_begin (h : SymbolDataRef)
    (sourceFile : option Node) (bases : option (list SymbolDataRef)) : M unit :=
  do _ <- SymbolData_super_begin h;
  do _ <- match bases with
          | Some bases =>
              forEach bases (fun base =>
                do r <- SymbolData_getOrCreateReferenceResult base;
                addReferenceAtOwnFile h sourceFile r)
          | None => ret tt
          end;
  SymbolData_update h (with_variant (MethodV None bases)).

Definition MethodSymbolData_addDefinition (h : SymbolDataRef)
    (bases : option (list SymbolDataRef))
    (sourceFile : Node) (definition : Vertex) : M unit :=
  do _ <- StandardSymbolData_addDefinition h sourceFile definition
            (match bases with None => true | Some _ => false end);
  match bases with
  | Some bases =>
      forEach bases (fun base =>
        do r <- SymbolData_getOrCreatePartition base sourceFile;
        SymbolDataPartition_update r
          (SymbolDataPartition_addReference definition
             (Some ItemEdgeProperties.definitions)))
  | None => ret tt
  end.

Definition MethodSymbolData_addReference (h : SymbolDataRef)
    (bases : option (list SymbolDataRef))
    (sourceFile : Node) (reference : Vertex)
    (property : option ItemEdgeProperties.t) : M unit :=
  match bases with
  | Some bases =>
      do sd <- SymbolData_deref h;
      do _ <- (if bool_decide (label reference = "range") then
                 do e <- edge.next reference (resultSet sd); emit (EE e)
               else ret tt);
      forEach bases (fun base =>
        do r <- SymbolData_getOrCreatePartition base sourceFile;
        SymbolDataPartition_update r
          (SymbolDataPartition_addReference reference property))
  | None => StandardSymbolData_addReference h sourceFile reference property
  end.

(* ================================================================== *)
(** * UnionOrIntersectionSymbolData                                    *)
(* ================================================================== *)

Definition UnionOrIntersectionSymbolData_new (id : SymbolId)
    (sourceFile : Node) (elements : list SymbolDataRef) : M SymbolData :=
  SymbolData_new id None (UnionOrIntersectionV (Some sourceFile) elements).

Definition UnionOrIntersectionSymbolData_begin (h : SymbolDataRef)
    (sourceFile : option Node) (elements : list SymbolDataRef) : M unit :=
  do _ <- SymbolData_super_begin h;
  do _ <- forEach elements (fun element =>
            do r <- SymbolData_getOrCreateReferenceResult element;
            addReferenceAtOwnFile h sourceFile r);
  SymbolData_update h (with_variant (UnionOrIntersectionV None elements)).

Definition UnionOrIntersectionSymbolData_addDefinition (h : SymbolDataRef)
    (sourceFile : Node) (definition : Vertex) : M unit :=
  ret tt.

Definition UnionOrIntersectionSymbolData_addReference (h : SymbolDataRef)
    (elements : list SymbolDataRef) (sourceFile : Node) (reference : Vertex)
    (property : option ItemEdgeProperties.t) : M unit :=
  do sd <- SymbolData_deref h;
  do _ <- (if bool_decide (label reference = "range") then
             do e <- edge.next reference (resultSet sd); emit (EE e)
           else ret tt);
  forEach elements (fun element =>
    do r <- SymbolData_getOrCreatePartition element sourceFile;
    SymbolDataPartition_update r
      (SymbolDataPartition_addReference reference property)).

(* ================================================================== *)
(** * Dynamic dispatch over the variants                               *)
(* ================================================================== *)

Definition SymbolData_begin (h : SymbolDataRef) : M unit :=
  do sd <- SymbolData_deref h;
  match variant sd with
  | StandardV => SymbolData_super_begin h
  | AliasedV aliased _ => AliasedSymbolData_begin h aliased
  | MethodV sourceFile bases => MethodSymbolData_begin h sourceFile bases
  | UnionOrIntersectionV sourceFile elements =>
      UnionOrIntersectionSymbolData_begin h sourceFile elements
  end.

(** What [begin] does after [super.begin()] has emitted the result set. *)
Definition SymbolData_begin_rest (h : SymbolDataRef) (v : Variant) : M unit :=
  match v with
  | StandardV => ret tt
  | AliasedV aliased _ =>
      do sd <- SymbolData_deref h;
      do target <- SymbolData_getResultSet aliased;
      do e <- edge.next (resultSet sd) target;
      emit (EE e)
  | MethodV sourceFile bases =>
      do _ <- match bases with
              | Some bases =>
                  forEach bases (fun base =>
                    do r <- SymbolData_getOrCreateReferenceResult base;
                    addReferenceAtOwnFile h sourceFile r)
              | None => ret tt
              end;
      SymbolData_update h (with_variant (MethodV None bases))
  | UnionOrIntersectionV sourceFile elements =>
      do _ <- forEach elements (fun element =>
                do r <- SymbolData_getOrCreateReferenceResult element;
                addReferenceAtOwnFile h sourceFile r);
      SymbolData_update h (with_variant (UnionOrIntersectionV None elements))
  end.

(** [symbolData.addDefinition(sourceFile, definition)]; the third parameter
    of the standard variant takes its default, [true]. *)
Definition SymbolData_addDefinition (h : SymbolDataRef) (sourceFile : Node)
    (definition : Vertex) : M unit :=
  do sd <- SymbolData_deref h;
  match variant sd with
  | StandardV => StandardSymbolData_addDefinition h sourceFile definition true
  | AliasedV aliased rename =>
      AliasedSymbolData_addDefinition h aliased rename sourceFile definition
  | MethodV _ bases => MethodSymbolData_addDefinition h bases sourceFile definition
  | UnionOrIntersectionV _ _ =>
      UnionOrIntersectionSymbolData_addDefinition h sourceFile definition
  end.

Definition SymbolData_addReference (h : SymbolDataRef) (sourceFile : Node)
    (reference : Vertex) (property : option ItemEdgeProperties.t) : M unit :=
  do sd <- SymbolData_deref h;
  match variant sd with
  | StandardV => StandardSymbolData_addReference h sourceFile reference property
  | AliasedV aliased _ =>
      AliasedSymbolData_addReference h aliased sourceFile reference property
  | MethodV _ bases =>
      MethodSymbolData_addReference h bases sourceFile reference property
  | UnionOrIntersectionV _ elements =>
      UnionOrIntersectionSymbolData_addReference h elements sourceFile
        reference property
  end.

(** [findDefinition]: an alias without rename asks the aliased symbol,
    which can be an alias in turn; [fuel] bounds the length of that chain. *)
Fixpoint SymbolData_findDefinition (fuel : nat) (h : SymbolDataRef)
    (sourceFile : Node) (range : lsp.Range) : M (option Vertex) :=
  do sd <- SymbolData_deref h;
  match variant sd with
  | AliasedV aliased false =>
      match fuel with
      | O => outOfFuel
      | S fuel' => SymbolData_findDefinition fuel' aliased sourceFile range
      end
  | _ => StandardSymbolData_findDefinition h sourceFile range
  end.

(* ================================================================== *)
(** * DataManager                                                      *)
(* ================================================================== *)

(** [constructor(context, project)] *)
Definition DataManager_new (project : Vertex) : M unit :=
  do _ <- modify (set_projectData (ProjectData_new project));
  do _ <- ProjectData_begin;
  do _ <- modify (set_documentDatas []);
  do _ <- modify (set_symbolDatas []);
  modify (set_clearOnNode []).

Definition DataManager_projectProcessed : M unit :=
  do symbols <- gets symbolDatas;
  do _ <- forEach symbols (fun entry =>
            match snd entry with
            | Some h =>
                do _ <- SymbolData_end h;
                modify (fun st =>
                  set_symbolDatas (JsMap.set (fst entry) None (symbolDatas st)) st)
            | None => ret tt
            end);
  do documents <- gets documentDatas;
  do _ <- forEach documents (fun entry =>
            match snd entry with
            | Some d => DocumentData_end d
            | None => ret tt
            end);
  ProjectData_end.

Definition DataManager_getOrCreateDocumentData (fileName : string)
    (document : Vertex) (monikerPath : option string) (externalLibrary : bool)
    : M DocumentDataRef :=
  do result <- DataManager_getDocumentData fileName;
  match result with
  | Some d => ret d
  | None =>
      do d <- DocumentData_alloc
                (DocumentData_new document monikerPath externalLibrary);
      do _ <- modify (fun st =>
                set_documentDatas (JsMap.set fileName (Some d) (documentDatas st)) st);
      do _ <- DocumentData_begin d;
      do _ <- ProjectData_addDocument document;
      ret d
  end.

Definition DataManager_documemntProcessed (fileName : string) : M unit :=
  do data <- DataManager_getDocumentData fileName;
  match data with
  | None => throw ("No document data for file " +:+ fileName)
  | Some d =>
      do _ <- DocumentData_end d;
      modify (fun st =>
        set_documentDatas (JsMap.set fileName None (documentDatas st)) st)
  end.

Definition DataManager_getSymbolData (symbolId : SymbolId)
    : M (option SymbolDataRef) :=
  do result <- gets (fun st => JsMap.get symbolId (symbolDatas st));
  match result with
  | Some None =>
      throw ("There was already a managed symbol data for id: " +:+ symbolId)
  | Some (Some h) => ret (Some h)
  | None => ret None
  end.

(** [getOrCreateSymbolData(symbolId, create)]: the object [create] returns is
    stored (and so gets its place in the heap) and then begun. *)
Definition DataManager_getOrCreateSymbolData (symbolId : SymbolId)
    (create : M SymbolData) : M SymbolDataRef :=
  do result <- DataManager_getSymbolData symbolId;
  match result with
  | Some h => ret h
  | None =>
      do data <- create;
      do h <- SymbolData_alloc data;
      do id <- SymbolData_getId h;
      do _ <- modify (fun st =>
                set_symbolDatas (JsMap.set id (Some h) (symbolDatas st)) st);
      do _ <- SymbolData_begin h;
      ret h
  end.

Definition DataManager_nodeProcessed (node : Node) : M unit :=
  do datas <- gets (fun st => JsMap.get (nodeId node) (clearOnNode st));
  match datas with
  | Some datas =>
      do _ <- forEach datas (fun symbolData =>
                do cleared <- SymbolData_nodeProcessed symbolData node;
                if cleared then
                  do id <- SymbolData_getId symbolData;
                  modify (fun st =>
                    set_symbolDatas (JsMap.delete id (symbolDatas st)) st)
                else ret tt);
      modify (fun st =>
        set_clearOnNode (JsMap.delete (nodeId node) (clearOnNode st)) st)
  | None => ret tt
  end.

(** The state before the visitor is constructed. The project data holds a
    placeholder until the DataManager is constructed. *)
Definition initialState (firstId : Id) (emitSource : bool)
    (projectRoot : string) : State :=
  {| nextId := firstId; emitSource := emitSource; emitted := [];
     documentHeap := []; symbolHeap := []; arrayHeap := []; cacheHeap := [];
     projectData := ProjectData_new {| vid := 0; vdata := Project |};
     documentDatas := []; symbolDatas := []; clearOnNode := [];
     baseSymbolCache := {| limit := 2048; entries := [] |};
     baseMemberCache := {| limit := 2048; entries := [] |};
     exportedPaths := {| limit := 2048; entries := [] |};
     projectRoot := projectRoot; rootDir := None; outDir := None;
     dependentOutDirs := []; currentSourceFile := None;
     _currentDocumentData := None; symbolContainer := [];
     recordDocumentSymbol := []; externalLibraryImports := [] |}.

(* ================================================================== *)
(** * Node's [path] module, POSIX flavour                              *)
(* ================================================================== *)

(** The three functions of Node's [path.posix] the visitor uses, on the
    characters of a path. They scan the path from its end, as the library
    does; the reversed path makes that a scan from the head. *)
Module posix.

Definition isSep (c : ascii) : bool := Ascii.eqb c "/".

(** Skip the separators at the head. *)
Fixpoint skipSeps (l : list ascii) : list ascii :=
  match l with
  | c :: l' => if isSep c then skipSeps l' else l
  | [] => []
  end.

(** The characters up to the first separator, and what follows them. *)
Fixpoint takeName (l : list ascii) : list ascii :=
  match l with
  | c :: l' => if isSep c then [] else c :: takeName l'
  | [] => []
  end.

Fixpoint skipName (l : list ascii) : list ascii :=
  match l with
  | c :: l' => if isSep c then l else skipName l'
  | [] => []
  end.

(** [basename(path)]: the last component, trailing separators ignored. *)
Definition basename (path : list ascii) : list ascii :=
  rev (takeName (skipSeps (rev path))).

(** [dirname(path)]. The scan stops before the first character, so [end],
    the index of the separator in front of the last component, is the
    length of what is left of the reversed rest once the trailing
    separators and the last component are skipped. *)
Definition dirname (path : list ascii) : list ascii :=
  match path with
  | [] => ["."%char]
  | first :: rest =>
      let hasRoot := isSep first in
      match skipName (skipSeps (rev rest)) with
      | [] => if hasRoot then ["/"%char] else ["."%char]
      | _ :: before =>
          if hasRoot && Nat.eqb (length before) 0 then ["/"%char; "/"%char]
          else first :: rev before
      end
  end.

(** Split a reversed component at its first dot, the last dot of the
    component: the reversed extension without its dot, and the reversed
    part in front of the dot. *)
Fixpoint splitAtDot (l : list ascii) : option (list ascii * list ascii) :=
  match l with
  | [] => None
  | c :: l' =>
      if Ascii.eqb c "." then Some ([], l')
      else
        match splitAtDot l' with
        | Some (ext, front) => Some (c :: ext, front)
        | None => None
        end
  end.

(** [extname(path)]: from the last dot of the last component to its end;
    empty when there is no dot, when nothing stands in front of the dot, and
    for the component [..]. *)
Definition extname (path : list ascii) : list ascii :=
  match splitAtDot (takeName (skipSeps (rev path))) with
  | None => []
  | Some (ext, front) =>
      match front, ext with
      | [], _ => []
      | ["."%char], [] => []
      | _, _ => "."%char :: rev ext
      end
  end.

End posix.

Definition chars (s : string) : list ascii := list_ascii_of_string s.

(** The loop of [isFullContentIgnored] over the ancestor directories;
    [fuel] bounds the number of rounds. *)
Fixpoint underNodeModules (fuel : nat) (dirName : list ascii) : option bool :=
  match fuel with
  | O => None
  | S fuel' =>
      if bool_decide (posix.basename dirName = chars "node_modules") then Some true
      else
        let parent := posix.dirname dirName in
        if bool_decide (parent = dirName) then Some false
        else underNodeModules fuel' parent
  end.

(** [Visitor.isFullContentIgnored(sourceFile)]. A round of the loop makes
    the directory shorter or reaches [.] or [/], so the fuel given here
    always suffices (see [isFullContentIgnored_total]). *)
Definition Visitor_isFullContentIgnored (sourceFile : Node) : option bool :=
  if isDeclarationFile sourceFile then Some true
  else
    let fileName := chars (fileName sourceFile) in
    if bool_decide (posix.basename fileName = chars "index.js") then Some false
    else if negb (bool_decide (posix.extname fileName = chars ".js")) then Some false
    else underNodeModules (length fileName + 3) (posix.dirname fileName).

(* ================================================================== *)
(** * The TypeScript compiler as an oracle                             *)
(* ================================================================== *)

Abbreviation TsType := nat (only parsing).

Record TsDiagnostic :=
  { tdCategory : Z;
    tdCode : Z;
    tdMessageText : string;
    tdFile : option Node;
    tdStart : option Z;
    tdLength : option Z }.

(** [ts.DiagnosticWithLocation]: file, start and length are there. *)
Record DiagnosticWithLocation :=
  { dlCategory : Z;
    dlCode : Z;
    dlMessageText : string;
    dlFile : Node;
    dlStart : Z;
    dlLength : Z }.

Record OutliningSpan :=
  { osStart : Z; osLength : Z; osKind : string }.

Record QuickInfo :=
  { qiDisplayParts : option (list string);
    qiDocumentation : option (list string);
    qiStart : Z;
    qiLength : Z }.

Record ResolvedModule :=
  { resolvedFileName : string; isExternalLibraryImport : bool }.

(** Everything the engine asks of the program, the language service, the
    type checker and the helpers of [typescripts.ts]. The engine never
    updates any of it. *)
Record Oracle :=
  { (* ts.Program and its compiler options *)
    getSourceFiles : list Tree;
    compilerOutDir : option string;
    compilerRootDir : option string;
    getSyntacticDiagnostics : Node -> list DiagnosticWithLocation;
    getSemanticDiagnostics : Node -> list TsDiagnostic;
    (* ts.LanguageService *)
    getOutliningSpans : string -> list OutliningSpan;
    getQuickInfoAtPosition : string -> Z -> option QuickInfo;
    (* ts.SourceFile *)
    getLineAndCharacterOfPosition : Node -> Z -> Position;
    sourceText : Node -> string;
    (* ts.Node *)
    getStart : Node -> Z;
    getEnd : Node -> Z;
    getText : Node -> string;
    parentOf : Node -> option Node;
    getSourceFile : Node -> Node;
    nameOf : Node -> option Node;
    isNamedDeclaration : Node -> bool;
    heritageClauses : Node -> option (list (list Node));
    (* ts.TypeChecker *)
    getSymbolAtLocation : Node -> option Symbol;
    getAliasedSymbol : Symbol -> option Symbol;
    getTypeAtLocation : Node -> option TsType;
    getDeclaredTypeOfSymbol : Symbol -> option TsType;
    getTypeOfSymbolAtLocation : Symbol -> Node -> TsType;
    (* ts.Type *)
    typeSymbol : TsType -> option Symbol;
    getBaseTypes : TsType -> option (list TsType);
    unionOrIntersectionTypes : TsType -> option (list TsType);
    (* ts.Symbol *)
    getDeclarations : Symbol -> option (list Node);
    getName : Symbol -> string;
    members : Symbol -> option (list (string * Symbol));
    exports : Symbol -> option (list string);
    (* typescripts.ts *)
    createSymbolKey : Symbol -> string;
    isTypeLiteral : Symbol -> bool;
    isInterface : Symbol -> bool;
    isClass : Symbol -> bool;
    symbolIsSourceFile : Symbol -> bool;
    isAliasSymbol : Symbol -> bool;
    isMethodSymbol : Symbol -> bool;
    isTransient : Symbol -> bool;
    isValueModule : Symbol -> bool;
    getSymbolParent : Symbol -> option Symbol;
    getUniqueSourceFiles : option (list Node) -> list Node;
    EmitBoundaries : SyntaxKind.t -> bool;
    createDefinitionInfo : Node -> Node -> DefinitionInfo;
    DefinitionInfo_equals : DefinitionInfo -> DefinitionInfo -> bool;
    computeMonikerPath : string -> string -> string;
    toOutLocation : string -> option string -> option string -> string;
    createMonikerIdentifier : option string -> option string -> string;
    makeAbsolute : string -> option string -> string;
    getResolvedModules : Node -> option (list (option ResolvedModule));
    (* lsif-protocol *)
    Version : string;
    (* vscode-uri: [URI.file(path).toString(true)] *)
    fileUri : string -> string }.

(* ================================================================== *)
(** * LRUCache                                                         *)
(* ================================================================== *)

Section LRU.
Context {K V : Type} `{EqDecision K}.

Definition LRUCache_new (limit : nat) : LRUCache K V :=
  {| limit := limit; entries := [] |}.

(** [get(key)]: a hit makes the key the most recently used one. *)
Definition LRUCache_get (key : K) (c : LRUCache K V) : option V * LRUCache K V :=
  match JsMap.get key (entries c) with
  | Some v =>
      (Some v,
       {| limit := limit c; entries := JsMap.delete key (entries c) ++ [(key, v)] |})
  | None => (None, c)
  end.

(** [set(key, value)]: the key becomes the most recently used one, and the
    oldest entries beyond [limit] go. *)
Definition LRUCache_set (key : K) (value : V) (c : LRUCache K V) : LRUCache K V :=
  let es := JsMap.delete key (entries c) ++ [(key, value)] in
  {| limit := limit c; entries := drop (length es - limit c) es |}.
End LRU.

(* ================================================================== *)
(** * Symbols: the semantic cache                                      *)
(* ================================================================== *)

Section Engine.
Variable ts : Oracle.

(** The arrays [findBaseMembers] builds, caches and returns are shared by
    reference. *)
Definition Array_alloc (items : list Symbol) : M ArrayRef :=
  fun st => (Ok (length (arrayHeap st)),
             set_arrayHeap (arrayHeap st ++ [items]) st).

Definition Array_read (a : ArrayRef) : M (list Symbol) :=
  fun st =>
    match arrayHeap st !! a with
    | Some items => (Ok items, st)
    | None => (Throw "invalid array reference", st)
    end.

(** [array.push(...items)] *)
Definition Array_push (a : ArrayRef) (items : list Symbol) : M unit :=
  modify (fun st => set_arrayHeap (alter (fun old => old ++ items) a (arrayHeap st)) st).

Definition Cache_alloc (c : LRUCache string ArrayRef) : M CacheRef :=
  fun st => (Ok (length (cacheHeap st)),
             set_cacheHeap (cacheHeap st ++ [c]) st).

(** [cache.get(memberName)] on a member cache. *)
Definition Cache_get (c : CacheRef) (memberName : string) : M (option ArrayRef) :=
  fun st =>
    match cacheHeap st !! c with
    | Some cache =>
        let '(result, cache') := LRUCache_get memberName cache in
        (Ok result, set_cacheHeap (<[c := cache']> (cacheHeap st)) st)
    | None => (Throw "invalid cache reference", st)
    end.

(** [cache.set(memberName, result)] on a member cache. *)
Definition Cache_set (c : CacheRef) (memberName : string) (result : ArrayRef)
    : M unit :=
  modify (fun st =>
    set_cacheHeap (alter (LRUCache_set memberName result) c (cacheHeap st)) st).

Definition Symbols_computeBaseSymbolsForClass (symbol : Symbol)
    : option (list Symbol) :=
  match getDeclarations ts symbol with
  | None => None
  | Some declarations =>
      let result :=
        flat_map (fun declaration =>
          if bool_decide (kind declaration = SyntaxKind.ClassDeclaration) then
            match heritageClauses ts declaration with
            | Some clauses =>
                flat_map (fun types =>
                  flat_map (fun expression =>
                    match getTypeAtLocation ts expression with
                    | Some tsType =>
                        match typeSymbol ts tsType with
                        | Some symbol => [symbol]
                        | None => []
                        end
                    | None => []
                    end) types) clauses
            | None => []
            end
          else []) declarations in
      if Nat.eqb (length result) 0 then None else Some result
  end.

Definition Symbols_computeBaseSymbolsForInterface (symbol : Symbol)
    : option (list Symbol) :=
  match getDeclaredTypeOfSymbol ts symbol with
  | None => None
  | Some tsType =>
      let result :=
        match getBaseTypes ts tsType with
        | Some baseTypes =>
            flat_map (fun base =>
              match typeSymbol ts base with
              | Some symbol => [symbol]
              | None => []
              end) baseTypes
        | None => []
        end in
      if Nat.eqb (length result) 0 then None else Some result
  end.

Definition Symbols_getBaseSymbols (symbol : Symbol) : M (option (list Symbol)) :=
  let key := createSymbolKey ts symbol in
  do cached <- (fun st =>
                  let '(result, cache) := LRUCache_get key (baseSymbolCache st) in
                  (Ok result, set_baseSymbolCache cache st));
  match cached with
  | Some result => ret (Some result)
  | None =>
      if isTypeLiteral ts symbol then ret None
      else
        let result :=
          if isInterface ts symbol then Symbols_computeBaseSymbolsForInterface symbol
          else if isClass ts symbol then Symbols_computeBaseSymbolsForClass symbol
          else None in
        do _ <- match result with
                | Some result =>
                    modify (fun st =>
                      set_baseSymbolCache
                        (LRUCache_set key result (baseSymbolCache st)) st)
                | None => ret tt
                end;
        ret result
  end.

(** [result.push(method)], or [result = [method]] while [result] is still
    undefined. *)
Definition pushOrCreate (result : option ArrayRef) (items : list Symbol)
    : M (option ArrayRef) :=
  match result with
  | None => do a <- Array_alloc items; ret (Some a)
  | Some a => do _ <- Array_push a items; ret (Some a)
  end.

(** [findBaseMembers(symbol, memberName)]. The result is the array itself:
    the one stored in the cache and the one handed to the caller are the
    same object, and [result = baseResult] makes [result] the array that is
    cached for the base. [fuel] bounds the depth of the walk over the bases. *)
Fixpoint Symbols_findBaseMembers (fuel : nat) (symbol : Symbol)
    (memberName : string) : M (option ArrayRef) :=
  match fuel with
  | O => outOfFuel
  | S fuel' =>
      let key := createSymbolKey ts symbol in
      do found <- (fun st =>
                     let '(result, cache) := LRUCache_get key (baseMemberCache st) in
                     (Ok result, set_baseMemberCache cache st));
      do cache <- match found with
                  | Some cache => ret cache
                  | None =>
                      do cache <- Cache_alloc (LRUCache_new 64);
                      do _ <- modify (fun st =>
                                set_baseMemberCache
                                  (LRUCache_set key cache (baseMemberCache st)) st);
                      ret cache
                  end;
      do result <- Cache_get cache memberName;
      match result with
      | None =>
          do baseSymbols <- Symbols_getBaseSymbols symbol;
          do result <-
            match baseSymbols with
            | Some baseSymbols =>
                (fix walk (bases : list Symbol) (result : option ArrayRef)
                    : M (option ArrayRef) :=
                   match bases with
                   | [] => ret result
                   | base :: bases' =>
                       match members ts base with
                       | None => walk bases' result
                       | Some table =>
                           match JsMap.get memberName table with
                           | Some method =>
                               do result <- pushOrCreate result [method];
                               walk bases' result
                           | None =>
                               do baseResult <-
                                 Symbols_findBaseMembers fuel' base memberName;
                               match baseResult with
                               | Some b =>
                                   match result with
                                   | None => walk bases' (Some b)
                                   | Some a =>
                                       do items <- Array_read b;
                                       do _ <- Array_push a items;
                                       walk bases' (Some a)
                                   end
                               | None => walk bases' result
                               end
                           end
                       end
                   end) baseSymbols None
            | None => ret None
            end;
          do _ <- match result with
                  | Some a => Cache_set cache memberName a
                  | None =>
                      do empty <- Array_alloc [];
                      Cache_set cache memberName empty
                  end;
          ret result
      | Some a =>
          do items <- Array_read a;
          if Nat.eqb (length items) 0 then ret None else ret (Some a)
      end
  end.

(** What a caller reads in the result it was handed. *)
Definition Symbols_findBaseMembers_items (fuel : nat) (symbol : Symbol)
    (memberName : string) : M (option (list Symbol)) :=
  do result <- Symbols_findBaseMembers fuel symbol memberName;
  match result with
  | Some a => do items <- Array_read a; ret (Some items)
  | None => ret None
  end.

Definition exportedPaths_set (symbol : Symbol) (path : option string) : M unit :=
  modify (fun st =>
    set_exportedPaths (LRUCache_set symbol path (exportedPaths st)) st).

(** [getExportPath(symbol)]; [None] is [null], not exported. [fuel] bounds
    the length of the chain of parents. *)
Fixpoint Symbols_getExportPath (fuel : nat) (symbol : Symbol)
    : M (option string) :=
  match fuel with
  | O => outOfFuel
  | S fuel' =>
      do cached <- (fun st =>
                      let '(result, cache) := LRUCache_get symbol (exportedPaths st) in
                      (Ok result, set_exportedPaths cache st));
      match cached with
      | Some result => ret result
      | None =>
          if symbolIsSourceFile ts symbol then
            do _ <- exportedPaths_set symbol (Some ""); ret (Some "")
          else
            match getSymbolParent ts symbol with
            | None => do _ <- exportedPaths_set symbol None; ret None
            | Some parent =>
                do parentValue <- Symbols_getExportPath fuel' parent;
                match parentValue with
                | None => do _ <- exportedPaths_set symbol None; ret None
                | Some parentValue =>
                    if isInterface ts parent || isClass ts parent then
                      let result := parentValue +:+ "." +:+ getName ts symbol in
                      do _ <- exportedPaths_set symbol (Some result);
                      ret (Some result)
                    else
                      match exports ts parent with
                      | Some table =>
                          if bool_decide (getName ts symbol ∈ table) then
                            let result :=
                              if (0 <? String.length parentValue)%nat
                              then parentValue +:+ "." +:+ getName ts symbol
                              else getName ts symbol in
                            do _ <- exportedPaths_set symbol (Some result);
                            ret (Some result)
                          else
                            do _ <- exportedPaths_set symbol None; ret None
                      | None => do _ <- exportedPaths_set symbol None; ret None
                      end
                end
            end
      end
  end.


(* ================================================================== *)
(** * Converter                                                        *)
(* ================================================================== *)

Definition Converter_asDiagnosticSeverity (category : Z) : Z :=
  if Z.eqb category 3 then 3        (* Message -> Information *)
  else if Z.eqb category 2 then 4   (* Suggestion -> Hint *)
  else if Z.eqb category 0 then 2   (* Warning -> Warning *)
  else if Z.eqb category 1 then 1   (* Error -> Error *)
  else 1.

Definition Converter_asRange (file : Node) (offset length : Z) : lsp.Range :=
  {| lsp.start := getLineAndCharacterOfPosition ts file offset;
     lsp.end_ := getLineAndCharacterOfPosition ts file (offset + length) |}.

Definition Converter_asDiagnostic (value : DiagnosticWithLocation)
    : lsp.Diagnostic :=
  {| lsp.severity := Converter_asDiagnosticSeverity (dlCategory value);
     lsp.code := dlCode value;
     lsp.message := dlMessageText value;
     lsp.range := Converter_asRange (dlFile value) (dlStart value) (dlLength value) |}.

Definition Converter_rangeFromNode (file node : Node) : lsp.Range :=
  {| lsp.start :=
       if sameNode file node then {| line := 0; character := 0 |}
       else getLineAndCharacterOfPosition ts file (getStart ts node);
     lsp.end_ := getLineAndCharacterOfPosition ts file (getEnd ts node) |}.

Definition Converter_rangeFromTextSpan (file : Node) (start length : Z)
    : lsp.Range :=
  {| lsp.start := getLineAndCharacterOfPosition ts file start;
     lsp.end_ := getLineAndCharacterOfPosition ts file (start + length) |}.

Definition Converter_getFoldingRangeKind (span : OutliningSpan) : option string :=
  if String.eqb (osKind span) "comment" then Some "comment"
  else if String.eqb (osKind span) "region" then Some "region"
  else if String.eqb (osKind span) "imports" then Some "imports"
  else None.

Definition Converter_asFoldingRange (file : Node) (span : OutliningSpan)
    : lsp.FoldingRange :=
  let start := getLineAndCharacterOfPosition ts file (osStart span) in
  let end_ := getLineAndCharacterOfPosition ts file (osStart span + osLength span) in
  {| lsp.kind := Converter_getFoldingRangeKind span;
     lsp.startLine := line start; lsp.startCharacter := character start;
     lsp.endLine := line end_; lsp.endCharacter := character end_ |}.

Definition Converter_asSymbolKind (node : Node) : Z :=
  match kind node with
  | SyntaxKind.ClassDeclaration => 5
  | SyntaxKind.InterfaceDeclaration => 11
  | SyntaxKind.TypeParameter => 26
  | SyntaxKind.MethodDeclaration => 6
  | SyntaxKind.FunctionDeclaration => 12
  | _ => 7
  end.

Definition Converter_displayPartsToString (parts : option (list string)) : string :=
  match parts with
  | Some parts => String.concat "" parts
  | None => ""
  end.

Definition Converter_asHover (file : Node) (value : QuickInfo) : lsp.Hover :=
  let content :=
    match qiDisplayParts value with
    | Some parts =>
        [lsp.Marked "typescript" (Converter_displayPartsToString (Some parts))]
    | None => []
    end in
  let content :=
    match qiDocumentation value with
    | Some ((_ :: _) as documentation) =>
        content ++ [lsp.Plain (Converter_displayPartsToString (Some documentation))]
    | _ => content
    end in
  {| lsp.contents := content;
     lsp.hoverRange := Converter_rangeFromTextSpan file (qiStart value) (qiLength value) |}.

(* ================================================================== *)
(** * Resolver strategies                                              *)
(* ================================================================== *)

Inductive Resolver :=
| StandardResolver | TypeAliasResolver | MethodResolver | TransientResolver.

Definition Resolver_requiresSourceFile (r : Resolver) : bool :=
  match r with
  | StandardResolver | TypeAliasResolver => false
  | MethodResolver | TransientResolver => true
  end.

Definition Resolver_getDeclarationNodes (r : Resolver) (symbol : Symbol)
    (location : option Node) : M (option (list Node)) :=
  match r with
  | TransientResolver =>
      match location with
      | None => throw "Transient resolver needs declaration node"
      | Some location => ret (Some [location])
      end
  | _ => ret (getDeclarations ts symbol)
  end.

Definition Resolver_getSourceFiles (r : Resolver) (symbol : Symbol)
    (location : option Node) : M (list Node) :=
  match r with
  | TransientResolver =>
      match location with
      | None => throw "Transient resolver needs declaration node"
      | Some location => ret [getSourceFile ts location]
      end
  | _ => ret (getUniqueSourceFiles ts (getDeclarations ts symbol))
  end.

Definition Resolver_getPartitionScope (sourceFiles : list Node) : M Node :=
  match sourceFiles with
  | [] => throw "No soure file selection provided"
  | first :: _ => ret first
  end.

(** [resolve(sourceFile, id, symbol, location, scope)]; [getOrCreate] is
    [resolverContext.getOrCreateSymbolData], the visitor. A resolver that
    requires a source file reads none when it is handed [undefined]. *)
Definition Resolver_resolve (fuel : nat)
    (getOrCreate : Symbol -> option Node -> M SymbolDataRef)
    (r : Resolver) (sourceFile : option Node) (id : SymbolId) (symbol : Symbol)
    (location : option Node) (scope : option Node) : M SymbolData :=
  match r with
  | StandardResolver => StandardSymbolData_new id scope
  | TypeAliasResolver =>
      match getAliasedSymbol ts symbol with
      | Some aliased =>
          do aliasedSymbolData <- getOrCreate aliased None;
          AliasedSymbolData_new id aliasedSymbolData scope
            (negb (String.eqb (getName ts symbol) (getName ts aliased)))
      | None => StandardSymbolData_new id None
      end
  | MethodResolver =>
      match sourceFile with
      | None => throw "TypeError: source file is undefined"
      | Some sourceFile =>
          match getSymbolParent ts symbol with
          | None => MethodSymbolData_new id sourceFile None scope
          | Some container =>
              do baseMembers <-
                Symbols_findBaseMembers fuel container (getName ts symbol);
              match baseMembers with
              | None => MethodSymbolData_new id sourceFile None scope
              | Some a =>
                  do items <- Array_read a;
                  if Nat.eqb (length items) 0 then
                    MethodSymbolData_new id sourceFile None scope
                  else
                    do baseSymbolData <-
                      mapM (fun member => getOrCreate member None) items;
                    MethodSymbolData_new id sourceFile (Some baseSymbolData) scope
              end
          end
      end
  | TransientResolver =>
      match location with
      | None => throw "Transient resolver needs declaration node"
      | Some location =>
          match unionOrIntersectionTypes ts
                  (getTypeOfSymbolAtLocation ts symbol location) with
          | Some ((_ :: _) as types) =>
              do datas <-
                (fix collect (types : list TsType) : M (list SymbolDataRef) :=
                   match types with
                   | [] => ret []
                   | typeElem :: types' =>
                       match typeSymbol ts typeElem with
                       | Some symbol =>
                           do data <- getOrCreate symbol None;
                           do rest <- collect types';
                           ret (data :: rest)
                       | None => collect types'
                       end
                   end) types;
              match sourceFile with
              | None => throw "TypeError: source file is undefined"
              | Some sourceFile =>
                  UnionOrIntersectionSymbolData_new id sourceFile datas
              end
          | _ => StandardSymbolData_new id None
          end
      end
  end.

(* ================================================================== *)
(** * Visitor                                                          *)
(* ================================================================== *)

(** [dependentOutDirs.sort((a, b) => b.length - a.length)]: a stable sort,
    longest first. *)
Fixpoint insertByLength (x : string) (xs : list string) : list string :=
  match xs with
  | [] => [x]
  | y :: ys =>
      if (String.length y <? String.length x)%nat then x :: xs
      else y :: insertByLength x ys
  end.

Definition sortByLengthDesc (xs : list string) : list string :=
  fold_left (fun sorted x => insertByLength x sorted) xs [].

Record ProjectInfo := { pi_rootDir : string; pi_outDir : string }.

Record Options := { opt_projectRoot : string; noContents : bool }.

(** [constructor(languageService, options, dependsOn, emitter, idGenerator,
    tsConfigFile)], from the state [initialState] sets up for the id
    generator and the options. *)
Definition Visitor_new (dependsOn : list ProjectInfo)
    (tsConfigFile : option string) : M unit :=
  do _ <- modify (set_symbolContainer []);
  do _ <- modify (set_recordDocumentSymbol []);
  do _ <- modify (set_externalLibraryImports []);
  do _ <- modify (set_dependentOutDirs
            (sortByLengthDesc (map pi_outDir dependsOn)));
  do root <- gets projectRoot;
  do meta <- vertex.metaData (Version ts) (fileUri ts root);
  do _ <- emit (EV meta);
  do project <- vertex.project;
  let configLocation :=
    match tsConfigFile with
    | Some file =>
        Some (string_of_list_ascii (posix.dirname (chars file)))
    | None => None
    end in
  do _ <- match compilerOutDir ts with
          | Some dir => modify (set_outDir (Some (makeAbsolute ts dir configLocation)))
          | None => ret tt
          end;
  do _ <- match compilerRootDir ts with
          | Some dir => modify (set_rootDir (Some (makeAbsolute ts dir configLocation)))
          | None => ret tt
          end;
  DataManager_new project.

Definition Visitor_currentDocumentData : M DocumentDataRef :=
  do current <- gets _currentDocumentData;
  match current with
  | None => throw "No current document partition"
  | Some d => ret d
  end.

Definition Visitor_currentRecordDocumentSymbol : M bool :=
  do stack <- gets recordDocumentSymbol;
  ret (match last stack with Some b => b | None => false end).

Definition Visitor_getOrCreateDocumentData (sourceFile : Node)
    : M DocumentDataRef :=
  do result <- DataManager_getDocumentData (fileName sourceFile);
  match result with
  | Some d => ret d
  | None =>
      do document <- vertex.document (fileName sourceFile) (sourceText ts sourceFile);
      do imports <- gets externalLibraryImports;
      do root <- gets projectRoot;
      do rootDir <- gets rootDir;
      do outDir <- gets outDir;
      do outDirs <- gets dependentOutDirs;
      let computeMonikerPath_ :=
        if negb (isDeclarationFile sourceFile) then
          Some (computeMonikerPath ts root
                  (toOutLocation ts (fileName sourceFile) rootDir outDir))
        else if existsb (fun outDir => String.prefix outDir (fileName sourceFile))
                  outDirs
        then Some (computeMonikerPath ts root (fileName sourceFile))
        else None in
      let '(monikerPath, library) :=
        match JsMap.get (fileName sourceFile) imports with
        | Some _ => (Some (computeMonikerPath ts root (fileName sourceFile)), true)
        | None => (computeMonikerPath_, false)
        end in
      DataManager_getOrCreateDocumentData (fileName sourceFile) document
        monikerPath library
  end.

Definition Visitor_getHover (node : Node) (sourceFile : Node)
    : option lsp.Hover :=
  match getQuickInfoAtPosition ts (fileName sourceFile) (getStart ts node) with
  | None => None
  | Some quickInfo => Some (Converter_asHover sourceFile quickInfo)
  end.

Definition Visitor_getIdentifierInformation (symbol : Symbol)
    (declaration : Node) : M (option (Node * string)) :=
  if isNamedDeclaration ts declaration then
    match nameOf ts declaration with
    | Some name => ret (Some (name, getText ts name))
    | None => throw "TypeError: name is undefined"
    end
  else if isValueModule ts symbol && isSourceFile declaration then
    ret (Some (declaration, ""))
  else ret None.

(** [while (result !== undefined && !tss.EmitBoundaries.has(result.kind))
    result = result.parent]; [fuel] bounds the walk. *)
Fixpoint emitBoundaryFrom (fuel : nat) (result : option Node)
    : M (option Node) :=
  match result with
  | None => ret None
  | Some node =>
      if EmitBoundaries ts (kind node) then ret (Some node)
      else
        match fuel with
        | O => outOfFuel
        | S fuel' => emitBoundaryFrom fuel' (parentOf ts node)
        end
  end.

Definition isFullContentIgnored (sourceFile : Node) : M bool :=
  match Visitor_isFullContentIgnored sourceFile with
  | Some b => ret b
  | None => outOfFuel
  end.

Definition Visitor_resolveEmittingNode (fuel : nat) (symbol : Symbol)
    : M (option Node) :=
  do exportPath <- Symbols_getExportPath fuel symbol;
  match exportPath with
  | Some _ => ret None
  | None =>
      match getDeclarations ts symbol with
      | Some [declaration] =>
          if isValueModule ts symbol && isSourceFile declaration then ret None
          else if isAliasSymbol ts symbol then
            let sourceFile := getSourceFile ts declaration in
            do ignored <- isFullContentIgnored sourceFile;
            ret (if ignored then None else Some sourceFile)
          else if isSourceFile declaration then
            do ignored <- isFullContentIgnored declaration;
            ret (if ignored then None else Some declaration)
          else
            do result <- emitBoundaryFrom fuel (parentOf ts declaration);
            match result with
            | Some node =>
                do ignored <- isFullContentIgnored (getSourceFile ts node);
                ret (if ignored then None else Some node)
            | None => ret None
            end
      | _ => ret None
      end
  end.

Definition Visitor_getResolver (symbol : Symbol) : Resolver :=
  if isAliasSymbol ts symbol then TypeAliasResolver
  else if isMethodSymbol ts symbol then MethodResolver
  else if isTransient ts symbol then TransientResolver
  else StandardResolver.

(** The moniker path of a symbol while its source files are visited:
    [undefined], [null] or a string. *)
Inductive MonikerPath :=
| MonikerUndefined
| MonikerNull
| MonikerString (path : string).

Definition mergeMonikerPath (acc : MonikerPath * bool) (data : DocumentData)
    : MonikerPath * bool :=
  match fst acc with
  | MonikerUndefined =>
      (match monikerPath data with
       | Some path => MonikerString path
       | None => MonikerUndefined
       end, externalLibrary data)
  | MonikerNull => acc
  | MonikerString path =>
      match monikerPath data with
      | Some path' =>
          if String.eqb path path' then acc else (MonikerNull, snd acc)
      | None => (MonikerNull, snd acc)
      end
  end.

(** [Visitor.getOrCreateSymbolData(symbol, location?)]; [fuel] bounds the
    chain of symbols a resolver asks for in turn. *)
Fixpoint Visitor_getOrCreateSymbolData (fuel : nat) (symbol : Symbol)
    (location : option Node) : M SymbolDataRef :=
  match fuel with
  | O => outOfFuel
  | S fuel' =>
      let id := createSymbolKey ts symbol in
      do result <- DataManager_getSymbolData id;
      match result with
      | Some h => ret h
      | None =>
          let resolver := Visitor_getResolver symbol in
          do scope <- Visitor_resolveEmittingNode fuel symbol;
          do declarations <- Resolver_getDeclarationNodes resolver symbol location;
          do sourceFiles <- Resolver_getSourceFiles resolver symbol location;
          do _ <- (if Resolver_requiresSourceFile resolver
                      && Nat.eqb (length sourceFiles) 0
                   then throw "Resolver requires source file but no source file can be found."
                   else ret tt);
          do merged <-
            (fix each (files : list Node) (acc : MonikerPath * bool)
                : M (MonikerPath * bool) :=
               match files with
               | [] => ret acc
               | sourceFile :: files' =>
                   do d <- Visitor_getOrCreateDocumentData sourceFile;
                   do data <- DocumentData_deref d;
                   each files' (mergeMonikerPath acc data)
               end) sourceFiles (MonikerUndefined, false);
          let '(monikerPath, externalLibrary) :=
            match fst merged with
            | MonikerNull => (None, false)
            | MonikerUndefined => (None, snd merged)
            | MonikerString path => (Some path, snd merged)
            end in
          do h <- DataManager_getOrCreateSymbolData id
                    (if Resolver_requiresSourceFile resolver then
                       do partitionScope <- Resolver_getPartitionScope sourceFiles;
                       Resolver_resolve fuel (Visitor_getOrCreateSymbolData fuel')
                         resolver (Some partitionScope) id symbol location scope
                     else
                       Resolver_resolve fuel (Visitor_getOrCreateSymbolData fuel')
                         resolver None id symbol location scope);
          match declarations with
          | None | Some [] => ret h
          | Some declarations =>
              do monikerIdentifer <-
                (if symbolIsSourceFile ts symbol
                    && match monikerPath with Some _ => true | None => false end
                 then ret (Some (createMonikerIdentifier ts monikerPath None))
                 else
                   do monikerName <- Symbols_getExportPath fuel symbol;
                   match monikerName with
                   | Some name =>
                       ret (Some (createMonikerIdentifier ts monikerPath (Some name)))
                   | None => ret None
                   end);
              do _ <- match monikerIdentifer with
                      | Some identifier =>
                          SymbolData_addMoniker h
                            (if externalLibrary then MonikerKind.import
                             else MonikerKind.export) identifier
                      | None => ret tt
                      end;
              do _ <-
                (fix each (declarations : list Node) (hover : option lsp.Hover)
                    : M unit :=
                   match declarations with
                   | [] => ret tt
                   | declaration :: declarations' =>
                       let sourceFile := getSourceFile ts declaration in
                       do information <-
                         Visitor_getIdentifierInformation symbol declaration;
                       match information with
                       | Some (identifierNode, identifierText) =>
                           do d <- Visitor_getOrCreateDocumentData sourceFile;
                           do definition <-
                             vertex.range
                               (Converter_rangeFromNode sourceFile identifierNode)
                               (TagDefinition identifierText
                                  (Converter_asSymbolKind declaration)
                                  (Converter_rangeFromNode sourceFile declaration));
                           do _ <- DocumentData_addRange d definition;
                           do _ <- SymbolData_addDefinition h sourceFile definition;
                           do _ <- SymbolData_recordDefinitionInfo h
                                     (createDefinitionInfo ts sourceFile identifierNode);
                           match hover with
                           | None =>
                               if isNamedDeclaration ts declaration then
                                 match nameOf ts declaration with
                                 | None => throw "TypeError: name is undefined"
                                 | Some name =>
                                     match Visitor_getHover name sourceFile with
                                     | Some hover =>
                                         do _ <- SymbolData_addHover h hover;
                                         each declarations' (Some hover)
                                     | None => each declarations' None
                                     end
                                 end
                               else each declarations' None
                           | Some _ => each declarations' hover
                           end
                       | None => each declarations' hover
                       end
                   end) declarations None;
              ret h
          end
      end
  end.

(** The document-symbol stack. In the source a frame is an object that is
    both on the stack and in the [children] of the frame below it; here a
    frame joins the children of the frame below it when it is popped, which
    gives the same trees because frames are pushed and popped in nested
    order. *)
Definition symbolContainer_pop : M SymbolFrame :=
  do stack <- gets symbolContainer;
  match last stack with
  | None => throw "TypeError: Cannot read properties of undefined"
  | Some frame =>
      do _ <- modify (set_symbolContainer (removelast stack));
      ret frame
  end.

Definition attachChild (child : SymbolFrame) (stack : list SymbolFrame)
    : list SymbolFrame :=
  match last stack with
  | None => stack
  | Some parent =>
      let symbol := DocumentSymbol (frameId child) (frameChildren child) in
      removelast stack ++
        [{| frameId := frameId parent;
            frameChildren :=
              Some (match frameChildren parent with
                    | Some children => children ++ [symbol]
                    | None => [symbol]
                    end) |}]
  end.

Definition Visitor_addDocumentSymbol (fuel : nat) (node : Node) : M bool :=
  let rangeNode := match nameOf ts node with Some name => name | None => node end in
  match getSymbolAtLocation ts rangeNode with
  | None => ret false
  | Some symbol =>
      match getDeclarations ts symbol with
      | None | Some [] => ret false
      | Some _ =>
          do symbolData <- Visitor_getOrCreateSymbolData fuel symbol (Some rangeNode);
          do current <- gets currentSourceFile;
          match current with
          | None => throw "TypeError: Cannot read properties of undefined"
          | Some sourceFile =>
              do definition <-
                SymbolData_findDefinition fuel symbolData sourceFile
                  (Converter_rangeFromNode sourceFile rangeNode);
              match definition with
              | None => ret false
              | Some definition =>
                  do stack <- gets symbolContainer;
                  match stack with
                  | [] => throw "TypeError: Cannot read properties of undefined"
                  | _ =>
                      do _ <- modify (set_symbolContainer
                                (stack ++ [{| frameId := vid definition;
                                              frameChildren := None |}]));
                      ret true
                  end
              end
          end
      end
  end.

Definition Visitor_visitDeclaration (fuel : nat) (node : Node)
    (isContainer : bool) : M unit :=
  do current <- Visitor_currentRecordDocumentSymbol;
  let recordDocumentSymbol_ := current && isContainer in
  do didRecord <- (if recordDocumentSymbol_ then Visitor_addDocumentSymbol fuel node
                   else ret recordDocumentSymbol_);
  modify (fun st => set_recordDocumentSymbol (recordDocumentSymbol st ++ [didRecord]) st).

Definition Visitor_endVisitDeclaration (node : Node) : M unit :=
  do stack <- gets recordDocumentSymbol;
  do _ <- modify (set_recordDocumentSymbol (removelast stack));
  match last stack with
  | Some true =>
      do container <- gets symbolContainer;
      match last container with
      | Some child =>
          modify (set_symbolContainer (attachChild child (removelast container)))
      | None => ret tt
      end
  | _ => ret tt
  end.

Definition Visitor_visitIdentifier (fuel : nat) (node : Node) : M unit :=
  match getSymbolAtLocation ts node with
  | None => ret tt
  | Some symbol =>
      do symbolData <- Visitor_getOrCreateSymbolData fuel symbol (Some node);
      do current <- gets currentSourceFile;
      match current with
      | None => throw "TypeError: Cannot read properties of undefined"
      | Some sourceFile =>
          do known <- SymbolData_hasDefinitionInfo (DefinitionInfo_equals ts)
                        symbolData (createDefinitionInfo ts sourceFile node);
          if known then ret tt
          else
            do reference <-
              vertex.range (Converter_rangeFromNode sourceFile node)
                (TagReference (getText ts node));
            do d <- Visitor_currentDocumentData;
            do _ <- DocumentData_addRange d reference;
            SymbolData_addReference symbolData sourceFile reference
              (Some ItemEdgeProperties.references)
      end
  end.

Definition Visitor_visitSourceFile (sourceFile : Node) : M bool :=
  do ignored <- isFullContentIgnored sourceFile;
  if ignored then ret false
  else
    do _ <- modify (set_currentSourceFile (Some sourceFile));
    do documentData <- Visitor_getOrCreateDocumentData sourceFile;
    do _ <- modify (set_currentDocumentData (Some documentData));
    do data <- DocumentData_deref documentData;
    do _ <- modify (fun st =>
              set_symbolContainer
                (symbolContainer st ++
                   [{| frameId := vid (dd_document data);
                       frameChildren := Some [] |}]) st);
    do _ <- modify (fun st =>
              set_recordDocumentSymbol (recordDocumentSymbol st ++ [true]) st);
    ret true.

Definition Visitor_endVisitSourceFile (sourceFile : Node) : M unit :=
  do ignored <- isFullContentIgnored sourceFile;
  if ignored then ret tt
  else
    do documentData <- Visitor_currentDocumentData;
    let diagnostics :=
      map Converter_asDiagnostic (getSyntacticDiagnostics ts sourceFile)
      ++ flat_map (fun element =>
           match tdFile element, tdStart element, tdLength element with
           | Some file, Some start, Some length =>
               [Converter_asDiagnostic
                  {| dlCategory := tdCategory element; dlCode := tdCode element;
                     dlMessageText := tdMessageText element;
                     dlFile := file; dlStart := start; dlLength := length |}]
           | _, _, _ => []
           end) (getSemanticDiagnostics ts sourceFile) in
    do _ <- (if (0 <? length diagnostics)%nat
             then DocumentData_addDiagnostics documentData diagnostics
             else ret tt);
    let foldingRanges :=
      map (Converter_asFoldingRange sourceFile)
        (getOutliningSpans ts (fileName sourceFile)) in
    do _ <- (if (0 <? length foldingRanges)%nat
             then DocumentData_addFoldingRanges documentData foldingRanges
             else ret tt);
    do frame <- symbolContainer_pop;
    do _ <- match frameChildren frame with
            | Some ((_ :: _) as values) =>
                DocumentData_addDocumentSymbols documentData values
            | _ => ret tt
            end;
    do _ <- modify (fun st =>
              set_recordDocumentSymbol (removelast (recordDocumentSymbol st)) st);
    do _ <- modify (set_currentSourceFile None);
    do _ <- modify (set_currentDocumentData None);
    do _ <- DataManager_documemntProcessed (fileName sourceFile);
    do stack <- gets symbolContainer;
    if negb (Nat.eqb (length stack) 0) then throw "Unbalanced begin / end calls"
    else ret tt.

(** [doVisit(visit, endVisit, node)], with the traversal of the children
    as a parameter. *)
Definition Visitor_doVisit (visit : M bool) (endVisit : M unit)
    (node : Node) (visitChildren : M unit) : M unit :=
  do descend <- visit;
  do _ <- (if descend then visitChildren else ret tt);
  do _ <- DataManager_nodeProcessed node;
  endVisit.

(** [visit(node)]. The case of a class expression has no [break] and falls
    through into the case of an identifier. *)
Fixpoint Visitor_visit (fuel : nat) (tree : Tree) {struct tree} : M unit :=
  match tree with
  | TreeNode node children =>
      let visitChildren :=
        (fix each (children : list Tree) : M unit :=
           match children with
           | [] => ret tt
           | child :: children' =>
               do _ <- Visitor_visit fuel child; each children'
           end) children in
      let declaration (isContainer : bool) :=
        Visitor_doVisit
          (do _ <- Visitor_visitDeclaration fuel node isContainer; ret true)
          (Visitor_endVisitDeclaration node) node visitChildren in
      match kind node with
      | SyntaxKind.SourceFile =>
          Visitor_doVisit (Visitor_visitSourceFile node)
            (Visitor_endVisitSourceFile node) node visitChildren
      | SyntaxKind.ModuleDeclaration
      | SyntaxKind.ClassDeclaration
      | SyntaxKind.InterfaceDeclaration
      | SyntaxKind.MethodDeclaration
      | SyntaxKind.MethodSignature
      | SyntaxKind.FunctionDeclaration => declaration true
      | SyntaxKind.TypeParameter
      | SyntaxKind.Parameter_ => declaration false
      | SyntaxKind.ClassExpression =>
          do _ <- Visitor_doVisit (ret true) (ret tt) node visitChildren;
          Visitor_visitIdentifier fuel node
      | SyntaxKind.Identifier => Visitor_visitIdentifier fuel node
      | SyntaxKind.Other _ => visitChildren
      end
  end.

Definition Visitor_visitProgram (fuel : nat)
    : M (option string * option string) :=
  do _ <- forEach (getSourceFiles ts) (fun tree =>
            match tree with
            | TreeNode sourceFile _ =>
                match getResolvedModules ts sourceFile with
                | Some resolvedModules =>
                    forEach resolvedModules (fun resolvedModule =>
                      match resolvedModule with
                      | None => ret tt
                      | Some resolvedModule =>
                          if isExternalLibraryImport resolvedModule then
                            modify (fun st =>
                              if JsMap.has (resolvedFileName resolvedModule)
                                   (externalLibraryImports st)
                              then st
                              else set_externalLibraryImports
                                     (JsMap.set (resolvedFileName resolvedModule) tt
                                        (externalLibraryImports st)) st)
                          else ret tt
                      end)
                | None => ret tt
                end
            end);
  do _ <- forEach (getSourceFiles ts) (Visitor_visit fuel);
  do rootDir <- gets rootDir;
  do outDir <- gets outDir;
  ret (rootDir, outDir).

Definition Visitor_endVisitProgram : M unit := DataManager_projectProcessed.

(** [lsif(languageService, options, dependsOn, emitter, idGenerator,
    tsConfigFile)]: the whole run. [firstId] is the first id the generator
    hands out. *)
Definition lsif (fuel : nat) (options : Options) (dependsOn : list ProjectInfo)
    (firstId : Id) (tsConfigFile : option string)
    : Result (option string * option string) * State :=
  (do _ <- Visitor_new dependsOn tsConfigFile;
   do result <- Visitor_visitProgram fuel;
   do _ <- Visitor_endVisitProgram;
   ret result)
    (initialState firstId (negb (noContents options)) (opt_projectRoot options)).

End Engine.

(* ================================================================== *)
(** * Definitions used to state the properties                         *)
(* ================================================================== *)

(** The infos a declaration-info memory holds, oldest first. *)
Definition infosOf (d : DeclarationInfo) : list DefinitionInfo :=
  match d with
  | DeclUndefined => []
  | DeclSingle info => [info]
  | DeclArray infos => infos
  end.

(** What a run of [recordDefinitionInfo] calls leaves of a symbol data. *)
Definition recorded (infos : list DefinitionInfo) (sd : SymbolData) : SymbolData :=
  match variant sd with
  | UnionOrIntersectionV _ _ => sd
  | _ => with_declarationInfo
           (fold_left (fun d info => recordInfo info d) infos (declarationInfo sd)) sd
  end.

(** [contains] edges that carry at most [n] targets. *)
Definition containsAtMost (n : nat) (x : Element) : Prop :=
  match x with
  | EE e =>
      match edata e with
      | E1N "contains" _ inVs => (length inVs <= n)%nat
      | _ => True
      end
  | EV _ => True
  end.

(** ** Sample data for the concrete runs *)

Definition pos (l c : Z) : Position := {| line := l; character := c |}.

Definition span (l1 c1 l2 c2 : Z) : lsp.Range :=
  {| lsp.start := pos l1 c1; lsp.end_ := pos l2 c2 |}.

Definition sampleRange : Vertex :=
  {| vid := 7; vdata := Range (span 1 4 1 7) (Some (TagReference "foo")) |}.

Definition sampleDocument (i : Id) (name : string) : Vertex :=
  {| vid := i; vdata := Document name None |}.

Definition samplePartition : SymbolDataPartition :=
  {| sp_symbolData := 0%nat; sp_document := sampleDocument 3 "/a.ts";
     definitionRanges := Some [sampleRange];
     referenceRanges := None; referenceResults := None |}.

Definition sampleInfo : DefinitionInfo :=
  {| diFile := "/a.ts"; diStart := 4; diEnd := 7 |}.

(** Field-wise equality, the natural reading of [tss.DefinitionInfo.equals]. *)
Definition DefinitionInfo_eqb (a b : DefinitionInfo) : bool :=
  String.eqb (diFile a) (diFile b) && Z.eqb (diStart a) (diStart b)
  && Z.eqb (diEnd a) (diEnd b).

Definition sampleSymbolData (id : SymbolId) (rs : Id) (scope : option Node)
    (variant : Variant) : SymbolData :=
  {| sd_id := id; resultSet := {| vid := rs; vdata := ResultSet |};
     declarationInfo := DeclUndefined; definitionResult := None;
     referenceResult := None; partitions := PartitionsUndefined;
     scope := scope; variant := variant |}.

Definition sampleFile (n : nat) (name : string) : Node :=
  {| nodeId := n; kind := SyntaxKind.SourceFile; fileName := name;
     isDeclarationFile := false |}.

Definition sampleBlock (n : nat) : Node :=
  {| nodeId := n; kind := SyntaxKind.Other 0; fileName := "";
     isDeclarationFile := false |}.

(** [node === this.scope] *)
Definition isScopeOf (sd : SymbolData) (node : Node) : bool :=
  match scope sd with Some s => sameNode node s | None => false end.

(** The [partitions] field of the symbol data behind a handle. *)
Definition partitionsOf (st : State) (h : SymbolDataRef) : option Partitions :=
  partitions <$> symbolHeap st !! h.

(** [parition.end()] on the one slot of a scoped symbol; a tombstone has
    nothing to flush. *)
Definition flushSlot (slot : option SymbolDataPartition) : M unit :=
  match slot with
  | Some p => SymbolDataPartition_end p
  | None => ret tt
  end.

(** The slots of a [partitions] field; none before the map exists. *)
Definition slotsOf (p : Partitions) : list (string * option SymbolDataPartition) :=
  match p with PartitionsMap m => m | _ => [] end.

(** The symbol datas registered for a node in the lifecycle map. *)
Definition registeredOn (st : State) (node : Node) : list SymbolDataRef :=
  match JsMap.get (nodeId node) (clearOnNode st) with
  | Some datas => datas
  | None => []
  end.

Definition sampleScoped : SymbolData :=
  {| sd_id := "s"; resultSet := {| vid := 5; vdata := ResultSet |};
     declarationInfo := DeclUndefined; definitionResult := None;
     referenceResult := None;
     partitions := PartitionsMap [("/a.ts", Some samplePartition)];
     scope := Some (sampleFile 1 "/a.ts"); variant := StandardV |}.

(** A state with one document data for [/a.ts] and the given symbol datas. *)
Definition sampleState (symbols : list SymbolData) : State :=
  set_symbolHeap symbols
    (set_documentDatas [("/a.ts", Some 0%nat)]
       (set_documentHeap
          [DocumentData_new (sampleDocument 3 "/a.ts") None false]
          (initialState 10 true "/"))).

(** The live partition a symbol data holds for a file. *)
Definition partitionAt (st : State) (h : SymbolDataRef) (file : string)
    : option SymbolDataPartition :=
  match symbolHeap st !! h with
  | Some sd =>
      match JsMap.get file (slotsOf (partitions sd)) with
      | Some (Some p) => Some p
      | _ => None
      end
  | None => None
  end.

(** The reference ranges a partition holds under a property. *)
Definition bucket (property : ItemEdgeProperties.t) (p : SymbolDataPartition)
    : list Vertex :=
  match referenceRanges p with
  | Some m => match JsMap.get property m with Some vs => vs | None => [] end
  | None => []
  end.

(** The definition ranges a partition holds. *)
Definition definitionsOf (p : SymbolDataPartition) : list Vertex :=
  match definitionRanges p with Some rs => rs | None => [] end.

(** What [MethodSymbolData.addDefinition] does after the standard part: the
    range goes to every base, under [definitions]. *)
Definition addToBases (bases : option (list SymbolDataRef)) (sourceFile : Node)
    (definition : Vertex) : M unit :=
  match bases with
  | Some bases =>
      forEach bases (fun base =>
        do r <- SymbolData_getOrCreatePartition base sourceFile;
        SymbolDataPartition_update r
          (SymbolDataPartition_addReference definition
             (Some ItemEdgeProperties.definitions)))
  | None => ret tt
  end.

(** Partitions only grow from [st] to [st']: a live partition stays live,
    keeps its definition ranges and loses no reference range. *)
Definition partitionsGrow (st st' : State) : Prop :=
  forall h file p, partitionAt st h file = Some p ->
    exists p', partitionAt st' h file = Some p'
      /\ definitionsOf p' = definitionsOf p
      /\ forall property v, In v (bucket property p) -> In v (bucket property p').

(** ** A sample program for the semantic cache

    [class A { m() {} }], [class B1 extends A { o() {} }],
    [interface B2 { m(): void }],
    [class T1 extends B1 implements B2 { m() {} }],
    [class T2 extends B1 { m() {} }].
    The symbols are numbered A = 1, B1 = 2, B2 = 3, T1 = 4, T2 = 5; the member
    [m] of symbol [n] is [10 + n], and [o] of B1 is 12. The declaration of a
    class has the node id of its symbol, and the expression that names the
    base [n] in a heritage clause has the node id [100 + n]. *)

Definition sampleNode (n : nat) (k : SyntaxKind.t) : Node :=
  {| nodeId := n; kind := k; fileName := ""; isDeclarationFile := false |}.

Definition sampleClassOracle : Oracle :=
  {| getSourceFiles := [];
     compilerOutDir := None;
     compilerRootDir := None;
     getSyntacticDiagnostics := fun _ => [];
     getSemanticDiagnostics := fun _ => [];
     getOutliningSpans := fun _ => [];
     getQuickInfoAtPosition := fun _ _ => None;
     getLineAndCharacterOfPosition := fun _ offset => pos 0 offset;
     sourceText := fun _ => "";
     getStart := fun _ => 0;
     getEnd := fun _ => 0;
     getText := fun _ => "";
     parentOf := fun _ => None;
     getSourceFile := fun _ => sampleFile 0 "/a.ts";
     nameOf := fun _ => None;
     isNamedDeclaration := fun _ => false;
     heritageClauses := fun declaration =>
       match nodeId declaration with
       | 2%nat => Some [[sampleNode 101 (SyntaxKind.Other 0)]]
       | 4%nat => Some [[sampleNode 102 (SyntaxKind.Other 0)];
                        [sampleNode 103 (SyntaxKind.Other 0)]]
       | 5%nat => Some [[sampleNode 102 (SyntaxKind.Other 0)]]
       | _ => None
       end;
     getSymbolAtLocation := fun _ => None;
     getAliasedSymbol := fun _ => None;
     getTypeAtLocation := fun expression => Some (nodeId expression - 100)%nat;
     getDeclaredTypeOfSymbol := fun symbol => Some symbol;
     getTypeOfSymbolAtLocation := fun symbol _ => symbol;
     typeSymbol := fun tsType => Some tsType;
     getBaseTypes := fun _ => None;
     unionOrIntersectionTypes := fun _ => None;
     getDeclarations := fun symbol =>
       Some [sampleNode symbol SyntaxKind.ClassDeclaration];
     getName := fun _ => "m";
     members := fun symbol =>
       match symbol with
       | 1%nat => Some [("m", 11%nat)]
       | 2%nat => Some [("o", 12%nat)]
       | 3%nat => Some [("m", 13%nat)]
       | 4%nat => Some [("m", 14%nat)]
       | 5%nat => Some [("m", 15%nat)]
       | _ => None
       end;
     exports := fun _ => None;
     createSymbolKey := fun symbol =>
       match symbol with
       | 1%nat => "A" | 2%nat => "B1" | 3%nat => "B2"
       | 4%nat => "T1" | 5%nat => "T2" | _ => "?"
       end;
     isTypeLiteral := fun _ => false;
     isInterface := fun symbol => Nat.eqb symbol 3;
     isClass := fun symbol => negb (Nat.eqb symbol 3);
     symbolIsSourceFile := fun _ => false;
     isAliasSymbol := fun _ => false;
     isMethodSymbol := fun symbol => Nat.ltb 10 symbol;
     isTransient := fun _ => false;
     isValueModule := fun _ => false;
     getSymbolParent := fun symbol =>
       if Nat.ltb 10 symbol then Some (symbol - 10)%nat else None;
     getUniqueSourceFiles := fun _ => [sampleFile 0 "/a.ts"];
     EmitBoundaries := fun _ => false;
     createDefinitionInfo := fun _ _ => sampleInfo;
     DefinitionInfo_equals := DefinitionInfo_eqb;
     computeMonikerPath := fun _ to => to;
     toOutLocation := fun path _ _ => path;
     createMonikerIdentifier := fun path name =>
       default "" path +:+ ":" +:+ default "" name;
     makeAbsolute := fun path _ => path;
     getResolvedModules := fun _ => None;
     Version := "0.6.0";
     fileUri := fun path => "file://" +:+ path |}.

(** The state after the given lookups, made one after the other from the
    initial state. *)
Definition afterLookups (symbols : list Symbol) : State :=
  (forEach symbols (fun symbol =>
     do _ <- Symbols_findBaseMembers sampleClassOracle 10 symbol "m"; ret tt)
     (initialState 1 true "/")).2.

(** What [findBaseMembers(symbol, "m")] returns after the given lookups. *)
Definition lookupAfter (symbols : list Symbol) (symbol : Symbol)
    : Result (option (list Symbol)) :=
  (Symbols_findBaseMembers_items sampleClassOracle 10 symbol "m"
     (afterLookups symbols)).1.

(** The [k]-th ancestor directory of a path. *)
Definition ancestor (k : nat) (path : list ascii) : list ascii :=
  Nat.iter k posix.dirname path.

(** ** A sample program for the visitor

    One file [/src/a.ts] with [export function foo() {}] and a call [foo()].
    Node 1 is the file, node 2 the function declaration, node 3 its name,
    node 4 the call and node 5 the identifier in the call. Symbol 7 is
    [foo], symbol 8 the module of the file. *)

Definition fooFile : Node := sampleFile 1 "/src/a.ts".

Definition fooTree : Tree :=
  TreeNode fooFile
    [TreeNode (sampleNode 2 SyntaxKind.FunctionDeclaration)
       [TreeNode (sampleNode 3 SyntaxKind.Identifier) []];
     TreeNode (sampleNode 4 (SyntaxKind.Other 0))
       [TreeNode (sampleNode 5 SyntaxKind.Identifier) []]].

Definition sampleFooOracle : Oracle :=
  {| getSourceFiles := [fooTree];
     compilerOutDir := Some "/out";
     compilerRootDir := Some "/src";
     getSyntacticDiagnostics := fun _ => [];
     getSemanticDiagnostics := fun _ => [];
     getOutliningSpans := fun _ => [];
     getQuickInfoAtPosition := fun _ _ => None;
     getLineAndCharacterOfPosition := fun _ offset => pos 0 offset;
     sourceText := fun _ => "export function foo() {}; foo();";
     getStart := fun node => Z.of_nat (nodeId node);
     getEnd := fun node => Z.of_nat (nodeId node) + 3;
     getText := fun _ => "foo";
     parentOf := fun _ => None;
     getSourceFile := fun _ => fooFile;
     nameOf := fun node =>
       if Nat.eqb (nodeId node) 2 then Some (sampleNode 3 SyntaxKind.Identifier)
       else None;
     isNamedDeclaration := fun node => Nat.eqb (nodeId node) 2;
     heritageClauses := fun _ => None;
     getSymbolAtLocation := fun node =>
       if Nat.eqb (nodeId node) 3 || Nat.eqb (nodeId node) 5 then Some 7%nat
       else None;
     getAliasedSymbol := fun _ => None;
     getTypeAtLocation := fun _ => None;
     getDeclaredTypeOfSymbol := fun _ => None;
     getTypeOfSymbolAtLocation := fun symbol _ => symbol;
     typeSymbol := fun _ => None;
     getBaseTypes := fun _ => None;
     unionOrIntersectionTypes := fun _ => None;
     getDeclarations := fun symbol =>
       if Nat.eqb symbol 7 then Some [sampleNode 2 SyntaxKind.FunctionDeclaration]
       else Some [fooFile];
     getName := fun symbol => if Nat.eqb symbol 7 then "foo" else "a";
     members := fun _ => None;
     exports := fun symbol => if Nat.eqb symbol 8 then Some ["foo"] else None;
     createSymbolKey := fun symbol => if Nat.eqb symbol 7 then "foo" else "a";
     isTypeLiteral := fun _ => false;
     isInterface := fun _ => false;
     isClass := fun _ => false;
     symbolIsSourceFile := fun symbol => Nat.eqb symbol 8;
     isAliasSymbol := fun _ => false;
     isMethodSymbol := fun _ => false;
     isTransient := fun _ => false;
     isValueModule := fun symbol => Nat.eqb symbol 8;
     getSymbolParent := fun symbol => if Nat.eqb symbol 7 then Some 8%nat else None;
     getUniqueSourceFiles := fun _ => [fooFile];
     EmitBoundaries := fun _ => false;
     createDefinitionInfo := fun file node =>
       {| diFile := fileName file; diStart := Z.of_nat (nodeId node);
          diEnd := Z.of_nat (nodeId node) + 3 |};
     DefinitionInfo_equals := DefinitionInfo_eqb;
     computeMonikerPath := fun _ to => to;
     toOutLocation := fun path _ _ => path;
     createMonikerIdentifier := fun path name =>
       default "" path +:+ ":" +:+ default "" name;
     makeAbsolute := fun path _ => path;
     getResolvedModules := fun _ => None;
     Version := "0.6.0";
     fileUri := fun path => "file://" +:+ path |}.

Definition sampleOptions : Options :=
  {| opt_projectRoot := "/"; noContents := true |}.

(** ** A sample program with an ignored file

    [/src/a.ts] holds a call [bar()]; [bar] is declared in
    [/node_modules/foo/bar.js], which the program lists after [a.ts]. Node 1
    is [a.ts], node 4 the call and node 5 the identifier in it; node 10 is
    [bar.js], node 11 the function declaration and node 12 its name. Symbol
    7 is [bar], symbol 8 the module of [bar.js]. *)

Definition useFile : Node := sampleFile 1 "/src/a.ts".

Definition barFile : Node := sampleFile 10 "/node_modules/foo/bar.js".

Definition useTree : Tree :=
  TreeNode useFile
    [TreeNode (sampleNode 4 (SyntaxKind.Other 0))
       [TreeNode (sampleNode 5 SyntaxKind.Identifier) []]].

Definition barTree : Tree :=
  TreeNode barFile
    [TreeNode (sampleNode 11 SyntaxKind.FunctionDeclaration)
       [TreeNode (sampleNode 12 SyntaxKind.Identifier) []]].

Definition sampleIgnoredOracle : Oracle :=
  {| getSourceFiles := [useTree; barTree];
     compilerOutDir := Some "/out";
     compilerRootDir := Some "/src";
     getSyntacticDiagnostics := fun _ => [];
     getSemanticDiagnostics := fun _ => [];
     getOutliningSpans := fun _ => [];
     getQuickInfoAtPosition := fun _ _ => None;
     getLineAndCharacterOfPosition := fun _ offset => pos 0 offset;
     sourceText := fun _ => "";
     getStart := fun node => Z.of_nat (nodeId node);
     getEnd := fun node => Z.of_nat (nodeId node) + 3;
     getText := fun _ => "bar";
     parentOf := fun _ => None;
     getSourceFile := fun node =>
       if (10 <=? nodeId node)%nat then barFile else useFile;
     nameOf := fun node =>
       if Nat.eqb (nodeId node) 11 then Some (sampleNode 12 SyntaxKind.Identifier)
       else None;
     isNamedDeclaration := fun node => Nat.eqb (nodeId node) 11;
     heritageClauses := fun _ => None;
     getSymbolAtLocation := fun node =>
       if Nat.eqb (nodeId node) 5 || Nat.eqb (nodeId node) 12 then Some 7%nat
       else None;
     getAliasedSymbol := fun _ => None;
     getTypeAtLocation := fun _ => None;
     getDeclaredTypeOfSymbol := fun _ => None;
     getTypeOfSymbolAtLocation := fun symbol _ => symbol;
     typeSymbol := fun _ => None;
     getBaseTypes := fun _ => None;
     unionOrIntersectionTypes := fun _ => None;
     getDeclarations := fun symbol =>
       if Nat.eqb symbol 7 then Some [sampleNode 11 SyntaxKind.FunctionDeclaration]
       else Some [barFile];
     getName := fun symbol => if Nat.eqb symbol 7 then "bar" else "m";
     members := fun _ => None;
     exports := fun symbol => if Nat.eqb symbol 8 then Some ["bar"] else None;
     createSymbolKey := fun symbol => if Nat.eqb symbol 7 then "bar" else "m";
     isTypeLiteral := fun _ => false;
     isInterface := fun _ => false;
     isClass := fun _ => false;
     symbolIsSourceFile := fun symbol => Nat.eqb symbol 8;
     isAliasSymbol := fun _ => false;
     isMethodSymbol := fun _ => false;
     isTransient := fun _ => false;
     isValueModule := fun symbol => Nat.eqb symbol 8;
     getSymbolParent := fun symbol => if Nat.eqb symbol 7 then Some 8%nat else None;
     getUniqueSourceFiles := fun _ => [barFile];
     EmitBoundaries := fun _ => false;
     createDefinitionInfo := fun file node =>
       {| diFile := fileName file; diStart := Z.of_nat (nodeId node);
          diEnd := Z.of_nat (nodeId node) + 3 |};
     DefinitionInfo_equals := DefinitionInfo_eqb;
     computeMonikerPath := fun _ to => to;
     toOutLocation := fun path _ _ => path;
     createMonikerIdentifier := fun path name =>
       default "" path +:+ ":" +:+ default "" name;
     makeAbsolute := fun path _ => path;
     getResolvedModules := fun _ => None;
     Version := "0.6.0";
     fileUri := fun path => "file://" +:+ path |}.

(** The state of the visitor after [a.ts] and before [bar.js]. *)
Definition beforeBarFile : State :=
  ((do _ <- Visitor_new sampleIgnoredOracle [] None;
    Visitor_visit sampleIgnoredOracle 5 useTree)
     (initialState 1 false "/")).2.

(** What a computation adds to the trace. *)
Definition emittedBy {A} (m : M A) (st : State) : list Element :=
  drop (length (emitted st)) (emitted (m st).2).

(* ---------------------------------------------------------------- *)
(** ** The order of the emission                                      *)

(** Ids grow along the trace. *)
Definition idsIncrease (trace : list Element) : Prop :=
  forall i j a b, (i < j)%nat -> trace !! i = Some a -> trace !! j = Some b ->
    elementId a < elementId b.

(** Every id an element names is the id of a vertex emitted before it. *)
Definition referencesEmittedBefore (trace : list Element) : Prop :=
  forall j b, trace !! j = Some b ->
    forall r, In r (referencedIds b) ->
      exists k v, (k < j)%nat /\ trace !! k = Some (EV v) /\ vid v = r.

Definition orderedTrace (trace : list Element) : Prop :=
  idsIncrease trace /\ referencesEmittedBefore trace.

(** [i] is the id of a vertex of the trace. *)
Definition known (trace : list Element) (i : Id) : Prop :=
  exists v, In (EV v) trace /\ vid v = i.

(** The same, built up one emission at a time. *)
Inductive wfTrace : list Element -> Prop :=
| wfTrace_nil : wfTrace []
| wfTrace_snoc trace x :
    wfTrace trace ->
    (forall y, In y trace -> elementId y < elementId x) ->
    (forall r, In r (referencedIds x) -> known trace r) ->
    wfTrace (trace ++ [x]).

(** The ids the state holds for later edges are ids of emitted vertices. *)
Definition okPartition (K : Id -> Prop) (p : SymbolDataPartition) : Prop :=
  K (vid (sp_document p))
  /\ (forall v, In v (definitionsOf p) -> K (vid v))
  /\ (forall property vs v,
        In (property, vs) (default [] (referenceRanges p)) -> In v vs ->
        K (vid v))
  /\ (forall v, In v (default [] (referenceResults p)) -> K (vid v)).

Definition okPartitions (K : Id -> Prop) (ps : Partitions) : Prop :=
  forall file p, In (file, Some p) (slotsOf ps) -> okPartition K p.

Definition okSymbol (K : Id -> Prop) (sd : SymbolData) : Prop :=
  K (vid (resultSet sd))
  /\ (forall r, definitionResult sd = Some r -> K (vid r))
  /\ (forall r, referenceResult sd = Some r -> K (vid r))
  /\ okPartitions K (partitions sd).

Definition okDocument (K : Id -> Prop) (data : DocumentData) : Prop :=
  K (vid (dd_document data)) /\ forall r, In r (dd_ranges data) -> K (vid r).

Definition okProject (K : Id -> Prop) (data : ProjectData) : Prop :=
  K (vid (pd_project data)) /\ forall d, In d (pd_documents data) -> K (vid d).

(** The invariant of a run, from the construction of the DataManager on. *)
Definition Inv (st : State) : Prop :=
  wfTrace (emitted st)
  /\ (forall x, In x (emitted st) -> elementId x < nextId st)
  /\ Forall (okSymbol (known (emitted st))) (symbolHeap st)
  /\ Forall (okDocument (known (emitted st))) (documentHeap st)
  /\ okProject (known (emitted st)) (projectData st).

(** The trace only grows. *)
Definition extends (st st' : State) : Prop :=
  exists new, emitted st' = emitted st ++ new.

(** A vertex that was drawn last and is not emitted yet. *)
Definition freshVertex (v : Vertex) (st : State) : Prop :=
  vid v < nextId st
  /\ (forall x, In x (emitted st) -> elementId x < vid v)
  /\ forall r, In r (referencedIds (EV v)) -> known (emitted st) r.

(** [{P} m {Q}] for computations that start in a state with the invariant:
    they keep the invariant, only add to the trace, and a result they return
    satisfies [Q]. An exception leaves the invariant in place as well. *)
Definition triple {A} (P : State -> Prop) (m : M A) (Q : A -> State -> Prop)
    : Prop :=
  forall st, Inv st -> P st ->
    Inv (m st).2 /\ extends st (m st).2
    /\ forall a, (m st).1 = Ok a -> Q a (m st).2.

(** Assertions that survive every step of a run. *)
Definition stable (F : State -> Prop) : Prop :=
  forall st st', extends st st' -> F st -> F st'.

(** [i] is known in the state. *)
Definition knownIn (i : Id) (st : State) : Prop := known (emitted st) i.

(** The part of the state the invariant and the assertions read. *)
Definition sameCore (st st' : State) : Prop :=
  emitted st' = emitted st /\ nextId st' = nextId st
  /\ symbolHeap st' = symbolHeap st /\ documentHeap st' = documentHeap st
  /\ projectData st' = projectData st.

(** Computations that leave that part alone. *)
Definition silent {A} (m : M A) : Prop := forall st, sameCore st (m st).2.

(** Assertions that only read that part. *)
Definition coreOnly (F : State -> Prop) : Prop :=
  forall st st', sameCore st st' -> F st -> F st'.

(** A symbol data as its constructor leaves it. *)
Definition newSymbolData (data : SymbolData) (st : State) : Prop :=
  freshVertex (resultSet data) st
  /\ vdata (resultSet data) = ResultSet
  /\ definitionResult data = None /\ referenceResult data = None
  /\ partitions data = PartitionsUndefined.

(** A computation that leaves the state as it is. *)
Definition readonly {A} (m : M A) : Prop := forall st, (m st).2 = st.

(** What the invariant says of one object, as an assertion on the state. *)
Definition okSymbolIn (sd : SymbolData) (st : State) : Prop :=
  okSymbol (known (emitted st)) sd.

Definition okDocumentIn (data : DocumentData) (st : State) : Prop :=
  okDocument (known (emitted st)) data.

Definition okPartitionIn (p : SymbolDataPartition) (st : State) : Prop :=
  okPartition (known (emitted st)) p.

Definition okProjectIn (data : ProjectData) (st : State) : Prop :=
  okProject (known (emitted st)) data.

Definition allKnown (vs : list Vertex) (st : State) : Prop :=
  forall v, In v vs -> knownIn (vid v) st.

(** The ids a vertex with data [d] names. *)
Definition vertexRefs (d : VertexData) : list Id :=
  referencedIds (EV {| vid := 0; vdata := d |}).

Definition edgeRefs (d : EdgeData) : list Id :=
  referencedIds (EE {| eid := 0; edata := d |}).

Definition knownAll (ids : list Id) (st : State) : Prop :=
  forall r, In r ids -> knownIn r st.

(** A relation that every step of a computation keeps. *)
Definition preserves (R : State -> State -> Prop) {A} (m : M A) : Prop :=
  forall st, R st (snd (m st)).

(** The fields of the symbol datas that only [getOrCreatePartition],
    [nodeProcessed], [end] and [begin] write. *)
Definition sameSymbols (st st' : State) : Prop :=
  forall h sd, symbolHeap st !! h = Some sd ->
    exists sd', symbolHeap st' !! h = Some sd'
      /\ partitions sd' = partitions sd /\ scope sd' = scope sd
      /\ variant sd' = variant sd /\ sd_id sd' = sd_id sd
      /\ resultSet sd' = resultSet sd.

(* ================================================================== *)
(** * Definitions used to state further properties                     *)
(* ================================================================== *)

(** The targets of the [contains] edges of a trace that leave [from], in
    the order of the trace. *)
Definition containedBy (from : Id) (trace : list Element) : list Id :=
  flat_map (fun x =>
    match x with
    | EE e =>
        match edata e with
        | E1N "contains" outV inVs => if Z.eqb outV from then inVs else []
        | _ => []
        end
    | EV _ => []
    end) trace.

(** [addDocument] for each of [docs], then [end]. *)
Definition ProjectData_run (docs : list Vertex) : M unit :=
  do _ <- forEach docs ProjectData_addDocument; ProjectData_end.

(** [addRange] for each of [ranges], then [end]. *)
Definition DocumentData_run (d : DocumentDataRef) (ranges : list Vertex)
    : M unit :=
  do _ <- forEach ranges (DocumentData_addRange d); DocumentData_end d.

(** A computation that leaves the field [f] of the state as it is. *)
Definition keeps {A B} (f : State -> B) (m : M A) : Prop :=
  preserves (fun st st' => f st' = f st) m.


(* ================================================================== *)
(** * Properties                                                       *)
(* ================================================================== *)

(** ** JavaScript maps *)

Section JsMapFacts.
Context {K V : Type} `{EqDecision K}.
Implicit Types (m : list (K * V)) (k : K) (v : V).

Lemma JsMap_get_set_eq m k v : JsMap.get k (JsMap.set k v m) = Some v.
Proof.
  induction m as [|[k' v'] m IH]; simpl.
  - destruct (decide (k = k)); congruence.
  - destruct (decide (k = k')) as [->|Hne]; simpl.
    + destruct (decide (k' = k')); congruence.
    + destruct (decide (k = k')); congruence.
Qed.

Lemma JsMap_get_set_ne m k k' v :
  k <> k' -> JsMap.get k' (JsMap.set k v m) = JsMap.get k' m.
Proof.
  intros Hne. induction m as [|[k0 v0] m IH]; simpl.
  - destruct (decide (k' = k)); congruence.
  - destruct (decide (k = k0)) as [->|Hk]; simpl.
    + destruct (decide (k' = k0)); congruence.
    + destruct (decide (k' = k0)); congruence.
Qed.

Lemma JsMap_set_same m k v : JsMap.get k m = Some v -> JsMap.set k v m = m.
Proof.
  induction m as [|[k' v'] m IH]; simpl; [discriminate|].
  destruct (decide (k = k')) as [->|Hne]; intros Hg.
  - congruence.
  - f_equal. auto.
Qed.

Lemma JsMap_get_delete_ne m k k' :
  k <> k' -> JsMap.get k' (JsMap.delete k m) = JsMap.get k' m.
Proof.
  intros Hne. induction m as [|[k0 v0] m IH]; simpl; [done|].
  destruct (decide (k = k0)) as [->|Hk]; simpl.
  - destruct (decide (k' = k0)); congruence.
  - destruct (decide (k' = k0)); congruence.
Qed.

Lemma JsMap_get_In m k v : JsMap.get k m = Some v -> In (k, v) m.
Proof.
  induction m as [|[k' v'] m IH]; simpl; [discriminate|].
  destruct (decide (k = k')) as [->|Hne]; intros Hg.
  - left. congruence.
  - right. auto.
Qed.
End JsMapFacts.

(** ** Records are determined by their fields *)

Lemma set_symbolHeap_same st : set_symbolHeap (symbolHeap st) st = st.
Proof. by destruct st. Qed.

Lemma with_partitions_same sd : with_partitions (partitions sd) sd = sd.
Proof. by destruct sd. Qed.

Lemma with_declarationInfo_same sd :
  with_declarationInfo (declarationInfo sd) sd = sd.
Proof. by destruct sd. Qed.

(** Updating a partition with a function that returns it unchanged leaves
    the whole state as it is. *)
Lemma SymbolDataPartition_update_id r f st :
  (forall p, f p = p) -> SymbolDataPartition_update r f st = (Ok tt, st).
Proof.
  intros Hf. unfold SymbolDataPartition_update, SymbolData_update, modify.
  f_equal. rewrite list_alter_id; [apply set_symbolHeap_same|].
  intros sd. destruct (partitions sd) as [| |m] eqn:Hp; try done.
  destruct (JsMap.get r.2 m) as [[p|]|] eqn:Hg; try done.
  rewrite Hf, (JsMap_set_same _ _ _ Hg), <- Hp. apply with_partitions_same.
Qed.

(** ** SymbolDataPartition.addReference without a property tag *)

(** C9. A value labelled [range] that comes without a property tag leaves
    the partition as it is: it reaches neither the reference-range buckets
    nor the forwarded reference results, the call changes nothing in the
    state (so nothing is emitted), and [end] afterwards emits what it would
    have emitted without the call. *)
Theorem addReference_range_without_property (value : Vertex)
    (p : SymbolDataPartition) :
  label value = "range" ->
  SymbolDataPartition_addReference value None p = p
  /\ (forall r st,
        SymbolDataPartition_update r
          (SymbolDataPartition_addReference value None) st = (Ok tt, st))
  /\ (forall st,
        SymbolDataPartition_end (SymbolDataPartition_addReference value None p) st
        = SymbolDataPartition_end p st).
Proof.
  intros Hl.
  assert (Hid : forall q, SymbolDataPartition_addReference value None q = q).
  { intros q. unfold SymbolDataPartition_addReference. rewrite Hl. reflexivity. }
  split; [apply Hid|]. split.
  - intros r st. by apply SymbolDataPartition_update_id.
  - intros st. by rewrite Hid.
Qed.

(** ** recordDefinitionInfo / hasDefinitionInfo *)

Lemma infosOf_recordInfo info d : infosOf (recordInfo info d) = infosOf d ++ [info].
Proof. by destruct d. Qed.

Lemma hasInfo_infosOf equals info d :
  hasInfo equals info d = existsb (fun item => equals item info) (infosOf d).
Proof. destruct d; simpl; rewrite ?orb_false_r; reflexivity. Qed.

Lemma infosOf_fold infos d :
  infosOf (fold_left (fun d info => recordInfo info d) infos d) = infosOf d ++ infos.
Proof.
  revert d. induction infos as [|i infos IH]; intros d; simpl.
  - by rewrite app_nil_r.
  - rewrite IH, infosOf_recordInfo, <- app_assoc. reflexivity.
Qed.

Lemma variant_with_declarationInfo d sd :
  variant (with_declarationInfo d sd) = variant sd.
Proof. reflexivity. Qed.

Lemma alter_lookup_insert {A} (f : A -> A) (l : list A) i x :
  l !! i = Some x -> alter f i l = <[i := f x]> l.
Proof.
  revert i. induction l as [|y l IH]; intros [|i] Hl; simpl in *; try done.
  - by simplify_eq.
  - f_equal. by apply IH.
Qed.

Lemma symbolHeap_set_symbolHeap x st : symbolHeap (set_symbolHeap x st) = x.
Proof. reflexivity. Qed.

Lemma set_symbolHeap_twice x y st :
  set_symbolHeap x (set_symbolHeap y st) = set_symbolHeap x st.
Proof. reflexivity. Qed.

Lemma recordDefinitionInfo_run infos : forall st h sd,
  symbolHeap st !! h = Some sd ->
  forEach infos (SymbolData_recordDefinitionInfo h) st
  = (Ok tt, set_symbolHeap (<[h := recorded infos sd]> (symbolHeap st)) st).
Proof.
  induction infos as [|i infos IH]; intros st h sd Hh.
  - simpl. unfold ret. f_equal.
    replace (recorded [] sd) with sd.
    + rewrite list_insert_id by done. symmetry. apply set_symbolHeap_same.
    + unfold recorded. destruct (variant sd); simpl;
        by rewrite ?with_declarationInfo_same.
  - simpl. unfold bind at 1.
    unfold SymbolData_recordDefinitionInfo at 1.
    unfold bind at 1. unfold SymbolData_deref at 1. rewrite Hh.
    assert (Hlen : (h < length (symbolHeap st))%nat) by (by eapply lookup_lt_Some).
    destruct (variant sd) eqn:Hv.
    1-3: unfold SymbolData_update, modify;
      rewrite (alter_lookup_insert _ _ _ _ Hh);
      erewrite IH by (rewrite symbolHeap_set_symbolHeap; by apply list_lookup_insert_eq);
      rewrite symbolHeap_set_symbolHeap, set_symbolHeap_twice, list_insert_insert_eq;
      unfold recorded; simpl; rewrite Hv; reflexivity.
    unfold ret. erewrite IH by exact Hh. unfold recorded. rewrite Hv.
    reflexivity.
Qed.

(** C8 (as amended). On a symbol data that has recorded nothing yet, after
    a run of [recordDefinitionInfo] calls with [infos], [hasDefinitionInfo j]
    returns [true] exactly when some recorded info equals [j] -- unless the
    symbol data is a UnionOrIntersectionSymbolData, whose
    [recordDefinitionInfo] records nothing: there the answer is [false]. *)
Theorem hasDefinitionInfo_after_records
    (equals : DefinitionInfo -> DefinitionInfo -> bool)
    (st : State) (h : SymbolDataRef) (sd : SymbolData)
    (infos : list DefinitionInfo) (j : DefinitionInfo) :
  symbolHeap st !! h = Some sd ->
  declarationInfo sd = DeclUndefined ->
  exists b st',
    (do _ <- forEach infos (SymbolData_recordDefinitionInfo h);
     SymbolData_hasDefinitionInfo equals h j) st = (Ok b, st')
    /\ match variant sd with
       | UnionOrIntersectionV _ _ => b = false
       | _ => b = true <-> exists i, In i infos /\ equals i j = true
       end.
Proof.
  intros Hh Hd.
  assert (Hlen : (h < length (symbolHeap st))%nat) by (by eapply lookup_lt_Some).
  unfold bind. rewrite (recordDefinitionInfo_run _ _ _ _ Hh).
  unfold SymbolData_hasDefinitionInfo, bind, SymbolData_deref.
  rewrite symbolHeap_set_symbolHeap, list_lookup_insert_eq by done.
  unfold ret. eexists _, _. split; [reflexivity|].
  unfold recorded.
  destruct (variant sd); simpl;
    rewrite ?hasInfo_infosOf, ?infosOf_fold, ?Hd; simpl;
    try apply existsb_exists; reflexivity.
Qed.

Lemma hasDefinitionInfo_after_records_witness :
  exists b st',
    (do _ <- forEach [sampleInfo] (SymbolData_recordDefinitionInfo 0%nat);
     SymbolData_hasDefinitionInfo DefinitionInfo_eqb 0%nat sampleInfo)
      (set_symbolHeap [sampleSymbolData "s" 1 None StandardV]
         (initialState 1 true "/")) = (Ok b, st')
    /\ (b = true <->
        exists i, In i [sampleInfo] /\ DefinitionInfo_eqb i sampleInfo = true).
Proof.
  exact (hasDefinitionInfo_after_records DefinitionInfo_eqb
           (set_symbolHeap [sampleSymbolData "s" 1 None StandardV]
              (initialState 1 true "/"))
           0%nat (sampleSymbolData "s" 1 None StandardV) [sampleInfo] sampleInfo
           eq_refl eq_refl).
Defined.

(** C8, the claim as stated fails on a UnionOrIntersectionSymbolData: the
    info was recorded and equals the one asked for, yet the answer is
    [false]. *)
Lemma hasDefinitionInfo_union_counterexample :
  fst ((do _ <- SymbolData_recordDefinitionInfo 0%nat sampleInfo;
        SymbolData_hasDefinitionInfo DefinitionInfo_eqb 0%nat sampleInfo)
         (set_symbolHeap [sampleSymbolData "u" 1 None (UnionOrIntersectionV None [])]
            (initialState 1 true "/")))
  = Ok false
  /\ DefinitionInfo_eqb sampleInfo sampleInfo = true.
Proof. split; vm_compute; reflexivity. Qed.

Lemma addReference_range_without_property_witness :
  label sampleRange = "range"
  /\ SymbolDataPartition_addReference sampleRange None samplePartition
     = samplePartition.
Proof.
  split; [reflexivity|].
  exact (proj1 (addReference_range_without_property sampleRange samplePartition
                  eq_refl)).
Defined.

(** ** ProjectData: the batches of [contains] edges *)

(** One [addDocument]: below the threshold the document is buffered, at the
    threshold the buffer is flushed in one edge. *)
Lemma ProjectData_addDocument_step d st :
  let pd := projectData st in
  let st' := snd (ProjectData_addDocument d st) in
  fst (ProjectData_addDocument d st) = Ok tt
  /\ pd_project (projectData st') = pd_project pd
  /\ if (length (pd_documents pd) <? 32)%nat then
       emitted st' = emitted st
       /\ pd_documents (projectData st') = pd_documents pd ++ [d]
     else
       emitted st' =
         emitted st ++
           [EE {| eid := nextId st;
                  edata := E1N "contains" (vid (pd_project pd))
                             (map vid (pd_documents pd ++ [d])) |}]
       /\ pd_documents (projectData st') = [].
Proof.
  unfold ProjectData_addDocument, ProjectData_update, bind, modify, gets; simpl.
  rewrite length_app; simpl.
  replace (length (pd_documents (projectData st)) + 1)%nat
    with (S (length (pd_documents (projectData st)))) by lia.
  destruct (length (pd_documents (projectData st)) <? 32)%nat eqn:Hlt.
  - apply Nat.ltb_lt in Hlt.
    destruct (length (pd_documents (projectData st))) as [|n] eqn:Hn.
    + simpl. auto.
    + replace (32 <? S (S n))%nat with false
        by (symmetry; apply Nat.ltb_ge; lia).
      simpl. auto.
  - apply Nat.ltb_ge in Hlt.
    replace (32 <? S (length (pd_documents (projectData st))))%nat with true
      by (symmetry; apply Nat.ltb_lt; lia).
    simpl. auto.
Qed.

(** C4 (as amended). Starting with at most 32 buffered documents (the
    buffer starts empty), a run of [addDocument] calls emits nothing but
    [contains] edges of the project, each with at most 33 documents, and
    leaves at most 32 documents in the buffer. *)
Theorem ProjectData_contains_batches (docs : list Vertex) (st : State) :
  (length (pd_documents (projectData st)) <= 32)%nat ->
  let st' := snd (forEach docs ProjectData_addDocument st) in
  fst (forEach docs ProjectData_addDocument st) = Ok tt
  /\ (length (pd_documents (projectData st')) <= 32)%nat
  /\ exists new,
       emitted st' = emitted st ++ new
       /\ Forall (containsAtMost 33) new
       /\ Forall (fun x => exists i inVs,
                    x = EE {| eid := i;
                              edata := E1N "contains"
                                         (vid (pd_project (projectData st))) inVs |})
            new.
Proof.
  revert st. induction docs as [|d docs IH]; intros st Hb; simpl.
  - split; [done|]. split; [done|]. exists []. by rewrite app_nil_r.
  - unfold bind.
    pose proof (ProjectData_addDocument_step d st) as (Hok & Hproj & Hstep).
    destruct (ProjectData_addDocument d st) as [r st1] eqn:Hrun.
    simpl in Hok, Hproj, Hstep. subst r.
    destruct (length (pd_documents (projectData st)) <? 32)%nat eqn:Hlt.
    + destruct Hstep as [Hem Hdocs]. apply Nat.ltb_lt in Hlt.
      destruct (IH st1) as (Hok' & Hb' & new & Hnew & Hall & Hshape).
      { rewrite Hdocs, length_app; simpl. lia. }
      split; [done|]. split; [done|].
      exists new. rewrite Hnew, Hem. split; [done|]. split; [done|].
      by rewrite <- Hproj.
    + destruct Hstep as [Hem Hdocs]. apply Nat.ltb_ge in Hlt.
      destruct (IH st1) as (Hok' & Hb' & new & Hnew & Hall & Hshape).
      { rewrite Hdocs; simpl. lia. }
      split; [done|]. split; [done|].
      eexists (_ :: new). rewrite Hnew, Hem, <- app_assoc. split; [done|].
      split; constructor; try done.
      * simpl. rewrite length_map, length_app; simpl. lia.
      * eauto.
      * by rewrite <- Hproj.
Qed.

Lemma ProjectData_contains_batches_witness :
  let st := initialState 1 true "/" in
  let docs := map (fun i => sampleDocument (Z.of_nat i) "/d.ts") (seq 100 40) in
  (length (pd_documents (projectData st)) <= 32)%nat
  /\ exists new,
       emitted (snd (forEach docs ProjectData_addDocument st)) = emitted st ++ new
       /\ Forall (containsAtMost 33) new.
Proof.
  intros st docs.
  assert (Hb : (length (pd_documents (projectData st)) <= 32)%nat)
    by (simpl; lia).
  split; [exact Hb|].
  destruct (ProjectData_contains_batches docs st Hb)
    as (_ & _ & new & Hnew & Hall & _).
  exists new. split; assumption.
Defined.

(** C4, the claim as stated fails: the 33rd document added to an empty
    buffer goes out in a [contains] edge that carries 33 documents. *)
Lemma ProjectData_contains_33_counterexample :
  let docs := map (fun i => sampleDocument (Z.of_nat i) "/d.ts") (seq 100 33) in
  exists e inVs,
    emitted (snd (forEach docs ProjectData_addDocument (initialState 1 true "/")))
    = [EE e]
    /\ edata e = E1N "contains" 0 inVs
    /\ length inVs = 33%nat.
Proof. vm_compute. eexists _, _. repeat split. Qed.

(** ** ProjectData.addDocument leaves the document datas alone *)

Lemma ProjectData_addDocument_frame d st :
  documentDatas (snd (ProjectData_addDocument d st)) = documentDatas st
  /\ documentHeap (snd (ProjectData_addDocument d st)) = documentHeap st.
Proof.
  unfold ProjectData_addDocument, ProjectData_update, bind, modify, gets; simpl.
  destruct (32 <? _)%nat; simpl; auto.
Qed.

Lemma lookup_snoc_length {A} (l : list A) x : (l ++ [x]) !! length l = Some x.
Proof. by rewrite lookup_app_r, Nat.sub_diag by lia. Qed.

(** ** Relations that every step of a computation keeps *)

Section Preserves.
Context (R : State -> State -> Prop) `{!PreOrder R}.

Lemma preserves_ret {A} (a : A) : preserves R (ret a).
Proof. intros st. simpl. reflexivity. Qed.

Lemma preserves_throw {A} msg : preserves R (@throw A msg).
Proof. intros st. simpl. reflexivity. Qed.

Lemma preserves_outOfFuel {A} : preserves R (@outOfFuel A).
Proof. intros st. simpl. reflexivity. Qed.

Lemma preserves_gets {A} (f : State -> A) : preserves R (gets f).
Proof. intros st. simpl. reflexivity. Qed.

Lemma preserves_bind {A B} (m : M A) (k : A -> M B) :
  preserves R m -> (forall a, preserves R (k a)) -> preserves R (bind m k).
Proof.
  intros Hm Hk st. unfold bind. specialize (Hm st).
  destruct (m st) as [[a| |] st1]; simpl in *; try done.
  etransitivity; [exact Hm|]. apply Hk.
Qed.

Lemma preserves_forEach {A} (xs : list A) (body : A -> M unit) :
  (forall x, preserves R (body x)) -> preserves R (forEach xs body).
Proof.
  intros Hb. induction xs as [|x xs IH]; simpl.
  - apply preserves_ret.
  - apply preserves_bind; auto.
Qed.

Lemma preserves_mapM {A B} (f : A -> M B) (xs : list A) :
  (forall x, preserves R (f x)) -> preserves R (mapM f xs).
Proof.
  intros Hf. induction xs as [|x xs IH]; simpl.
  - apply preserves_ret.
  - apply preserves_bind; [auto|]. intros y.
    apply preserves_bind; [auto|]. intros ys. apply preserves_ret.
Qed.
End Preserves.

(** Break a computation into its steps. *)
Ltac preserves_steps :=
  repeat
    match goal with
    | |- preserves _ (ret _) => apply preserves_ret; typeclasses eauto
    | |- preserves _ (throw _) => apply preserves_throw; typeclasses eauto
    | |- preserves _ (gets _) => apply preserves_gets; typeclasses eauto
    | |- preserves _ outOfFuel => apply preserves_outOfFuel; typeclasses eauto
    | |- preserves _ (bind _ _) =>
        apply preserves_bind; [typeclasses eauto| |intros ?]
    | |- preserves _ (forEach _ _) =>
        apply preserves_forEach; [typeclasses eauto|intros ?]
    | |- preserves _ (mapM _ _) =>
        apply preserves_mapM; [typeclasses eauto|intros ?]
    | |- preserves _ (match ?x with _ => _ end) => destruct x
    end.

#[global] Instance sameSymbols_preorder : PreOrder sameSymbols.
Proof.
  split.
  - intros st h sd Hh. exists sd. by repeat split.
  - intros a b c Hab Hbc h sd Hh.
    destruct (Hab h sd Hh) as (sd1 & Hsd1 & ? & ? & ? & ? & ?).
    destruct (Hbc h sd1 Hsd1) as (sd2 & Hsd2 & ? & ? & ? & ? & ?).
    exists sd2. repeat split; congruence.
Qed.

Lemma sameSymbols_heap st st' :
  symbolHeap st' = symbolHeap st -> sameSymbols st st'.
Proof. intros Heq h sd Hh. exists sd. rewrite Heq. by repeat split. Qed.

Lemma sameSymbols_update h f :
  (forall sd, partitions (f sd) = partitions sd /\ scope (f sd) = scope sd
              /\ variant (f sd) = variant sd /\ sd_id (f sd) = sd_id sd
              /\ resultSet (f sd) = resultSet sd) ->
  preserves sameSymbols (SymbolData_update h f).
Proof.
  intros Hf st h' sd Hh. simpl.
  destruct (decide (h = h')) as [->|Hne].
  - exists (f sd). rewrite list_lookup_alter_eq, Hh. split; [done|]. apply Hf.
  - exists sd. rewrite list_lookup_alter_ne by done. by repeat split.
Qed.

Lemma sameSymbols_emit x : preserves sameSymbols (emit x).
Proof. intros st. by apply sameSymbols_heap. Qed.

Lemma sameSymbols_freshId : preserves sameSymbols freshId.
Proof. intros st. by apply sameSymbols_heap. Qed.

Lemma sameSymbols_vertex d : preserves sameSymbols (vertex.make d).
Proof. intros st. by apply sameSymbols_heap. Qed.

Lemma sameSymbols_edge d : preserves sameSymbols (edge.make d).
Proof. intros st. by apply sameSymbols_heap. Qed.

Lemma sameSymbols_deref h : preserves sameSymbols (SymbolData_deref h).
Proof.
  intros st. unfold SymbolData_deref. destruct (symbolHeap st !! h); simpl; reflexivity.
Qed.

Lemma sameSymbols_getOrCreateDefinitionResult h :
  preserves sameSymbols (SymbolData_getOrCreateDefinitionResult h).
Proof.
  unfold SymbolData_getOrCreateDefinitionResult,
    StandardSymbolData_getOrCreateDefinitionResult.
  preserves_steps;
    auto using sameSymbols_deref, sameSymbols_emit, sameSymbols_freshId,
      sameSymbols_edge.
  by apply sameSymbols_update.
Qed.

Lemma sameSymbols_getOrCreateReferenceResult h :
  preserves sameSymbols (SymbolData_getOrCreateReferenceResult h).
Proof.
  unfold SymbolData_getOrCreateReferenceResult,
    AliasedSymbolData_getOrCreateReferenceResult,
    StandardSymbolData_getOrCreateReferenceResult.
  preserves_steps;
    auto using sameSymbols_deref, sameSymbols_emit, sameSymbols_freshId,
      sameSymbols_edge.
  all: by apply sameSymbols_update.
Qed.

Lemma sameSymbols_end p : preserves sameSymbols (SymbolDataPartition_end p).
Proof.
  unfold SymbolDataPartition_end.
  preserves_steps;
    auto using sameSymbols_getOrCreateDefinitionResult,
      sameSymbols_getOrCreateReferenceResult, sameSymbols_emit, sameSymbols_freshId.
Qed.

(** ** StandardSymbolData.nodeProcessed *)

Lemma partitionsOf_update st h f sd :
  symbolHeap st !! h = Some sd ->
  partitionsOf (snd (SymbolData_update h f st)) h = Some (partitions (f sd)).
Proof.
  intros Hh. unfold partitionsOf, SymbolData_update, modify.
  cbn [snd]. rewrite symbolHeap_set_symbolHeap, list_lookup_alter_eq, Hh.
  reflexivity.
Qed.

(** Reading through a handle that the heap holds. *)
Lemma run_deref {A} st h sd (k : SymbolData -> M A) :
  symbolHeap st !! h = Some sd -> bind (SymbolData_deref h) k st = k sd st.
Proof. intros Hh. unfold bind, SymbolData_deref. by rewrite Hh. Qed.

Lemma nodeProcessed_cleared st h sd node :
  symbolHeap st !! h = Some sd -> partitions sd = PartitionsNull ->
  exists msg, StandardSymbolData_nodeProcessed h node st = (Throw msg, st).
Proof.
  intros Hh Hp. unfold StandardSymbolData_nodeProcessed, bind, SymbolData_deref.
  rewrite Hh, Hp. eexists. reflexivity.
Qed.

(** C2 (as amended). [nodeProcessed(node)] by the state of [partitions]:
    - no map yet: the call returns [true] and changes nothing, whatever the
      node;
    - cleared: an exception;
    - a map, and [node] is the recorded scope: with exactly one slot, its
      partition is flushed, [partitions] becomes cleared, the call returns
      [true], and every later call raises an exception; with any other
      number of slots, an exception;
    - a map, [node] is not the scope but a source file: when the slot of
      that file holds a live partition, it is flushed, the slot becomes a
      tombstone and the call returns [false]; otherwise an exception;
    - a map and any other node: an exception.
    An exception raised while flushing is passed on. *)
Theorem StandardSymbolData_nodeProcessed_cases (st : State) (h : SymbolDataRef)
    (sd : SymbolData) (node : Node) :
  symbolHeap st !! h = Some sd ->
  let r := StandardSymbolData_nodeProcessed h node st in
  match partitions sd with
  | PartitionsUndefined => r = (Ok true, st)
  | PartitionsNull => exists msg, r = (Throw msg, st)
  | PartitionsMap m =>
      if isScopeOf sd node then
        match m with
        | [(file, slot)] =>
            let f := flushSlot slot st in
            match f.1 with
            | Ok _ =>
                r.1 = Ok true /\ emitted r.2 = emitted f.2
                /\ partitionsOf r.2 h = Some PartitionsNull
                /\ forall node', exists msg,
                     StandardSymbolData_nodeProcessed h node' r.2 = (Throw msg, r.2)
            | Throw msg => r = (Throw msg, f.2)
            | OutOfFuel => r = (OutOfFuel, f.2)
            end
        | _ => exists msg, r = (Throw msg, st)
        end
      else if isSourceFile node then
        match JsMap.get (fileName node) m with
        | Some (Some p) =>
            let f := SymbolDataPartition_end p st in
            match f.1 with
            | Ok _ =>
                r.1 = Ok false /\ emitted r.2 = emitted f.2
                /\ partitionsOf r.2 h
                   = Some (PartitionsMap (JsMap.set (fileName node) None m))
            | Throw msg => r = (Throw msg, f.2)
            | OutOfFuel => r = (OutOfFuel, f.2)
            end
        | _ => exists msg, r = (Throw msg, st)
        end
      else exists msg, r = (Throw msg, st)
  end.
Proof.
  intros Hh. cbv zeta.
  remember (StandardSymbolData_nodeProcessed h node st) as r eqn:Hr.
  unfold StandardSymbolData_nodeProcessed in Hr.
  rewrite (run_deref _ _ _ _ Hh) in Hr. unfold isScopeOf.
  destruct (partitions sd) as [| |m] eqn:Hp;
    [by subst r|subst r; eexists; reflexivity|].
  destruct (match scope sd with Some s => sameNode node s | None => false end).
  - destruct m as [|[file slot] [|]]; try (subst r; eexists; reflexivity).
    cbn [JsMap.size JsMap.values map snd length negb Nat.eqb] in Hr.
    replace (match slot with
             | Some parition => SymbolDataPartition_end parition
             | None => ret tt
             end) with (flushSlot slot) in Hr by (by destruct slot).
    assert (Hsame : sameSymbols st (flushSlot slot st).2).
    { destruct slot; [apply sameSymbols_end|reflexivity]. }
    unfold bind at 1 in Hr.
    destruct (flushSlot slot st) as [[[]| |] st1] eqn:Hf; simpl; try done.
    destruct (Hsame h sd Hh) as (sd1 & Hh1 & _).
    simpl in Hh1. subst r.
    split; [done|]. split; [done|]. split.
    + unfold partitionsOf. cbn. by rewrite list_lookup_alter_eq, Hh1.
    + intros node'. eapply nodeProcessed_cleared.
      * cbn. rewrite list_lookup_alter_eq, Hh1. reflexivity.
      * reflexivity.
  - destruct (isSourceFile node); [|subst r; eexists; reflexivity].
    destruct (JsMap.get (fileName node) m) as [[p|]|] eqn:Hg;
      try (subst r; eexists; reflexivity).
    pose proof (sameSymbols_end p st) as Hsame.
    unfold bind at 1 in Hr.
    destruct (SymbolDataPartition_end p st) as [[[]| |] st1] eqn:Hf; simpl; try done.
    destruct (Hsame h sd Hh) as (sd1 & Hh1 & Hp1 & _). simpl in Hh1. subst r.
    split; [done|]. split; [done|].
    unfold partitionsOf. cbn. rewrite list_lookup_alter_eq, Hh1. cbn.
    unfold setSlot. rewrite Hp1, Hp. reflexivity.
Qed.

Lemma StandardSymbolData_nodeProcessed_cases_witness :
  let st := sampleState [sampleScoped] in
  let r := StandardSymbolData_nodeProcessed 0%nat (sampleFile 1 "/a.ts") st in
  r.1 = Ok true /\ partitionsOf r.2 0%nat = Some PartitionsNull.
Proof.
  pose proof (StandardSymbolData_nodeProcessed_cases
                (sampleState [sampleScoped]) 0%nat sampleScoped
                (sampleFile 1 "/a.ts") eq_refl) as H.
  cbv zeta. split; [exact (proj1 H)|exact (proj1 (proj2 (proj2 H)))].
Defined.

(** C2, the claim as stated fails on a symbol data that has no partition
    yet: a node that is neither its scope nor a source file raises no
    exception, and a source-file node makes the call return [true]. *)
Lemma StandardSymbolData_nodeProcessed_counterexample :
  let sd := sampleSymbolData "s" 5 None StandardV in
  let st := sampleState [sd] in
  isSourceFile (sampleBlock 9) = false
  /\ isScopeOf sd (sampleBlock 9) = false
  /\ StandardSymbolData_nodeProcessed 0%nat (sampleBlock 9) st = (Ok true, st)
  /\ isSourceFile (sampleFile 1 "/a.ts") = true
  /\ StandardSymbolData_nodeProcessed 0%nat (sampleFile 1 "/a.ts") st
     = (Ok true, st).
Proof. repeat split; vm_compute; reflexivity. Qed.

(** ** Running a computation step by step *)

Lemma run_ret {A B} (a : A) (k : A -> M B) st : bind (ret a) k st = k a st.
Proof. reflexivity. Qed.

Lemma run_gets {A B} (f : State -> A) (k : A -> M B) st :
  bind (gets f) k st = k (f st) st.
Proof. reflexivity. Qed.

Lemma run_modify {B} (f : State -> State) (k : unit -> M B) st :
  bind (modify f) k st = k tt (f st).
Proof. reflexivity. Qed.

Lemma run_throw {A B} msg (k : A -> M B) st :
  bind (throw msg) k st = (Throw msg, st).
Proof. reflexivity. Qed.

Lemma run_freshId {B} (k : Id -> M B) st :
  bind freshId k st = k (nextId st) (set_nextId (nextId st + 1) st).
Proof. reflexivity. Qed.

Lemma run_bind {A B C} (m : M A) (k1 : A -> M B) (k2 : B -> M C) st :
  bind (bind m k1) k2 st = bind m (fun x => bind (k1 x) k2) st.
Proof. unfold bind. by destruct (m st) as [[a| |] st1]. Qed.

Lemma run_update {B} h f (k : unit -> M B) st :
  bind (SymbolData_update h f) k st
  = k tt (set_symbolHeap (alter f h (symbolHeap st)) st).
Proof. reflexivity. Qed.

Create Rewrite HintDb run.
#[global] Hint Rewrite @run_ret @run_gets @run_modify @run_throw @run_freshId
  @run_bind @run_update : run.

(** Projections of updated records. *)
Ltac fields :=
  cbn [
    nextId emitSource emitted documentHeap symbolHeap arrayHeap cacheHeap
    projectData documentDatas symbolDatas clearOnNode baseSymbolCache
    baseMemberCache exportedPaths projectRoot rootDir outDir
    dependentOutDirs currentSourceFile _currentDocumentData
    symbolContainer recordDocumentSymbol externalLibraryImports set_nextId
    set_emitted set_documentHeap set_symbolHeap set_arrayHeap
    set_cacheHeap set_projectData set_documentDatas set_symbolDatas
    set_clearOnNode set_baseSymbolCache set_baseMemberCache
    set_exportedPaths set_rootDir set_outDir set_dependentOutDirs
    set_currentSourceFile set_currentDocumentData set_symbolContainer
    set_recordDocumentSymbol set_externalLibraryImports sd_id resultSet
    declarationInfo definitionResult referenceResult partitions scope
    variant with_declarationInfo with_definitionResult
    with_referenceResult with_partitions with_variant sp_symbolData
    sp_document definitionRanges referenceRanges referenceResults
    with_definitionRanges with_referenceRanges with_referenceResults
    dd_document monikerPath externalLibrary dd_ranges dd_diagnostics
    dd_foldingRanges dd_documentSymbols with_dd_ranges with_dd_diagnostics
    with_dd_foldingRanges with_dd_documentSymbols pd_project pd_documents
    pd_diagnostics with_pd_documents with_pd_diagnostics vid vdata eid edata
    fst snd ].
Ltac fields_in H :=
  cbn [
    nextId emitSource emitted documentHeap symbolHeap arrayHeap cacheHeap
    projectData documentDatas symbolDatas clearOnNode baseSymbolCache
    baseMemberCache exportedPaths projectRoot rootDir outDir
    dependentOutDirs currentSourceFile _currentDocumentData
    symbolContainer recordDocumentSymbol externalLibraryImports set_nextId
    set_emitted set_documentHeap set_symbolHeap set_arrayHeap
    set_cacheHeap set_projectData set_documentDatas set_symbolDatas
    set_clearOnNode set_baseSymbolCache set_baseMemberCache
    set_exportedPaths set_rootDir set_outDir set_dependentOutDirs
    set_currentSourceFile set_currentDocumentData set_symbolContainer
    set_recordDocumentSymbol set_externalLibraryImports sd_id resultSet
    declarationInfo definitionResult referenceResult partitions scope
    variant with_declarationInfo with_definitionResult
    with_referenceResult with_partitions with_variant sp_symbolData
    sp_document definitionRanges referenceRanges referenceResults
    with_definitionRanges with_referenceRanges with_referenceResults
    dd_document monikerPath externalLibrary dd_ranges dd_diagnostics
    dd_foldingRanges dd_documentSymbols with_dd_ranges with_dd_diagnostics
    with_dd_foldingRanges with_dd_documentSymbols pd_project pd_documents
    pd_diagnostics with_pd_documents with_pd_diagnostics vid vdata eid edata
    fst snd ] in H.

Ltac run_in H :=
  repeat (progress (autorewrite with run in H; cbn beta iota in H; fields_in H)).
Ltac run := repeat (progress (autorewrite with run; cbn beta iota; fields)).

(** ** StandardSymbolData.getOrCreatePartition *)

(** C3 (as amended). When [getOrCreatePartition(sourceFile)] has to
    construct a partition (the symbol is not cleared and has no slot for the
    file), it needs the DocumentData of the file: without one it throws and
    registers nothing. With one it registers the symbol data in the
    lifecycle map under the source-file node it was given -- not under the
    scope node of the symbol --, stores the new partition, which is bound to
    the document of that DocumentData, and emits nothing. *)
Theorem getOrCreatePartition_new_partition (st : State) (h : SymbolDataRef)
    (sd : SymbolData) (sourceFile : Node) :
  symbolHeap st !! h = Some sd ->
  partitions sd <> PartitionsNull ->
  JsMap.get (fileName sourceFile) (slotsOf (partitions sd)) = None ->
  let r := StandardSymbolData_getOrCreatePartition h sourceFile st in
  match JsMap.get (fileName sourceFile) (documentDatas st) with
  | None =>
      r.1 = Throw ("No document data for " +:+ fileName sourceFile)
      /\ clearOnNode r.2 = clearOnNode st /\ emitted r.2 = emitted st
  | Some None => exists msg, r.1 = Throw msg /\ clearOnNode r.2 = clearOnNode st
  | Some (Some d) =>
      match documentHeap st !! d with
      | None => exists msg, r.1 = Throw msg
      | Some data =>
          r.1 = Ok (h, fileName sourceFile)
          /\ clearOnNode r.2
             = JsMap.set (nodeId sourceFile) (registeredOn st sourceFile ++ [h])
                 (clearOnNode st)
          /\ partitionsOf r.2 h
             = Some (PartitionsMap
                       (JsMap.set (fileName sourceFile)
                          (Some (SymbolDataPartition_new h (dd_document data)))
                          (slotsOf (partitions sd))))
          /\ emitted r.2 = emitted st
      end
  end.
Proof.
  intros Hh Hnn Hslot. cbv zeta.
  remember (StandardSymbolData_getOrCreatePartition h sourceFile st) as r eqn:Hr.
  unfold StandardSymbolData_getOrCreatePartition in Hr.
  rewrite (run_deref _ _ _ _ Hh) in Hr.
  unfold DataManager_getDocumentData, DocumentData_deref,
    DataManager_manageLifeCycle, SymbolDataPartition_begin in Hr.
  unfold registeredOn, partitionsOf.
  destruct (partitions sd) as [| |m] eqn:Hp; [|done|]; simpl in Hslot.
  - run_in Hr. cbn [JsMap.get] in Hr. run_in Hr.
    destruct (JsMap.get (fileName sourceFile) (documentDatas st)) as [[d|]|];
      run_in Hr; [|subst r; eexists; split; reflexivity|by subst r].
    unfold bind at 1 in Hr. cbn in Hr.
    destruct (documentHeap st !! d) as [data|]; run_in Hr; subst r; cbn;
      [|eexists; reflexivity].
    rewrite list_alter_alter_eq, list_lookup_alter_eq, Hh. cbn.
    by repeat split.
  - run_in Hr. rewrite Hslot in Hr. run_in Hr.
    destruct (JsMap.get (fileName sourceFile) (documentDatas st)) as [[d|]|];
      run_in Hr; [|subst r; eexists; split; reflexivity|by subst r].
    unfold bind at 1 in Hr. cbn in Hr.
    destruct (documentHeap st !! d) as [data|]; run_in Hr; subst r; cbn;
      [|eexists; reflexivity].
    rewrite list_lookup_alter_eq, Hh. cbn.
    unfold setSlot. rewrite Hp. by repeat split.
Qed.

Lemma getOrCreatePartition_new_partition_witness :
  let sd := sampleSymbolData "s" 5 (Some (sampleBlock 9)) StandardV in
  let st := sampleState [sd] in
  let r := StandardSymbolData_getOrCreatePartition 0%nat (sampleFile 1 "/a.ts") st in
  r.1 = Ok (0%nat, "/a.ts") /\ clearOnNode r.2 = [(1%nat, [0%nat])].
Proof.
  pose proof (getOrCreatePartition_new_partition
                (sampleState [sampleSymbolData "s" 5 (Some (sampleBlock 9)) StandardV])
                0%nat (sampleSymbolData "s" 5 (Some (sampleBlock 9)) StandardV)
                (sampleFile 1 "/a.ts") eq_refl ltac:(discriminate) eq_refl) as H.
  cbv zeta. split; [exact (proj1 H)|exact (proj1 (proj2 H))].
Defined.

(** C3, the claim as stated fails: the symbol has the scope node 9, the
    partition is constructed for the file node 1, and after the call the
    lifecycle map has an entry for the file node and none for the scope
    node. *)
Lemma getOrCreatePartition_scope_counterexample :
  let sd := sampleSymbolData "s" 5 (Some (sampleBlock 9)) StandardV in
  let st := sampleState [sd] in
  let r := StandardSymbolData_getOrCreatePartition 0%nat (sampleFile 1 "/a.ts") st in
  scope sd = Some (sampleBlock 9)
  /\ r.1 = Ok (0%nat, "/a.ts")
  /\ JsMap.get (nodeId (sampleBlock 9)) (clearOnNode r.2) = None
  /\ JsMap.get (nodeId (sampleFile 1 "/a.ts")) (clearOnNode r.2) = Some [0%nat].
Proof. repeat split; vm_compute; reflexivity. Qed.

(** ** Partitions in the heap *)

Lemma partitionAt_update st h file g :
  forall h' file',
    partitionAt (SymbolDataPartition_update (h, file) g st).2 h' file'
    = if decide (h' = h /\ file' = file)
      then g <$> partitionAt st h' file'
      else partitionAt st h' file'.
Proof.
  intros h' file'. unfold partitionAt, SymbolDataPartition_update.
  cbn [SymbolData_update modify fst snd]. fields.
  destruct (decide (h' = h)) as [->|Hne].
  - rewrite list_lookup_alter_eq.
    destruct (symbolHeap st !! h) as [sd|] eqn:Hh; cbn;
      [|by destruct (decide _)].
    destruct (partitions sd) as [| |m] eqn:Hp; cbn;
      try (rewrite Hp; cbn; by destruct (decide _)).
    destruct (JsMap.get file m) as [[p|]|] eqn:Hg; cbn; rewrite ?Hp; cbn.
    + destruct (decide (file = file')) as [<-|Hf].
      * rewrite JsMap_get_set_eq, Hg. cbn. destruct (decide _) as [|[]]; done.
      * rewrite JsMap_get_set_ne by done.
        destruct (decide _) as [[_ ->]|]; done.
    + destruct (decide _) as [[_ ->]|]; [by rewrite Hg|done].
    + destruct (decide _) as [[_ ->]|]; [by rewrite Hg|done].
  - rewrite list_lookup_alter_ne by done.
    destruct (decide _) as [[-> _]|]; done.
Qed.

(** [getOrCreatePartition], when it returns: the reference it returns, the
    partition it leaves at that reference, and the other partitions. *)
Lemma getOrCreatePartition_ok st st1 h sourceFile r :
  StandardSymbolData_getOrCreatePartition h sourceFile st = (Ok r, st1) ->
  r = (h, fileName sourceFile)
  /\ emitted st1 = emitted st
  /\ (exists p, partitionAt st1 h (fileName sourceFile) = Some p
        /\ match partitionAt st h (fileName sourceFile) with
           | Some p0 => p = p0
           | None => exists document, p = SymbolDataPartition_new h document
           end)
  /\ (forall h' file',
        (h', file') <> (h, fileName sourceFile) ->
        partitionAt st1 h' file' = partitionAt st h' file').
Proof.
  unfold StandardSymbolData_getOrCreatePartition, bind at 1, SymbolData_deref at 1.
  destruct (symbolHeap st !! h) as [sd|] eqn:Hh; [|discriminate].
  unfold DataManager_getDocumentData, DocumentData_deref,
    DataManager_manageLifeCycle, SymbolDataPartition_begin.
  assert (Hother : forall (heap : list SymbolData) h' file',
            heap !! h = Some sd ->
            (h', file') <> (h, fileName sourceFile) ->
            forall p,
            match alter (setSlot (fileName sourceFile) p) h heap !! h' with
            | Some sd0 =>
                match JsMap.get file' (slotsOf (partitions sd0)) with
                | Some (Some q) => Some q
                | _ => None
                end
            | None => None
            end
            = match heap !! h' with
              | Some sd0 =>
                  match JsMap.get file' (slotsOf (partitions sd0)) with
                  | Some (Some q) => Some q
                  | _ => None
                  end
              | None => None
              end).
  { intros heap h' file' Hheap Hne p.
    destruct (decide (h' = h)) as [->|Hh'].
    - rewrite list_lookup_alter_eq, Hheap. cbn [fmap option_fmap option_map].
      unfold setSlot.
      destruct (partitions sd) as [| |m] eqn:Hp0; rewrite ?Hp0; try done.
      fields. cbn [slotsOf].
      rewrite JsMap_get_set_ne; [done|]. congruence.
    - by rewrite list_lookup_alter_ne. }
  destruct (partitions sd) as [| |m] eqn:Hp; [|discriminate|].
  - run. cbn [JsMap.get]. run.
    destruct (JsMap.get (fileName sourceFile) (documentDatas st)) as [[d|]|];
      run; try discriminate.
    unfold bind at 1. fields.
    destruct (documentHeap st !! d) as [data|]; run; [|discriminate].
    intros [= <- <-]. unfold partitionAt. fields.
    rewrite Hh, Hp. cbn [slotsOf JsMap.get].
    split; [done|]. split; [done|]. split.
    + rewrite list_alter_alter_eq, list_lookup_alter_eq, Hh. cbn.
      destruct (decide (fileName sourceFile = fileName sourceFile)); [|done].
      eauto.
    + intros h' file' Hne. rewrite list_alter_alter_eq.
      destruct (decide (h' = h)) as [->|Hh'].
      * rewrite list_lookup_alter_eq, Hh. cbn. rewrite Hp. cbn.
        destruct (decide (file' = fileName sourceFile)); [congruence|done].
      * by rewrite list_lookup_alter_ne.
  - run.
    destruct (JsMap.get (fileName sourceFile) m) as [[p|]|] eqn:Hg; run;
      try discriminate.
    + intros [= <- <-]. unfold partitionAt. rewrite Hh, Hp. cbn. rewrite Hg.
      repeat split; eauto.
    + destruct (JsMap.get (fileName sourceFile) (documentDatas st)) as [[d|]|];
        run; try discriminate.
      unfold bind at 1. fields.
      destruct (documentHeap st !! d) as [data|]; run; [|discriminate].
      intros [= <- <-]. unfold partitionAt. fields.
      rewrite Hh, Hp. cbn [slotsOf]. rewrite Hg.
      split; [done|]. split; [done|]. split.
      * rewrite list_lookup_alter_eq, Hh. cbn. unfold setSlot. rewrite Hp. cbn.
        rewrite JsMap_get_set_eq. eauto.
      * intros h' file' Hne. by apply Hother.
Qed.

(** ** MethodSymbolData.addDefinition *)

Lemma partitionAt_heap st st' :
  symbolHeap st' = symbolHeap st -> partitionAt st' = partitionAt st.
Proof. intros Heq. unfold partitionAt. by rewrite Heq. Qed.

Lemma bucket_addReference value property p :
  label value = "range" ->
  forall property',
    bucket property' (SymbolDataPartition_addReference value (Some property) p)
    = if decide (property' = property)
      then bucket property' p ++ [value]
      else bucket property' p.
Proof.
  intros Hl property'. unfold SymbolDataPartition_addReference, bucket.
  rewrite Hl.
  replace (bool_decide ("range" = "range")) with true by reflexivity. fields.
  destruct (decide (property' = property)) as [->|Hne].
  - rewrite JsMap_get_set_eq. by destruct (referenceRanges p).
  - rewrite JsMap_get_set_ne by done. by destruct (referenceRanges p).
Qed.

Lemma definitionsOf_addReference value property p :
  definitionsOf (SymbolDataPartition_addReference value property p)
  = definitionsOf p.
Proof.
  unfold SymbolDataPartition_addReference.
  destruct (bool_decide (label value = "range")), property,
    (bool_decide (label value = "referenceResult")); reflexivity.
Qed.

Lemma definitionsOf_addDefinition value flag p :
  definitionsOf (SymbolDataPartition_addDefinition value flag p)
  = definitionsOf p ++ [value].
Proof.
  unfold SymbolDataPartition_addDefinition.
  destruct flag; rewrite ?definitionsOf_addReference; reflexivity.
Qed.

Lemma bucket_addDefinition value flag p :
  label value = "range" ->
  forall property,
    bucket property (SymbolDataPartition_addDefinition value flag p)
    = if flag && bool_decide (property = ItemEdgeProperties.definitions)
      then bucket property p ++ [value]
      else bucket property p.
Proof.
  intros Hl property. unfold SymbolDataPartition_addDefinition.
  destruct flag; cbn [andb]; [|reflexivity].
  rewrite bucket_addReference by done.
  destruct (decide _); [by rewrite bool_decide_true|by rewrite bool_decide_false].
Qed.

#[global] Instance partitionsGrow_preorder : PreOrder partitionsGrow.
Proof.
  split.
  - intros st h file p Hp. eauto.
  - intros a b c Hab Hbc h file p Hp.
    destruct (Hab _ _ _ Hp) as (p1 & Hp1 & Hd1 & Hb1).
    destruct (Hbc _ _ _ Hp1) as (p2 & Hp2 & Hd2 & Hb2).
    exists p2. split; [done|]. split; [congruence|]. eauto.
Qed.

(** One base of [MethodSymbolData.addDefinition]. *)
Lemma addToBase_ok definition sourceFile base st st' :
  label definition = "range" ->
  (do r <- SymbolData_getOrCreatePartition base sourceFile;
   SymbolDataPartition_update r
     (SymbolDataPartition_addReference definition
        (Some ItemEdgeProperties.definitions))) st = (Ok tt, st') ->
  (exists p, partitionAt st' base (fileName sourceFile) = Some p
     /\ In definition (bucket ItemEdgeProperties.definitions p))
  /\ partitionsGrow st st'.
Proof.
  intros Hl. unfold bind, SymbolData_getOrCreatePartition.
  destruct (StandardSymbolData_getOrCreatePartition base sourceFile st)
    as [[r| |] st1] eqn:Hg; try discriminate.
  apply getOrCreatePartition_ok in Hg as (-> & _ & (p & Hp & Hold) & Hother).
  intros Hu.
  assert (Hst' : st' = (SymbolDataPartition_update (base, fileName sourceFile)
             (SymbolDataPartition_addReference definition
                (Some ItemEdgeProperties.definitions)) st1).2) by (by rewrite Hu).
  clear Hu. split.
  - exists (SymbolDataPartition_addReference definition
              (Some ItemEdgeProperties.definitions) p).
    split.
    + rewrite Hst', partitionAt_update, decide_True, Hp by done. reflexivity.
    + rewrite bucket_addReference, decide_True by done.
      apply in_or_app. right. by left.
  - intros h file q Hq. rewrite Hst', partitionAt_update.
    destruct (decide (h = base /\ file = fileName sourceFile)) as [[-> ->]|Hne].
    + rewrite Hq in Hold. subst q. rewrite Hp. cbn.
      eexists. split; [done|]. split; [apply definitionsOf_addReference|].
      intros property v Hv. rewrite bucket_addReference by done.
      destruct (decide _); [apply in_or_app|]; auto.
    + rewrite Hother, Hq by (intros [= -> ->]; tauto). eauto.
Qed.

Lemma addToBases_ok definition sourceFile bases : forall st st',
  label definition = "range" ->
  addToBases (Some bases) sourceFile definition st = (Ok tt, st') ->
  (forall base, In base bases ->
     exists p, partitionAt st' base (fileName sourceFile) = Some p
       /\ In definition (bucket ItemEdgeProperties.definitions p))
  /\ partitionsGrow st st'.
Proof.
  unfold addToBases.
  induction bases as [|b bases IH]; intros st st' Hl; cbn [forEach].
  - intros [= <-]. split; [intros ? []|reflexivity].
  - unfold bind at 1.
    match goal with
    | |- context [bind ?m ?k st] =>
        destruct (bind m k st) as [[[]| |] st1] eqn:Hstep; try discriminate
    end.
    apply addToBase_ok in Hstep as ((p & Hp & Hin) & Hgrow1); [|done].
    intros Hrest. apply IH in Hrest as (Hall & Hgrow2); [|done].
    split; [|by etransitivity].
    intros base [<-|Hbase]; [|by apply Hall].
    destruct (Hgrow2 _ _ _ Hp) as (p' & Hp' & _ & Hb). eauto.
Qed.

(** The standard part of [addDefinition]. *)
Lemma StandardSymbolData_addDefinition_ok h sourceFile definition flag st st' :
  label definition = "range" ->
  StandardSymbolData_addDefinition h sourceFile definition flag st = (Ok tt, st') ->
  exists p0,
    match partitionAt st h (fileName sourceFile) with
    | Some p => p0 = p
    | None => exists document, p0 = SymbolDataPartition_new h document
    end
    /\ partitionAt st' h (fileName sourceFile)
       = Some (SymbolDataPartition_addDefinition definition flag p0)
    /\ forall h' file',
         (h', file') <> (h, fileName sourceFile) ->
         partitionAt st' h' file' = partitionAt st h' file'.
Proof.
  intros Hl. unfold StandardSymbolData_addDefinition, bind at 1, SymbolData_deref at 1.
  destruct (symbolHeap st !! h) as [sd|] eqn:Hh; [|discriminate].
  unfold edge.next, edge.make, emit. run.
  match goal with
  | |- context [bind _ _ ?s] => set (st0 := s)
  end.
  assert (Hst0 : partitionAt st0 = partitionAt st) by (by apply partitionAt_heap).
  unfold bind.
  destruct (StandardSymbolData_getOrCreatePartition h sourceFile st0)
    as [[r| |] st1] eqn:Hg; try discriminate.
  apply getOrCreatePartition_ok in Hg as (-> & _ & (p & Hp & Hold) & Hother).
  intros Hu.
  assert (Hst' : st' = (SymbolDataPartition_update (h, fileName sourceFile)
             (SymbolDataPartition_addDefinition definition flag) st1).2)
    by (by rewrite Hu).
  clear Hu. rewrite Hst0 in Hold. exists p. split.
  - destruct (partitionAt st h (fileName sourceFile)); done.
  - split.
    + rewrite Hst', partitionAt_update, decide_True, Hp by done. reflexivity.
    + intros h' file' Hne. rewrite Hst', partitionAt_update, decide_False.
      * rewrite Hother by done. by rewrite Hst0.
      * intros [-> ->]. done.
Qed.

(** C5. [MethodSymbolData.addDefinition(file, defRange)]. The constructor
    keeps a non-empty list of bases and turns an empty one into an absent
    one. The method runs the standard [addDefinition] with
    [recordAsReference = (bases === undefined)], so [false] when there are
    bases; the standard part appends the range to the definition ranges of
    the method's own partition and files it under [definitions] there
    exactly when [recordAsReference] is [true]. Then the range goes to the
    partition for that file of every base, under [definitions]. *)
Theorem MethodSymbolData_addDefinition_spec (st : State) (h : SymbolDataRef)
    (sd : SymbolData) (ownFile : option Node)
    (bases : option (list SymbolDataRef)) (sourceFile : Node)
    (definition : Vertex) :
  symbolHeap st !! h = Some sd ->
  variant sd = MethodV ownFile bases ->
  label definition = "range" ->
  let recordAsReference := match bases with None => true | Some _ => false end in
  let file := fileName sourceFile in
  SymbolData_addDefinition h sourceFile definition st
  = (do _ <- StandardSymbolData_addDefinition h sourceFile definition
               recordAsReference;
     addToBases bases sourceFile definition) st
  /\ (forall st1,
        StandardSymbolData_addDefinition h sourceFile definition
          recordAsReference st = (Ok tt, st1) ->
        exists p0 p1,
          match partitionAt st h file with
          | Some p => p0 = p
          | None => exists document, p0 = SymbolDataPartition_new h document
          end
          /\ partitionAt st1 h file = Some p1
          /\ definitionsOf p1 = definitionsOf p0 ++ [definition]
          /\ bucket ItemEdgeProperties.definitions p1
             = if recordAsReference
               then bucket ItemEdgeProperties.definitions p0 ++ [definition]
               else bucket ItemEdgeProperties.definitions p0)
  /\ (forall st',
        SymbolData_addDefinition h sourceFile definition st = (Ok tt, st') ->
        (exists p, partitionAt st' h file = Some p
           /\ In definition (definitionsOf p))
        /\ forall base, In base (default [] bases) ->
             exists p, partitionAt st' base file = Some p
               /\ In definition (bucket ItemEdgeProperties.definitions p))
  /\ (forall id ownFile' bases' scope' st0,
        exists data,
          (MethodSymbolData_new id ownFile' bases' scope' st0).1 = Ok data
          /\ variant data
             = MethodV (Some ownFile')
                 (match bases' with Some [] => None | _ => bases' end)).
Proof.
  intros Hh Hv Hl recordAsReference file.
  assert (Hdel : SymbolData_addDefinition h sourceFile definition st
    = (do _ <- StandardSymbolData_addDefinition h sourceFile definition
                 recordAsReference;
       addToBases bases sourceFile definition) st).
  { unfold SymbolData_addDefinition. rewrite (run_deref _ _ _ _ Hh), Hv.
    unfold MethodSymbolData_addDefinition, addToBases. reflexivity. }
  split; [exact Hdel|]. split; [|split].
  - intros st1 Hstd.
    apply StandardSymbolData_addDefinition_ok in Hstd as (p0 & Hp0 & Hp1 & _);
      [|done].
    exists p0, (SymbolDataPartition_addDefinition definition recordAsReference p0).
    split; [exact Hp0|]. split; [exact Hp1|].
    split; [apply definitionsOf_addDefinition|].
    rewrite bucket_addDefinition by done.
    by destruct recordAsReference.
  - intros st'. rewrite Hdel. unfold bind.
    destruct (StandardSymbolData_addDefinition h sourceFile definition
                recordAsReference st) as [[[]| |] st1] eqn:Hstd; try discriminate.
    apply StandardSymbolData_addDefinition_ok in Hstd as (p0 & _ & Hp1 & _);
      [|done].
    intros Hbases.
    assert (Hgrow : partitionsGrow st1 st'
                    /\ forall base, In base (default [] bases) ->
                         exists p, partitionAt st' base file = Some p
                           /\ In definition (bucket ItemEdgeProperties.definitions p)).
    { destruct bases as [bs|].
      - apply addToBases_ok in Hbases as [Hall Hgrow]; [|done]. by split.
      - cbn in Hbases. injection Hbases as <-. split; [reflexivity|intros ? []]. }
    destruct Hgrow as [Hgrow Hall]. split; [|exact Hall].
    destruct (Hgrow _ _ _ Hp1) as (p' & Hp' & Hd & _).
    exists p'. split; [done|]. rewrite Hd, definitionsOf_addDefinition.
    apply in_or_app. right. by left.
  - intros id ownFile' bases' scope' st0. eexists. split; reflexivity.
Qed.

Lemma MethodSymbolData_addDefinition_spec_witness :
  let base := sampleSymbolData "C.m" 4 None StandardV in
  let method := sampleSymbolData "D.m" 5 None (MethodV None (Some [0%nat])) in
  let st := sampleState [base; method] in
  let file := sampleFile 1 "/a.ts" in
  let st' := (SymbolData_addDefinition 1%nat file sampleRange st).2 in
  SymbolData_addDefinition 1%nat file sampleRange st = (Ok tt, st')
  /\ (exists p, partitionAt st' 1%nat "/a.ts" = Some p
        /\ In sampleRange (definitionsOf p))
  /\ exists p, partitionAt st' 0%nat "/a.ts" = Some p
       /\ In sampleRange (bucket ItemEdgeProperties.definitions p).
Proof.
  cbv zeta.
  set (st := sampleState _). set (file := sampleFile 1 "/a.ts").
  assert (Hrun : SymbolData_addDefinition 1%nat file sampleRange st
                 = (Ok tt, (SymbolData_addDefinition 1%nat file sampleRange st).2))
    by (vm_compute; reflexivity).
  split; [exact Hrun|].
  destruct (MethodSymbolData_addDefinition_spec st 1%nat
              (sampleSymbolData "D.m" 5 None (MethodV None (Some [0%nat])))
              None (Some [0%nat]) file sampleRange eq_refl eq_refl eq_refl)
    as (_ & _ & Heffect & _).
  destruct (Heffect _ Hrun) as [Hown Hbases].
  split; [exact Hown|]. apply Hbases. by left.
Defined.

(** ** Symbols.findBaseMembers *)

(** C6, on the sample program: the results of [findBaseMembers] are not
    stable within a run. The lookup for B1 returns [A.m]. The lookup for T1
    takes the array cached for B1 as its own result and pushes [B2.m] onto
    it. From then on the lookup for B1 returns [A.m; B2.m], and so does the
    lookup for T2, which extends B1 only and has nothing to do with B2. *)
Theorem findBaseMembers_not_stable :
  lookupAfter [] 2%nat = Ok (Some [11%nat])
  /\ lookupAfter [2%nat] 4%nat = Ok (Some [11%nat; 13%nat])
  /\ lookupAfter [2%nat; 4%nat] 2%nat = Ok (Some [11%nat; 13%nat])
  /\ lookupAfter [] 5%nat = Ok (Some [11%nat])
  /\ lookupAfter [4%nat] 5%nat = Ok (Some [11%nat; 13%nat]).
Proof. repeat split; vm_compute; reflexivity. Qed.

(** ** Paths and ignored files *)

Lemma skipSeps_length l : (length (posix.skipSeps l) <= length l)%nat.
Proof. induction l as [|c l IH]; simpl; [lia|]. destruct (posix.isSep c); simpl; lia. Qed.

Lemma skipName_length l : (length (posix.skipName l) <= length l)%nat.
Proof. induction l as [|c l IH]; simpl; [lia|]. destruct (posix.isSep c); simpl; lia. Qed.

Lemma skipSeps_head l c l' : posix.skipSeps l = c :: l' -> posix.isSep c = false.
Proof.
  induction l as [|c0 l IH]; simpl; [discriminate|].
  destruct (posix.isSep c0) eqn:Hc; [auto|]. congruence.
Qed.

(** A step to the parent directory ends in [.] or [/] or shortens the path. *)
Lemma dirname_cases path :
  posix.dirname path = ["."%char] \/ posix.dirname path = ["/"%char]
  \/ (length (posix.dirname path) < length path)%nat.
Proof.
  destruct path as [|first rest]; [by left|]. unfold posix.dirname.
  destruct (posix.skipName (posix.skipSeps (rev rest))) as [|s before] eqn:Hskip.
  { destruct (posix.isSep first); auto. }
  right. right.
  pose proof (skipName_length (posix.skipSeps (rev rest))) as H1.
  pose proof (skipSeps_length (rev rest)) as H2.
  rewrite Hskip in H1. rewrite length_rev in H2. cbn [length] in H1.
  destruct (posix.isSep first && Nat.eqb (length before) 0) eqn:Hroot.
  - apply andb_true_iff in Hroot as [_ Hb]. apply Nat.eqb_eq in Hb.
    destruct (posix.skipSeps (rev rest)) as [|c r1] eqn:Hr1; [discriminate|].
    apply skipSeps_head in Hr1 as Hc. simpl in Hskip. rewrite Hc in Hskip.
    pose proof (skipName_length r1) as H3. rewrite Hskip in H3.
    cbn [length] in *. lia.
  - cbn [length]. rewrite length_rev. lia.
Qed.

Lemma dirname_dot : posix.dirname ["."%char] = ["."%char].
Proof. reflexivity. Qed.

Lemma dirname_root : posix.dirname ["/"%char] = ["/"%char].
Proof. reflexivity. Qed.

(** The loop over the ancestors ends within the fuel it is given. *)
Lemma underNodeModules_total fuel : forall dirName,
  (length dirName + 2 <= fuel)%nat -> is_Some (underNodeModules fuel dirName).
Proof.
  induction fuel as [|fuel IH]; intros dirName Hlen; [lia|]. simpl.
  destruct (bool_decide _); [eauto|].
  destruct (bool_decide _); [eauto|].
  destruct (dirname_cases dirName) as [->|[->|Hlt]].
  - destruct fuel; [simpl in Hlen; lia|]. by eexists.
  - destruct fuel; [simpl in Hlen; lia|]. by eexists.
  - apply IH. lia.
Qed.

Lemma ancestor_fixpoint k path :
  posix.dirname path = path -> ancestor k path = path.
Proof.
  intros Hfix. unfold ancestor. induction k as [|k IH]; simpl; [done|].
  by rewrite IH.
Qed.

Lemma ancestor_succ k path :
  ancestor (S k) path = ancestor k (posix.dirname path).
Proof. unfold ancestor. apply Nat.iter_succ_r. Qed.

(** The loop answers whether the directory or one of its ancestors is
    named [node_modules]. *)
Lemma underNodeModules_spec fuel : forall dirName b,
  underNodeModules fuel dirName = Some b ->
  b = true <->
  exists k, posix.basename (ancestor k dirName) = chars "node_modules".
Proof.
  induction fuel as [|fuel IH]; intros dirName b; simpl; [discriminate|].
  destruct (bool_decide _) eqn:Hname.
  - apply bool_decide_eq_true in Hname. intros [= <-].
    split; [|done]. intros _. by exists 0%nat.
  - apply bool_decide_eq_false in Hname.
    destruct (bool_decide (posix.dirname dirName = dirName)) eqn:Hfix.
    + apply bool_decide_eq_true in Hfix. intros [= <-].
      split; [done|]. intros [k Hk]. by rewrite ancestor_fixpoint in Hk.
    + intros Hrec. rewrite (IH _ _ Hrec). split.
      * intros [k Hk]. exists (S k). by rewrite ancestor_succ.
      * intros [[|k] Hk]; [done|]. exists k. by rewrite <- ancestor_succ.
Qed.

Lemma isFullContentIgnored_total sourceFile :
  is_Some (Visitor_isFullContentIgnored sourceFile).
Proof.
  unfold Visitor_isFullContentIgnored.
  destruct (isDeclarationFile sourceFile); [eauto|].
  destruct (bool_decide _); [eauto|].
  destruct (negb _); [eauto|].
  apply underNodeModules_total.
  destruct (dirname_cases (chars (fileName sourceFile))) as [->|[->|Hlt]];
    simpl; lia.
Qed.

(** The decision of [isFullContentIgnored], as a proposition: a declaration
    file, or a [.js] file other than [index.js] with an ancestor directory
    named [node_modules]. *)
Lemma isFullContentIgnored_iff sourceFile :
  let path := chars (fileName sourceFile) in
  Visitor_isFullContentIgnored sourceFile = Some true <->
  isDeclarationFile sourceFile = true
  \/ (posix.extname path = chars ".js"
      /\ posix.basename path <> chars "index.js"
      /\ exists k, posix.basename (ancestor (S k) path) = chars "node_modules").
Proof.
  cbv zeta. unfold Visitor_isFullContentIgnored.
  destruct (isDeclarationFile sourceFile) eqn:Hdecl; [by intuition|].
  destruct (bool_decide (posix.basename _ = chars "index.js")) eqn:Hindex.
  { apply bool_decide_eq_true in Hindex. split; [done|].
    intros [|(_ & Hne & _)]; done. }
  apply bool_decide_eq_false in Hindex.
  destruct (bool_decide (posix.extname _ = chars ".js")) eqn:Hext; cbn [negb].
  2: { apply bool_decide_eq_false in Hext. split; [done|].
       intros [|(He & _)]; done. }
  apply bool_decide_eq_true in Hext.
  destruct (underNodeModules _ _) as [b|] eqn:Hloop.
  - pose proof (underNodeModules_spec _ _ _ Hloop) as Hspec. split.
    + intros [= ->]. right. split; [done|]. split; [done|].
      destruct (proj1 Hspec eq_refl) as [k Hk].
      exists k. by rewrite ancestor_succ.
    + intros [|(_ & _ & k & Hk)]; [done|]. f_equal. apply Hspec.
      exists k. by rewrite <- ancestor_succ.
  - pose proof (isFullContentIgnored_total sourceFile) as [b Hb].
    unfold Visitor_isFullContentIgnored in Hb. rewrite Hdecl in Hb.
    rewrite bool_decide_eq_false_2 in Hb by done.
    rewrite bool_decide_eq_true_2 in Hb by done. cbn [negb] in Hb. congruence.
Qed.

(** ** The order of the emission *)

Lemma known_app_l trace new i : known trace i -> known (trace ++ new) i.
Proof. intros (v & Hin & Hv). exists v. split; [apply in_or_app; by left|done]. Qed.

Lemma known_snoc trace v : known (trace ++ [EV v]) (vid v).
Proof. exists v. split; [apply in_or_app; right; by left|done]. Qed.

Lemma wfTrace_bound trace : wfTrace trace ->
  forall i j a b, (i < j)%nat -> trace !! i = Some a -> trace !! j = Some b ->
    elementId a < elementId b.
Proof.
  induction 1 as [|trace x Hwf IH Hlt Hrefs]; intros i j a b Hij Ha Hb.
  - by rewrite lookup_nil in Ha.
  - destruct (decide (j < length trace)%nat) as [Hj|Hj].
    + rewrite lookup_app_l in Ha, Hb by lia. eauto.
    + assert (Hlen : (j < length (trace ++ [x]))%nat) by (by eapply lookup_lt_Some).
      rewrite length_app in Hlen. simpl in Hlen.
      assert (j = length trace) as -> by lia.
      rewrite lookup_snoc_length in Hb. injection Hb as <-.
      rewrite lookup_app_l in Ha by lia.
      apply Hlt. eapply list_elem_of_In, list_elem_of_lookup_2, Ha.
Qed.

Lemma known_lookup trace r :
  known trace r ->
  exists k v, (k < length trace)%nat /\ trace !! k = Some (EV v) /\ vid v = r.
Proof.
  intros (v & Hin & Hv). apply list_elem_of_In, list_elem_of_lookup_1 in Hin as [k Hk].
  exists k, v. split; [by eapply lookup_lt_Some|done].
Qed.

Lemma wfTrace_refs trace : wfTrace trace -> referencesEmittedBefore trace.
Proof.
  induction 1 as [|trace x Hwf IH Hlt Hrefs]; intros j b Hb r Hr.
  - by rewrite lookup_nil in Hb.
  - destruct (decide (j < length trace)%nat) as [Hj|Hj].
    + rewrite lookup_app_l in Hb by lia.
      destruct (IH _ _ Hb _ Hr) as (k & v & Hk & Hv & Hid).
      exists k, v. split; [done|]. split; [|done].
      rewrite lookup_app_l by lia. done.
    + assert (Hlen : (j < length (trace ++ [x]))%nat) by (by eapply lookup_lt_Some).
      rewrite length_app in Hlen. simpl in Hlen.
      assert (j = length trace) as -> by lia.
      rewrite lookup_snoc_length in Hb. injection Hb as <-.
      destruct (known_lookup _ _ (Hrefs _ Hr)) as (k & v & Hk & Hv & Hid).
      exists k, v. split; [done|]. split; [|done].
      by rewrite lookup_app_l.
Qed.

Lemma wfTrace_ordered trace : wfTrace trace -> orderedTrace trace.
Proof.
  intros Hwf. split; [exact (wfTrace_bound _ Hwf)|exact (wfTrace_refs _ Hwf)].
Qed.

(** ** The invariant under more known ids *)

Lemma okPartition_mono (K K' : Id -> Prop) p :
  (forall i, K i -> K' i) -> okPartition K p -> okPartition K' p.
Proof. intros HK (H1 & H2 & H3 & H4). repeat split; eauto. Qed.

Lemma okPartitions_mono (K K' : Id -> Prop) ps :
  (forall i, K i -> K' i) -> okPartitions K ps -> okPartitions K' ps.
Proof. intros HK Hok file p Hp. eapply okPartition_mono; eauto. Qed.

Lemma okSymbol_mono (K K' : Id -> Prop) sd :
  (forall i, K i -> K' i) -> okSymbol K sd -> okSymbol K' sd.
Proof.
  intros HK (H1 & H2 & H3 & H4).
  split; [auto|]. split; [eauto|]. split; [eauto|].
  eapply okPartitions_mono; eauto.
Qed.

Lemma okDocument_mono (K K' : Id -> Prop) data :
  (forall i, K i -> K' i) -> okDocument K data -> okDocument K' data.
Proof. intros HK (H1 & H2). split; eauto. Qed.

Lemma okProject_mono (K K' : Id -> Prop) data :
  (forall i, K i -> K' i) -> okProject K data -> okProject K' data.
Proof. intros HK (H1 & H2). split; eauto. Qed.

(** ** The rules of the triples *)

#[global] Instance extends_preorder : PreOrder extends.
Proof.
  split.
  - intros st. exists []. by rewrite app_nil_r.
  - intros a b c [n1 H1] [n2 H2]. exists (n1 ++ n2).
    by rewrite H2, H1, app_assoc.
Qed.

Lemma knownIn_stable i : stable (knownIn i).
Proof. intros st st' [new Hnew]. unfold knownIn. rewrite Hnew. apply known_app_l. Qed.

Lemma stable_and F G : stable F -> stable G -> stable (fun st => F st /\ G st).
Proof. intros HF HG st st' Hext [? ?]. split; eauto. Qed.

Lemma stable_pure (P : Prop) : stable (fun _ => P).
Proof. intros st st' _ HP. exact HP. Qed.

Lemma triple_ret {A} (P : State -> Prop) (a : A) (Q : A -> State -> Prop) :
  (forall st, P st -> Q a st) -> triple P (ret a) Q.
Proof.
  intros HPQ st Hinv HP. simpl. split; [done|]. split; [reflexivity|].
  intros a' [= <-]. auto.
Qed.

Lemma triple_throw {A} (P : State -> Prop) msg (Q : A -> State -> Prop) :
  triple P (throw msg) Q.
Proof. intros st Hinv HP. simpl. split; [done|]. split; [reflexivity|done]. Qed.

Lemma triple_outOfFuel {A} (P : State -> Prop) (Q : A -> State -> Prop) :
  triple P outOfFuel Q.
Proof. intros st Hinv HP. simpl. split; [done|]. split; [reflexivity|done]. Qed.

Lemma triple_gets {A} (P : State -> Prop) (f : State -> A)
    (Q : A -> State -> Prop) :
  (forall st, P st -> Q (f st) st) -> triple P (gets f) Q.
Proof.
  intros HPQ st Hinv HP. simpl. split; [done|]. split; [reflexivity|].
  intros a' [= <-]. auto.
Qed.

Lemma triple_bind {A B} (P : State -> Prop) (m : M A) (Q : A -> State -> Prop)
    (k : A -> M B) (R : B -> State -> Prop) :
  triple P m Q -> (forall a, triple (Q a) (k a) R) -> triple P (bind m k) R.
Proof.
  intros Hm Hk st Hinv HP. unfold bind.
  destruct (Hm st Hinv HP) as (Hinv1 & Hext1 & HQ).
  destruct (m st) as [[a| |] st1]; simpl in *; try done.
  destruct (Hk a st1 Hinv1 (HQ a eq_refl)) as (Hinv2 & Hext2 & HR).
  split; [done|]. split; [by etransitivity|done].
Qed.

Lemma triple_conseq {A} (P P' : State -> Prop) (m : M A)
    (Q Q' : A -> State -> Prop) :
  triple P' m Q' -> (forall st, P st -> P' st) ->
  (forall a st, Q' a st -> Q a st) -> triple P m Q.
Proof.
  intros Hm HP HQ st Hinv Hpre.
  destruct (Hm st Hinv (HP _ Hpre)) as (? & ? & ?). eauto.
Qed.

Lemma triple_pre {A} (P P' : State -> Prop) (m : M A) (Q : A -> State -> Prop) :
  triple P' m Q -> (forall st, P st -> P' st) -> triple P m Q.
Proof. intros Hm HP. eapply triple_conseq; eauto. Qed.

Lemma triple_post {A} (P : State -> Prop) (m : M A) (Q Q' : A -> State -> Prop) :
  triple P m Q' -> (forall a st, Q' a st -> Q a st) -> triple P m Q.
Proof. intros Hm HQ. eapply triple_conseq; eauto. Qed.

(** A stable assertion can be carried over any computation. *)
Lemma triple_frame {A} (F P : State -> Prop) (m : M A) (Q : A -> State -> Prop) :
  stable F -> triple P m Q ->
  triple (fun st => P st /\ F st) m (fun a st => Q a st /\ F st).
Proof.
  intros HF Hm st Hinv [HP HFst].
  destruct (Hm st Hinv HP) as (? & ? & ?). split; [done|]. split; [done|].
  intros a Ha. split; [auto|]. eapply HF; eauto.
Qed.

(** A hypothesis that does not depend on the state can be taken out. *)
Lemma triple_pure {A} (fact : Prop) (P : State -> Prop) (m : M A)
    (Q : A -> State -> Prop) :
  (fact -> triple P m Q) -> triple (fun st => P st /\ fact) m Q.
Proof. intros Hm st Hinv [HP Hfact]. by apply Hm. Qed.

Lemma triple_forEach {A} (F : State -> Prop) (xs : list A) (body : A -> M unit) :
  (forall x, In x xs -> triple F (body x) (fun _ => F)) ->
  triple F (forEach xs body) (fun _ => F).
Proof.
  induction xs as [|x xs IH]; intros Hbody; simpl.
  - by apply triple_ret.
  - eapply triple_bind; [apply Hbody; by left|].
    intros []. apply IH. intros y Hy. apply Hbody. by right.
Qed.

Lemma triple_mapM {A B} (F : State -> Prop) (f : A -> M B) (xs : list A) :
  (forall x, triple F (f x) (fun _ => F)) ->
  triple F (mapM f xs) (fun _ => F).
Proof.
  intros Hf. induction xs as [|x xs IH]; simpl.
  - by apply triple_ret.
  - eapply triple_bind; [apply Hf|]. intros y.
    eapply triple_bind; [apply IH|]. intros ys. by apply triple_ret.
Qed.

(** ** Computations that leave the trace and the heaps alone *)

#[global] Instance sameCore_preorder : PreOrder sameCore.
Proof.
  split.
  - intros st. by repeat split.
  - intros a b c (H1 & H2 & H3 & H4 & H5) (H1' & H2' & H3' & H4' & H5').
    repeat split; congruence.
Qed.

Lemma Inv_sameCore st st' : sameCore st st' -> Inv st -> Inv st'.
Proof.
  intros (H1 & H2 & H3 & H4 & H5) Hinv. unfold Inv.
  rewrite H1, H2, H3, H4, H5. exact Hinv.
Qed.

Lemma extends_sameCore st st' : sameCore st st' -> extends st st'.
Proof. intros (H1 & _). exists []. by rewrite app_nil_r. Qed.

Lemma knownIn_coreOnly i : coreOnly (knownIn i).
Proof. intros st st' (H1 & _). unfold knownIn. by rewrite H1. Qed.

Lemma freshVertex_coreOnly v : coreOnly (freshVertex v).
Proof. intros st st' (H1 & H2 & _). unfold freshVertex. by rewrite H1, H2. Qed.

Lemma newSymbolData_coreOnly data : coreOnly (newSymbolData data).
Proof.
  intros st st' Hcore (H1 & H2). split; [|done].
  eapply freshVertex_coreOnly; eauto.
Qed.

Lemma coreOnly_and F G : coreOnly F -> coreOnly G -> coreOnly (fun st => F st /\ G st).
Proof. intros HF HG st st' Hcore [? ?]. split; eauto. Qed.

Lemma coreOnly_pure (P : Prop) : coreOnly (fun _ => P).
Proof. intros st st' _ HP. exact HP. Qed.

Lemma triple_silent {A} (F : State -> Prop) (m : M A) :
  coreOnly F -> silent m -> triple F m (fun _ => F).
Proof.
  intros HF Hm st Hinv HFst. specialize (Hm st).
  split; [by eapply Inv_sameCore|]. split; [by apply extends_sameCore|].
  intros a _. eapply HF; eauto.
Qed.

Lemma silent_preserves {A} (m : M A) : silent m <-> preserves sameCore m.
Proof. reflexivity. Qed.

(** ** The invariant, one state change at a time *)

Lemma Inv_emit st x :
  Inv st ->
  (forall y, In y (emitted st) -> elementId y < elementId x) ->
  elementId x < nextId st ->
  (forall r, In r (referencedIds x) -> known (emitted st) r) ->
  Inv (set_emitted (emitted st ++ [x]) st).
Proof.
  intros (Hwf & Hlt & Hsym & Hdoc & Hproj) Hnew Hid Hrefs.
  unfold Inv. fields. split; [by constructor|]. split.
  - intros y [Hy| [<-|[]]]%in_app_or; auto.
  - split; [|split].
    + eapply Forall_impl; [exact Hsym|]. intros sd.
      apply okSymbol_mono, known_app_l.
    + eapply Forall_impl; [exact Hdoc|]. intros data.
      apply okDocument_mono, known_app_l.
    + eapply okProject_mono; [|exact Hproj]. apply known_app_l.
Qed.

Lemma Inv_nextId st n : Inv st -> nextId st <= n -> Inv (set_nextId n st).
Proof.
  intros (Hwf & Hlt & Hrest) Hn. unfold Inv. fields.
  split; [done|]. split; [|done]. intros x Hx. specialize (Hlt x Hx). lia.
Qed.

Lemma Inv_alloc_symbol st data :
  Inv st -> okSymbol (known (emitted st)) data ->
  Inv (set_symbolHeap (symbolHeap st ++ [data]) st).
Proof.
  intros (Hwf & Hlt & Hsym & Hrest) Hok. unfold Inv. fields.
  split; [done|]. split; [done|]. split; [|done].
  apply Forall_app. split; [done|]. by constructor.
Qed.

Lemma Forall_alter_lookup {A} (P : A -> Prop) (f : A -> A) l i :
  Forall P l -> (forall x, l !! i = Some x -> P x -> P (f x)) ->
  Forall P (alter f i l).
Proof.
  intros Hl Hf. apply Forall_lookup. intros j y Hy.
  destruct (decide (i = j)) as [->|Hne].
  - rewrite list_lookup_alter_eq in Hy.
    destruct (l !! j) as [x|] eqn:Hx; [|done]. injection Hy as <-.
    apply Hf; [done|]. eapply Forall_lookup_1; eauto.
  - rewrite list_lookup_alter_ne in Hy by done. eapply Forall_lookup_1; eauto.
Qed.

Lemma Inv_alter_symbol st h f :
  Inv st ->
  (forall sd, symbolHeap st !! h = Some sd ->
     okSymbol (known (emitted st)) sd -> okSymbol (known (emitted st)) (f sd)) ->
  Inv (set_symbolHeap (alter f h (symbolHeap st)) st).
Proof.
  intros (Hwf & Hlt & Hsym & Hrest) Hf. unfold Inv. fields.
  split; [done|]. split; [done|]. split; [|done].
  by apply Forall_alter_lookup.
Qed.

Lemma Inv_alloc_document st data :
  Inv st -> okDocument (known (emitted st)) data ->
  Inv (set_documentHeap (documentHeap st ++ [data]) st).
Proof.
  intros (Hwf & Hlt & Hsym & Hdoc & Hproj) Hok. unfold Inv. fields.
  split; [done|]. split; [done|]. split; [done|]. split; [|done].
  apply Forall_app. split; [done|]. by constructor.
Qed.

Lemma Inv_alter_document st d f :
  Inv st ->
  (forall data, documentHeap st !! d = Some data ->
     okDocument (known (emitted st)) data ->
     okDocument (known (emitted st)) (f data)) ->
  Inv (set_documentHeap (alter f d (documentHeap st)) st).
Proof.
  intros (Hwf & Hlt & Hsym & Hdoc & Hproj) Hf. unfold Inv. fields.
  split; [done|]. split; [done|]. split; [done|]. split; [|done].
  by apply Forall_alter_lookup.
Qed.

Lemma Inv_project st data :
  Inv st -> okProject (known (emitted st)) data -> Inv (set_projectData data st).
Proof.
  intros (Hwf & Hlt & Hsym & Hdoc & Hproj) Hok. unfold Inv. fields. done.
Qed.

Lemma Inv_symbol st h sd :
  Inv st -> symbolHeap st !! h = Some sd -> okSymbol (known (emitted st)) sd.
Proof. intros (_ & _ & Hsym & _) Hh. eapply Forall_lookup_1; eauto. Qed.

Lemma Inv_document st d data :
  Inv st -> documentHeap st !! d = Some data ->
  okDocument (known (emitted st)) data.
Proof. intros (_ & _ & _ & Hdoc & _) Hd. eapply Forall_lookup_1; eauto. Qed.

Lemma Inv_projectData st : Inv st -> okProject (known (emitted st)) (projectData st).
Proof. by intros (_ & _ & _ & _ & Hproj). Qed.

Lemma Inv_bound st x : Inv st -> In x (emitted st) -> elementId x < nextId st.
Proof. intros (_ & Hlt & _). apply Hlt. Qed.

(** ** Reading steps *)

Lemma triple_bind_readonly {A B} (P : State -> Prop) (m : M A) (k : A -> M B)
    (Q : B -> State -> Prop) :
  readonly m ->
  (forall a, triple (fun st => P st /\ (m st).1 = Ok a) (k a) Q) ->
  triple P (bind m k) Q.
Proof.
  intros Hm Hk st Hinv HP. unfold bind. specialize (Hm st).
  destruct (m st) as [[a| |] st1] eqn:Hrun; simpl in Hm; subst st1; simpl.
  - apply Hk; [done|]. split; [done|]. by rewrite Hrun.
  - split; [done|]. split; [reflexivity|done].
  - split; [done|]. split; [reflexivity|done].
Qed.

Lemma readonly_gets {A} (f : State -> A) : readonly (gets f).
Proof. by intros st. Qed.

Lemma readonly_ret {A} (a : A) : readonly (ret a).
Proof. by intros st. Qed.

Lemma readonly_throw {A} msg : readonly (@throw A msg).
Proof. by intros st. Qed.

Lemma readonly_bind {A B} (m : M A) (k : A -> M B) :
  readonly m -> (forall a, readonly (k a)) -> readonly (bind m k).
Proof.
  intros Hm Hk st. unfold bind. specialize (Hm st).
  destruct (m st) as [[a| |] st1]; simpl in *; subst; auto; apply Hk.
Qed.

Lemma readonly_SymbolData_deref h : readonly (SymbolData_deref h).
Proof. intros st. unfold SymbolData_deref. by destruct (symbolHeap st !! h). Qed.

Lemma readonly_DocumentData_deref d : readonly (DocumentData_deref d).
Proof. intros st. unfold DocumentData_deref. by destruct (documentHeap st !! d). Qed.

Lemma readonly_getDocumentData fileName :
  readonly (DataManager_getDocumentData fileName).
Proof.
  intros st. unfold DataManager_getDocumentData, bind, gets.
  by destruct (JsMap.get fileName (documentDatas st)) as [[|]|].
Qed.

Lemma readonly_getSymbolData symbolId :
  readonly (DataManager_getSymbolData symbolId).
Proof.
  intros st. unfold DataManager_getSymbolData, bind, gets.
  by destruct (JsMap.get symbolId (symbolDatas st)) as [[|]|].
Qed.

Lemma triple_readonly {A} (P : State -> Prop) (m : M A) :
  readonly m -> triple P m (fun a st => P st /\ (m st).1 = Ok a).
Proof.
  intros Hm st Hinv HP. rewrite (Hm st).
  split; [done|]. split; [reflexivity|]. intros a Ha. split; [done|].
  by rewrite <- Ha.
Qed.

(** Reading through a handle: the symbol data read is in the heap. *)
Lemma triple_bind_deref {B} (P : State -> Prop) h (k : SymbolData -> M B)
    (Q : B -> State -> Prop) :
  (forall sd, triple (fun st => P st /\ symbolHeap st !! h = Some sd) (k sd) Q) ->
  triple P (bind (SymbolData_deref h) k) Q.
Proof.
  intros Hk. apply triple_bind_readonly; [apply readonly_SymbolData_deref|].
  intros sd. eapply triple_pre; [apply Hk|].
  intros st [HP Hrun]. split; [done|].
  unfold SymbolData_deref in Hrun.
  destruct (symbolHeap st !! h); simpl in Hrun; congruence.
Qed.

Lemma triple_bind_deref_document {B} (P : State -> Prop) d
    (k : DocumentData -> M B) (Q : B -> State -> Prop) :
  (forall data,
     triple (fun st => P st /\ documentHeap st !! d = Some data) (k data) Q) ->
  triple P (bind (DocumentData_deref d) k) Q.
Proof.
  intros Hk. apply triple_bind_readonly; [apply readonly_DocumentData_deref|].
  intros data. eapply triple_pre; [apply Hk|].
  intros st [HP Hrun]. split; [done|].
  unfold DocumentData_deref in Hrun.
  destruct (documentHeap st !! d); simpl in Hrun; congruence.
Qed.

Lemma triple_bind_gets {A B} (P : State -> Prop) (f : State -> A)
    (k : A -> M B) (Q : B -> State -> Prop) :
  (forall a, triple (fun st => P st /\ f st = a) (k a) Q) ->
  triple P (bind (gets f) k) Q.
Proof.
  intros Hk. apply triple_bind_readonly; [apply readonly_gets|].
  intros a. eapply triple_pre; [apply Hk|].
  intros st [HP Hrun]. split; [done|]. simpl in Hrun. congruence.
Qed.

(** ** Stable assertions *)

Lemma stable_coreOnly F : stable F -> coreOnly F.
Proof. intros HF st st' Hcore. apply HF. by apply extends_sameCore. Qed.

Lemma extends_known st st' i : extends st st' -> knownIn i st -> knownIn i st'.
Proof. apply knownIn_stable. Qed.

Lemma stable_known (Phi : (Id -> Prop) -> Prop) :
  (forall K K' : Id -> Prop, (forall i, K i -> K' i) -> Phi K -> Phi K') ->
  stable (fun st => Phi (known (emitted st))).
Proof.
  intros Hmono st st' [new Hnew] HPhi. rewrite Hnew.
  eapply Hmono; [|exact HPhi]. intros i. apply known_app_l.
Qed.

Lemma okSymbolIn_stable sd : stable (okSymbolIn sd).
Proof. apply (stable_known (fun K => okSymbol K sd)). intros. by eapply okSymbol_mono. Qed.

Lemma okDocumentIn_stable data : stable (okDocumentIn data).
Proof.
  apply (stable_known (fun K => okDocument K data)). intros.
  by eapply okDocument_mono.
Qed.

Lemma okPartitionIn_stable p : stable (okPartitionIn p).
Proof.
  apply (stable_known (fun K => okPartition K p)). intros.
  by eapply okPartition_mono.
Qed.

Lemma okProjectIn_stable data : stable (okProjectIn data).
Proof.
  apply (stable_known (fun K => okProject K data)). intros.
  by eapply okProject_mono.
Qed.

Lemma allKnown_stable vs : stable (allKnown vs).
Proof. intros st st' Hext Hvs v Hv. eapply extends_known; eauto. Qed.

Lemma knownAll_stable ids : stable (knownAll ids).
Proof. intros st st' Hext Hids r Hr. eapply extends_known; eauto. Qed.

Lemma stable_true : stable (fun _ => True).
Proof. apply stable_pure. Qed.

Ltac solve_stable :=
  repeat first
    [ assumption
    | apply knownIn_stable
    | apply okSymbolIn_stable
    | apply okDocumentIn_stable
    | apply okPartitionIn_stable
    | apply okProjectIn_stable
    | apply allKnown_stable
    | apply knownAll_stable
    | apply stable_pure
    | apply stable_and ].

(** ** Using a proved triple inside a longer computation *)

Lemma triple_bind_frame {A B} (P P0 : State -> Prop) (m : M A)
    (Q0 : A -> State -> Prop) (k : A -> M B) (R : B -> State -> Prop) :
  triple P0 m Q0 -> stable P -> (forall st, P st -> P0 st) ->
  (forall a, triple (fun st => P st /\ Q0 a st) (k a) R) ->
  triple P (bind m k) R.
Proof.
  intros Hm HP HP0 Hk. eapply triple_bind; [|exact Hk].
  eapply triple_conseq; [apply (triple_frame P P0 m Q0 HP Hm)| |].
  - intros st HPst. split; auto.
  - intros a st [? ?]. split; auto.
Qed.

Lemma triple_use {A} (P P0 : State -> Prop) (m : M A)
    (Q0 Q : A -> State -> Prop) :
  triple P0 m Q0 -> stable P -> (forall st, P st -> P0 st) ->
  (forall a st, P st -> Q0 a st -> Q a st) ->
  triple P m Q.
Proof.
  intros Hm HP HP0 HQ.
  eapply triple_conseq; [apply (triple_frame P P0 m Q0 HP Hm)| |].
  - intros st HPst. split; auto.
  - intros a st [? ?]. auto.
Qed.

Lemma triple_bind_silent {A B} (P : State -> Prop) (m : M A) (k : A -> M B)
    (R : B -> State -> Prop) :
  silent m -> stable P -> (forall a, triple P (k a) R) -> triple P (bind m k) R.
Proof.
  intros Hm HP Hk. eapply triple_bind; [|exact Hk].
  apply triple_silent; [by apply stable_coreOnly|done].
Qed.

Lemma triple_silent_end {A} (P : State -> Prop) (m : M A) (Q : A -> State -> Prop) :
  silent m -> stable P -> (forall a st, P st -> Q a st) -> triple P m Q.
Proof.
  intros Hm HP HQ. eapply triple_post.
  - apply triple_silent; [by apply stable_coreOnly|done].
  - intros a st HPst. by apply HQ.
Qed.

(** Reading an object through its handle: what it holds is known. *)
Lemma triple_bind_SymbolData_deref {B} (P : State -> Prop) h
    (k : SymbolData -> M B) (Q : B -> State -> Prop) :
  (forall sd, triple (fun st => P st /\ okSymbolIn sd st) (k sd) Q) ->
  triple P (bind (SymbolData_deref h) k) Q.
Proof.
  intros Hk. apply triple_bind_deref. intros sd st Hinv [HP Hsd].
  apply Hk; [done|]. split; [done|]. by eapply Inv_symbol.
Qed.

Lemma triple_bind_DocumentData_deref {B} (P : State -> Prop) d
    (k : DocumentData -> M B) (Q : B -> State -> Prop) :
  (forall data, triple (fun st => P st /\ okDocumentIn data st) (k data) Q) ->
  triple P (bind (DocumentData_deref d) k) Q.
Proof.
  intros Hk. apply triple_bind_deref_document. intros data st Hinv [HP Hd].
  apply Hk; [done|]. split; [done|]. by eapply Inv_document.
Qed.

Lemma triple_bind_gets_any {A B} (P : State -> Prop) (f : State -> A)
    (k : A -> M B) (Q : B -> State -> Prop) :
  (forall a, triple P (k a) Q) -> triple P (bind (gets f) k) Q.
Proof.
  intros Hk. apply triple_bind_gets. intros a. eapply triple_pre; [apply Hk|].
  by intros st [? _].
Qed.

Lemma triple_bind_gets_projectData {B} (P : State -> Prop)
    (k : ProjectData -> M B) (Q : B -> State -> Prop) :
  (forall pd, triple (fun st => P st /\ okProjectIn pd st) (k pd) Q) ->
  triple P (bind (gets projectData) k) Q.
Proof.
  intros Hk. apply triple_bind_gets. intros pd st Hinv [HP <-].
  apply Hk; [done|]. split; [done|]. by apply Inv_projectData.
Qed.

(** ** Vertices and edges *)

Lemma referencedIds_vertex v : referencedIds (EV v) = vertexRefs (vdata v).
Proof. reflexivity. Qed.

Lemma referencedIds_edge e : referencedIds (EE e) = edgeRefs (edata e).
Proof. reflexivity. Qed.

Lemma extends_same st st' : emitted st' = emitted st -> extends st st'.
Proof. intros Heq. exists []. by rewrite app_nil_r. Qed.

Lemma extends_snoc st st' x : emitted st' = emitted st ++ [x] -> extends st st'.
Proof. intros Heq. by exists [x]. Qed.

Lemma triple_vertex_make d :
  triple (knownAll (vertexRefs d)) (vertex.make d)
    (fun v st => vdata v = d /\ freshVertex v st).
Proof.
  intros st Hinv Hrefs. unfold vertex.make. run. unfold ret. cbn [fst snd].
  split; [apply Inv_nextId; [done|lia]|]. split; [by apply extends_same|].
  intros v [= <-]. split; [done|]. unfold freshVertex. fields.
  split; [lia|]. split; [intros x Hx; by apply Inv_bound|].
  intros r Hr. by apply Hrefs.
Qed.

Lemma triple_emit_vertex v :
  triple (freshVertex v) (emit (EV v)) (fun _ => knownIn (vid v)).
Proof.
  intros st Hinv (Hlt & Hnew & Hrefs). unfold emit, modify. fields.
  split; [by apply Inv_emit|]. split; [by eapply extends_snoc|].
  intros _ _. unfold knownIn. fields. apply known_snoc.
Qed.

Lemma triple_edge_emit d :
  triple (knownAll (edgeRefs d)) (bind (edge.make d) (fun e => emit (EE e)))
    (fun _ _ => True).
Proof.
  intros st Hinv Hrefs. unfold edge.make, emit. run. unfold modify. cbn [fst snd].
  split; [|split; [by eapply extends_snoc|done]].
  apply (Inv_emit (set_nextId (nextId st + 1) st)
           (EE {| eid := nextId st; edata := d |})).
  - apply Inv_nextId; [done|lia].
  - simpl. intros y Hy. by apply Inv_bound.
  - simpl. lia.
  - intros r Hr. by apply Hrefs.
Qed.

Lemma triple_vertex_emit d :
  triple (knownAll (vertexRefs d))
    (bind (vertex.make d) (fun v => emit (EV v))) (fun _ _ => True).
Proof.
  eapply triple_bind; [apply triple_vertex_make|].
  intros v. eapply triple_conseq; [apply (triple_emit_vertex v)| |done].
  by intros st [_ ?].
Qed.

Lemma triple_vertex_make_bind {B} (P : State -> Prop) d (k : Vertex -> M B)
    (Q : B -> State -> Prop) :
  stable P -> (forall st, P st -> knownAll (vertexRefs d) st) ->
  (forall v, vdata v = d -> triple (fun st => P st /\ freshVertex v st) (k v) Q) ->
  triple P (bind (vertex.make d) k) Q.
Proof.
  intros HP Hrefs Hk.
  eapply triple_bind_frame; [apply triple_vertex_make|done|done|].
  intros v st Hinv (HPst & Hd & Hfresh). by apply Hk.
Qed.

Lemma triple_emit_vertex_bind {B} (P : State -> Prop) v (k : unit -> M B)
    (Q : B -> State -> Prop) :
  stable P ->
  triple (fun st => P st /\ knownIn (vid v) st) (k tt) Q ->
  triple (fun st => P st /\ freshVertex v st) (bind (emit (EV v)) k) Q.
Proof.
  intros HP Hk. eapply triple_bind.
  - eapply triple_pre;
      [apply (triple_frame P (freshVertex v) _ _ HP (triple_emit_vertex v))|].
    by intros st [? ?].
  - intros []. cbn beta. eapply triple_pre; [exact Hk|]. by intros st [? ?].
Qed.

Lemma triple_emit_vertex_end (P : State -> Prop) v (Q : unit -> State -> Prop) :
  stable P ->
  (forall st, P st -> knownIn (vid v) st -> Q tt st) ->
  triple (fun st => P st /\ freshVertex v st) (emit (EV v)) Q.
Proof.
  intros HP HQ. eapply triple_conseq.
  - apply (triple_frame P (freshVertex v) _ _ HP (triple_emit_vertex v)).
  - intros st [? ?]. by split.
  - intros [] st [? ?]. by apply HQ.
Qed.

Lemma triple_vertex_emit_bind {B} (P : State -> Prop) d (k : Vertex -> M B)
    (Q : B -> State -> Prop) :
  stable P -> (forall st, P st -> knownAll (vertexRefs d) st) ->
  (forall v, vdata v = d -> triple (fun st => P st /\ knownIn (vid v) st) (k v) Q) ->
  triple P (bind (vertex.make d) (fun v => bind (emit (EV v)) (fun _ => k v))) Q.
Proof.
  intros HP Hrefs Hk. apply triple_vertex_make_bind; [done|done|].
  intros v Hd. apply triple_emit_vertex_bind; [done|]. by apply Hk.
Qed.

Lemma triple_vertex_emit_end (P : State -> Prop) d (Q : unit -> State -> Prop) :
  stable P -> (forall st, P st -> knownAll (vertexRefs d) st) ->
  (forall st, P st -> Q tt st) ->
  triple P (bind (vertex.make d) (fun v => emit (EV v))) Q.
Proof.
  intros HP Hrefs HQ. apply triple_vertex_make_bind; [done|done|].
  intros v Hd. apply triple_emit_vertex_end; [done|]. intros st HPst _. by apply HQ.
Qed.

Lemma triple_edge_emit_bind {B} (P : State -> Prop) d (k : M B)
    (Q : B -> State -> Prop) :
  stable P -> (forall st, P st -> knownAll (edgeRefs d) st) ->
  triple P k Q ->
  triple P (bind (edge.make d) (fun e => bind (emit (EE e)) (fun _ => k))) Q.
Proof.
  intros HP Hrefs Hk st Hinv HPst.
  destruct (triple_edge_emit d st Hinv (Hrefs st HPst)) as (Hinv1 & Hext1 & _).
  revert Hinv1 Hext1. unfold edge.make, emit. run. unfold modify. cbn [fst snd].
  intros Hinv1 Hext1.
  destruct (Hk _ Hinv1 (HP _ _ Hext1 HPst)) as (Hinv2 & Hext2 & HQ).
  split; [done|]. split; [by etransitivity|done].
Qed.

Lemma triple_edge_emit_end (P : State -> Prop) d (Q : unit -> State -> Prop) :
  stable P -> (forall st, P st -> knownAll (edgeRefs d) st) ->
  (forall st, P st -> Q tt st) ->
  triple P (bind (edge.make d) (fun e => emit (EE e))) Q.
Proof.
  intros HP Hrefs HQ.
  eapply triple_use; [apply triple_edge_emit|done|done|].
  intros [] st HPst _. by apply HQ.
Qed.

(** ** Updates of the heaps *)

Lemma triple_SymbolData_update h f :
  triple (fun st => forall sd, okSymbolIn sd st -> okSymbolIn (f sd) st)
    (SymbolData_update h f) (fun _ _ => True).
Proof.
  intros st Hinv Hf. unfold SymbolData_update, modify. cbn [fst snd].
  split; [|split; [by apply extends_same|done]].
  apply Inv_alter_symbol; [done|]. intros sd _. apply Hf.
Qed.

Lemma triple_DocumentData_update d f :
  triple (fun st => forall data, okDocumentIn data st -> okDocumentIn (f data) st)
    (DocumentData_update d f) (fun _ _ => True).
Proof.
  intros st Hinv Hf. unfold DocumentData_update, modify. cbn [fst snd].
  split; [|split; [by apply extends_same|done]].
  apply Inv_alter_document; [done|]. intros data _. apply Hf.
Qed.

Lemma triple_ProjectData_update f :
  triple (fun st => forall data, okProjectIn data st -> okProjectIn (f data) st)
    (ProjectData_update f) (fun _ _ => True).
Proof.
  intros st Hinv Hf. unfold ProjectData_update, modify. cbn [fst snd].
  split; [|split; [by apply extends_same|done]].
  apply Inv_project; [done|]. apply Hf. by apply Inv_projectData.
Qed.

Lemma silent_modify f : (forall st, sameCore st (f st)) -> silent (modify f).
Proof. intros Hf st. apply Hf. Qed.

(** ** ProjectData and DocumentData *)

Lemma triple_ProjectData_addDocument document :
  triple (knownIn (vid document)) (ProjectData_addDocument document)
    (fun _ _ => True).
Proof.
  unfold ProjectData_addDocument.
  eapply triple_bind_frame; [apply triple_ProjectData_update|solve_stable| |].
  { intros st Hdoc data [Hproj Hdocs]. split; [done|]. fields.
    intros d [Hd| [<-|[]]]%in_app_or; auto. }
  intros []. apply triple_bind_gets_projectData. intros pd.
  destruct (32 <? length (pd_documents pd))%nat; [|by apply triple_ret].
  unfold edge.contains.
  apply triple_edge_emit_bind; [solve_stable| |].
  { intros st (_ & Hproj & Hdocs) r [<-|Hr]; [done|].
    apply in_map_iff in Hr as (v & <- & Hv). by apply Hdocs. }
  eapply triple_use; [apply triple_ProjectData_update|solve_stable| |done].
  intros st (_ & Hproj & _) data [Hp _]. split; [done|]. by intros d [].
Qed.

(** ** Stepping through a computation *)

Lemma triple_bind_ret {A B} (P : State -> Prop) (a : A) (k : A -> M B)
    (Q : B -> State -> Prop) :
  triple P (k a) Q -> triple P (bind (ret a) k) Q.
Proof. intros Hk st. apply Hk. Qed.

Ltac builders :=
  unfold edge.contains, edge.next, edge.item, edge.definition, edge.references,
    edge.hover, edge.moniker, edge.diagnostic, edge.foldingRange,
    edge.documentSymbols, vertex.metaData, vertex.project, vertex.event,
    vertex.resultSet, vertex.range, vertex.definitionResult,
    vertex.referencesResult, vertex.hoverResult, vertex.moniker,
    vertex.diagnosticResult, vertex.foldingRangeResult,
    vertex.documentSymbolResult.

Ltac tstep :=
  lazymatch goal with
  | |- triple _ (ret _) _ => apply triple_ret
  | |- triple _ (throw _) _ => apply triple_throw
  | |- triple _ outOfFuel _ => apply triple_outOfFuel
  | |- triple _ (bind (gets projectData) _) _ =>
      apply triple_bind_gets_projectData; intros ?
  | |- triple _ (bind (gets _) _) _ => apply triple_bind_gets_any; intros ?
  | |- triple _ (bind (SymbolData_deref _) _) _ =>
      apply triple_bind_SymbolData_deref; intros ?
  | |- triple _ (bind (DocumentData_deref _) _) _ =>
      apply triple_bind_DocumentData_deref; intros ?
  | |- triple _ (bind (edge.make _) (fun e => emit (@?x e))) _ =>
      apply triple_edge_emit_end; [solve_stable|idtac|idtac]
  | |- triple _ (bind (edge.make _) _) _ =>
      apply triple_edge_emit_bind; [solve_stable|idtac|idtac]
  | |- triple _ (bind (vertex.make _) (fun v => emit (@?x v))) _ =>
      apply triple_vertex_emit_end; [solve_stable|idtac|idtac]
  | |- triple _ (bind (vertex.make _) (fun v => bind (emit (@?x v)) (@?k v))) _ =>
      apply triple_vertex_emit_bind; [solve_stable|idtac|intros ? ?]
  | |- triple _ (bind (vertex.make _) _) _ =>
      apply triple_vertex_make_bind; [solve_stable|idtac|intros ? ?]
  | |- triple _ (bind (ret _) _) _ => apply triple_bind_ret
  | |- triple _ (bind (throw _) _) _ =>
      eapply triple_bind; [apply triple_throw|intros ?]
  end.

Lemma knownAll_nil st : knownAll [] st.
Proof. by intros r []. Qed.

Lemma knownAll_cons i ids st :
  knownIn i st -> knownAll ids st -> knownAll (i :: ids) st.
Proof. intros Hi Hids r [<-|Hr]; auto. Qed.

Lemma knownAll_map vs st : allKnown vs st -> knownAll (map vid vs) st.
Proof. intros Hvs r (v & <- & Hv)%in_map_iff. by apply Hvs. Qed.

Lemma allKnown_app vs ws st :
  allKnown vs st -> allKnown ws st -> allKnown (vs ++ ws) st.
Proof. intros Hvs Hws v [?|?]%in_app_or; auto. Qed.

Lemma allKnown_one v st : knownIn (vid v) st -> allKnown [v] st.
Proof. by intros Hv w [<-|[]]. Qed.

Lemma allKnown_nil st : allKnown [] st.
Proof. by intros v []. Qed.

Ltac known :=
  repeat
    match goal with
    | |- _ => assumption
    | |- knownAll (edgeRefs _) _ => unfold edgeRefs; cbn [referencedIds edata]
    | |- knownAll (vertexRefs _) _ => unfold vertexRefs; cbn [referencedIds vdata]
    | |- knownAll [] _ => apply knownAll_nil
    | |- allKnown [] _ => apply allKnown_nil
    | |- knownAll (_ :: _) _ => apply knownAll_cons
    | |- knownAll (map vid _) _ => apply knownAll_map
    | |- allKnown (_ ++ _) _ => apply allKnown_app
    | |- allKnown [_] _ => apply allKnown_one
    end.

(** ** ProjectData and DocumentData, continued *)

Lemma okProjectIn_project pd st : okProjectIn pd st -> knownIn (vid (pd_project pd)) st.
Proof. by intros [? _]. Qed.

Lemma okProjectIn_documents pd st : okProjectIn pd st -> allKnown (pd_documents pd) st.
Proof. by intros [_ ?]. Qed.

Lemma okDocumentIn_document data st :
  okDocumentIn data st -> knownIn (vid (dd_document data)) st.
Proof. by intros [? _]. Qed.

Lemma okDocumentIn_ranges data st :
  okDocumentIn data st -> allKnown (dd_ranges data) st.
Proof. by intros [_ ?]. Qed.

Lemma triple_ProjectData_end : triple (fun _ => True) ProjectData_end (fun _ _ => True).
Proof.
  unfold ProjectData_end. tstep.
  eapply triple_bind with (Q := fun _ st => okProjectIn pd st).
  { destruct (0 <? length (pd_documents pd))%nat; [|tstep; by intros st [_ ?]].
    builders. tstep.
    - intros st [_ Hpd]. known.
      + by apply okProjectIn_project.
      + by apply okProjectIn_documents.
    - eapply triple_use; [apply triple_ProjectData_update|solve_stable| |].
      + intros st [_ [Hproj _]] data [Hp _]. split; [done|]. by intros d [].
      + by intros [] st [_ ?] _. }
  intros _.
  eapply triple_bind with (Q := fun _ st => okProjectIn pd st).
  { destruct (0 <? length (pd_diagnostics pd))%nat; [|by tstep].
    builders. tstep.
    - intros st _. known.
    - tstep.
      + intros st [Hpd Hv]. known.
        by apply okProjectIn_project.
      + by intros st [? _]. }
  intros _. builders. tstep; [|done].
  intros st Hpd. known. by apply okProjectIn_project.
Qed.

Lemma triple_ext {A} (P : State -> Prop) (m m' : M A) (Q : A -> State -> Prop) :
  (forall st, m st = m' st) -> triple P m' Q -> triple P m Q.
Proof. intros Heq Hm st. rewrite Heq. apply Hm. Qed.

Lemma triple_bind_same {A B} (P : State -> Prop) (m : M A) (k : A -> M B)
    (Q : B -> State -> Prop) :
  triple P m (fun _ => P) -> (forall a, triple P (k a) Q) -> triple P (bind m k) Q.
Proof. apply triple_bind. Qed.

Lemma triple_true {A} (P : State -> Prop) (m : M A) :
  triple (fun _ => True) m (fun _ _ => True) -> stable P ->
  triple P m (fun _ => P).
Proof.
  intros Hm HP. eapply triple_use; [exact Hm|exact HP|done|].
  by intros a st HPst _.
Qed.

(** ** DocumentData *)

Lemma triple_DocumentData_addRange d range :
  triple (freshVertex range) (DocumentData_addRange d range)
    (fun _ => knownIn (vid range)).
Proof.
  unfold DocumentData_addRange.
  apply triple_bind_readonly; [apply readonly_DocumentData_deref|]. intros data0.
  eapply triple_pre with (P' := fun st => True /\ freshVertex range st);
    [|by intros st [? _]].
  apply triple_emit_vertex_bind; [solve_stable|].
  eapply triple_use; [apply triple_DocumentData_update|solve_stable| |].
  - intros st [_ Hr] data [Hdoc Hranges]. split; [done|]. fields.
    intros r [?| [<-|[]]]%in_app_or; auto.
  - by intros [] st [_ ?] _.
Qed.

Lemma triple_DocumentData_set d f :
  (forall data, dd_document (f data) = dd_document data
                /\ dd_ranges (f data) = dd_ranges data) ->
  triple (fun _ => True) (DocumentData_update d f) (fun _ _ => True).
Proof.
  intros Hf. eapply triple_pre; [apply triple_DocumentData_update|].
  intros st _ data [Hdoc Hranges]. destruct (Hf data) as [Heq1 Heq2].
  split; [by rewrite Heq1|]. by rewrite Heq2.
Qed.

Lemma triple_DocumentData_addDiagnostics d diagnostics :
  triple (fun _ => True) (DocumentData_addDiagnostics d diagnostics) (fun _ _ => True).
Proof. by apply triple_DocumentData_set. Qed.

Lemma triple_DocumentData_addFoldingRanges d foldingRanges :
  triple (fun _ => True) (DocumentData_addFoldingRanges d foldingRanges)
    (fun _ _ => True).
Proof. by apply triple_DocumentData_set. Qed.

Lemma triple_DocumentData_addDocumentSymbols d documentSymbols :
  triple (fun _ => True) (DocumentData_addDocumentSymbols d documentSymbols)
    (fun _ _ => True).
Proof. by apply triple_DocumentData_set. Qed.

(** A result vertex and the edge from the document to it. *)
Lemma triple_result_block (P : State -> Prop) d label_ from :
  stable P -> vertexRefs d = [] ->
  (forall st, P st -> knownIn from st) ->
  triple P
    (do v <- vertex.make d;
     do _ <- emit (EV v);
     do e <- edge.make (E11 label_ from (vid v));
     emit (EE e))
    (fun _ => P).
Proof.
  intros HP Hd Hfrom. tstep.
  - intros st _. rewrite Hd. known.
  - tstep; [|by intros st [? _]].
    intros st [HPst Hv]. known. by apply Hfrom.
Qed.

Lemma triple_DocumentData_end d :
  triple (fun _ => True) (DocumentData_end d) (fun _ _ => True).
Proof.
  unfold DocumentData_end. tstep.
  apply triple_bind_same.
  { destruct (0 <=? length (dd_ranges data))%nat; [|by tstep].
    builders. tstep; [|done].
    intros st [_ Hdata]. known.
    - by apply okDocumentIn_document.
    - by apply okDocumentIn_ranges. }
  intros _. apply triple_bind_same.
  { destruct (dd_diagnostics data); [|by tstep]. builders.
    apply triple_result_block; [solve_stable|done|].
    intros st [_ Hdata]. by apply okDocumentIn_document. }
  intros _. apply triple_bind_same.
  { destruct (dd_foldingRanges data); [|by tstep]. builders.
    apply triple_result_block; [solve_stable|done|].
    intros st [_ Hdata]. by apply okDocumentIn_document. }
  intros _. apply triple_bind_same.
  { destruct (dd_documentSymbols data); [|by tstep]. builders.
    apply triple_result_block; [solve_stable|done|].
    intros st [_ Hdata]. by apply okDocumentIn_document. }
  intros _. builders. tstep; [|done].
  intros st [_ Hdata]. known. by apply okDocumentIn_document.
Qed.

Lemma silent_getDocumentData fileName : silent (DataManager_getDocumentData fileName).
Proof. intros st. rewrite readonly_getDocumentData. reflexivity. Qed.

Lemma triple_bind_getDocumentData {B} (P : State -> Prop) fileName
    (k : option DocumentDataRef -> M B) (Q : B -> State -> Prop) :
  (forall a, triple P (k a) Q) ->
  triple P (bind (DataManager_getDocumentData fileName) k) Q.
Proof.
  intros Hk. apply triple_bind_readonly; [apply readonly_getDocumentData|].
  intros a. eapply triple_pre; [apply Hk|]. by intros st [? _].
Qed.

Lemma triple_DocumentData_alloc data :
  triple (okDocumentIn data) (DocumentData_alloc data) (fun _ _ => True).
Proof.
  intros st Hinv Hdata. unfold DocumentData_alloc. cbn [fst snd].
  split; [by apply Inv_alloc_document|]. split; [by apply extends_same|done].
Qed.

Lemma triple_SymbolData_alloc data :
  triple (okSymbolIn data) (SymbolData_alloc data) (fun _ _ => True).
Proof.
  intros st Hinv Hdata. unfold SymbolData_alloc. cbn [fst snd].
  split; [by apply Inv_alloc_symbol|]. split; [by apply extends_same|done].
Qed.

Lemma run_deref_document {A} st d data (k : DocumentData -> M A) :
  documentHeap st !! d = Some data -> bind (DocumentData_deref d) k st = k data st.
Proof. intros Hd. unfold bind, DocumentData_deref. by rewrite Hd. Qed.

Lemma run_DocumentData_alloc {B} data (k : DocumentDataRef -> M B) st :
  bind (DocumentData_alloc data) k st
  = k (length (documentHeap st)) (set_documentHeap (documentHeap st ++ [data]) st).
Proof. reflexivity. Qed.

Lemma run_SymbolData_alloc {B} data (k : SymbolDataRef -> M B) st :
  bind (SymbolData_alloc data) k st
  = k (length (symbolHeap st)) (set_symbolHeap (symbolHeap st ++ [data]) st).
Proof. reflexivity. Qed.

Lemma run_emit {B} x (k : unit -> M B) st :
  bind (emit x) k st = k tt (set_emitted (emitted st ++ [x]) st).
Proof. reflexivity. Qed.

#[global] Hint Rewrite @run_DocumentData_alloc @run_SymbolData_alloc @run_emit : run.

Lemma triple_DataManager_getOrCreateDocumentData fileName document
    monikerPath externalLibrary :
  triple (freshVertex document)
    (DataManager_getOrCreateDocumentData fileName document monikerPath
       externalLibrary)
    (fun _ _ => True).
Proof.
  unfold DataManager_getOrCreateDocumentData.
  apply triple_bind_getDocumentData. intros [d|]; [by tstep|].
  eapply triple_ext with
    (m' := do _ <- emit (EV document);
           do d <- DocumentData_alloc
                     (DocumentData_new document monikerPath externalLibrary);
           do _ <- modify (fun st =>
                     set_documentDatas
                       (JsMap.set fileName (Some d) (documentDatas st)) st);
           do ev <- vertex.event EventKind.begin document;
           do _ <- emit (EV ev);
           do _ <- ProjectData_addDocument document;
           ret d).
  { intros st. unfold DocumentData_begin. run.
    erewrite run_deref_document by (fields; apply lookup_snoc_length). run.
    reflexivity. }
  eapply triple_pre with (P' := fun st => True /\ freshVertex document st);
    [|by intros st ?].
  apply triple_emit_vertex_bind; [solve_stable|].
  eapply triple_bind_frame;
    [apply triple_DocumentData_alloc|solve_stable| |intros d].
  { intros st [_ Hdoc]. split; [done|]. by intros r []. }
  apply triple_bind_silent; [by apply silent_modify|solve_stable|]. intros [].
  builders. tstep.
  { intros st [[_ Hdoc] _]. known. }
  eapply triple_bind_frame;
    [apply triple_ProjectData_addDocument|solve_stable| |intros []].
  { by intros st [[[_ Hdoc] _] _]. }
  by tstep.
Qed.

(** ** SymbolData: the result vertices *)

Lemma okSymbolIn_resultSet sd st :
  okSymbolIn sd st -> knownIn (vid (resultSet sd)) st.
Proof. by intros (? & _). Qed.

Lemma okSymbolIn_definitionResult sd r st :
  okSymbolIn sd st -> definitionResult sd = Some r -> knownIn (vid r) st.
Proof. intros (_ & H & _) Hr. by apply H. Qed.

Lemma okSymbolIn_referenceResult sd r st :
  okSymbolIn sd st -> referenceResult sd = Some r -> knownIn (vid r) st.
Proof. intros (_ & _ & H & _) Hr. by apply H. Qed.

Lemma okSymbolIn_partition sd file p st :
  okSymbolIn sd st -> In (file, Some p) (slotsOf (partitions sd)) ->
  okPartitionIn p st.
Proof. intros (_ & _ & _ & H) Hp. by eapply H. Qed.

Lemma run_deref_fail {A} st h (k : SymbolData -> M A) :
  symbolHeap st !! h = None ->
  bind (SymbolData_deref h) k st = (Throw "invalid SymbolData reference", st).
Proof. intros Hh. unfold bind, SymbolData_deref. by rewrite Hh. Qed.

Lemma triple_SymbolData_addHover h hover :
  triple (fun _ => True) (SymbolData_addHover h hover) (fun _ _ => True).
Proof.
  unfold SymbolData_addHover. tstep. builders.
  eapply triple_post; [apply triple_result_block; [solve_stable|done|]|done].
  intros st [_ Hsd]. by apply okSymbolIn_resultSet.
Qed.

Lemma triple_SymbolData_addMoniker h kind identifier :
  triple (fun _ => True) (SymbolData_addMoniker h kind identifier) (fun _ _ => True).
Proof.
  unfold SymbolData_addMoniker. tstep. builders.
  eapply triple_post; [apply triple_result_block; [solve_stable|done|]|done].
  intros st [_ Hsd]. by apply okSymbolIn_resultSet.
Qed.

Lemma triple_getOrCreateDefinitionResult h :
  triple (fun _ => True) (StandardSymbolData_getOrCreateDefinitionResult h)
    (fun r => knownIn (vid r)).
Proof.
  eapply triple_ext with
    (m' := do sd <- SymbolData_deref h;
           match definitionResult sd with
           | Some r => ret r
           | None =>
               do r <- vertex.definitionResult;
               do _ <- emit (EV r);
               do _ <- SymbolData_update h (with_definitionResult (Some r));
               do e <- edge.definition (resultSet sd) r;
               do _ <- emit (EE e);
               ret r
           end).
  { intros st. unfold StandardSymbolData_getOrCreateDefinitionResult.
    destruct (symbolHeap st !! h) as [sd|] eqn:Hh;
      [|by rewrite !run_deref_fail].
    rewrite !(run_deref _ _ _ _ Hh).
    destruct (definitionResult sd); [reflexivity|].
    builders. unfold vertex.make, edge.make. run. reflexivity. }
  tstep. destruct (definitionResult sd) as [r|] eqn:Hr.
  - tstep. intros st [_ Hsd]. by eapply okSymbolIn_definitionResult.
  - builders. tstep; [intros st _; known|].
    eapply triple_bind_frame;
      [apply triple_SymbolData_update|solve_stable| |intros []].
    { intros st [_ Hv] sd' (H1 & H2 & H3 & H4).
      split; [done|]. split; [|done]. fields. by intros r [= <-]. }
    tstep.
    { intros st [[[_ Hsd] Hv] _]. known. by apply okSymbolIn_resultSet. }
    tstep. by intros st [[_ Hv] _].
Qed.

Lemma triple_getOrCreateReferenceResult h :
  triple (fun _ => True) (StandardSymbolData_getOrCreateReferenceResult h)
    (fun r => knownIn (vid r)).
Proof.
  eapply triple_ext with
    (m' := do sd <- SymbolData_deref h;
           match referenceResult sd with
           | Some r => ret r
           | None =>
               do r <- vertex.referencesResult;
               do _ <- emit (EV r);
               do _ <- SymbolData_update h (with_referenceResult (Some r));
               do e <- edge.references (resultSet sd) r;
               do _ <- emit (EE e);
               ret r
           end).
  { intros st. unfold StandardSymbolData_getOrCreateReferenceResult.
    destruct (symbolHeap st !! h) as [sd|] eqn:Hh;
      [|by rewrite !run_deref_fail].
    rewrite !(run_deref _ _ _ _ Hh).
    destruct (referenceResult sd); [reflexivity|].
    builders. unfold vertex.make, edge.make. run. reflexivity. }
  tstep. destruct (referenceResult sd) as [r|] eqn:Hr.
  - tstep. intros st [_ Hsd]. by eapply okSymbolIn_referenceResult.
  - builders. tstep; [intros st _; known|].
    eapply triple_bind_frame;
      [apply triple_SymbolData_update|solve_stable| |intros []].
    { intros st [_ Hv] sd' (H1 & H2 & H3 & H4).
      split; [done|]. split; [done|]. split; [|done]. fields. by intros r [= <-]. }
    tstep.
    { intros st [[[_ Hsd] Hv] _]. known. by apply okSymbolIn_resultSet. }
    tstep. by intros st [[_ Hv] _].
Qed.

Lemma triple_SymbolData_getOrCreateReferenceResult h :
  triple (fun _ => True) (SymbolData_getOrCreateReferenceResult h)
    (fun r => knownIn (vid r)).
Proof.
  unfold SymbolData_getOrCreateReferenceResult. tstep.
  destruct (variant sd);
    try (eapply triple_pre; [apply triple_getOrCreateReferenceResult|done]).
  unfold AliasedSymbolData_getOrCreateReferenceResult. tstep.
Qed.

(** ** SymbolDataPartition.end *)

Lemma okPartitionIn_document p st :
  okPartitionIn p st -> knownIn (vid (sp_document p)) st.
Proof. by intros (? & _). Qed.

Lemma triple_SymbolDataPartition_end p :
  triple (okPartitionIn p) (SymbolDataPartition_end p) (fun _ _ => True).
Proof.
  unfold SymbolDataPartition_end. apply triple_bind_same.
  { destruct (definitionRanges p) as [ranges|] eqn:Hranges; [|by tstep].
    eapply triple_bind_frame;
      [apply triple_getOrCreateDefinitionResult|solve_stable|done|intros r].
    builders. tstep; [|by intros st [? _]].
    intros st [Hp Hr]. known; [by apply okPartitionIn_document|].
    intros v Hv. destruct Hp as (_ & Hdefs & _). apply Hdefs.
    unfold definitionsOf. by rewrite Hranges. }
  intros _. apply triple_bind_same.
  { destruct (referenceRanges p) as [ranges|] eqn:Hranges; [|by tstep].
    eapply triple_bind_frame;
      [apply triple_SymbolData_getOrCreateReferenceResult|solve_stable|done
      |intros r].
    eapply triple_post.
    - apply triple_forEach. intros [property values] Hin.
      builders. tstep; [|done].
      intros st [Hp Hr]. known; [by apply okPartitionIn_document|].
      intros v Hv. destruct Hp as (_ & _ & Hrefs & _).
      apply (Hrefs property values v); [|done]. by rewrite Hranges.
    - by intros _ st [? _]. }
  intros _. destruct (referenceResults p) as [results|] eqn:Hresults; [|by tstep].
  eapply triple_bind_frame;
    [apply triple_SymbolData_getOrCreateReferenceResult|solve_stable|done
    |intros r].
  builders. tstep; [|done].
  intros st [Hp Hr]. known; [by apply okPartitionIn_document|].
  intros v Hv. destruct Hp as (_ & _ & _ & Hres). apply Hres.
  by rewrite Hresults.
Qed.

(** ** Partitions *)

Lemma JsMap_In_set `{EqDecision K} {V} (m : list (K * V)) k v k' v' :
  In (k', v') (JsMap.set k v m) -> (k', v') = (k, v) \/ In (k', v') m.
Proof.
  induction m as [|[k0 v0] m IH]; simpl.
  - intros [Heq|[]]. by left.
  - destruct (decide (k = k0)) as [->|Hne]; simpl.
    + intros [Heq|Hin]; [by left|right; by right].
    + intros [Heq|Hin]; [right; by left|].
      destruct (IH Hin) as [?|?]; [by left|right; by right].
Qed.

Lemma okSymbol_setSlot (K : Id -> Prop) fileName slot sd :
  okSymbol K sd -> (forall p, slot = Some p -> okPartition K p) ->
  okSymbol K (setSlot fileName slot sd).
Proof.
  intros Hsd Hslot. unfold setSlot.
  destruct (partitions sd) as [| |m] eqn:Hm; try exact Hsd.
  destruct Hsd as (H1 & H2 & H3 & H4).
  split; [done|]. split; [done|]. split; [done|]. fields.
  intros file p [[= -> <-]|Hin]%JsMap_In_set; [by apply Hslot|].
  apply (H4 file p). by rewrite ?Hm.
Qed.

Lemma okSymbol_partition_update (K : Id -> Prop) file f sd :
  okSymbol K sd -> (forall p, okPartition K p -> okPartition K (f p)) ->
  okSymbol K
    match partitions sd with
    | PartitionsMap m =>
        match JsMap.get file m with
        | Some (Some p) =>
            with_partitions (PartitionsMap (JsMap.set file (Some (f p)) m)) sd
        | _ => sd
        end
    | _ => sd
    end.
Proof.
  intros Hsd Hf. pose proof Hsd as (H1 & H2 & H3 & H4).
  destruct (partitions sd) as [| |m] eqn:Hm; try done.
  destruct (JsMap.get file m) as [[p|]|] eqn:Hget; try done.
  split; [done|]. split; [done|]. split; [done|]. fields.
  intros file' p' [[= -> ->]|Hin]%JsMap_In_set.
  - apply Hf. apply (H4 file p). rewrite ?Hm. by apply JsMap_get_In.
  - apply (H4 file' p'). by rewrite ?Hm.
Qed.

Lemma triple_SymbolDataPartition_update r f :
  triple (fun st => forall p, okPartitionIn p st -> okPartitionIn (f p) st)
    (SymbolDataPartition_update r f) (fun _ _ => True).
Proof.
  unfold SymbolDataPartition_update.
  eapply triple_pre; [apply triple_SymbolData_update|].
  intros st Hf sd Hsd. by apply okSymbol_partition_update.
Qed.

Lemma okPartition_addReference (K : Id -> Prop) value property p :
  K (vid value) -> okPartition K p ->
  okPartition K (SymbolDataPartition_addReference value property p).
Proof.
  intros Hv (H1 & H2 & H3 & H4). unfold SymbolDataPartition_addReference.
  assert (okPartition K
            (if bool_decide (label value = "referenceResult")
             then with_referenceResults
                    (Some (match referenceResults p with
                           | Some rs => rs
                           | None => []
                           end ++ [value])) p
             else p)) as Hother.
  { destruct (bool_decide _); [|done].
    split; [done|]. split; [done|]. split; [done|]. fields.
    intros v [Hin| [<-|[]]]%in_app_or; [|done].
    apply H4. by destruct (referenceResults p). }
  destruct (bool_decide (label value = "range")); [|done].
  destruct property as [property|]; [|done].
  split; [done|]. split; [done|]. split; [|done]. fields.
  revert H3. destruct (referenceRanges p) as [m|]; cbn [default]; intros H3.
  - intros property' vs v [[= ? ?]|Hin]%JsMap_In_set Hvin; [|by eapply H3].
    subst property' vs.
    apply in_app_or in Hvin as [Hvin| [<-|[]]]; [|done].
    destruct (JsMap.get property m) as [vs|] eqn:Hget; [|done].
    apply (H3 property vs v); [|done]. by apply JsMap_get_In.
  - intros property' vs v [[= ? ?]|[]] Hvin. subst property' vs.
    by destruct Hvin as [<-|[]].
Qed.

Lemma okPartition_addDefinition (K : Id -> Prop) value flag p :
  K (vid value) -> okPartition K p ->
  okPartition K (SymbolDataPartition_addDefinition value flag p).
Proof.
  intros Hv Hp. unfold SymbolDataPartition_addDefinition.
  assert (okPartition K
            (with_definitionRanges
               (Some (match definitionRanges p with
                      | Some rs => rs
                      | None => []
                      end ++ [value])) p)) as Hdef.
  { destruct Hp as (H1 & H2 & H3 & H4).
    split; [done|]. split; [|done]. unfold definitionsOf. fields.
    intros v [Hin| [<-|[]]]%in_app_or; [|done]. by apply H2. }
  destruct flag; [|done]. by apply okPartition_addReference.
Qed.

Lemma silent_manageLifeCycle node h : silent (DataManager_manageLifeCycle node h).
Proof. apply silent_modify. intros st. by repeat split. Qed.

Lemma triple_getOrCreatePartition h sourceFile :
  triple (fun _ => True) (StandardSymbolData_getOrCreatePartition h sourceFile)
    (fun _ _ => True).
Proof.
  unfold StandardSymbolData_getOrCreatePartition. tstep.
  assert (triple (fun st => True /\ okSymbolIn sd st)
            match partitions sd with
            | PartitionsUndefined =>
                SymbolData_update h (with_partitions (PartitionsMap []))
            | _ => ret tt
            end
            (fun _ _ => True)) as Hinit.
  { destruct (partitions sd); try by tstep.
    eapply triple_pre; [apply triple_SymbolData_update|].
    intros st _ sd' (H1 & H2 & H3 & H4). by repeat split. }
  assert (triple (fun _ => True)
            match JsMap.get (fileName sourceFile)
                    match partitions sd with PartitionsMap m => m | _ => [] end with
            | Some None =>
                throw ("Partition for file " +:+ fileName sourceFile
                       +:+ " has already been cleared.")
            | Some (Some _) => ret (h, fileName sourceFile)
            | None =>
                do documentData <- DataManager_getDocumentData (fileName sourceFile);
                match documentData with
                | None => throw ("No document data for " +:+ fileName sourceFile)
                | Some d =>
                    do data <- DocumentData_deref d;
                    do _ <- DataManager_manageLifeCycle sourceFile h;
                    do _ <- SymbolDataPartition_begin;
                    do _ <- SymbolData_update h
                              (setSlot (fileName sourceFile)
                                 (Some (SymbolDataPartition_new h (dd_document data))));
                    ret (h, fileName sourceFile)
                end
            end
            (fun _ _ => True)) as Hrest.
  { destruct (JsMap.get _ _) as [[?|]|]; try by tstep.
    apply triple_bind_getDocumentData. intros [d|]; [|by tstep].
    tstep. apply triple_bind_silent;
      [apply silent_manageLifeCycle|solve_stable|intros []].
    unfold SymbolDataPartition_begin. tstep.
    eapply triple_bind_frame;
      [apply triple_SymbolData_update|solve_stable| |intros []; by tstep].
    intros st [_ Hdata] sd' Hsd'. apply okSymbol_setSlot; [done|].
    intros p [= <-]. unfold SymbolDataPartition_new.
    split; [by apply okDocumentIn_document|]. by repeat split. }
  destruct (partitions sd) eqn:Hp; [| tstep |].
  - eapply triple_bind; [exact Hinit|]. intros []. exact Hrest.
  - eapply triple_bind; [exact Hinit|]. intros []. exact Hrest.
Qed.

Lemma triple_partition_add (P : State -> Prop) h sourceFile f
    (Q : unit -> State -> Prop) :
  stable P ->
  (forall st p, P st -> okPartitionIn p st -> okPartitionIn (f p) st) ->
  (forall st, P st -> Q tt st) ->
  triple P
    (do r <- StandardSymbolData_getOrCreatePartition h sourceFile;
     SymbolDataPartition_update r f) Q.
Proof.
  intros HP Hf HQ.
  eapply triple_bind_frame;
    [apply triple_getOrCreatePartition|solve_stable|done|intros r].
  eapply triple_use; [apply triple_SymbolDataPartition_update|solve_stable| |].
  - intros st [HPst _] p. by apply Hf.
  - intros [] st [HPst _] _. by apply HQ.
Qed.

Lemma triple_partition_addReference (P : State -> Prop) h sourceFile value
    property (Q : unit -> State -> Prop) :
  stable P -> (forall st, P st -> knownIn (vid value) st) ->
  (forall st, P st -> Q tt st) ->
  triple P
    (do r <- StandardSymbolData_getOrCreatePartition h sourceFile;
     SymbolDataPartition_update r
       (SymbolDataPartition_addReference value property)) Q.
Proof.
  intros HP Hv HQ. apply triple_partition_add; [done| |done].
  intros st p HPst Hp. apply okPartition_addReference; [|done]. by apply Hv.
Qed.

Lemma triple_partition_addDefinition (P : State -> Prop) h sourceFile value
    flag (Q : unit -> State -> Prop) :
  stable P -> (forall st, P st -> knownIn (vid value) st) ->
  (forall st, P st -> Q tt st) ->
  triple P
    (do r <- StandardSymbolData_getOrCreatePartition h sourceFile;
     SymbolDataPartition_update r
       (SymbolDataPartition_addDefinition value flag)) Q.
Proof.
  intros HP Hv HQ. apply triple_partition_add; [done| |done].
  intros st p HPst Hp. apply okPartition_addDefinition; [|done]. by apply Hv.
Qed.

(** The edge from a range to the result set of its symbol. *)
Lemma triple_next_if_range (P : State -> Prop) reference sd :
  stable P -> (forall st, P st -> knownIn (vid reference) st) ->
  (forall st, P st -> okSymbolIn sd st) ->
  triple P
    (if bool_decide (label reference = "range") then
       do e <- edge.next reference (resultSet sd); emit (EE e)
     else ret tt)
    (fun _ => P).
Proof.
  intros HP Hv Hsd. destruct (bool_decide _); [|by tstep].
  builders. tstep; [|done].
  intros st HPst. known; [by apply Hv|]. apply okSymbolIn_resultSet. by apply Hsd.
Qed.

Lemma triple_StandardSymbolData_addDefinition h sourceFile definition flag :
  triple (knownIn (vid definition))
    (StandardSymbolData_addDefinition h sourceFile definition flag)
    (fun _ _ => True).
Proof.
  unfold StandardSymbolData_addDefinition. tstep. builders. tstep.
  { intros st [Hv Hsd]. known. by apply okSymbolIn_resultSet. }
  apply triple_partition_addDefinition; [solve_stable| |done]. by intros st [? _].
Qed.

Lemma triple_StandardSymbolData_addReference h sourceFile reference property :
  triple (knownIn (vid reference))
    (StandardSymbolData_addReference h sourceFile reference property)
    (fun _ _ => True).
Proof.
  unfold StandardSymbolData_addReference. tstep.
  apply triple_bind_same.
  { apply triple_next_if_range; [solve_stable|by intros st [? _]|by intros st [_ ?]]. }
  intros _. apply triple_partition_addReference; [solve_stable| |done].
  by intros st [? _].
Qed.

Lemma triple_forEach_partition_addReference (P : State -> Prop) bases
    sourceFile value property :
  stable P -> (forall st, P st -> knownIn (vid value) st) ->
  triple P
    (forEach bases (fun base =>
       do r <- SymbolData_getOrCreatePartition base sourceFile;
       SymbolDataPartition_update r
         (SymbolDataPartition_addReference value property)))
    (fun _ => P).
Proof.
  intros HP Hv. apply triple_forEach. intros base _.
  unfold SymbolData_getOrCreatePartition.
  by apply triple_partition_addReference.
Qed.

(** ** The end of a partition's life *)

Lemma okSymbol_with_partitions (K : Id -> Prop) ps sd :
  okSymbol K sd -> okPartitions K ps -> okSymbol K (with_partitions ps sd).
Proof.
  intros (H1 & H2 & H3 & H4) Hps.
  split; [done|]. split; [done|]. split; [done|]. exact Hps.
Qed.

Lemma triple_StandardSymbolData_nodeProcessed h node :
  triple (fun _ => True) (StandardSymbolData_nodeProcessed h node) (fun _ _ => True).
Proof.
  unfold StandardSymbolData_nodeProcessed. tstep.
  destruct (partitions sd) as [| |m] eqn:Hm; try by tstep.
  destruct (match scope sd with Some s => sameNode node s | None => false end).
  - destruct (negb _); [by tstep|].
    eapply triple_bind with (Q := fun _ _ => True).
    + destruct (JsMap.values m) as [|[p|] rest] eqn:Hvalues; try by tstep.
      eapply triple_pre; [apply triple_SymbolDataPartition_end|].
      intros st [_ Hsd]. unfold JsMap.values in Hvalues.
      destruct m as [|[file slot] m']; [done|]. simpl in Hvalues.
      injection Hvalues as -> _.
      apply (okSymbolIn_partition sd file p st Hsd). rewrite Hm. by left.
    + intros _. eapply triple_bind_frame;
        [apply triple_SymbolData_update|solve_stable| |intros []; by tstep].
      intros st _ sd' Hsd'. apply okSymbol_with_partitions; [done|].
      by intros file p [].
  - destruct (isSourceFile node); [|by tstep].
    destruct (JsMap.get (fileName node) m) as [[p|]|] eqn:Hget; try by tstep.
    eapply triple_bind_frame;
      [apply triple_SymbolDataPartition_end|solve_stable| |intros []].
    { intros st [_ Hsd]. apply (okSymbolIn_partition sd (fileName node) p st Hsd).
      rewrite Hm. by apply JsMap_get_In. }
    eapply triple_bind_frame;
      [apply triple_SymbolData_update|solve_stable| |intros []; by tstep].
    intros st _ sd' Hsd'. by apply okSymbol_setSlot.
Qed.

Lemma triple_StandardSymbolData_end h :
  triple (fun _ => True) (StandardSymbolData_end h) (fun _ _ => True).
Proof.
  unfold StandardSymbolData_end. tstep.
  destruct (partitions sd) as [| |m] eqn:Hm; try by tstep.
  eapply triple_post; [apply triple_forEach|done].
  intros [file [p|]] Hin; cbn [fst snd]; [|by tstep].
  eapply triple_bind_frame;
    [apply triple_SymbolDataPartition_end|solve_stable| |intros []].
  { intros st [_ Hsd]. apply (okSymbolIn_partition sd file p st Hsd).
    by rewrite Hm. }
  eapply triple_use;
    [apply triple_SymbolData_update|solve_stable| |by intros [] st [? _] _].
  intros st _ sd' Hsd'. by apply okSymbol_setSlot.
Qed.

(** ** The four variants *)

Lemma triple_AliasedSymbolData_addDefinition h aliased rename sourceFile definition :
  triple (knownIn (vid definition))
    (AliasedSymbolData_addDefinition h aliased rename sourceFile definition)
    (fun _ _ => True).
Proof.
  unfold AliasedSymbolData_addDefinition. destruct rename.
  - apply triple_StandardSymbolData_addDefinition.
  - tstep. builders. tstep.
    { intros st [Hv Hsd]. known. by apply okSymbolIn_resultSet. }
    unfold SymbolData_getOrCreatePartition.
    apply triple_partition_addReference; [solve_stable| |done]. by intros st [? _].
Qed.

Lemma triple_AliasedSymbolData_addReference h aliased sourceFile reference property :
  triple (knownIn (vid reference))
    (AliasedSymbolData_addReference h aliased sourceFile reference property)
    (fun _ _ => True).
Proof.
  unfold AliasedSymbolData_addReference. tstep. apply triple_bind_same.
  { apply triple_next_if_range; [solve_stable|by intros st [? _]|by intros st [_ ?]]. }
  intros _. unfold SymbolData_getOrCreatePartition.
  apply triple_partition_addReference; [solve_stable| |done]. by intros st [? _].
Qed.

Lemma triple_MethodSymbolData_addDefinition h bases sourceFile definition :
  triple (knownIn (vid definition))
    (MethodSymbolData_addDefinition h bases sourceFile definition)
    (fun _ _ => True).
Proof.
  unfold MethodSymbolData_addDefinition.
  eapply triple_bind_frame;
    [apply triple_StandardSymbolData_addDefinition|solve_stable|done|intros []].
  destruct bases as [bases|]; [|by tstep].
  eapply triple_post;
    [apply triple_forEach_partition_addReference; [solve_stable|]|done].
  by intros st [? _].
Qed.

Lemma triple_MethodSymbolData_addReference h bases sourceFile reference property :
  triple (knownIn (vid reference))
    (MethodSymbolData_addReference h bases sourceFile reference property)
    (fun _ _ => True).
Proof.
  unfold MethodSymbolData_addReference. destruct bases as [bases|].
  - tstep. apply triple_bind_same.
    { apply triple_next_if_range;
        [solve_stable|by intros st [? _]|by intros st [_ ?]]. }
    intros _. eapply triple_post;
      [apply triple_forEach_partition_addReference; [solve_stable|]|done].
    by intros st [? _].
  - apply triple_StandardSymbolData_addReference.
Qed.

Lemma triple_UnionOrIntersectionSymbolData_addReference h elements sourceFile
    reference property :
  triple (knownIn (vid reference))
    (UnionOrIntersectionSymbolData_addReference h elements sourceFile reference
       property)
    (fun _ _ => True).
Proof.
  unfold UnionOrIntersectionSymbolData_addReference.
  tstep. apply triple_bind_same.
  { apply triple_next_if_range;
      [solve_stable|by intros st [? _]|by intros st [_ ?]]. }
  intros _. eapply triple_post;
    [apply triple_forEach_partition_addReference; [solve_stable|]|done].
  by intros st [? _].
Qed.

Lemma triple_SymbolData_addDefinition h sourceFile definition :
  triple (knownIn (vid definition))
    (SymbolData_addDefinition h sourceFile definition) (fun _ _ => True).
Proof.
  unfold SymbolData_addDefinition. tstep.
  destruct (variant sd).
  - eapply triple_pre; [apply triple_StandardSymbolData_addDefinition|].
    by intros st [? _].
  - eapply triple_pre; [apply triple_AliasedSymbolData_addDefinition|].
    by intros st [? _].
  - eapply triple_pre; [apply triple_MethodSymbolData_addDefinition|].
    by intros st [? _].
  - unfold UnionOrIntersectionSymbolData_addDefinition. by tstep.
Qed.

Lemma triple_SymbolData_addReference h sourceFile reference property :
  triple (knownIn (vid reference))
    (SymbolData_addReference h sourceFile reference property) (fun _ _ => True).
Proof.
  unfold SymbolData_addReference. tstep.
  destruct (variant sd).
  - eapply triple_pre; [apply triple_StandardSymbolData_addReference|].
    by intros st [? _].
  - eapply triple_pre; [apply triple_AliasedSymbolData_addReference|].
    by intros st [? _].
  - eapply triple_pre; [apply triple_MethodSymbolData_addReference|].
    by intros st [? _].
  - eapply triple_pre; [apply triple_UnionOrIntersectionSymbolData_addReference|].
    by intros st [? _].
Qed.

Lemma triple_SymbolData_set h f :
  (forall sd, resultSet (f sd) = resultSet sd
              /\ definitionResult (f sd) = definitionResult sd
              /\ referenceResult (f sd) = referenceResult sd
              /\ partitions (f sd) = partitions sd) ->
  triple (fun _ => True) (SymbolData_update h f) (fun _ _ => True).
Proof.
  intros Hf. eapply triple_pre; [apply triple_SymbolData_update|].
  intros st _ sd (H1 & H2 & H3 & H4). destruct (Hf sd) as (E1 & E2 & E3 & E4).
  unfold okSymbolIn, okSymbol. by rewrite E1, E2, E3, E4.
Qed.

Lemma triple_SymbolData_recordDefinitionInfo h info :
  triple (fun _ => True) (SymbolData_recordDefinitionInfo h info) (fun _ _ => True).
Proof.
  unfold SymbolData_recordDefinitionInfo. tstep.
  destruct (variant sd); try by tstep.
  all: eapply triple_pre; [by apply triple_SymbolData_set|done].
Qed.

Lemma silent_readonly {A} (m : M A) : readonly m -> silent m.
Proof. intros Hm st. rewrite Hm. reflexivity. Qed.

Lemma readonly_hasDefinitionInfo equals h info :
  readonly (SymbolData_hasDefinitionInfo equals h info).
Proof.
  apply readonly_bind; [apply readonly_SymbolData_deref|].
  intros sd. apply readonly_ret.
Qed.

Lemma readonly_getId h : readonly (SymbolData_getId h).
Proof.
  apply readonly_bind; [apply readonly_SymbolData_deref|].
  intros sd. apply readonly_ret.
Qed.

Lemma readonly_StandardSymbolData_findDefinition h sourceFile range :
  readonly (StandardSymbolData_findDefinition h sourceFile range).
Proof.
  apply readonly_bind; [apply readonly_SymbolData_deref|]. intros sd.
  destruct (partitions sd); try apply readonly_ret; try apply readonly_throw.
  destruct (JsMap.get _ _) as [[?|]|]; try apply readonly_ret; apply readonly_throw.
Qed.

Lemma readonly_outOfFuel {A} : readonly (@outOfFuel A).
Proof. by intros st. Qed.

Lemma readonly_SymbolData_findDefinition fuel : forall h sourceFile range,
  readonly (SymbolData_findDefinition fuel h sourceFile range).
Proof.
  induction fuel as [|fuel IH]; intros h sourceFile range; simpl.
  - apply readonly_bind; [apply readonly_SymbolData_deref|]. intros sd.
    destruct (variant sd) as [|? []| |];
      try apply readonly_StandardSymbolData_findDefinition.
    apply readonly_outOfFuel.
  - apply readonly_bind; [apply readonly_SymbolData_deref|]. intros sd.
    destruct (variant sd) as [|? []| |];
      try apply readonly_StandardSymbolData_findDefinition.
    apply IH.
Qed.

(** ** DataManager *)

Lemma triple_DataManager_nodeProcessed node :
  triple (fun _ => True) (DataManager_nodeProcessed node) (fun _ _ => True).
Proof.
  unfold DataManager_nodeProcessed. tstep. destruct a as [datas|]; [|by tstep].
  eapply triple_bind; [apply triple_forEach|intros []].
  - intros symbolData _. unfold SymbolData_nodeProcessed.
    eapply triple_bind_frame;
      [apply triple_StandardSymbolData_nodeProcessed|solve_stable|done
      |intros cleared].
    destruct cleared; [|by tstep].
    apply triple_bind_silent;
      [apply silent_readonly, readonly_getId|solve_stable|intros id].
    apply triple_silent_end; [by apply silent_modify|solve_stable|done].
  - apply triple_silent_end; [by apply silent_modify|solve_stable|done].
Qed.

Lemma triple_DataManager_documemntProcessed fileName :
  triple (fun _ => True) (DataManager_documemntProcessed fileName) (fun _ _ => True).
Proof.
  unfold DataManager_documemntProcessed.
  apply triple_bind_getDocumentData. intros [d|]; [|by tstep].
  eapply triple_bind_frame;
    [apply triple_DocumentData_end|solve_stable|done|intros []].
  apply triple_silent_end; [by apply silent_modify|solve_stable|done].
Qed.

Lemma triple_DataManager_projectProcessed :
  triple (fun _ => True) DataManager_projectProcessed (fun _ _ => True).
Proof.
  unfold DataManager_projectProcessed. tstep.
  eapply triple_bind; [apply triple_forEach|intros []].
  { intros [id [h|]] _; cbn [fst snd]; [|by tstep].
    unfold SymbolData_end.
    eapply triple_bind_frame;
      [apply triple_StandardSymbolData_end|solve_stable|done|intros []].
    apply triple_silent_end; [by apply silent_modify|solve_stable|done]. }
  tstep.
  eapply triple_bind; [apply triple_forEach|intros []].
  { intros [file [d|]] _; cbn [fst snd]; [|by tstep].
    apply triple_DocumentData_end. }
  apply triple_ProjectData_end.
Qed.

(** ** Creating a symbol data *)

Lemma bind_ext {A B} (m : M A) (k1 k2 : A -> M B) st :
  (forall a st', k1 a st' = k2 a st') -> bind m k1 st = bind m k2 st.
Proof. intros Hk. unfold bind. destruct (m st) as [[a| |] st1]; auto. Qed.

Lemma bind_run {A B} (m m' : M A) (k : A -> M B) st :
  m st = m' st -> bind m k st = bind m' k st.
Proof. intros Hm. unfold bind. by rewrite Hm. Qed.

Lemma triple_bind_assoc {A B C} (P : State -> Prop) (m : M A) (k1 : A -> M B)
    (k2 : B -> M C) (Q : C -> State -> Prop) :
  triple P (bind m (fun a => bind (k1 a) k2)) Q ->
  triple P (bind (bind m k1) k2) Q.
Proof. apply triple_ext. intros st. apply run_bind. Qed.

Lemma triple_bind_getResultSet {B} (P : State -> Prop) h (k : Vertex -> M B)
    (Q : B -> State -> Prop) :
  (forall v, triple (fun st => P st /\ knownIn (vid v) st) (k v) Q) ->
  triple P (bind (SymbolData_getResultSet h) k) Q.
Proof.
  intros Hk. unfold SymbolData_getResultSet. apply triple_bind_assoc.
  tstep. tstep. eapply triple_pre; [apply Hk|].
  intros st [HP Hsd]. split; [done|]. by apply okSymbolIn_resultSet.
Qed.

Lemma triple_addReferenceAtOwnFile h sourceFile r :
  triple (knownIn (vid r)) (addReferenceAtOwnFile h sourceFile r) (fun _ _ => True).
Proof.
  unfold addReferenceAtOwnFile. destruct sourceFile; [|by tstep].
  apply triple_StandardSymbolData_addReference.
Qed.

Lemma triple_forEach_bases (P : State -> Prop) h sourceFile bases :
  stable P ->
  triple P
    (forEach bases (fun base =>
       do r <- SymbolData_getOrCreateReferenceResult base;
       addReferenceAtOwnFile h sourceFile r))
    (fun _ => P).
Proof.
  intros HP. apply triple_forEach. intros base _.
  eapply triple_bind_frame;
    [apply triple_SymbolData_getOrCreateReferenceResult|solve_stable|done
    |intros r].
  eapply triple_use; [apply triple_addReferenceAtOwnFile|solve_stable| |].
  - by intros st [_ ?].
  - by intros [] st [? _] _.
Qed.

Lemma triple_SymbolData_begin_rest h v :
  triple (fun _ => True) (SymbolData_begin_rest h v) (fun _ _ => True).
Proof.
  destruct v as [|aliased rename|sourceFile bases|sourceFile elements];
    unfold SymbolData_begin_rest.
  - by tstep.
  - tstep. apply triple_bind_getResultSet. intros target. builders.
    tstep; [|done]. intros st [[_ Hsd] Ht]. known. by apply okSymbolIn_resultSet.
  - apply triple_bind_same.
    { destruct bases as [bases|]; [|by tstep].
      apply triple_forEach_bases. solve_stable. }
    intros _. by apply triple_SymbolData_set.
  - apply triple_bind_same.
    { apply triple_forEach_bases. solve_stable. }
    intros _. by apply triple_SymbolData_set.
Qed.

Lemma SymbolData_begin_run h data st :
  symbolHeap st !! h = Some data ->
  SymbolData_begin h st
  = (do _ <- emit (EV (resultSet data));
     SymbolData_begin_rest h (variant data)) st.
Proof.
  intros Hh. unfold SymbolData_begin. rewrite (run_deref _ _ _ _ Hh).
  destruct (variant data); unfold SymbolData_begin_rest.
  - unfold SymbolData_super_begin. by rewrite (run_deref _ _ _ _ Hh).
  - unfold AliasedSymbolData_begin, SymbolData_super_begin.
    rewrite run_bind. by rewrite (run_deref _ _ _ _ Hh).
  - unfold MethodSymbolData_begin, SymbolData_super_begin.
    rewrite run_bind. by rewrite (run_deref _ _ _ _ Hh).
  - unfold UnionOrIntersectionSymbolData_begin, SymbolData_super_begin.
    rewrite run_bind. by rewrite (run_deref _ _ _ _ Hh).
Qed.

Lemma triple_SymbolData_new id scope v :
  triple (fun _ => True) (SymbolData_new id scope v)
    (fun data st => newSymbolData data st).
Proof.
  unfold SymbolData_new. builders. tstep; [intros st _; known|].
  tstep. intros st [_ Hfresh]. unfold newSymbolData. fields.
  split; [exact Hfresh|]. by repeat split.
Qed.

Lemma triple_DataManager_getOrCreateSymbolData (P : State -> Prop) symbolId create :
  stable P ->
  triple P create (fun data st => P st /\ newSymbolData data st) ->
  triple P (DataManager_getOrCreateSymbolData symbolId create) (fun _ => P).
Proof.
  intros HP Hcreate.
  eapply triple_ext with
    (m' := do result <- DataManager_getSymbolData symbolId;
           match result with
           | Some h => ret h
           | None =>
               do data <- create;
               do _ <- emit (EV (resultSet data));
               do h <- SymbolData_alloc data;
               do _ <- modify (fun st =>
                         set_symbolDatas
                           (JsMap.set (sd_id data) (Some h) (symbolDatas st)) st);
               do _ <- SymbolData_begin_rest h (variant data);
               ret h
           end).
  { intros st. unfold DataManager_getOrCreateSymbolData.
    apply bind_ext. intros [h|] st1; [reflexivity|].
    apply bind_ext. intros data st2. unfold SymbolData_getId. run.
    erewrite run_deref by (fields; apply lookup_snoc_length). run.
    erewrite (bind_run (SymbolData_begin _))
      by (apply SymbolData_begin_run; fields; apply lookup_snoc_length).
    run. reflexivity. }
  apply triple_bind_readonly; [apply readonly_getSymbolData|].
  intros [h|]; [tstep; by intros st [? _]|].
  eapply triple_bind; [eapply triple_pre; [exact Hcreate|by intros st [? _]]|].
  intros data. cbn beta.
  eapply triple_pre with
    (P' := fun st => (P st /\ vdata (resultSet data) = ResultSet
                      /\ definitionResult data = None
                      /\ referenceResult data = None
                      /\ partitions data = PartitionsUndefined)
                     /\ freshVertex (resultSet data) st).
  2:{ intros st (HPst & Hfresh & Hrest). by split. }
  apply triple_emit_vertex_bind; [solve_stable|].
  eapply triple_bind_frame;
    [apply triple_SymbolData_alloc|solve_stable| |intros h].
  { intros st ((_ & _ & Hd & Hr & Hp) & Hrs).
    split; [done|]. rewrite Hd, Hr, Hp. by repeat split. }
  apply triple_bind_silent; [by apply silent_modify|solve_stable|intros []].
  eapply triple_bind_frame;
    [apply triple_SymbolData_begin_rest|solve_stable|done|intros []].
  tstep. by intros st ((((? & _) & _) & _) & _).
Qed.

(** ** Computations on the caches and the visitor's own fields *)

Ltac silent_leaf :=
  let st := fresh "st" in
  intros st;
  repeat match goal with
         | |- context [match ?x with _ => _ end] => destruct x
         end;
  cbn; by repeat split.

Create HintDb silent.

Ltac to_preserves :=
  lazymatch goal with
  | |- silent ?m => change (preserves sameCore m)
  | |- preserves sameCore _ => idtac
  end.

Ltac to_silent :=
  lazymatch goal with
  | |- preserves sameCore ?m => change (silent m)
  | |- silent _ => idtac
  end.

Ltac silent_steps :=
  to_preserves; preserves_steps; to_silent;
  try (by silent_leaf); auto with silent.

Section SilentEngine.
Variable ts : Oracle.

Lemma silent_Array_alloc items : silent (Array_alloc items).
Proof. silent_leaf. Qed.

Lemma silent_Array_read a : silent (Array_read a).
Proof. unfold Array_read. silent_leaf. Qed.

Lemma silent_Array_push a items : silent (Array_push a items).
Proof. silent_leaf. Qed.

Lemma silent_Cache_alloc c : silent (Cache_alloc c).
Proof. silent_leaf. Qed.

Lemma silent_Cache_get c memberName : silent (Cache_get c memberName).
Proof. unfold Cache_get. silent_leaf. Qed.

Lemma silent_Cache_set c memberName result : silent (Cache_set c memberName result).
Proof. silent_leaf. Qed.

Lemma silent_getBaseSymbols symbol : silent (Symbols_getBaseSymbols ts symbol).
Proof. unfold Symbols_getBaseSymbols. silent_steps. Qed.

Lemma silent_pushOrCreate result items : silent (pushOrCreate result items).
Proof.
  unfold pushOrCreate. silent_steps.
Qed.

#[local] Hint Resolve silent_Array_alloc silent_Array_read silent_Array_push
  silent_Cache_alloc silent_Cache_get silent_Cache_set silent_getBaseSymbols
  silent_pushOrCreate : silent.

Lemma silent_findBaseMembers fuel : forall symbol memberName,
  silent (Symbols_findBaseMembers ts fuel symbol memberName).
Proof.
  induction fuel as [|fuel IH]; intros symbol memberName; simpl;
    [silent_steps|].
  silent_steps.
  lazymatch goal with
  | |- silent (_ ?l None) =>
      generalize (@None ArrayRef);
      induction l as [|base bases IHbases]; intros result
  end; [silent_steps|].
  destruct (members ts base) as [table|]; [|apply IHbases].
  destruct (JsMap.get memberName table) as [method|].
  - to_preserves. apply preserves_bind; [typeclasses eauto| |].
    + apply silent_pushOrCreate.
    + intros result'. apply IHbases.
  - to_preserves. apply preserves_bind; [typeclasses eauto|apply IH|].
    intros [b|]; [|apply IHbases].
    destruct result as [arr|]; [|apply IHbases].
    apply preserves_bind; [typeclasses eauto|apply silent_Array_read|].
    intros items.
    apply preserves_bind; [typeclasses eauto|apply silent_Array_push|].
    intros []. apply IHbases.
Qed.

Lemma silent_exportedPaths_set symbol path : silent (exportedPaths_set symbol path).
Proof. silent_leaf. Qed.

#[local] Hint Resolve silent_exportedPaths_set : silent.

Lemma silent_getExportPath fuel : forall symbol,
  silent (Symbols_getExportPath ts fuel symbol).
Proof.
  induction fuel as [|fuel IH]; intros symbol; simpl; [silent_steps|].
  to_preserves.
  apply preserves_bind; [typeclasses eauto|by silent_leaf|]. intros [result|].
  { apply preserves_ret. typeclasses eauto. }
  destruct (symbolIsSourceFile ts symbol); [silent_steps|].
  destruct (getSymbolParent ts symbol) as [parent|]; [|silent_steps].
  apply preserves_bind; [typeclasses eauto|apply IH|]. intros [parentValue|].
  - silent_steps.
  - silent_steps.
Qed.

Lemma silent_emitBoundaryFrom fuel : forall result,
  silent (emitBoundaryFrom ts fuel result).
Proof.
  induction fuel as [|fuel IH]; intros [node|]; simpl; silent_steps.
Qed.

Lemma silent_isFullContentIgnored sourceFile : silent (isFullContentIgnored sourceFile).
Proof. unfold isFullContentIgnored. silent_steps. Qed.

#[local] Hint Resolve silent_findBaseMembers silent_getExportPath
  silent_emitBoundaryFrom silent_isFullContentIgnored : silent.

Lemma silent_resolveEmittingNode fuel symbol :
  silent (Visitor_resolveEmittingNode ts fuel symbol).
Proof. unfold Visitor_resolveEmittingNode. silent_steps. Qed.

Lemma silent_getDeclarationNodes r symbol location :
  silent (Resolver_getDeclarationNodes ts r symbol location).
Proof. unfold Resolver_getDeclarationNodes. silent_steps. Qed.

Lemma silent_getSourceFiles r symbol location :
  silent (Resolver_getSourceFiles ts r symbol location).
Proof. unfold Resolver_getSourceFiles. silent_steps. Qed.

Lemma silent_getPartitionScope sourceFiles :
  silent (Resolver_getPartitionScope sourceFiles).
Proof. unfold Resolver_getPartitionScope. silent_steps. Qed.

Lemma silent_getIdentifierInformation symbol declaration :
  silent (Visitor_getIdentifierInformation ts symbol declaration).
Proof. unfold Visitor_getIdentifierInformation. silent_steps. Qed.

Lemma silent_currentDocumentData : silent Visitor_currentDocumentData.
Proof. unfold Visitor_currentDocumentData. silent_steps. Qed.

Lemma silent_currentRecordDocumentSymbol : silent Visitor_currentRecordDocumentSymbol.
Proof. unfold Visitor_currentRecordDocumentSymbol. silent_steps. Qed.

Lemma silent_symbolContainer_pop : silent symbolContainer_pop.
Proof. unfold symbolContainer_pop. silent_steps. Qed.

Lemma silent_endVisitDeclaration node : silent (Visitor_endVisitDeclaration node).
Proof. unfold Visitor_endVisitDeclaration. silent_steps. Qed.

Lemma silent_getSymbolData symbolId : silent (DataManager_getSymbolData symbolId).
Proof. apply silent_readonly, readonly_getSymbolData. Qed.

End SilentEngine.

#[global] Hint Resolve silent_Array_alloc silent_Array_read silent_Array_push
  silent_Cache_alloc silent_Cache_get silent_Cache_set silent_getBaseSymbols
  silent_pushOrCreate silent_exportedPaths_set silent_findBaseMembers
  silent_getExportPath silent_emitBoundaryFrom silent_isFullContentIgnored
  silent_resolveEmittingNode silent_getDeclarationNodes silent_getSourceFiles
  silent_getPartitionScope silent_getIdentifierInformation
  silent_currentDocumentData silent_currentRecordDocumentSymbol
  silent_symbolContainer_pop silent_endVisitDeclaration silent_getSymbolData
  silent_getDocumentData silent_manageLifeCycle : silent.

(** A silent step in front of the rest. *)
Ltac tsilent :=
  lazymatch goal with
  | |- triple _ (bind _ _) _ =>
      apply triple_bind_silent;
        [first [ by auto with silent | by apply silent_modify ]
        |solve_stable|intros ?]
  | |- triple _ _ _ =>
      apply triple_silent_end;
        [first [ by auto with silent | by apply silent_modify ]
        |solve_stable|idtac]
  end.

Lemma triple_addRange_bind {B} (P : State -> Prop) d v (k : unit -> M B)
    (Q : B -> State -> Prop) :
  stable P ->
  triple (fun st => P st /\ knownIn (vid v) st) (k tt) Q ->
  triple (fun st => P st /\ freshVertex v st)
    (bind (DocumentData_addRange d v) k) Q.
Proof.
  intros HP Hk. eapply triple_bind.
  - eapply triple_pre;
      [apply (triple_frame P (freshVertex v) _ _ HP
                (triple_DocumentData_addRange d v))|].
    by intros st [? ?].
  - intros []. cbn beta. eapply triple_pre; [exact Hk|]. by intros st [? ?].
Qed.

Section VisitorTriples.
Variable ts : Oracle.

Lemma triple_Visitor_getOrCreateDocumentData sourceFile :
  triple (fun _ => True) (Visitor_getOrCreateDocumentData ts sourceFile)
    (fun _ _ => True).
Proof.
  unfold Visitor_getOrCreateDocumentData.
  apply triple_bind_getDocumentData. intros [d|]; [by tstep|].
  unfold vertex.document. apply triple_bind_assoc. tstep.
  tstep; [intros st _; known|].
  do 5 tstep.
  destruct (JsMap.get _ _);
    (eapply triple_pre;
       [apply triple_DataManager_getOrCreateDocumentData|by intros st [_ ?]]).
Qed.

Lemma triple_Resolver_resolve fuel getOrCreate r sourceFile id symbol location
    scope :
  (forall s l, triple (fun _ => True) (getOrCreate s l) (fun _ _ => True)) ->
  triple (fun _ => True)
    (Resolver_resolve ts fuel getOrCreate r sourceFile id symbol location scope)
    (fun data st => newSymbolData data st).
Proof.
  intros Hgo. destruct r; unfold Resolver_resolve.
  - apply triple_SymbolData_new.
  - destruct (getAliasedSymbol ts symbol) as [aliased|];
      [|apply triple_SymbolData_new].
    eapply triple_bind; [apply Hgo|]. intros h. apply triple_SymbolData_new.
  - destruct sourceFile as [sourceFile|]; [|by tstep].
    destruct (getSymbolParent ts symbol) as [container|];
      [|apply triple_SymbolData_new].
    tsilent. destruct a as [a|]; [|apply triple_SymbolData_new].
    tsilent. destruct (Nat.eqb _ _); [apply triple_SymbolData_new|].
    eapply triple_bind; [apply triple_mapM; intros member; apply Hgo|].
    intros datas. apply triple_SymbolData_new.
  - destruct location as [location|]; [|by tstep].
    destruct (unionOrIntersectionTypes ts _) as [[|typeElem types]|];
      try apply triple_SymbolData_new.
    eapply triple_bind with (Q := fun _ _ => True).
    + lazymatch goal with
      | |- context [bind (?f types) _] =>
          assert (forall l, triple (fun _ => True) (f l) (fun _ _ => True))
            as Hall
      end.
      { intros l. induction l as [|elem l IH]; simpl; [by tstep|].
        destruct (typeSymbol ts elem) as [s|]; [|exact IH].
        eapply triple_bind; [apply Hgo|]. intros data.
        eapply triple_bind; [exact IH|]. intros rest. by tstep. }
      destruct (typeSymbol ts typeElem) as [s|]; [|apply Hall].
      eapply triple_bind; [apply Hgo|]. intros data.
      eapply triple_bind; [apply Hall|]. intros rest. by tstep.
    + intros datas. destruct sourceFile; [|by tstep]. apply triple_SymbolData_new.
Qed.

End VisitorTriples.

Section VisitorSymbols.
Variable ts : Oracle.

Lemma triple_Visitor_getOrCreateSymbolData fuel : forall symbol location,
  triple (fun _ => True) (Visitor_getOrCreateSymbolData ts fuel symbol location)
    (fun _ _ => True).
Proof.
  induction fuel as [|fuel IH]; intros symbol location;
    cbn [Visitor_getOrCreateSymbolData]; [by tstep|].
  apply triple_bind_readonly; [apply readonly_getSymbolData|].
  intros [h|]; [by tstep|].
  eapply triple_pre with (P' := fun _ => True); [|done].
  tsilent. tsilent. tsilent.
  apply triple_bind_same.
  { destruct (_ && _); by tstep. }
  intros _.
  eapply triple_bind with (Q := fun _ _ => True).
  { generalize (MonikerUndefined, false).
    induction a1 as [|sourceFile files IHfiles]; intros acc; simpl; [by tstep|].
    eapply triple_bind; [apply triple_Visitor_getOrCreateDocumentData|].
    intros d. tstep. eapply triple_pre; [apply IHfiles|done]. }
  intros merged.
  set (paths := match merged.1 with
                | MonikerUndefined => (None, merged.2)
                | MonikerNull => (None, false)
                | MonikerString path => (Some path, merged.2)
                end).
  destruct paths as [monikerPath externalLibrary].
  eapply triple_bind.
  { apply triple_DataManager_getOrCreateSymbolData; [solve_stable|].
    eapply triple_post with (Q' := fun data st => newSymbolData data st);
      [|by intros data st ?].
    destruct (Resolver_requiresSourceFile _).
    - tsilent. apply triple_Resolver_resolve. apply IH.
    - apply triple_Resolver_resolve. apply IH. }
  intros h. cbn beta.
  destruct a0 as [[|declaration declarations]|]; try by tstep.
  eapply triple_bind with (Q := fun _ _ => True).
  { destruct (_ && _); [by tstep|]. tsilent. destruct a0; by tstep. }
  intros monikerIdentifer.
  eapply triple_bind with (Q := fun _ _ => True).
  { destruct monikerIdentifer; [|by tstep]. apply triple_SymbolData_addMoniker. }
  intros _.
  eapply triple_bind with (Q := fun _ _ => True); [|intros []; by tstep].
  lazymatch goal with
  | |- context [?f declarations None] =>
      assert (forall l hover,
                triple (fun _ => True) (f l hover) (fun _ _ => True)) as Hall;
        [|change (triple (fun _ => True)
                    (f (declaration :: declarations) None) (fun _ _ => True));
          apply Hall]
  end.
  intros l. induction l as [|decl l IHl]; intros hover;
    cbn beta match fix zeta; [by tstep|].
  tsilent. destruct a0 as [[identifierNode identifierText]|];
    [|eapply triple_pre; [apply IHl|done]].
  eapply triple_bind_frame;
    [apply triple_Visitor_getOrCreateDocumentData|solve_stable|done|intros d].
  builders. tstep; [intros st _; known|].
  apply triple_addRange_bind; [solve_stable|].
  eapply triple_bind_frame;
    [apply triple_SymbolData_addDefinition|solve_stable| |intros []].
  { by intros st [_ ?]. }
  eapply triple_bind_frame;
    [apply triple_SymbolData_recordDefinitionInfo|solve_stable|done|intros []].
  destruct hover as [hover|]; [eapply triple_pre; [apply IHl|done]|].
  destruct (isNamedDeclaration ts decl); [|eapply triple_pre; [apply IHl|done]].
  destruct (nameOf ts decl) as [name|]; [|by tstep].
  destruct (Visitor_getHover ts name _) as [hover|];
    [|eapply triple_pre; [apply IHl|done]].
  eapply triple_bind_frame;
    [apply triple_SymbolData_addHover|solve_stable|done|intros []].
  eapply triple_pre; [apply IHl|done].
Qed.

End VisitorSymbols.

Lemma triple_bind_silent_core {A B} (P : State -> Prop) (m : M A) (k : A -> M B)
    (R : B -> State -> Prop) :
  silent m -> coreOnly P -> (forall a, triple P (k a) R) -> triple P (bind m k) R.
Proof.
  intros Hm HP Hk. eapply triple_bind; [|exact Hk]. by apply triple_silent.
Qed.

Lemma Tree_ind_children (P : Tree -> Prop) :
  (forall node children, Forall P children -> P (TreeNode node children)) ->
  forall tree, P tree.
Proof.
  intros Hnode. fix IH 1. intros [node children]. apply Hnode.
  revert children. fix IHchildren 1. intros [|child children].
  - constructor.
  - constructor; [apply IH|apply IHchildren].
Qed.

Section VisitorVisit.
Variable ts : Oracle.

Lemma triple_Visitor_addDocumentSymbol fuel node :
  triple (fun _ => True) (Visitor_addDocumentSymbol ts fuel node) (fun _ _ => True).
Proof.
  unfold Visitor_addDocumentSymbol.
  destruct (getSymbolAtLocation ts _) as [symbol|]; [|by tstep].
  destruct (getDeclarations ts symbol) as [[|declaration declarations]|];
    try by tstep.
  eapply triple_bind; [apply triple_Visitor_getOrCreateSymbolData|].
  intros symbolData. tstep. destruct a as [sourceFile|]; [|by tstep].
  apply triple_bind_silent;
    [apply silent_readonly, readonly_SymbolData_findDefinition|solve_stable|].
  intros [definition|]; [|by tstep].
  tstep. destruct a as [|frame stack]; [by tstep|].
  tsilent. by tstep.
Qed.

Lemma triple_Visitor_visitDeclaration fuel node isContainer :
  triple (fun _ => True) (Visitor_visitDeclaration ts fuel node isContainer)
    (fun _ _ => True).
Proof.
  unfold Visitor_visitDeclaration. tsilent.
  eapply triple_bind with (Q := fun _ _ => True).
  { destruct (_ && _); [apply triple_Visitor_addDocumentSymbol|by tstep]. }
  intros didRecord. by tsilent.
Qed.

Lemma triple_Visitor_visitIdentifier fuel node :
  triple (fun _ => True) (Visitor_visitIdentifier ts fuel node) (fun _ _ => True).
Proof.
  unfold Visitor_visitIdentifier.
  destruct (getSymbolAtLocation ts node) as [symbol|]; [|by tstep].
  eapply triple_bind; [apply triple_Visitor_getOrCreateSymbolData|].
  intros symbolData. tstep. destruct a as [sourceFile|]; [|by tstep].
  apply triple_bind_silent;
    [apply silent_readonly, readonly_hasDefinitionInfo|solve_stable|].
  intros [|]; [by tstep|].
  builders. tstep; [intros st _; known|].
  apply triple_bind_silent_core; [apply silent_currentDocumentData| |intros d].
  { apply coreOnly_and; [by apply stable_coreOnly, stable_pure|].
    apply freshVertex_coreOnly. }
  apply triple_addRange_bind; [solve_stable|].
  eapply triple_pre; [apply triple_SymbolData_addReference|]. by intros st [_ ?].
Qed.

Lemma triple_Visitor_visitSourceFile sourceFile :
  triple (fun _ => True) (Visitor_visitSourceFile ts sourceFile) (fun _ _ => True).
Proof.
  unfold Visitor_visitSourceFile. tsilent. destruct a; [by tstep|].
  tsilent.
  eapply triple_bind; [apply triple_Visitor_getOrCreateDocumentData|].
  intros documentData. tsilent. tstep. tsilent. tsilent. by tstep.
Qed.

Lemma triple_Visitor_endVisitSourceFile sourceFile :
  triple (fun _ => True) (Visitor_endVisitSourceFile ts sourceFile) (fun _ _ => True).
Proof.
  unfold Visitor_endVisitSourceFile. tsilent. destruct a; [by tstep|].
  tsilent.
  eapply triple_bind with (Q := fun _ _ => True).
  { destruct (_ <? _)%nat; [apply triple_DocumentData_addDiagnostics|by tstep]. }
  intros _.
  eapply triple_bind with (Q := fun _ _ => True).
  { destruct (_ <? _)%nat; [apply triple_DocumentData_addFoldingRanges|by tstep]. }
  intros _. tsilent.
  eapply triple_bind with (Q := fun _ _ => True).
  { destruct (frameChildren a0) as [[|value values]|]; try by tstep.
    apply triple_DocumentData_addDocumentSymbols. }
  intros _. tsilent. tsilent. tsilent.
  eapply triple_bind; [apply triple_DataManager_documemntProcessed|].
  intros []. tstep. destruct (negb _); by tstep.
Qed.

Lemma triple_Visitor_doVisit visit endVisit node visitChildren :
  triple (fun _ => True) visit (fun _ _ => True) ->
  triple (fun _ => True) endVisit (fun _ _ => True) ->
  triple (fun _ => True) visitChildren (fun _ _ => True) ->
  triple (fun _ => True) (Visitor_doVisit visit endVisit node visitChildren)
    (fun _ _ => True).
Proof.
  intros Hvisit Hend Hchildren. unfold Visitor_doVisit.
  eapply triple_bind; [exact Hvisit|]. intros descend.
  eapply triple_bind with (Q := fun _ _ => True).
  { destruct descend; [exact Hchildren|by tstep]. }
  intros _. eapply triple_bind; [apply triple_DataManager_nodeProcessed|].
  intros []. exact Hend.
Qed.

Lemma triple_Visitor_visit fuel tree :
  triple (fun _ => True) (Visitor_visit ts fuel tree) (fun _ _ => True).
Proof.
  induction tree as [node children IH] using Tree_ind_children.
  cbn [Visitor_visit].
  lazymatch goal with
  | |- context [Visitor_doVisit _ _ node ?each] =>
      assert (triple (fun _ => True) each (fun _ _ => True)) as Hchildren
  end.
  { induction IH as [|child children Hchild _ IHchildren];
      cbn beta match fix zeta; [by tstep|].
    eapply triple_bind; [exact Hchild|]. intros []. exact IHchildren. }
  assert (forall isContainer,
            triple (fun _ => True)
              (do _ <- Visitor_visitDeclaration ts fuel node isContainer; ret true)
              (fun _ _ => True)) as Hdecl.
  { intros isContainer.
    eapply triple_bind; [apply triple_Visitor_visitDeclaration|].
    intros []. by tstep. }
  destruct (kind node).
  2-9: (apply triple_Visitor_doVisit; [apply Hdecl| |exact Hchildren];
        apply triple_silent_end;
          [apply silent_endVisitDeclaration|solve_stable|done]).
  - apply triple_Visitor_doVisit;
      [apply triple_Visitor_visitSourceFile
      |apply triple_Visitor_endVisitSourceFile|exact Hchildren].
  - eapply triple_bind with (Q := fun _ _ => True);
      [|intros []; apply triple_Visitor_visitIdentifier].
    apply triple_Visitor_doVisit; [by tstep|by tstep|exact Hchildren].
  - apply triple_Visitor_visitIdentifier.
  - exact Hchildren.
Qed.

Lemma triple_Visitor_visitProgram fuel :
  triple (fun _ => True) (Visitor_visitProgram ts fuel) (fun _ _ => True).
Proof.
  unfold Visitor_visitProgram.
  eapply triple_bind; [apply triple_forEach|intros []].
  { intros [sourceFile children] _.
    destruct (getResolvedModules ts sourceFile) as [resolvedModules|];
      [|by tstep].
    apply triple_forEach. intros [resolvedModule|] _; [|by tstep].
    destruct (isExternalLibraryImport resolvedModule); [|by tstep].
    apply triple_silent_end; [|solve_stable|done].
    apply silent_modify. intros st. by destruct (JsMap.has _ _). }
  eapply triple_bind; [apply triple_forEach|intros []].
  { intros tree _. apply triple_Visitor_visit. }
  tstep. tstep. by tstep.
Qed.

(** The constructor of the visitor sets up the invariant: the meta data,
    the project and the begin event of the project are the first three
    elements. *)
Lemma Visitor_new_run dependsOn tsConfigFile firstId emitSource projectRoot :
  exists st,
    Visitor_new ts dependsOn tsConfigFile
      (initialState firstId emitSource projectRoot) = (Ok tt, st)
    /\ Inv st.
Proof.
  unfold Visitor_new, DataManager_new, ProjectData_begin. builders.
  unfold vertex.make. run.
  set (meta := {| vid := firstId;
                  vdata := MetaData (Version ts) (fileUri ts projectRoot) |}).
  set (project := {| vid := firstId + 1; vdata := Project |}).
  set (event := {| vid := firstId + 1 + 1;
                   vdata := Event EventKind.begin (firstId + 1) |}).
  assert (wfTrace [EV meta; EV project; EV event]) as Hwf.
  { apply (wfTrace_snoc [EV meta; EV project]).
    - apply (wfTrace_snoc [EV meta]).
      + apply (wfTrace_snoc []); [constructor|by intros y []|by intros r []].
      + intros y [<-|[]]. simpl. lia.
      + by intros r [].
    - intros y [<-| [<-|[]]]; simpl; lia.
    - intros r [<-|[]]. exists project. split; [|done]. right. by left. }
  assert (forall st,
            emitted st = [EV meta; EV project; EV event] ->
            nextId st = firstId + 1 + 1 + 1 ->
            symbolHeap st = [] -> documentHeap st = [] ->
            projectData st = ProjectData_new project -> Inv st) as Hinv.
  { intros st He Hn Hs Hd Hp. unfold Inv. rewrite He, Hn, Hs, Hd, Hp.
    split; [done|]. split.
    { intros y [<-| [<-| [<-|[]]]]; simpl; lia. }
    split; [constructor|]. split; [constructor|].
    split; [|by intros d []]. exists project. split; [|done]. right. by left. }
  destruct (compilerOutDir ts), (compilerRootDir ts); run;
    (eexists; split; [reflexivity|by apply Hinv]).
Qed.

End VisitorVisit.

Lemma run_ok {A B} (m : M A) (k : A -> M B) st a st1 :
  m st = (Ok a, st1) -> bind m k st = k a st1.
Proof. intros Hm. unfold bind. by rewrite Hm. Qed.

Lemma triple_Visitor_run ts fuel :
  triple (fun _ => True)
    (do result <- Visitor_visitProgram ts fuel;
     do _ <- Visitor_endVisitProgram;
     ret result)
    (fun _ _ => True).
Proof.
  eapply triple_bind; [apply triple_Visitor_visitProgram|]. intros result.
  eapply triple_bind; [apply triple_DataManager_projectProcessed|]. intros [].
  by tstep.
Qed.

(** C1. In every run of the indexer -- whatever the program, the options and
    the first id of the generator, and whether the run completes, throws or
    runs out of fuel -- the elements are emitted in the order of their ids
    (of two emitted elements the earlier one has the smaller id), and every
    id an emitted element names (the end points of an edge, the document of
    an item edge, the scope of an event) is the id of a vertex that was
    emitted strictly before it. *)
Theorem lsif_emission_ordered (ts : Oracle) (fuel : nat) (options : Options)
    (dependsOn : list ProjectInfo) (firstId : Id) (tsConfigFile : option string) :
  orderedTrace (emitted (lsif ts fuel options dependsOn firstId tsConfigFile).2).
Proof.
  unfold lsif.
  destruct (Visitor_new_run ts dependsOn tsConfigFile firstId
              (negb (noContents options)) (opt_projectRoot options))
    as (st1 & Hrun & Hinv).
  rewrite (run_ok _ _ _ _ _ Hrun).
  apply wfTrace_ordered.
  destruct (triple_Visitor_run ts fuel st1 Hinv I) as ((Hwf & _) & _).
  exact Hwf.
Qed.

(** The run on the sample program completes and emits 25 elements. *)
Lemma lsif_sample_run :
  (lsif sampleFooOracle 5 sampleOptions [] 1 None).1
    = Ok (Some "/src", Some "/out")
  /\ length (emitted (lsif sampleFooOracle 5 sampleOptions [] 1 None).2) = 25%nat.
Proof. by vm_compute. Qed.

(** ** Visiting an ignored file *)

Lemma bind_ret_tt (m : M unit) st : bind m (fun _ => ret tt) st = m st.
Proof. unfold bind, ret. by destruct (m st) as [[[]| |] st1]. Qed.




(** ** What a computation adds to the trace *)

Lemma emittedBy_app {A} (m : M A) st new :
  emitted (m st).2 = emitted st ++ new -> emittedBy m st = new.
Proof. intros Heq. unfold emittedBy. rewrite Heq. apply drop_app_length. Qed.

Lemma containedBy_app from xs ys :
  containedBy from (xs ++ ys) = containedBy from xs ++ containedBy from ys.
Proof. apply flat_map_app. Qed.

(** ** ProjectData: no document is lost *)

Lemma ProjectData_addDocuments_contained docs : forall st,
  exists new,
    (forEach docs ProjectData_addDocument st).1 = Ok tt
    /\ emitted (forEach docs ProjectData_addDocument st).2 = emitted st ++ new
    /\ pd_project (projectData (forEach docs ProjectData_addDocument st).2)
       = pd_project (projectData st)
    /\ pd_diagnostics (projectData (forEach docs ProjectData_addDocument st).2)
       = pd_diagnostics (projectData st)
    /\ containedBy (vid (pd_project (projectData st))) new
       ++ map vid (pd_documents
                     (projectData (forEach docs ProjectData_addDocument st).2))
       = map vid (pd_documents (projectData st) ++ docs).
Proof.
  induction docs as [|d docs IH]; intros st.
  - exists []. simpl. rewrite !app_nil_r. done.
  - cbn [forEach]. unfold bind at 1 2 3 4 5.
    assert (pd_diagnostics (projectData (ProjectData_addDocument d st).2)
            = pd_diagnostics (projectData st)) as Hdiag.
    { unfold ProjectData_addDocument, ProjectData_update. run.
      destruct (32 <? _)%nat; [unfold edge.contains, edge.make, emit|]; run;
        reflexivity. }
    pose proof (ProjectData_addDocument_step d st) as Hstep. cbv zeta in Hstep.
    destruct (ProjectData_addDocument d st) as [r st1]. cbn [fst snd] in *.
    destruct Hstep as (-> & Hproj & Hcase).
    destruct (IH st1) as (new & Hok & Hem & Hproj' & Hdiag' & Hcont).
    rewrite Hproj in Hcont.
    destruct (length (pd_documents (projectData st)) <? 32)%nat.
    + destruct Hcase as [He Hd]. exists new.
      split; [done|]. split; [by rewrite Hem, He|].
      split; [congruence|]. split; [congruence|].
      rewrite Hcont, Hd. by rewrite <- app_assoc.
    + destruct Hcase as [He Hd]. eexists.
      split; [done|]. split; [rewrite Hem, He, <- app_assoc; reflexivity|].
      split; [congruence|]. split; [congruence|].
      rewrite containedBy_app, <- app_assoc, Hcont, Hd. cbn.
      rewrite Z.eqb_refl, app_nil_r, !map_app. cbn. by rewrite <- app_assoc.
Qed.

(** X1. A project loses no document and links none twice: whatever the
    buffer holds and whatever documents are added, after [end] the
    [contains] edges of the project list the buffered and the added
    documents, each once and in the order they were added, and the buffer is
    empty. The calls never fail. *)
Theorem ProjectData_contains_all (docs : list Vertex) (st : State) :
  let project := pd_project (projectData st) in
  (ProjectData_run docs st).1 = Ok tt
  /\ containedBy (vid project) (emittedBy (ProjectData_run docs) st)
     = map vid (pd_documents (projectData st) ++ docs)
  /\ pd_documents (projectData (ProjectData_run docs st).2) = [].
Proof.
  cbv zeta. unfold ProjectData_run.
  destruct (ProjectData_addDocuments_contained docs st)
    as (new & Hok & Hem & Hproj & _ & Hcont).
  set (st1 := (forEach docs ProjectData_addDocument st).2) in *.
  assert (forall k : unit -> M unit,
            bind (forEach docs ProjectData_addDocument) k st = k tt st1) as Hrun.
  { intros k. apply run_ok. rewrite <- Hok. subst st1.
    by destruct (forEach docs ProjectData_addDocument st). }
  unfold emittedBy. rewrite !Hrun.
  set (pd := projectData st1) in *.
  assert (exists tail,
            (ProjectData_end st1).1 = Ok tt
            /\ emitted (ProjectData_end st1).2 = emitted st1 ++ tail
            /\ containedBy (vid (pd_project pd)) tail = map vid (pd_documents pd)
            /\ pd_documents (projectData (ProjectData_end st1).2) = [])
    as (tail & Hok' & Hem' & Hcont' & Hempty).
  { unfold ProjectData_end. run. fold pd. builders.
    unfold vertex.make, edge.make, emit, ProjectData_update.
    destruct (pd_documents pd) as [|doc rest] eqn:Hdocs;
      destruct (pd_diagnostics pd) as [|diag diags] eqn:Hdiags;
      cbn [length Nat.ltb Nat.leb]; run; unfold modify; cbn [fst snd]; fields;
      eexists; (split; [reflexivity|]);
      (split; [rewrite <- ?app_assoc; reflexivity|]);
      cbn; rewrite ?Z.eqb_refl, ?app_nil_r; rewrite ?Hdocs; done. }
  split; [exact Hok'|]. split; [|exact Hempty].
  rewrite Hem', Hem, <- app_assoc, drop_app_length, containedBy_app.
  rewrite <- Hcont, <- Hproj. fold pd. by rewrite Hcont'.
Qed.

(** ** DocumentData: the ranges of a document *)

Lemma with_dd_ranges_same data : with_dd_ranges (dd_ranges data) data = data.
Proof. by destruct data. Qed.

Lemma DocumentData_addRanges_run d ranges : forall st data,
  documentHeap st !! d = Some data ->
  let st' := (forEach ranges (DocumentData_addRange d) st).2 in
  (forEach ranges (DocumentData_addRange d) st).1 = Ok tt
  /\ emitted st' = emitted st ++ map EV ranges
  /\ nextId st' = nextId st
  /\ documentHeap st' !! d
     = Some (with_dd_ranges (dd_ranges data ++ ranges) data).
Proof.
  induction ranges as [|r ranges IH]; intros st data Hd; cbv zeta.
  - simpl. rewrite !app_nil_r, with_dd_ranges_same. done.
  - cbn [forEach].
    set (st1 := set_documentHeap
                  (alter (fun data => with_dd_ranges (dd_ranges data ++ [r]) data)
                     d (documentHeap st))
                  (set_emitted (emitted st ++ [EV r]) st)).
    assert (forall k : unit -> M unit,
              bind (DocumentData_addRange d r) k st = k tt st1) as Hrun.
    { intros k. unfold DocumentData_addRange, DocumentData_update.
      rewrite run_bind, (run_deref_document _ _ _ _ Hd). run. reflexivity. }
    rewrite !Hrun.
    assert (documentHeap st1 !! d
            = Some (with_dd_ranges (dd_ranges data ++ [r]) data)) as Hd1.
    { subst st1. fields. rewrite list_lookup_alter_eq, Hd. reflexivity. }
    destruct (IH st1 _ Hd1) as (Hok & Hem & Hnext & Hheap).
    split; [exact Hok|]. split; [|split; [exact Hnext|]].
    + rewrite Hem. subst st1. fields. by rewrite <- app_assoc.
    + rewrite Hheap. fields. by rewrite <- app_assoc.
Qed.

(** A result vertex and the edge to it, when the document has that result. *)
Lemma result_block_emits {A} (o : option A) (d : A -> VertexData) l from st :
  exists st' new,
    match o with
    | Some x =>
        do v <- vertex.make (d x);
        do _ <- emit (EV v);
        do e <- edge.make (E11 l from (vid v));
        emit (EE e)
    | None => ret tt
    end st = (Ok tt, st')
    /\ emitted st' = emitted st ++ new.
Proof.
  destruct o as [x|].
  - unfold vertex.make, edge.make, emit. run. unfold modify.
    eexists. eexists. split; [reflexivity|]. fields.
    rewrite <- app_assoc. reflexivity.
  - exists st, []. split; [reflexivity|]. by rewrite app_nil_r.
Qed.

(** X2. The [contains] edge of a document lists the ranges the document
    holds and the ranges added, each once and in the order of [addRange];
    every added range is emitted by [addRange] before it. [end] emits the
    edge also when the document has no range at all, and the last element it
    emits is the end event of the document. *)
Theorem DocumentData_contains_ranges (d : DocumentDataRef) (data : DocumentData)
    (ranges : list Vertex) (st : State) :
  documentHeap st !! d = Some data ->
  exists rest i,
    (DocumentData_run d ranges st).1 = Ok tt
    /\ emittedBy (DocumentData_run d ranges) st
       = map EV ranges
         ++ EE {| eid := nextId st;
                  edata := E1N "contains" (vid (dd_document data))
                             (map vid (dd_ranges data ++ ranges)) |}
         :: rest
    /\ last rest
       = Some (EV {| vid := i;
                     vdata := Event EventKind.end_ (vid (dd_document data)) |}).
Proof.
  intros Hd. unfold DocumentData_run.
  destruct (DocumentData_addRanges_run d ranges st data Hd)
    as (Hok & Hem & Hnext & Hheap).
  set (st1 := (forEach ranges (DocumentData_addRange d) st).2) in *.
  assert (forall k : unit -> M unit,
            bind (forEach ranges (DocumentData_addRange d)) k st = k tt st1)
    as Hrun.
  { intros k. apply run_ok. rewrite <- Hok. subst st1.
    by destruct (forEach ranges (DocumentData_addRange d) st). }
  unfold emittedBy. rewrite !Hrun.
  unfold DocumentData_end. rewrite !(run_deref_document _ _ _ _ Hheap).
  fields. builders.
  replace (0 <=? length (dd_ranges data ++ ranges))%nat with true
    by (symmetry; apply Nat.leb_le; lia).
  set (contains :=
         EE {| eid := nextId st;
               edata := E1N "contains" (vid (dd_document data))
                          (map vid (dd_ranges data ++ ranges)) |}).
  set (st2 := set_emitted (emitted st1 ++ [contains])
                (set_nextId (nextId st1 + 1) st1)).
  assert (forall k : unit -> M unit,
            bind (do e <- edge.make
                            (E1N "contains" (vid (dd_document data))
                               (map vid (dd_ranges data ++ ranges)));
                  emit (EE e)) k st1 = k tt st2) as Hcontains.
  { intros k. unfold edge.make, emit. run. subst st2 contains.
    by rewrite Hnext. }
  rewrite !Hcontains.
  destruct (result_block_emits (dd_diagnostics data) DiagnosticResult
              "textDocument/diagnostic" (vid (dd_document data)) st2)
    as (st3 & new3 & Hrun3 & Hem3).
  rewrite !(run_ok _ _ _ _ _ Hrun3).
  destruct (result_block_emits (dd_foldingRanges data) FoldingRangeResult
              "textDocument/foldingRange" (vid (dd_document data)) st3)
    as (st4 & new4 & Hrun4 & Hem4).
  rewrite !(run_ok _ _ _ _ _ Hrun4).
  destruct (result_block_emits (dd_documentSymbols data) DocumentSymbolResult
              "textDocument/documentSymbol" (vid (dd_document data)) st4)
    as (st5 & new5 & Hrun5 & Hem5).
  rewrite !(run_ok _ _ _ _ _ Hrun5).
  unfold vertex.make, emit. run. unfold modify. cbn [fst snd]. fields.
  exists (new3 ++ new4 ++ new5
            ++ [EV {| vid := nextId st5;
                      vdata := Event EventKind.end_ (vid (dd_document data)) |}]),
    (nextId st5).
  split; [reflexivity|]. split.
  - rewrite Hem5, Hem4, Hem3. subst st2. fields. rewrite Hem.
    rewrite <- !app_assoc. rewrite drop_app_length. reflexivity.
  - rewrite !app_assoc. apply last_snoc.
Qed.
Lemma DocumentData_contains_ranges_witness :
  exists rest i,
    (DocumentData_run 0%nat [sampleRange] (sampleState [])).1 = Ok tt
    /\ emittedBy (DocumentData_run 0%nat [sampleRange]) (sampleState [])
       = map EV [sampleRange]
         ++ EE {| eid := nextId (sampleState []);
                  edata := E1N "contains" (vid (sampleDocument 3 "/a.ts"))
                             (map vid ([] ++ [sampleRange])) |}
         :: rest
    /\ last rest
       = Some (EV {| vid := i;
                     vdata := Event EventKind.end_
                                (vid (sampleDocument 3 "/a.ts")) |}).
Proof.
  apply (DocumentData_contains_ranges 0%nat
           (DocumentData_new (sampleDocument 3 "/a.ts") None false)
           [sampleRange] (sampleState [])).
  reflexivity.
Defined.

(** ** DataManager: a processed document is gone for good *)

(** X3. Once [documemntProcessed(fileName)] has returned, the DataManager
    holds a tombstone for the file: [getDocumentData],
    [getOrCreateDocumentData] and a second [documemntProcessed] for that
    file name throw, and they change and emit nothing. *)
Theorem documemntProcessed_tombstone (fileName : string) (st st' : State) :
  DataManager_documemntProcessed fileName st = (Ok tt, st') ->
  let msg := "There was already a managed document data for file: " +:+ fileName in
  DataManager_getDocumentData fileName st' = (Throw msg, st')
  /\ (forall document monikerPath externalLibrary,
        DataManager_getOrCreateDocumentData fileName document monikerPath
          externalLibrary st' = (Throw msg, st'))
  /\ DataManager_documemntProcessed fileName st' = (Throw msg, st').
Proof.
  intros Hrun msg.
  assert (JsMap.get fileName (documentDatas st') = Some None) as Hget.
  { unfold DataManager_documemntProcessed in Hrun.
    unfold bind at 1 in Hrun.
    destruct (DataManager_getDocumentData fileName st) as [[[d|]| |] st0];
      try discriminate.
    unfold bind in Hrun.
    destruct (DocumentData_end d st0) as [[[]| |] st1]; try discriminate.
    cbn in Hrun. injection Hrun as <-. fields. apply JsMap_get_set_eq. }
  assert (DataManager_getDocumentData fileName st' = (Throw msg, st')) as Hthrow.
  { unfold DataManager_getDocumentData. run. by rewrite Hget. }
  split; [exact Hthrow|]. split.
  - intros document monikerPath externalLibrary.
    unfold DataManager_getOrCreateDocumentData, bind. by rewrite Hthrow.
  - unfold DataManager_documemntProcessed, bind. by rewrite Hthrow.
Qed.

Lemma documemntProcessed_tombstone_witness :
  let st' := (DataManager_documemntProcessed "/a.ts" (sampleState [])).2 in
  let msg := "There was already a managed document data for file: /a.ts" in
  DataManager_getDocumentData "/a.ts" st' = (Throw msg, st')
  /\ (forall document monikerPath externalLibrary,
        DataManager_getOrCreateDocumentData "/a.ts" document monikerPath
          externalLibrary st' = (Throw msg, st'))
  /\ DataManager_documemntProcessed "/a.ts" st' = (Throw msg, st').
Proof.
  apply (documemntProcessed_tombstone "/a.ts" (sampleState [])).
  vm_compute. reflexivity.
Defined.

(** ** DataManager: creating a document data *)

(** X4. The first [getOrCreateDocumentData] for a file name creates the
    DocumentData as its constructor builds it, registers it under the file
    name, and emits the document vertex followed at once by the begin event
    of the document. After that comes at most one element, the [contains]
    edge of the project when this document fills the buffer. *)
Theorem getOrCreateDocumentData_creates (fileName : string) (document : Vertex)
    (monikerPath : option string) (externalLibrary : bool) (st : State) :
  JsMap.get fileName (documentDatas st) = None ->
  let d := length (documentHeap st) in
  let pd := projectData st in
  let run := DataManager_getOrCreateDocumentData fileName document monikerPath
               externalLibrary st in
  run.1 = Ok d
  /\ documentHeap run.2 !! d
     = Some (DocumentData_new document monikerPath externalLibrary)
  /\ DataManager_getDocumentData fileName run.2 = (Ok (Some d), run.2)
  /\ emittedBy
       (DataManager_getOrCreateDocumentData fileName document monikerPath
          externalLibrary) st
     = [EV document;
        EV {| vid := nextId st;
              vdata := Event EventKind.begin (vid document) |}]
       ++ if (length (pd_documents pd) <? 32)%nat then []
          else [EE {| eid := nextId st + 1;
                      edata := E1N "contains" (vid (pd_project pd))
                                 (map vid (pd_documents pd ++ [document])) |}].
Proof.
  intros Hnone. cbv zeta.
  set (st2 := set_emitted
                ((emitted st ++ [EV document])
                   ++ [EV {| vid := nextId st;
                             vdata := Event EventKind.begin (vid document) |}])
                (set_nextId (nextId st + 1)
                   (set_documentDatas
                      (JsMap.set fileName (Some (length (documentHeap st)))
                         (documentDatas st))
                      (set_documentHeap
                         (documentHeap st
                            ++ [DocumentData_new document monikerPath
                                  externalLibrary]) st)))).
  assert (DataManager_getOrCreateDocumentData fileName document monikerPath
            externalLibrary st
          = (do _ <- ProjectData_addDocument document;
             ret (length (documentHeap st))) st2) as Hrun.
  { unfold DataManager_getOrCreateDocumentData, DataManager_getDocumentData.
    run. rewrite Hnone. run. unfold DocumentData_begin. run.
    erewrite run_deref_document by (fields; apply lookup_snoc_length).
    builders. unfold vertex.make. run. reflexivity. }
  unfold emittedBy. rewrite Hrun. unfold bind.
  pose proof (ProjectData_addDocument_step document st2) as Hstep.
  cbv zeta in Hstep.
  assert (documentHeap (ProjectData_addDocument document st2).2
          = documentHeap st2
          /\ documentDatas (ProjectData_addDocument document st2).2
             = documentDatas st2) as [Hheap Hdatas].
  { unfold ProjectData_addDocument, ProjectData_update. run.
    destruct (32 <? _)%nat; [unfold edge.contains, edge.make, emit|]; run;
      by split. }
  destruct (ProjectData_addDocument document st2) as [r st3].
  cbn [fst snd] in *. destruct Hstep as (-> & _ & Hcase). cbn [fst snd ret].
  split; [reflexivity|]. split.
  { rewrite Hheap. subst st2. fields. apply lookup_snoc_length. }
  split.
  { unfold DataManager_getDocumentData. run. rewrite Hdatas. subst st2. fields.
    by rewrite JsMap_get_set_eq. }
  subst st2. fields. fields_in Hcase.
  destruct (length (pd_documents (projectData st)) <? 32)%nat;
    destruct Hcase as [-> _]; rewrite <- ?app_assoc, drop_app_length;
    reflexivity.
Qed.

Lemma getOrCreateDocumentData_creates_witness :
  let st := sampleState [] in
  let document := sampleDocument 7 "/b.ts" in
  let run := DataManager_getOrCreateDocumentData "/b.ts" document None false st in
  run.1 = Ok 1%nat
  /\ documentHeap run.2 !! 1%nat = Some (DocumentData_new document None false)
  /\ DataManager_getDocumentData "/b.ts" run.2 = (Ok (Some 1%nat), run.2)
  /\ emittedBy (DataManager_getOrCreateDocumentData "/b.ts" document None false)
       st
     = [EV document;
        EV {| vid := 10; vdata := Event EventKind.begin 7 |}] ++ [].
Proof.
  apply (getOrCreateDocumentData_creates "/b.ts" (sampleDocument 7 "/b.ts")
           None false (sampleState [])).
  reflexivity.
Defined.

(** ** StandardSymbolData: one result vertex of each kind *)



(** ** StandardSymbolData: a definition that was added is found *)

Lemma sameSpan_refl s : sameSpan s s = true.
Proof. unfold sameSpan. by rewrite !Z.eqb_refl. Qed.

Lemma partitionAt_Some st h file p :
  partitionAt st h file = Some p ->
  exists sd m,
    symbolHeap st !! h = Some sd /\ partitions sd = PartitionsMap m
    /\ JsMap.get file m = Some (Some p).
Proof.
  unfold partitionAt. destruct (symbolHeap st !! h) as [sd|]; [|done].
  destruct (partitions sd) as [| |m] eqn:Hm; cbn [slotsOf JsMap.get]; try done.
  destruct (JsMap.get file m) as [[p'|]|] eqn:Hget; try done.
  intros [= ->]. by exists sd, m.
Qed.

(** X6. After [addDefinition(sourceFile, definition)] has returned,
    [findDefinition(sourceFile, range)] with the span of the definition
    finds a definition range with that span: the definition itself, or a
    definition range with the same span that the partition of the file held
    before. It changes nothing. *)
Theorem findDefinition_after_addDefinition (h : SymbolDataRef) (sourceFile : Node)
    (definition : Vertex) (recordAsReference : bool) (s : lsp.Range)
    (st st' : State) :
  spanOf definition = Some s ->
  StandardSymbolData_addDefinition h sourceFile definition recordAsReference st
    = (Ok tt, st') ->
  exists v s',
    StandardSymbolData_findDefinition h sourceFile s st' = (Ok (Some v), st')
    /\ spanOf v = Some s' /\ sameSpan s' s = true
    /\ (v = definition
        \/ exists p, partitionAt st h (fileName sourceFile) = Some p
                     /\ In v (definitionsOf p)).
Proof.
  intros Hspan Hrun.
  assert (label definition = "range") as Hlabel.
  { unfold label, spanOf in *. by destruct (vdata definition). }
  destruct (StandardSymbolData_addDefinition_ok _ _ _ _ _ _ Hlabel Hrun)
    as (p0 & Hp0 & Hp' & _).
  destruct (partitionAt_Some _ _ _ _ Hp') as (sd' & m & Hh & Hm & Hget).
  unfold StandardSymbolData_findDefinition.
  rewrite (run_deref _ _ _ _ Hh), Hm, Hget.
  unfold SymbolDataPartition_findDefinition.
  pose proof (definitionsOf_addDefinition definition recordAsReference p0) as Hdefs.
  unfold definitionsOf in Hdefs at 1.
  destruct (definitionRanges
              (SymbolDataPartition_addDefinition definition recordAsReference p0))
    as [ranges|]; [|by destruct (definitionsOf p0)].
  subst ranges.
  set (matches := fun definitionRange : Vertex =>
                    match spanOf definitionRange with
                    | Some s0 => sameSpan s0 s
                    | None => false
                    end).
  destruct (find matches (definitionsOf p0 ++ [definition])) as [v|] eqn:Hfind.
  - apply find_some in Hfind as [Hin Hmatch]. unfold matches in Hmatch.
    destruct (spanOf v) as [s'|] eqn:Hv; [|done].
    exists v, s'. split; [reflexivity|]. split; [done|]. split; [done|].
    apply in_app_or in Hin as [Hin| [<-|[]]]; [right|by left].
    destruct (partitionAt st h (fileName sourceFile)) as [p|].
    + subst p0. by exists p.
    + destruct Hp0 as [document ->]. by destruct Hin.
  - exfalso. pose proof (find_none _ _ Hfind definition) as Hno.
    unfold matches in Hno. rewrite Hspan, sameSpan_refl in Hno.
    discriminate Hno. apply in_or_app. right. by left.
Qed.

Lemma findDefinition_after_addDefinition_witness :
  let st := sampleState [sampleSymbolData "s" 4 None StandardV] in
  let file := sampleFile 1 "/a.ts" in
  let st' := (StandardSymbolData_addDefinition 0%nat file sampleRange true st).2 in
  exists v s',
    StandardSymbolData_findDefinition 0%nat file (span 1 4 1 7) st'
      = (Ok (Some v), st')
    /\ spanOf v = Some s' /\ sameSpan s' (span 1 4 1 7) = true
    /\ (v = sampleRange
        \/ exists p, partitionAt st 0%nat (fileName file) = Some p
                     /\ In v (definitionsOf p)).
Proof.
  apply (findDefinition_after_addDefinition 0%nat (sampleFile 1 "/a.ts")
           sampleRange true (span 1 4 1 7)
           (sampleState [sampleSymbolData "s" 4 None StandardV])).
  - reflexivity.
  - vm_compute. reflexivity.
Defined.

(** ** Ranges that are handed on to other symbols *)

(** [other.getOrCreatePartition(sourceFile).addReference(range, property)] *)
Lemma forward_ok range property sourceFile other st st' :
  label range = "range" ->
  (do r <- SymbolData_getOrCreatePartition other sourceFile;
   SymbolDataPartition_update r
     (SymbolDataPartition_addReference range (Some property))) st = (Ok tt, st') ->
  (exists p, partitionAt st' other (fileName sourceFile) = Some p
     /\ In range (bucket property p)
     /\ definitionsOf p
        = match partitionAt st other (fileName sourceFile) with
          | Some p0 => definitionsOf p0
          | None => []
          end)
  /\ (forall h' file', (h', file') <> (other, fileName sourceFile) ->
        partitionAt st' h' file' = partitionAt st h' file')
  /\ partitionsGrow st st'
  /\ emitted st' = emitted st /\ nextId st' = nextId st.
Proof.
  intros Hl. unfold bind, SymbolData_getOrCreatePartition.
  destruct (StandardSymbolData_getOrCreatePartition other sourceFile st)
    as [[r| |] st1] eqn:Hg; try discriminate.
  assert (nextId st1 = nextId st) as Hnext.
  { assert (preserves (fun a b => nextId b = nextId a)
              (StandardSymbolData_getOrCreatePartition other sourceFile)) as Hp.
    { assert (PreOrder (fun a b : State => nextId b = nextId a)).
      { split; [by intros ?|]. intros a b c Hab Hbc. congruence. }
      unfold StandardSymbolData_getOrCreatePartition, DataManager_getDocumentData,
        SymbolData_update, DataManager_manageLifeCycle, SymbolDataPartition_begin.
      preserves_steps; try (by intros ?).
      all: intros s; unfold SymbolData_deref, DocumentData_deref;
        by destruct (_ !! _). }
    specialize (Hp st). by rewrite Hg in Hp. }
  apply getOrCreatePartition_ok in Hg as (-> & Hem & (p & Hp & Hold) & Hother).
  intros Hu.
  assert (Hst' : st' = (SymbolDataPartition_update (other, fileName sourceFile)
             (SymbolDataPartition_addReference range (Some property)) st1).2)
    by (by rewrite Hu).
  clear Hu. split; [|split; [|split]].
  - exists (SymbolDataPartition_addReference range (Some property) p).
    split; [|split].
    + rewrite Hst', partitionAt_update, decide_True, Hp by done. reflexivity.
    + rewrite bucket_addReference, decide_True by done.
      apply in_or_app. right. by left.
    + rewrite definitionsOf_addReference.
      destruct (partitionAt st other (fileName sourceFile)); [by subst|].
      by destruct Hold as [document ->].
  - intros h' file' Hne. rewrite Hst', partitionAt_update, decide_False.
    + by apply Hother.
    + intros [-> ->]. done.
  - intros h file q Hq. rewrite Hst', partitionAt_update.
    destruct (decide (h = other /\ file = fileName sourceFile)) as [[-> ->]|Hne].
    + rewrite Hq in Hold. subst q. rewrite Hp. cbn.
      eexists. split; [done|]. split; [apply definitionsOf_addReference|].
      intros property' v Hv. rewrite bucket_addReference by done.
      destruct (decide _); [apply in_or_app|]; auto.
    + rewrite Hother, Hq by (intros [= -> ->]; tauto). eauto.
  - subst st'. unfold SymbolDataPartition_update, SymbolData_update, modify.
    cbn [fst snd]. fields. by split.
Qed.

Lemma forwardAll_ok range property sourceFile others : forall st st',
  label range = "range" ->
  forEach others (fun other =>
    do r <- SymbolData_getOrCreatePartition other sourceFile;
    SymbolDataPartition_update r
      (SymbolDataPartition_addReference range (Some property))) st
    = (Ok tt, st') ->
  (forall other, In other others ->
     exists p, partitionAt st' other (fileName sourceFile) = Some p
       /\ In range (bucket property p))
  /\ partitionsGrow st st'
  /\ emitted st' = emitted st /\ nextId st' = nextId st.
Proof.
  induction others as [|b others IH]; intros st st' Hl; cbn [forEach].
  - intros [= <-]. split; [intros ? []|]. split; [reflexivity|done].
  - unfold bind at 1.
    match goal with
    | |- context [bind ?m ?k st] =>
        destruct (bind m k st) as [[[]| |] st1] eqn:Hstep; try discriminate
    end.
    apply forward_ok in Hstep
      as ((p & Hp & Hin & _) & _ & Hgrow1 & Hem1 & Hn1); [|done].
    intros Hrest. apply IH in Hrest as (Hall & Hgrow2 & Hem2 & Hn2); [|done].
    split; [|split; [by etransitivity|split; congruence]].
    intros other [<-|Hother]; [|by apply Hall].
    destruct (Hgrow2 _ _ _ Hp) as (p' & Hp' & _ & Hb). eauto.
Qed.

(** X7. An alias that is not a rename keeps no definitions of its own:
    [AliasedSymbolData.addDefinition(sourceFile, definition)] emits the
    [next] edge from the range to the result set of the alias and records
    the range as a reference, under [references], in the partition the
    aliased symbol has for the file. It adds no definition range anywhere
    and leaves every other partition as it was. *)
Theorem AliasedSymbolData_addDefinition_forwards (h aliased : SymbolDataRef)
    (sd : SymbolData) (sourceFile : Node) (definition : Vertex)
    (st st' : State) :
  symbolHeap st !! h = Some sd ->
  label definition = "range" ->
  AliasedSymbolData_addDefinition h aliased false sourceFile definition st
    = (Ok tt, st') ->
  emitted st'
    = emitted st
      ++ [EE {| eid := nextId st;
                edata := E11 "next" (vid definition) (vid (resultSet sd)) |}]
  /\ (exists p, partitionAt st' aliased (fileName sourceFile) = Some p
        /\ In definition (bucket ItemEdgeProperties.references p)
        /\ definitionsOf p
           = match partitionAt st aliased (fileName sourceFile) with
             | Some p0 => definitionsOf p0
             | None => []
             end)
  /\ forall h' file', (h', file') <> (aliased, fileName sourceFile) ->
       partitionAt st' h' file' = partitionAt st h' file'.
Proof.
  intros Hh Hl. unfold AliasedSymbolData_addDefinition.
  rewrite (run_deref _ _ _ _ Hh). builders. unfold edge.make, emit. run.
  intros Hrun. apply forward_ok in Hrun as (Hp & Hother & _ & Hem & _); [|done].
  split; [by rewrite Hem|]. split; [exact Hp|]. exact Hother.
Qed.

Lemma AliasedSymbolData_addDefinition_forwards_witness :
  let target := sampleSymbolData "t" 4 None StandardV in
  let alias := sampleSymbolData "a" 5 None (AliasedV 0%nat false) in
  let st := sampleState [target; alias] in
  let file := sampleFile 1 "/a.ts" in
  let st' := (AliasedSymbolData_addDefinition 1%nat 0%nat false file
                sampleRange st).2 in
  emitted st' = emitted st ++ [EE {| eid := 10; edata := E11 "next" 7 5 |}]
  /\ (exists p, partitionAt st' 0%nat "/a.ts" = Some p
        /\ In sampleRange (bucket ItemEdgeProperties.references p)
        /\ definitionsOf p = [])
  /\ forall h' file', (h', file') <> (0%nat, "/a.ts") ->
       partitionAt st' h' file' = partitionAt st h' file'.
Proof.
  apply (AliasedSymbolData_addDefinition_forwards 1%nat 0%nat
           (sampleSymbolData "a" 5 None (AliasedV 0%nat false))
           (sampleFile 1 "/a.ts") sampleRange
           (sampleState [sampleSymbolData "t" 4 None StandardV;
                         sampleSymbolData "a" 5 None (AliasedV 0%nat false)])).
  - reflexivity.
  - reflexivity.
  - vm_compute. reflexivity.
Defined.

(** What forwarding leaves alone: every symbol data that is not a target,
    and every partition for another file. *)
Lemma forward_frame range property sourceFile other st st' :
  (do r <- SymbolData_getOrCreatePartition other sourceFile;
   SymbolDataPartition_update r
     (SymbolDataPartition_addReference range (Some property))) st = (Ok tt, st') ->
  forall h', h' <> other -> symbolHeap st' !! h' = symbolHeap st !! h'.
Proof.
  unfold bind, SymbolData_getOrCreatePartition.
  destruct (StandardSymbolData_getOrCreatePartition other sourceFile st)
    as [[r| |] st1] eqn:Hg; try discriminate.
  intros Hu h' Hne.
  assert (symbolHeap st1 !! h' = symbolHeap st !! h') as Hheap.
  { assert (preserves (fun a b => symbolHeap b !! h' = symbolHeap a !! h')
              (StandardSymbolData_getOrCreatePartition other sourceFile)) as Hp.
    { assert (PreOrder (fun a b : State => symbolHeap b !! h' = symbolHeap a !! h')).
      { split; [by intros ?|]. intros a b c Hab Hbc. congruence. }
      unfold StandardSymbolData_getOrCreatePartition, DataManager_getDocumentData,
        SymbolData_update, DataManager_manageLifeCycle, SymbolDataPartition_begin.
      preserves_steps; try (by intros ?).
      all: intros s; unfold SymbolData_deref, DocumentData_deref, modify;
        try (by destruct (_ !! _)).
      all: cbn [snd]; fields; try done; try (by rewrite list_lookup_alter_ne).
      all: by match goal with
              | |- context [match ?x with _ => _ end] => destruct x
              end. }
    specialize (Hp st). by rewrite Hg in Hp. }
  apply getOrCreatePartition_ok in Hg as (-> & _).
  assert (st' = (SymbolDataPartition_update (other, fileName sourceFile)
             (SymbolDataPartition_addReference range (Some property)) st1).2)
    as -> by (by rewrite Hu).
  unfold SymbolDataPartition_update, SymbolData_update, modify.
  cbn [fst snd]. fields. by rewrite list_lookup_alter_ne.
Qed.

Lemma forwardAll_frame range property sourceFile others : forall st st',
  label range = "range" ->
  forEach others (fun other =>
    do r <- SymbolData_getOrCreatePartition other sourceFile;
    SymbolDataPartition_update r
      (SymbolDataPartition_addReference range (Some property))) st
    = (Ok tt, st') ->
  (forall h', ~ In h' others -> symbolHeap st' !! h' = symbolHeap st !! h')
  /\ (forall h' file', file' <> fileName sourceFile ->
        partitionAt st' h' file' = partitionAt st h' file').
Proof.
  induction others as [|b others IH]; intros st st' Hl; cbn [forEach].
  - by intros [= <-].
  - unfold bind at 1.
    match goal with
    | |- context [bind ?m ?k st] =>
        destruct (bind m k st) as [[[]| |] st1] eqn:Hstep; try discriminate
    end.
    pose proof (forward_frame _ _ _ _ _ _ Hstep) as Hheap.
    apply forward_ok in Hstep as (_ & Hother & _); [|done].
    intros Hrest. apply IH in Hrest as (Hheap' & Hother'); [|done]. split.
    + intros h' Hnotin. rewrite Hheap', Hheap; [done| |].
      * intros ->. apply Hnotin. by left.
      * intros Hin. apply Hnotin. by right.
    + intros h' file' Hfile. rewrite Hother', Hother; [done| |done].
      intros [= _ ->]. done.
Qed.



(** ** Fields a computation leaves alone *)

#[global] Instance field_preorder {B} (f : State -> B) :
  PreOrder (fun st st' : State => f st' = f st).
Proof. split; [by intros ?|]. intros a b c Hab Hbc. congruence. Qed.

Lemma keeps_run {A B} (f : State -> B) (m : M A) st : keeps f m -> f (m st).2 = f st.
Proof. intros Hm. apply Hm. Qed.

Create HintDb lsif.

#[global] Hint Unfold
  ProjectData_update ProjectData_begin ProjectData_addDocument
  ProjectData_addDiagnostic ProjectData_end
  DocumentData_update DocumentData_begin DocumentData_addRange
  DocumentData_addDiagnostics DocumentData_addFoldingRanges
  DocumentData_addDocumentSymbols DocumentData_end
  DataManager_getDocumentData DataManager_manageLifeCycle
  SymbolData_update SymbolData_new SymbolData_getId SymbolData_getResultSet
  SymbolData_super_begin SymbolData_recordDefinitionInfo
  SymbolData_hasDefinitionInfo SymbolData_addHover SymbolData_addMoniker
  StandardSymbolData_getOrCreateDefinitionResult
  StandardSymbolData_getOrCreateReferenceResult
  AliasedSymbolData_getOrCreateReferenceResult
  SymbolData_getOrCreateDefinitionResult SymbolData_getOrCreateReferenceResult
  SymbolDataPartition_begin SymbolDataPartition_end SymbolDataPartition_update
  StandardSymbolData_getOrCreatePartition StandardSymbolData_addDefinition
  StandardSymbolData_findDefinition StandardSymbolData_addReference
  StandardSymbolData_nodeProcessed StandardSymbolData_end
  SymbolData_getOrCreatePartition SymbolData_nodeProcessed SymbolData_end
  StandardSymbolData_new AliasedSymbolData_new AliasedSymbolData_begin
  AliasedSymbolData_addDefinition AliasedSymbolData_addReference
  MethodSymbolData_new addReferenceAtOwnFile MethodSymbolData_begin
  MethodSymbolData_addDefinition MethodSymbolData_addReference
  UnionOrIntersectionSymbolData_new UnionOrIntersectionSymbolData_begin
  UnionOrIntersectionSymbolData_addDefinition
  UnionOrIntersectionSymbolData_addReference
  SymbolData_begin SymbolData_begin_rest SymbolData_addDefinition
  SymbolData_addReference
  DataManager_getSymbolData
  edge.contains edge.next edge.item edge.definition edge.references
  edge.hover edge.moniker edge.diagnostic edge.foldingRange
  edge.documentSymbols edge.make vertex.metaData vertex.project
  vertex.document vertex.event vertex.resultSet vertex.range
  vertex.definitionResult vertex.referencesResult vertex.hoverResult
  vertex.moniker vertex.diagnosticResult vertex.foldingRangeResult
  vertex.documentSymbolResult vertex.make emit : lsif.

(** A step that is a plain function of the state. *)
Ltac keeps_leaf :=
  let s := fresh "s" in
  intros s;
  unfold modify, freshId, SymbolData_deref, DocumentData_deref,
    SymbolData_alloc, DocumentData_alloc;
  repeat match goal with
         | |- context [match ?x with _ => _ end] => destruct x
         end;
  cbn; done.

Ltac keeps_steps :=
  unfold keeps; autounfold with lsif; preserves_steps; try keeps_leaf.

Lemma keeps_symbolDatas_begin h : keeps symbolDatas (SymbolData_begin h).
Proof. keeps_steps. Qed.

Ltac extends_leaf :=
  let s := fresh "s" in
  intros s;
  unfold modify, freshId, SymbolData_deref, DocumentData_deref,
    SymbolData_alloc, DocumentData_alloc;
  repeat match goal with
         | |- context [match ?x with _ => _ end] => destruct x
         end;
  cbn; first [by apply extends_same | by eapply extends_snoc].

Ltac extends_steps :=
  autounfold with lsif; preserves_steps; try extends_leaf.

Lemma extends_begin_rest h v : preserves extends (SymbolData_begin_rest h v).
Proof. extends_steps. Qed.

(** ** DataManager: creating a symbol data *)



(** ** The project vertex stays the same *)

Lemma keeps_silent {A B} (f : State -> B) (m : M A) :
  (forall st st', sameCore st st' -> f st' = f st) -> silent m -> keeps f m.
Proof. intros Hf Hm st. apply Hf, Hm. Qed.

Lemma sameCore_project st st' :
  sameCore st st' -> pd_project (projectData st') = pd_project (projectData st).
Proof. intros (_ & _ & _ & _ & ->). reflexivity. Qed.

Create HintDb keeps.

Ltac keeps_project :=
  unfold keeps; autounfold with lsif; preserves_steps;
  try keeps_leaf;
  try (apply (keeps_silent _ _ sameCore_project);
       first [ by auto with silent | by apply silent_modify
             | by apply silent_readonly; auto using readonly_getId,
                 readonly_hasDefinitionInfo, readonly_SymbolData_findDefinition ]);
  try (by auto with keeps).

Section KeepsProject.
Variable ts : Oracle.

#[local] Abbreviation projectOf := (fun st : State => pd_project (projectData st)).

Lemma keeps_project_getOrCreateDocumentData fileName document monikerPath lib :
  keeps projectOf
    (DataManager_getOrCreateDocumentData fileName document monikerPath lib).
Proof. unfold DataManager_getOrCreateDocumentData. keeps_project. Qed.

Lemma keeps_project_documemntProcessed fileName :
  keeps projectOf (DataManager_documemntProcessed fileName).
Proof. unfold DataManager_documemntProcessed. keeps_project. Qed.

Lemma keeps_project_nodeProcessed node :
  keeps projectOf (DataManager_nodeProcessed node).
Proof. unfold DataManager_nodeProcessed. keeps_project. Qed.

Lemma keeps_project_addDefinition h sourceFile definition :
  keeps projectOf (SymbolData_addDefinition h sourceFile definition).
Proof. keeps_project. Qed.

Lemma keeps_project_addReference h sourceFile reference property :
  keeps projectOf (SymbolData_addReference h sourceFile reference property).
Proof. keeps_project. Qed.

Lemma keeps_project_begin h : keeps projectOf (SymbolData_begin h).
Proof. keeps_project. Qed.

Lemma keeps_project_end h : keeps projectOf (SymbolData_end h).
Proof. keeps_project. Qed.

Lemma keeps_project_DocumentData_end d : keeps projectOf (DocumentData_end d).
Proof. keeps_project. Qed.

Lemma keeps_project_addRange d range : keeps projectOf (DocumentData_addRange d range).
Proof. keeps_project. Qed.

Lemma keeps_project_addMoniker h kind identifier :
  keeps projectOf (SymbolData_addMoniker h kind identifier).
Proof. keeps_project. Qed.

Lemma keeps_project_addHover h hover : keeps projectOf (SymbolData_addHover h hover).
Proof. keeps_project. Qed.

Lemma keeps_project_recordDefinitionInfo h info :
  keeps projectOf (SymbolData_recordDefinitionInfo h info).
Proof. keeps_project. Qed.

Lemma keeps_project_document_updates d :
  (forall x, keeps projectOf (DocumentData_addDiagnostics d x))
  /\ (forall x, keeps projectOf (DocumentData_addFoldingRanges d x))
  /\ (forall x, keeps projectOf (DocumentData_addDocumentSymbols d x)).
Proof. repeat split; intros x; keeps_project. Qed.

Lemma keeps_project_Visitor_getOrCreateDocumentData sourceFile :
  keeps projectOf (Visitor_getOrCreateDocumentData ts sourceFile).
Proof.
  unfold Visitor_getOrCreateDocumentData. keeps_project.
  all: apply keeps_project_getOrCreateDocumentData.
Qed.

#[local] Hint Resolve keeps_project_getOrCreateDocumentData
  keeps_project_documemntProcessed keeps_project_nodeProcessed
  keeps_project_addDefinition keeps_project_addReference keeps_project_begin
  keeps_project_end keeps_project_DocumentData_end keeps_project_addRange
  keeps_project_addMoniker keeps_project_addHover
  keeps_project_recordDefinitionInfo
  keeps_project_Visitor_getOrCreateDocumentData : keeps.

Lemma keeps_project_getOrCreateSymbolData symbolId create :
  keeps projectOf create ->
  keeps projectOf (DataManager_getOrCreateSymbolData symbolId create).
Proof.
  intros Hcreate. unfold DataManager_getOrCreateSymbolData.
  unfold keeps in *. preserves_steps; try keeps_leaf; try done.
  - apply (keeps_silent _ _ sameCore_project), silent_getSymbolData.
  - apply (keeps_silent _ _ sameCore_project), silent_readonly, readonly_getId.
  - apply keeps_project_begin.
Qed.

Lemma keeps_project_resolve fuel getOrCreate r sourceFile id symbol location scope :
  (forall s l, keeps projectOf (getOrCreate s l)) ->
  keeps projectOf
    (Resolver_resolve ts fuel getOrCreate r sourceFile id symbol location scope).
Proof.
  intros Hgo. unfold Resolver_resolve. destruct r.
  - keeps_project.
  - keeps_project. apply Hgo.
  - keeps_project. apply Hgo.
  - destruct location as [location|]; [|keeps_project].
    destruct (unionOrIntersectionTypes ts _) as [[|typeElem types]|];
      [keeps_project| |keeps_project].
    unfold keeps. apply preserves_bind; [typeclasses eauto| |intros datas].
    + lazymatch goal with
      | |- context [bind (?f types) _] =>
          assert (forall l, preserves (fun st st' => projectOf st' = projectOf st)
                              (f l)) as Hall
      end.
      { intros l. induction l as [|elem l IH]; cbn beta match fix zeta;
          [apply preserves_ret; typeclasses eauto|].
        destruct (typeSymbol ts elem); [|exact IH].
        preserves_steps; [apply Hgo|exact IH]. }
      destruct (typeSymbol ts typeElem); [|apply Hall].
      preserves_steps; [apply Hgo|apply Hall].
    + destruct sourceFile; keeps_project.
Qed.

Lemma keeps_project_Visitor_getOrCreateSymbolData fuel : forall symbol location,
  keeps projectOf (Visitor_getOrCreateSymbolData ts fuel symbol location).
Proof.
  induction fuel as [|fuel IH]; intros symbol location;
    cbn [Visitor_getOrCreateSymbolData]; [keeps_project|].
  unfold keeps. apply preserves_bind; [typeclasses eauto| |].
  { apply (keeps_silent _ _ sameCore_project), silent_getSymbolData. }
  intros [h|]; [apply preserves_ret; typeclasses eauto|].
  apply preserves_bind; [typeclasses eauto| |intros scope].
  { apply (keeps_silent _ _ sameCore_project). auto with silent. }
  apply preserves_bind; [typeclasses eauto| |intros declarations].
  { apply (keeps_silent _ _ sameCore_project). auto with silent. }
  apply preserves_bind; [typeclasses eauto| |intros sourceFiles].
  { apply (keeps_silent _ _ sameCore_project). auto with silent. }
  apply preserves_bind; [typeclasses eauto| |intros _].
  { destruct (_ && _); [apply preserves_throw|apply preserves_ret];
      typeclasses eauto. }
  apply preserves_bind; [typeclasses eauto| |intros merged].
  { generalize (MonikerUndefined, false).
    induction sourceFiles as [|sourceFile files IHfiles]; intros acc;
      cbn beta match fix zeta; [apply preserves_ret; typeclasses eauto|].
    preserves_steps; [apply keeps_project_Visitor_getOrCreateDocumentData
                     |keeps_leaf|apply IHfiles]. }
  destruct (match merged.1 with
            | MonikerUndefined => (None, merged.2)
            | MonikerNull => (None, false)
            | MonikerString path => (Some path, merged.2)
            end) as [monikerPath externalLibrary].
  apply preserves_bind; [typeclasses eauto| |intros h].
  { apply keeps_project_getOrCreateSymbolData.
    destruct (Resolver_requiresSourceFile _).
    - unfold keeps. apply preserves_bind; [typeclasses eauto| |intros ?].
      + apply (keeps_silent _ _ sameCore_project). auto with silent.
      + apply keeps_project_resolve. apply IH.
    - apply keeps_project_resolve. apply IH. }
  destruct declarations as [[|declaration declarations]|];
    try (apply preserves_ret; typeclasses eauto).
  apply preserves_bind; [typeclasses eauto| |intros monikerIdentifer].
  { destruct (_ && _); [apply preserves_ret; typeclasses eauto|].
    apply preserves_bind; [typeclasses eauto| |intros [?|]];
      try (apply preserves_ret; typeclasses eauto).
    apply (keeps_silent _ _ sameCore_project). auto with silent. }
  apply preserves_bind; [typeclasses eauto| |intros _].
  { destruct monikerIdentifer; [apply keeps_project_addMoniker
                               |apply preserves_ret; typeclasses eauto]. }
  apply preserves_bind;
    [typeclasses eauto| |intros _; apply preserves_ret; typeclasses eauto].
  lazymatch goal with
  | |- context [?f declarations None] =>
      assert (forall l hover,
                preserves (fun st st' => projectOf st' = projectOf st)
                  (f l hover)) as Hall;
        [|change (preserves (fun st st' => projectOf st' = projectOf st)
                    (f (declaration :: declarations) None)); apply Hall]
  end.
  intros l. induction l as [|decl l IHl]; intros hover;
    cbn beta match fix zeta; [apply preserves_ret; typeclasses eauto|].
  apply preserves_bind; [typeclasses eauto| |intros information].
  { apply (keeps_silent _ _ sameCore_project). auto with silent. }
  destruct information as [[identifierNode identifierText]|]; [|apply IHl].
  apply preserves_bind; [typeclasses eauto| |intros d].
  { apply keeps_project_Visitor_getOrCreateDocumentData. }
  apply preserves_bind; [typeclasses eauto| |intros definition].
  { unfold vertex.range, vertex.make. preserves_steps. keeps_leaf. }
  apply preserves_bind; [typeclasses eauto|apply keeps_project_addRange|intros _].
  apply preserves_bind;
    [typeclasses eauto|apply keeps_project_addDefinition|intros _].
  apply preserves_bind;
    [typeclasses eauto|apply keeps_project_recordDefinitionInfo|intros _].
  destruct hover as [hover|]; [apply IHl|].
  destruct (isNamedDeclaration ts decl); [|apply IHl].
  destruct (nameOf ts decl) as [name|];
    [|apply preserves_throw; typeclasses eauto].
  destruct (Visitor_getHover ts name _) as [hover|]; [|apply IHl].
  apply preserves_bind; [typeclasses eauto|apply keeps_project_addHover|intros _].
  apply IHl.
Qed.

#[local] Hint Resolve keeps_project_Visitor_getOrCreateSymbolData : keeps.

Lemma keeps_project_addDocumentSymbol fuel node :
  keeps projectOf (Visitor_addDocumentSymbol ts fuel node).
Proof.
  unfold Visitor_addDocumentSymbol, keeps.
  destruct (getSymbolAtLocation ts _) as [symbol|];
    [|apply preserves_ret; typeclasses eauto].
  destruct (getDeclarations ts symbol) as [[|declaration declarations]|];
    try (apply preserves_ret; typeclasses eauto).
  apply preserves_bind;
    [typeclasses eauto|apply keeps_project_Visitor_getOrCreateSymbolData|].
  intros symbolData. preserves_steps; try keeps_leaf.
  apply (keeps_silent _ _ sameCore_project), silent_readonly,
    readonly_SymbolData_findDefinition.
Qed.

Lemma keeps_project_visitDeclaration fuel node isContainer :
  keeps projectOf (Visitor_visitDeclaration ts fuel node isContainer).
Proof.
  unfold Visitor_visitDeclaration, keeps.
  apply preserves_bind; [typeclasses eauto| |intros current].
  { apply (keeps_silent _ _ sameCore_project). auto with silent. }
  apply preserves_bind; [typeclasses eauto| |intros didRecord; keeps_leaf].
  destruct (_ && _);
    [apply keeps_project_addDocumentSymbol|apply preserves_ret; typeclasses eauto].
Qed.

Lemma keeps_project_visitIdentifier fuel node :
  keeps projectOf (Visitor_visitIdentifier ts fuel node).
Proof.
  unfold Visitor_visitIdentifier, keeps.
  destruct (getSymbolAtLocation ts node) as [symbol|];
    [|apply preserves_ret; typeclasses eauto].
  apply preserves_bind;
    [typeclasses eauto|apply keeps_project_Visitor_getOrCreateSymbolData|].
  intros symbolData. unfold vertex.range, vertex.make.
  preserves_steps; try keeps_leaf.
  - apply (keeps_silent _ _ sameCore_project), silent_readonly,
      readonly_hasDefinitionInfo.
  - apply (keeps_silent _ _ sameCore_project). auto with silent.
  - apply keeps_project_addRange.
  - apply keeps_project_addReference.
Qed.

Lemma keeps_project_visitSourceFile sourceFile :
  keeps projectOf (Visitor_visitSourceFile ts sourceFile).
Proof.
  unfold Visitor_visitSourceFile, keeps. preserves_steps; try keeps_leaf.
  - apply (keeps_silent _ _ sameCore_project). auto with silent.
  - apply keeps_project_Visitor_getOrCreateDocumentData.
Qed.

Lemma keeps_project_endVisitSourceFile sourceFile :
  keeps projectOf (Visitor_endVisitSourceFile ts sourceFile).
Proof.
  unfold Visitor_endVisitSourceFile, keeps. preserves_steps; try keeps_leaf.
  all: try (apply (keeps_silent _ _ sameCore_project); by auto with silent).
  all: try apply keeps_project_documemntProcessed.
  all: apply keeps_project_document_updates.
Qed.

Lemma keeps_project_visit fuel tree : keeps projectOf (Visitor_visit ts fuel tree).
Proof.
  induction tree as [node children IH] using Tree_ind_children.
  cbn [Visitor_visit]. unfold keeps in *.
  lazymatch goal with
  | |- context [Visitor_doVisit _ _ node ?each] =>
      assert (preserves (fun st st' => projectOf st' = projectOf st) each)
        as Hchildren
  end.
  { induction IH as [|child children Hchild _ IHchildren];
      cbn beta match fix zeta; [apply preserves_ret; typeclasses eauto|].
    apply preserves_bind; [typeclasses eauto|exact Hchild|intros _].
    exact IHchildren. }
  assert (forall visit endVisit,
            preserves (fun st st' => projectOf st' = projectOf st) visit ->
            preserves (fun st st' => projectOf st' = projectOf st) endVisit ->
            preserves (fun st st' => projectOf st' = projectOf st)
              (Visitor_doVisit visit endVisit node
                 ((fix each (children : list Tree) : M unit :=
                     match children with
                     | [] => ret tt
                     | child :: children' =>
                         do _ <- Visitor_visit ts fuel child; each children'
                     end) children))) as HdoVisit.
  { intros visit endVisit Hvisit Hend. unfold Visitor_doVisit.
    preserves_steps; try done. apply keeps_project_nodeProcessed. }
  assert (forall isContainer,
            preserves (fun st st' => projectOf st' = projectOf st)
              (do _ <- Visitor_visitDeclaration ts fuel node isContainer;
               ret true)) as Hdecl.
  { intros isContainer. preserves_steps. apply keeps_project_visitDeclaration. }
  assert (preserves (fun st st' => projectOf st' = projectOf st)
            (Visitor_endVisitDeclaration node)) as Hend.
  { apply (keeps_silent _ _ sameCore_project). auto with silent. }
  destruct (kind node); try (apply HdoVisit; by auto).
  - apply HdoVisit;
      [apply keeps_project_visitSourceFile|apply keeps_project_endVisitSourceFile].
  - apply preserves_bind; [typeclasses eauto| |intros _].
    + apply HdoVisit; apply preserves_ret; typeclasses eauto.
    + apply keeps_project_visitIdentifier.
  - apply keeps_project_visitIdentifier.
  - exact Hchildren.
Qed.

Lemma keeps_project_visitProgram fuel :
  keeps projectOf (Visitor_visitProgram ts fuel).
Proof.
  unfold Visitor_visitProgram, keeps. preserves_steps; try keeps_leaf.
  apply keeps_project_visit.
Qed.

End KeepsProject.

(** ** The run is bracketed by the events of the project *)

Section Bracket.
Variable ts : Oracle.

#[local] Abbreviation projectOf := (fun st : State => pd_project (projectData st)).

(** What the constructor of the visitor leaves behind. *)
Lemma Visitor_new_emits dependsOn tsConfigFile firstId emitSource projectRoot :
  let project := {| vid := firstId + 1; vdata := Project |} in
  exists st,
    Visitor_new ts dependsOn tsConfigFile
      (initialState firstId emitSource projectRoot) = (Ok tt, st)
    /\ emitted st
       = [EV {| vid := firstId;
                vdata := MetaData (Version ts) (fileUri ts projectRoot) |};
          EV project;
          EV {| vid := firstId + 2; vdata := Event EventKind.begin (firstId + 1) |}]
    /\ projectData st = ProjectData_new project.
Proof.
  cbv zeta. unfold Visitor_new, DataManager_new, ProjectData_begin. builders.
  unfold vertex.make. run.
  destruct (compilerOutDir ts), (compilerRootDir ts); run;
    (eexists; split; [reflexivity|]).
  all: simpl; replace (firstId + 1 + 1) with (firstId + 2) by lia; done.
Qed.

(** [end] of the project never fails, and the end event of the project is the
    last element it emits. *)
Lemma ProjectData_end_last st :
  exists init i,
    (ProjectData_end st).1 = Ok tt
    /\ emitted (ProjectData_end st).2
       = init ++ [EV {| vid := i;
                        vdata := Event EventKind.end_ (vid (projectOf st)) |}].
Proof.
  unfold ProjectData_end. run. builders.
  unfold vertex.make, edge.make, emit, ProjectData_update.
  destruct (pd_documents (projectData st)), (pd_diagnostics (projectData st));
    cbn [length Nat.ltb Nat.leb]; run; unfold modify; cbn [fst snd]; fields;
    eexists _, _; (split; [reflexivity|]); reflexivity.
Qed.

Lemma keeps_project_projectProcessed_loops :
  keeps projectOf
    (do symbols <- gets symbolDatas;
     do _ <- forEach symbols (fun entry =>
               match snd entry with
               | Some h =>
                   do _ <- SymbolData_end h;
                   modify (fun st =>
                     set_symbolDatas (JsMap.set (fst entry) None (symbolDatas st)) st)
               | None => ret tt
               end);
     do documents <- gets documentDatas;
     forEach documents (fun entry =>
       match snd entry with
       | Some d => DocumentData_end d
       | None => ret tt
       end)).
Proof.
  unfold keeps. preserves_steps.
  - apply keeps_project_end.
  - keeps_leaf.
  - apply keeps_project_DocumentData_end.
Qed.

Lemma bind_assoc {A B C} (m : M A) (k : A -> M B) (k' : B -> M C) st :
  bind (bind m k) k' st = bind m (fun a => bind (k a) k') st.
Proof. unfold bind. by destruct (m st) as [[a| |] st1]. Qed.

Lemma run_not_ok {A B} (m : M A) (k : A -> M B) st :
  (forall a, (m st).1 <> Ok a) -> forall b, (bind m k st).1 <> Ok b.
Proof.
  intros Hm b. unfold bind. destruct (m st) as [[a| |] st1]; try done.
  by destruct (Hm a).
Qed.

Lemma DataManager_projectProcessed_last st :
  (DataManager_projectProcessed st).1 = Ok tt ->
  exists init i,
    emitted (DataManager_projectProcessed st).2
    = init ++ [EV {| vid := i;
                     vdata := Event EventKind.end_ (vid (projectOf st)) |}].
Proof.
  pose proof (keeps_project_projectProcessed_loops st) as Hkeep.
  unfold DataManager_projectProcessed. cbn beta in Hkeep. run.
  revert Hkeep. run.
  match goal with
  | |- context [bind (forEach (symbolDatas st) ?body) _ st] =>
      destruct (forEach (symbolDatas st) body st) as [[[]| |] st1] eqn:Hsymbols
  end;
    [rewrite !(run_ok _ _ _ _ _ Hsymbols)
    |intros _ Hok; eapply run_not_ok in Hok; [done|by rewrite Hsymbols]..].
  run.
  match goal with
  | |- context [bind (forEach (documentDatas st1) ?body) _ st1] =>
      destruct (forEach (documentDatas st1) body st1) as [[[]| |] st2]
        eqn:Hdocuments
  end;
    [rewrite !(run_ok _ _ _ _ _ Hdocuments)
    |intros _ Hok; eapply run_not_ok in Hok; [done|by rewrite Hdocuments]..].
  cbn [snd]. intros Hkeep _.
  destruct (ProjectData_end_last st2) as (init & i & _ & Hlast).
  exists init, i. by rewrite Hlast, Hkeep.
Qed.

End Bracket.

(** X10. Every run of the indexer -- whether it completes, throws or runs out
    of fuel -- starts its output with the meta data vertex, the project
    vertex and the begin event of the project, in this order and with the
    first three ids of the generator. *)
Theorem lsif_begins_with_project (ts : Oracle) (fuel : nat) (options : Options)
    (dependsOn : list ProjectInfo) (firstId : Id) (tsConfigFile : option string) :
  exists rest,
    emitted (lsif ts fuel options dependsOn firstId tsConfigFile).2
    = EV {| vid := firstId;
            vdata := MetaData (Version ts)
                       (fileUri ts (opt_projectRoot options)) |}
      :: EV {| vid := firstId + 1; vdata := Project |}
      :: EV {| vid := firstId + 2;
               vdata := Event EventKind.begin (firstId + 1) |}
      :: rest.
Proof.
  unfold lsif.
  destruct (Visitor_new_emits ts dependsOn tsConfigFile firstId
              (negb (noContents options)) (opt_projectRoot options))
    as (st1 & Hrun & Hemitted & _).
  destruct (Visitor_new_run ts dependsOn tsConfigFile firstId
              (negb (noContents options)) (opt_projectRoot options))
    as (st1' & Hrun' & Hinv).
  assert (st1' = st1) as -> by congruence.
  rewrite (run_ok _ _ _ _ _ Hrun).
  destruct (triple_Visitor_run ts fuel st1 Hinv I) as (_ & (new & ->) & _).
  exists new. by rewrite Hemitted.
Qed.

(** X11. A run of the indexer that completes ends its output with the end
    event of the project: the last element is an event vertex of kind [end]
    whose scope is the project vertex, the second vertex of the run. *)
Theorem lsif_ends_with_project (ts : Oracle) (fuel : nat) (options : Options)
    (dependsOn : list ProjectInfo) (firstId : Id) (tsConfigFile : option string)
    (result : option string * option string) :
  (lsif ts fuel options dependsOn firstId tsConfigFile).1 = Ok result ->
  exists init i,
    emitted (lsif ts fuel options dependsOn firstId tsConfigFile).2
    = init ++ [EV {| vid := i; vdata := Event EventKind.end_ (firstId + 1) |}].
Proof.
  unfold lsif.
  destruct (Visitor_new_emits ts dependsOn tsConfigFile firstId
              (negb (noContents options)) (opt_projectRoot options))
    as (st1 & Hrun & _ & Hproject).
  rewrite !(run_ok _ _ _ _ _ Hrun).
  pose proof (keeps_project_visitProgram ts fuel st1) as Hkeep.
  cbn beta in Hkeep. rewrite Hproject in Hkeep. cbn [ProjectData_new pd_project] in Hkeep.
  destruct (Visitor_visitProgram ts fuel st1) as [[result'| |] st2] eqn:Hvisit;
    [rewrite !(run_ok _ _ _ _ _ Hvisit)
    |intros Hok; eapply run_not_ok in Hok; [done|by rewrite Hvisit]..].
  unfold Visitor_endVisitProgram.
  pose proof (DataManager_projectProcessed_last st2) as Hlast.
  destruct (DataManager_projectProcessed st2) as [[[]| |] st3] eqn:Hend;
    [rewrite !(run_ok _ _ _ _ _ Hend)
    |intros Hok; eapply run_not_ok in Hok; [done|by rewrite Hend]..].
  intros _. cbn [snd ret] in *.
  destruct (Hlast eq_refl) as (init & i & ->). rewrite Hkeep.
  by exists init, i.
Qed.

Lemma lsif_ends_with_project_witness :
  (lsif sampleFooOracle 5 sampleOptions [] 1 None).1
    = Ok (Some "/src", Some "/out")
  /\ exists init i,
       emitted (lsif sampleFooOracle 5 sampleOptions [] 1 None).2
       = init ++ [EV {| vid := i; vdata := Event EventKind.end_ (1 + 1) |}].
Proof.
  assert ((lsif sampleFooOracle 5 sampleOptions [] 1 None).1
          = Ok (Some "/src", Some "/out")) as Hok by (vm_compute; reflexivity).
  split; [exact Hok|].
  exact (lsif_ends_with_project sampleFooOracle 5 sampleOptions [] 1 None
           (Some "/src", Some "/out") Hok).
Defined.

(** ** SymbolDataPartition: what was recorded is handed out *)

Lemma getOrCreateDefinitionResult_total st h sd :
  symbolHeap st !! h = Some sd ->
  exists dr st' sd',
    SymbolData_getOrCreateDefinitionResult h st = (Ok dr, st')
    /\ extends st st' /\ symbolHeap st' !! h = Some sd'
    /\ definitionResult sd' = Some dr
    /\ variant sd' = variant sd /\ referenceResult sd' = referenceResult sd.
Proof.
  intros Hh.
  unfold SymbolData_getOrCreateDefinitionResult,
    StandardSymbolData_getOrCreateDefinitionResult.
  rewrite (run_deref _ _ _ _ Hh).
  destruct (definitionResult sd) as [dr|] eqn:Hdr.
  - exists dr, st, sd. by repeat split.
  - builders. unfold vertex.make, edge.make, emit. run. unfold ret.
    eexists _, _, _. split; [reflexivity|]. fields.
    split; [eexists; by rewrite <- app_assoc|].
    split; [by rewrite list_lookup_alter_eq, Hh|]. done.
Qed.

Lemma getOrCreateReferenceResult_total st h sd :
  symbolHeap st !! h = Some sd ->
  (forall aliased rename, variant sd <> AliasedV aliased rename) ->
  exists rr st' sd',
    SymbolData_getOrCreateReferenceResult h st = (Ok rr, st')
    /\ extends st st' /\ symbolHeap st' !! h = Some sd'
    /\ referenceResult sd' = Some rr
    /\ variant sd' = variant sd /\ definitionResult sd' = definitionResult sd.
Proof.
  intros Hh Hvariant.
  assert (SymbolData_getOrCreateReferenceResult h st
          = StandardSymbolData_getOrCreateReferenceResult h st) as ->.
  { unfold SymbolData_getOrCreateReferenceResult.
    rewrite (run_deref _ _ _ _ Hh).
    destruct (variant sd) as [|aliased rename| |] eqn:Hv; try done.
    by destruct (Hvariant aliased rename). }
  unfold StandardSymbolData_getOrCreateReferenceResult.
  rewrite (run_deref _ _ _ _ Hh).
  destruct (referenceResult sd) as [rr|] eqn:Hrr.
  - exists rr, st, sd. by repeat split.
  - builders. unfold vertex.make, edge.make, emit. run. unfold ret.
    eexists _, _, _. split; [reflexivity|]. fields.
    split; [eexists; by rewrite <- app_assoc|].
    split; [by rewrite list_lookup_alter_eq, Hh|]. done.
Qed.

(** One item edge for every bucket of reference ranges. *)
Lemma item_edges_emitted (referenceResult document : Vertex)
    (ranges : list (ItemEdgeProperties.t * list Vertex)) : forall st,
  exists new st',
    forEach ranges (fun '(property, values) =>
      do e <- edge.item referenceResult values document (Some property);
      emit (EE e)) st = (Ok tt, st')
    /\ emitted st' = emitted st ++ new
    /\ symbolHeap st' = symbolHeap st
    /\ forall property values,
         In (property, values) ranges ->
         exists e,
           In (EE e) new
           /\ edata e = EItem (vid referenceResult) (map vid values)
                          (vid document) (Some property).
Proof.
  induction ranges as [|[property values] ranges IH]; intros st.
  - exists [], st. rewrite app_nil_r. by repeat split.
  - cbn [forEach]. unfold edge.item, edge.make, emit. run.
    match goal with
    | |- context [forEach ranges _ ?s] => destruct (IH s) as (new & st' & IHrun)
    end.
    unfold edge.item, edge.make, emit in IHrun.
    destruct IHrun as (-> & Hemitted & Hheap & Hedges).
    eexists (_ :: new), st'. split; [reflexivity|].
    revert Hemitted Hheap. fields. intros Hemitted Hheap.
    split; [by rewrite Hemitted, <- app_assoc|]. split; [done|].
    intros property' values' [[= <- <-]|Hin].
    + eexists. split; [by left|reflexivity].
    + destruct (Hedges _ _ Hin) as (e & He & Hdata). exists e. split; [by right|done].
Qed.

Lemma SymbolDataPartition_end_items p st sd :
  symbolHeap st !! sp_symbolData p = Some sd ->
  (forall aliased rename, variant sd <> AliasedV aliased rename) ->
  exists new st' sd',
    SymbolDataPartition_end p st = (Ok tt, st')
    /\ emitted st' = emitted st ++ new
    /\ symbolHeap st' !! sp_symbolData p = Some sd'
    /\ (forall ranges,
          definitionRanges p = Some ranges ->
          exists e dr,
            In (EE e) new /\ definitionResult sd' = Some dr
            /\ edata e = EItem (vid dr) (map vid ranges) (vid (sp_document p)) None)
    /\ (forall ranges property values,
          referenceRanges p = Some ranges -> In (property, values) ranges ->
          exists e rr,
            In (EE e) new /\ referenceResult sd' = Some rr
            /\ edata e = EItem (vid rr) (map vid values) (vid (sp_document p))
                           (Some property)).
Proof.
  intros Hh Hvariant. unfold SymbolDataPartition_end.
  (* the definition ranges *)
  assert (exists new1 st1 sd1,
            (match definitionRanges p with
             | Some ranges =>
                 do definitionResult <-
                   SymbolData_getOrCreateDefinitionResult (sp_symbolData p);
                 do e <- edge.item definitionResult ranges (sp_document p) None;
                 emit (EE e)
             | None => ret tt
             end) st = (Ok tt, st1)
            /\ emitted st1 = emitted st ++ new1
            /\ symbolHeap st1 !! sp_symbolData p = Some sd1
            /\ variant sd1 = variant sd
            /\ (forall rr, referenceResult sd1 = Some rr ->
                           referenceResult sd = Some rr)
            /\ forall ranges,
                 definitionRanges p = Some ranges ->
                 exists e dr,
                   In (EE e) new1 /\ definitionResult sd1 = Some dr
                   /\ edata e = EItem (vid dr) (map vid ranges)
                                  (vid (sp_document p)) None)
    as (new1 & st1 & sd1 & Hrun1 & Hemitted1 & Hh1 & Hvariant1 & _ & Hdefinitions).
  { destruct (definitionRanges p) as [ranges|].
    - destruct (getOrCreateDefinitionResult_total _ _ _ Hh)
        as (dr & st1 & sd1 & Hrun & (new & Hnew) & Hh1 & Hdr & Hv & Hrr).
      rewrite (run_ok _ _ _ _ _ Hrun). unfold edge.item, edge.make, emit. run.
      eexists _, _, sd1. split; [reflexivity|]. fields.
      split; [by rewrite Hnew, <- app_assoc|]. split; [done|]. split; [done|].
      split; [by rewrite Hrr|].
      intros ? [= <-]. eexists _, dr.
      split; [apply in_or_app; right; by left|]. done.
    - exists [], st, sd. rewrite app_nil_r. by repeat split. }
  rewrite (run_ok _ _ _ _ _ Hrun1).
  assert (forall aliased rename, variant sd1 <> AliasedV aliased rename)
    as Hvariant1' by (by rewrite Hvariant1).
  (* the reference ranges *)
  assert (exists new2 st2 sd2,
            (match referenceRanges p with
             | Some ranges =>
                 do referenceResult <-
                   SymbolData_getOrCreateReferenceResult (sp_symbolData p);
                 forEach ranges (fun '(property, values) =>
                   do e <- edge.item referenceResult values (sp_document p)
                                     (Some property);
                   emit (EE e))
             | None => ret tt
             end) st1 = (Ok tt, st2)
            /\ emitted st2 = emitted st1 ++ new2
            /\ symbolHeap st2 !! sp_symbolData p = Some sd2
            /\ variant sd2 = variant sd1
            /\ definitionResult sd2 = definitionResult sd1
            /\ (forall rr, referenceResult sd1 = Some rr ->
                           referenceResult sd2 = Some rr)
            /\ forall ranges property values,
                 referenceRanges p = Some ranges -> In (property, values) ranges ->
                 exists e rr,
                   In (EE e) new2 /\ referenceResult sd2 = Some rr
                   /\ edata e = EItem (vid rr) (map vid values)
                                  (vid (sp_document p)) (Some property))
    as (new2 & st2 & sd2 & Hrun2 & Hemitted2 & Hh2 & Hvariant2 & Hdr2 & Hkeep2
        & Hreferences).
  { destruct (referenceRanges p) as [ranges|].
    - destruct (getOrCreateReferenceResult_total _ _ _ Hh1 Hvariant1')
        as (rr & st2 & sd2 & Hrun & (new & Hnew) & Hh2 & Hrr & Hv & Hdr).
      rewrite (run_ok _ _ _ _ _ Hrun).
      destruct (item_edges_emitted rr (sp_document p) ranges st2)
        as (new' & st3 & Hrun' & Hnew' & Hheap & Hedges).
      exists (new ++ new'), st3, sd2. split; [exact Hrun'|].
      split; [by rewrite Hnew', Hnew, <- app_assoc|].
      split; [by rewrite Hheap|]. split; [done|]. split; [done|].
      split.
      { intros rr' Hrr'. unfold SymbolData_getOrCreateReferenceResult in Hrun.
        rewrite (run_deref _ _ _ _ Hh1) in Hrun.
        unfold StandardSymbolData_getOrCreateReferenceResult in Hrun.
        destruct (variant sd1) as [|aliased rename| |] eqn:Hv1;
          try (by destruct (Hvariant1' aliased rename));
          rewrite (run_deref _ _ _ _ Hh1), Hrr' in Hrun;
          injection Hrun as <- <-; congruence. }
      intros ? property values [= <-] Hin.
      destruct (Hedges _ _ Hin) as (e & He & Hdata).
      exists e, rr. split; [apply in_or_app; by right|done].
    - exists [], st1, sd1. rewrite app_nil_r. by repeat split. }
  rewrite (run_ok _ _ _ _ _ Hrun2).
  assert (forall aliased rename, variant sd2 <> AliasedV aliased rename)
    as Hvariant2' by (by rewrite Hvariant2).
  (* the reference results that were forwarded *)
  destruct (referenceResults p) as [results|].
  - destruct (getOrCreateReferenceResult_total _ _ _ Hh2 Hvariant2')
      as (rr & st3 & sd3 & Hrun & (new & Hnew) & Hh3 & Hrr & Hv & Hdr).
    rewrite (run_ok _ _ _ _ _ Hrun). unfold edge.item, edge.make, emit. run.
    eexists _, _, sd3. split; [reflexivity|]. fields.
    split; [by rewrite Hnew, Hemitted2, Hemitted1, <- !app_assoc|].
    split; [done|]. split.
    + intros ranges Hranges.
      destruct (Hdefinitions _ Hranges) as (e & dr & He & Hdr1 & Hdata).
      exists e, dr. split; [apply in_or_app; by left|].
      split; [congruence|done].
    + intros ranges property values Hranges Hin.
      destruct (Hreferences _ _ _ Hranges Hin) as (e & rr' & He & Hrr' & Hdata).
      exists e, rr'. split; [apply in_or_app; right; apply in_or_app; by left|].
      split; [|done].
      unfold SymbolData_getOrCreateReferenceResult in Hrun.
      rewrite (run_deref _ _ _ _ Hh2) in Hrun.
      unfold StandardSymbolData_getOrCreateReferenceResult in Hrun.
      destruct (variant sd2) as [|aliased rename| |] eqn:Hv2;
        try (by destruct (Hvariant2' aliased rename));
        rewrite (run_deref _ _ _ _ Hh2), Hrr' in Hrun;
        injection Hrun as <- <-; congruence.
  - exists (new1 ++ new2), st2, sd2. split; [reflexivity|].
    split; [by rewrite Hemitted2, Hemitted1, <- app_assoc|]. split; [done|].
    split.
    + intros ranges Hranges.
      destruct (Hdefinitions _ Hranges) as (e & dr & He & Hdr1 & Hdata).
      exists e, dr. split; [apply in_or_app; by left|].
      split; [congruence|done].
    + intros ranges property values Hranges Hin.
      destruct (Hreferences _ _ _ Hranges Hin) as (e & rr' & He & Hrr' & Hdata).
      exists e, rr'. split; [apply in_or_app; by right|done].
Qed.

Lemma addReference_range value property p :
  label value = "range" ->
  let p' := SymbolDataPartition_addReference value (Some property) p in
  sp_symbolData p' = sp_symbolData p /\ sp_document p' = sp_document p
  /\ definitionRanges p' = definitionRanges p
  /\ exists ranges,
       referenceRanges p' = Some ranges
       /\ In (property, bucket property p ++ [value]) ranges.
Proof.
  intros Hl. cbv zeta. unfold SymbolDataPartition_addReference, bucket.
  rewrite Hl. replace (bool_decide ("range" = "range")) with true by reflexivity.
  repeat split. eexists. split; [reflexivity|].
  apply JsMap_get_In. rewrite JsMap_get_set_eq. by destruct (referenceRanges p).
Qed.

(** X12. A reference range that is recorded in a partition under a property
    is handed out when the partition ends: [end] returns, and among the
    elements it emits is an item edge from the reference result of the
    symbol, tagged with the property and the document of the partition,
    that lists the ranges the partition held under the property followed by
    the new one. The symbol data must be live and must not be an alias, whose
    reference result cannot be asked for. *)
Theorem reference_reaches_item_edge (value : Vertex)
    (property : ItemEdgeProperties.t) (p : SymbolDataPartition)
    (sd : SymbolData) (st : State) :
  label value = "range" ->
  symbolHeap st !! sp_symbolData p = Some sd ->
  (forall aliased rename, variant sd <> AliasedV aliased rename) ->
  let p' := SymbolDataPartition_addReference value (Some property) p in
  exists e rr sd',
    (SymbolDataPartition_end p' st).1 = Ok tt
    /\ In (EE e) (emittedBy (SymbolDataPartition_end p') st)
    /\ edata e = EItem (vid rr) (map vid (bucket property p ++ [value]))
                   (vid (sp_document p)) (Some property)
    /\ symbolHeap (SymbolDataPartition_end p' st).2 !! sp_symbolData p = Some sd'
    /\ referenceResult sd' = Some rr.
Proof.
  intros Hl Hh Hvariant. cbv zeta.
  destruct (addReference_range value property p Hl)
    as (Hsymbol & Hdocument & _ & ranges & Hranges & Hin).
  set (p' := SymbolDataPartition_addReference value (Some property) p) in *.
  rewrite <- Hsymbol in Hh.
  destruct (SymbolDataPartition_end_items p' st sd Hh Hvariant)
    as (new & st' & sd' & Hrun & Hemitted & Hh' & _ & Hreferences).
  destruct (Hreferences _ _ _ Hranges Hin) as (e & rr & He & Hrr & Hdata).
  exists e, rr, sd'. unfold emittedBy. rewrite Hrun. cbn [fst snd].
  rewrite Hemitted, drop_app_length, <- Hsymbol, <- Hdocument. done.
Qed.

Lemma reference_reaches_item_edge_witness :
  let st := sampleState [sampleSymbolData "s" 4 None StandardV] in
  let p' :=
    SymbolDataPartition_addReference sampleRange
      (Some ItemEdgeProperties.references) samplePartition in
  exists e rr sd',
    (SymbolDataPartition_end p' st).1 = Ok tt
    /\ In (EE e) (emittedBy (SymbolDataPartition_end p') st)
    /\ edata e = EItem (vid rr)
                   (map vid (bucket ItemEdgeProperties.references samplePartition
                             ++ [sampleRange]))
                   (vid (sp_document samplePartition))
                   (Some ItemEdgeProperties.references)
    /\ symbolHeap (SymbolDataPartition_end p' st).2
         !! sp_symbolData samplePartition = Some sd'
    /\ referenceResult sd' = Some rr.
Proof.
  apply (reference_reaches_item_edge sampleRange ItemEdgeProperties.references
           samplePartition (sampleSymbolData "s" 4 None StandardV)
           (sampleState [sampleSymbolData "s" 4 None StandardV])).
  - reflexivity.
  - reflexivity.
  - intros aliased rename. discriminate.
Defined.

Lemma addDefinition_range value recordAsReference p :
  label value = "range" ->
  let p' := SymbolDataPartition_addDefinition value recordAsReference p in
  sp_symbolData p' = sp_symbolData p /\ sp_document p' = sp_document p
  /\ definitionRanges p' = Some (definitionsOf p ++ [value])
  /\ (recordAsReference = true ->
      exists ranges,
        referenceRanges p' = Some ranges
        /\ In (ItemEdgeProperties.definitions,
               bucket ItemEdgeProperties.definitions p ++ [value]) ranges).
Proof.
  intros Hl. cbv zeta. unfold SymbolDataPartition_addDefinition.
  destruct recordAsReference.
  - match goal with
    | |- context [SymbolDataPartition_addReference value _ ?q] =>
        destruct (addReference_range value ItemEdgeProperties.definitions q Hl)
          as (-> & -> & -> & ranges & Hranges & Hin)
    end.
    repeat split. intros _. exists ranges. split; [exact Hranges|exact Hin].
  - repeat split. done.
Qed.

(** X13. A definition range that is recorded in a partition is handed out
    when the partition ends: [end] returns, and among the elements it emits
    is an item edge without a property from the definition result of the
    symbol, for the document of the partition, that lists the definition
    ranges the partition held followed by the new one. When the range was
    recorded as a reference as well, there is also the item edge from the
    reference result that lists it under [definitions]. *)
Theorem definition_reaches_item_edges (value : Vertex) (recordAsReference : bool)
    (p : SymbolDataPartition) (sd : SymbolData) (st : State) :
  label value = "range" ->
  symbolHeap st !! sp_symbolData p = Some sd ->
  (forall aliased rename, variant sd <> AliasedV aliased rename) ->
  let p' := SymbolDataPartition_addDefinition value recordAsReference p in
  exists e dr sd',
    (SymbolDataPartition_end p' st).1 = Ok tt
    /\ In (EE e) (emittedBy (SymbolDataPartition_end p') st)
    /\ edata e = EItem (vid dr) (map vid (definitionsOf p ++ [value]))
                   (vid (sp_document p)) None
    /\ symbolHeap (SymbolDataPartition_end p' st).2 !! sp_symbolData p = Some sd'
    /\ definitionResult sd' = Some dr
    /\ (recordAsReference = true ->
        exists e' rr,
          In (EE e') (emittedBy (SymbolDataPartition_end p') st)
          /\ edata e' = EItem (vid rr)
                          (map vid (bucket ItemEdgeProperties.definitions p
                                    ++ [value]))
                          (vid (sp_document p))
                          (Some ItemEdgeProperties.definitions)
          /\ referenceResult sd' = Some rr).
Proof.
  intros Hl Hh Hvariant. cbv zeta.
  destruct (addDefinition_range value recordAsReference p Hl)
    as (Hsymbol & Hdocument & Hranges & Hrecorded).
  set (p' := SymbolDataPartition_addDefinition value recordAsReference p) in *.
  rewrite <- Hsymbol in Hh.
  destruct (SymbolDataPartition_end_items p' st sd Hh Hvariant)
    as (new & st' & sd' & Hrun & Hemitted & Hh' & Hdefinitions & Hreferences).
  destruct (Hdefinitions _ Hranges) as (e & dr & He & Hdr & Hdata).
  exists e, dr, sd'. unfold emittedBy. rewrite Hrun. cbn [fst snd].
  rewrite Hemitted, drop_app_length, <- Hsymbol, <- Hdocument.
  repeat (split; [done|]).
  intros Hflag. destruct (Hrecorded Hflag) as (ranges & Hreference & Hin).
  destruct (Hreferences _ _ _ Hreference Hin) as (e' & rr & He' & Hrr & Hdata').
  by exists e', rr.
Qed.

Lemma definition_reaches_item_edges_witness :
  let st := sampleState [sampleSymbolData "s" 4 None StandardV] in
  let p' := SymbolDataPartition_addDefinition sampleRange true samplePartition in
  exists e dr sd',
    (SymbolDataPartition_end p' st).1 = Ok tt
    /\ In (EE e) (emittedBy (SymbolDataPartition_end p') st)
    /\ edata e = EItem (vid dr) (map vid (definitionsOf samplePartition
                                          ++ [sampleRange]))
                   (vid (sp_document samplePartition)) None
    /\ symbolHeap (SymbolDataPartition_end p' st).2
         !! sp_symbolData samplePartition = Some sd'
    /\ definitionResult sd' = Some dr
    /\ (true = true ->
        exists e' rr,
          In (EE e') (emittedBy (SymbolDataPartition_end p') st)
          /\ edata e' = EItem (vid rr)
                          (map vid (bucket ItemEdgeProperties.definitions
                                      samplePartition ++ [sampleRange]))
                          (vid (sp_document samplePartition))
                          (Some ItemEdgeProperties.definitions)
          /\ referenceResult sd' = Some rr).
Proof.
  apply (definition_reaches_item_edges sampleRange true samplePartition
           (sampleSymbolData "s" 4 None StandardV)
           (sampleState [sampleSymbolData "s" 4 None StandardV])).
  - reflexivity.
  - reflexivity.
  - intros aliased rename. discriminate.
Defined.

(** ** The moniker path of a symbol with several source files *)

Lemma mergeMonikerPath_null datas flag :
  fold_left mergeMonikerPath datas (MonikerNull, flag) = (MonikerNull, flag).
Proof. induction datas as [|data datas IH]; [done|exact IH]. Qed.

Lemma mergeMonikerPath_from_string datas path flag path' flag' :
  fold_left mergeMonikerPath datas (MonikerString path, flag)
    = (MonikerString path', flag')
  <-> path' = path /\ flag' = flag
      /\ Forall (fun data => monikerPath data = Some path) datas.
Proof.
  induction datas as [|data datas IH]; cbn [fold_left].
  - split; [intros [= -> ->]; by repeat split|by intros (-> & -> & _)].
  - unfold mergeMonikerPath at 2. cbn [fst snd].
    destruct (monikerPath data) as [other|] eqn:Hdata.
    + destruct (String.eqb_spec path other) as [<-|Hne].
      * rewrite IH. split.
        -- intros (-> & -> & Hall). repeat split; by try constructor.
        -- intros (-> & -> & Hall). inversion Hall; by subst.
      * rewrite mergeMonikerPath_null. split; [done|].
        intros (_ & _ & Hall). inversion Hall; congruence.
    + rewrite mergeMonikerPath_null. split; [done|].
      intros (_ & _ & Hall). inversion Hall; congruence.
Qed.

(** X14. The moniker path a symbol gets from the documents of its source
    files, in the order they are visited: documents without a path at the
    front are passed over, the first document that has one gives the path
    and tells whether the symbol comes from an external library, and every
    document after it must have that same path; otherwise the symbol gets no
    path. A document without a path in front does no harm, the same document
    after one with a path discards the path. *)
Theorem mergeMonikerPath_string (datas : list DocumentData) (flag : bool)
    (path : string) (library : bool) :
  fold_left mergeMonikerPath datas (MonikerUndefined, flag)
    = (MonikerString path, library)
  <-> exists front first rest,
        datas = front ++ first :: rest
        /\ Forall (fun data => monikerPath data = None) front
        /\ monikerPath first = Some path
        /\ externalLibrary first = library
        /\ Forall (fun data => monikerPath data = Some path) rest.
Proof.
  revert flag. induction datas as [|data datas IH]; intros flag; cbn [fold_left].
  - split; [done|]. intros (front & first & rest & Hnil & _). by destruct front.
  - unfold mergeMonikerPath at 2. cbn [fst].
    destruct (monikerPath data) as [other|] eqn:Hdata.
    + rewrite mergeMonikerPath_from_string. split.
      * intros (-> & -> & Hall). exists [], data, datas. by repeat split.
      * intros (front & first & rest & Heq & Hfront & Hfirst & Hlib & Hrest).
        destruct front as [|data' front].
        -- injection Heq as <- <-.
           assert (other = path) as -> by congruence. by repeat split.
        -- injection Heq as <- ->. inversion Hfront; congruence.
    + rewrite IH. split.
      * intros (front & first & rest & -> & Hfront & Hfirst & Hlib & Hrest).
        exists (data :: front), first, rest. repeat split; try done.
        by constructor.
      * intros (front & first & rest & Heq & Hfront & Hfirst & Hlib & Hrest).
        destruct front as [|data' front].
        -- injection Heq as <- <-. congruence.
        -- injection Heq as <- ->. exists front, first, rest.
           repeat split; try done. by inversion Hfront.
Qed.

Lemma mergeMonikerPath_string_witness :
  fold_left mergeMonikerPath
    [DocumentData_new (sampleDocument 3 "/a.ts") None false;
     DocumentData_new (sampleDocument 4 "/b.ts") (Some "b") true;
     DocumentData_new (sampleDocument 5 "/c.ts") (Some "b") false]
    (MonikerUndefined, false)
  = (MonikerString "b", true).
Proof.
  apply (proj2 (mergeMonikerPath_string
                  [DocumentData_new (sampleDocument 3 "/a.ts") None false;
                   DocumentData_new (sampleDocument 4 "/b.ts") (Some "b") true;
                   DocumentData_new (sampleDocument 5 "/c.ts") (Some "b") false]
                  false "b" true)).
  exists [DocumentData_new (sampleDocument 3 "/a.ts") None false],
    (DocumentData_new (sampleDocument 4 "/b.ts") (Some "b") true),
    [DocumentData_new (sampleDocument 5 "/c.ts") (Some "b") false].
  repeat split; by repeat constructor.
Defined.

(** ** StandardSymbolData: use after the partitions were closed *)

(** X15. Once the partitions of a symbol are cleared, or the slot of a file
    holds a tombstone, the symbol refuses further use for that file:
    [getOrCreatePartition] and [findDefinition] throw and change nothing.
    [addDefinition] and [addReference] throw as well, but only after they
    have emitted the [next] edge from the range to the result set, which
    stays in the output. *)
Theorem closed_partition_refuses (st : State) (h : SymbolDataRef)
    (sd : SymbolData) (sourceFile : Node) :
  symbolHeap st !! h = Some sd ->
  (partitions sd = PartitionsNull
   \/ exists m, partitions sd = PartitionsMap m
                /\ JsMap.get (fileName sourceFile) m = Some None) ->
  (exists msg,
     StandardSymbolData_getOrCreatePartition h sourceFile st = (Throw msg, st))
  /\ (forall range, exists msg,
        StandardSymbolData_findDefinition h sourceFile range st = (Throw msg, st))
  /\ (forall definition recordAsReference, exists msg st',
        StandardSymbolData_addDefinition h sourceFile definition
          recordAsReference st = (Throw msg, st')
        /\ emitted st'
           = emitted st
             ++ [EE {| eid := nextId st;
                       edata := E11 "next" (vid definition)
                                  (vid (resultSet sd)) |}])
  /\ (forall reference property, exists msg st',
        StandardSymbolData_addReference h sourceFile reference property st
          = (Throw msg, st')
        /\ emitted st'
           = emitted st
             ++ if bool_decide (label reference = "range")
                then [EE {| eid := nextId st;
                            edata := E11 "next" (vid reference)
                                       (vid (resultSet sd)) |}]
                else []).
Proof.
  intros Hh Hclosed.
  assert (forall st0,
            symbolHeap st0 = symbolHeap st ->
            exists msg,
              StandardSymbolData_getOrCreatePartition h sourceFile st0
              = (Throw msg, st0)) as Hpartition.
  { intros st0 Hheap. unfold StandardSymbolData_getOrCreatePartition.
    rewrite <- Hheap in Hh. rewrite (run_deref _ _ _ _ Hh).
    destruct Hclosed as [->|(m & -> & Hslot)]; [by eexists|].
    run. rewrite Hslot. by eexists. }
  split; [by apply Hpartition|]. split; [|split].
  - intros range. unfold StandardSymbolData_findDefinition.
    rewrite (run_deref _ _ _ _ Hh).
    destruct Hclosed as [->|(m & -> & ->)]; by eexists.
  - intros definition recordAsReference.
    unfold StandardSymbolData_addDefinition.
    rewrite (run_deref _ _ _ _ Hh). unfold edge.next, edge.make, emit. run.
    match goal with
    | |- context [bind _ _ ?s] => destruct (Hpartition s eq_refl) as [msg Hthrow]
    end.
    unfold bind. rewrite Hthrow. by eexists _, _.
  - intros reference property. unfold StandardSymbolData_addReference.
    rewrite (run_deref _ _ _ _ Hh).
    destruct (bool_decide (label reference = "range")).
    + unfold edge.next, edge.make, emit. run.
      match goal with
      | |- context [bind _ _ ?s] => destruct (Hpartition s eq_refl) as [msg Hthrow]
      end.
      unfold bind. rewrite Hthrow. by eexists _, _.
    + run. destruct (Hpartition st eq_refl) as [msg Hthrow].
      unfold bind. rewrite Hthrow. eexists _, _. by rewrite app_nil_r.
Qed.

Lemma closed_partition_refuses_witness :
  let sd := with_partitions PartitionsNull (sampleSymbolData "s" 4 None StandardV) in
  let st := sampleState [sd] in
  let file := sampleFile 1 "/a.ts" in
  (exists msg,
     StandardSymbolData_getOrCreatePartition 0%nat file st = (Throw msg, st))
  /\ (forall range, exists msg,
        StandardSymbolData_findDefinition 0%nat file range st = (Throw msg, st))
  /\ (forall definition recordAsReference, exists msg st',
        StandardSymbolData_addDefinition 0%nat file definition
          recordAsReference st = (Throw msg, st')
        /\ emitted st'
           = emitted st
             ++ [EE {| eid := nextId st;
                       edata := E11 "next" (vid definition)
                                  (vid (resultSet sd)) |}])
  /\ (forall reference property, exists msg st',
        StandardSymbolData_addReference 0%nat file reference property st
          = (Throw msg, st')
        /\ emitted st'
           = emitted st
             ++ if bool_decide (label reference = "range")
                then [EE {| eid := nextId st;
                            edata := E11 "next" (vid reference)
                                       (vid (resultSet sd)) |}]
                else []).
Proof.
  apply (closed_partition_refuses
           (sampleState
              [with_partitions PartitionsNull
                 (sampleSymbolData "s" 4 None StandardV)])
           0%nat
           (with_partitions PartitionsNull (sampleSymbolData "s" 4 None StandardV))
           (sampleFile 1 "/a.ts")).
  - reflexivity.
  - left. reflexivity.
Defined.

(** ** A source file is indexed once *)

Lemma bind_Ok {A B} (m : M A) (k : A -> M B) st b st' :
  bind m k st = (Ok b, st') ->
  exists a st1, m st = (Ok a, st1) /\ k a st1 = (Ok b, st').
Proof.
  unfold bind. destruct (m st) as [[a| |] st1]; try discriminate.
  intros Hk. by exists a, st1.
Qed.

Section VisitedOnce.
Variable ts : Oracle.

Lemma keeps_visitor_documemntProcessed fileName :
  keeps (fun st => (currentSourceFile st, _currentDocumentData st,
                    symbolContainer st))
    (DataManager_documemntProcessed fileName).
Proof. unfold DataManager_documemntProcessed. keeps_steps. Qed.

Lemma endVisitSourceFile_ok sourceFile st st' :
  Visitor_isFullContentIgnored sourceFile = Some false ->
  Visitor_endVisitSourceFile ts sourceFile st = (Ok tt, st') ->
  JsMap.get (fileName sourceFile) (documentDatas st') = Some None
  /\ currentSourceFile st' = None /\ _currentDocumentData st' = None
  /\ symbolContainer st' = [].
Proof.
  intros Hignored. unfold Visitor_endVisitSourceFile, isFullContentIgnored.
  rewrite Hignored. run. intros Hrun.
  apply bind_Ok in Hrun as (documentData & st1 & _ & Hrun).
  apply bind_Ok in Hrun as ([] & st2 & _ & Hrun).
  apply bind_Ok in Hrun as ([] & st3 & _ & Hrun).
  apply bind_Ok in Hrun as (frame & st4 & _ & Hrun).
  apply bind_Ok in Hrun as ([] & st5 & _ & Hrun).
  revert Hrun. run. intros Hrun.
  apply bind_Ok in Hrun as ([] & st6 & Hprocessed & Hrun).
  revert Hrun. run.
  match type of Hprocessed with
  | _ ?s = _ =>
      pose proof (keeps_visitor_documemntProcessed (fileName sourceFile) s)
        as Hkeep
  end.
  cbn beta in Hkeep. rewrite Hprocessed in Hkeep. cbn [snd] in Hkeep. revert Hkeep. fields.
  intros [= Hfile Hdata Hstack].
  assert (JsMap.get (fileName sourceFile) (documentDatas st6) = Some None)
    as Htombstone.
  { unfold DataManager_documemntProcessed in Hprocessed.
    apply bind_Ok in Hprocessed as ([d|] & st7 & _ & Hprocessed);
      [|discriminate].
    apply bind_Ok in Hprocessed as ([] & st8 & _ & Hprocessed).
    cbn in Hprocessed. injection Hprocessed as <-. fields.
    apply JsMap_get_set_eq. }
  destruct (symbolContainer st6) as [|frame' stack] eqn:Hcontainer;
    cbn [length Nat.eqb negb]; [|discriminate].
  intros [= <-]. done.
Qed.

End VisitedOnce.

(** X16. A source file is indexed once. When the visit of a source file that
    is not ignored has completed, the visitor has no current file and no
    current document, its stack of document symbols is empty, and the
    document data of the file is replaced by a tombstone; a second visit of
    the file throws, and it emits nothing before it does. *)
Theorem source_file_visited_once (ts : Oracle) (fuel : nat) (sourceFile : Node)
    (children : list Tree) (st st' : State) :
  kind sourceFile = SyntaxKind.SourceFile ->
  Visitor_isFullContentIgnored sourceFile = Some false ->
  Visitor_visit ts fuel (TreeNode sourceFile children) st = (Ok tt, st') ->
  currentSourceFile st' = None /\ _currentDocumentData st' = None
  /\ symbolContainer st' = []
  /\ JsMap.get (fileName sourceFile) (documentDatas st') = Some None
  /\ exists st'',
       Visitor_visit ts fuel (TreeNode sourceFile children) st'
       = (Throw ("There was already a managed document data for file: "
                 +:+ fileName sourceFile), st'')
       /\ emitted st'' = emitted st'.
Proof.
  intros Hkind Hignored. cbn [Visitor_visit]. rewrite Hkind.
  unfold Visitor_doVisit. intros Hrun.
  apply bind_Ok in Hrun as (descend & st1 & _ & Hrun).
  apply bind_Ok in Hrun as ([] & st2 & _ & Hrun).
  apply bind_Ok in Hrun as ([] & st3 & _ & Hrun).
  destruct (endVisitSourceFile_ok ts _ _ _ Hignored Hrun)
    as (Htombstone & Hfile & Hdata & Hstack).
  repeat (split; [done|]).
  unfold Visitor_visitSourceFile, isFullContentIgnored. rewrite Hignored. run.
  unfold Visitor_getOrCreateDocumentData, DataManager_getDocumentData. run.
  rewrite Htombstone. run. by eexists.
Qed.

Lemma source_file_visited_once_witness :
  let st := (Visitor_new sampleFooOracle [] None (initialState 1 false "/")).2 in
  let st' := (Visitor_visit sampleFooOracle 5 fooTree st).2 in
  currentSourceFile st' = None /\ _currentDocumentData st' = None
  /\ symbolContainer st' = []
  /\ JsMap.get (fileName fooFile) (documentDatas st') = Some None
  /\ exists st'',
       Visitor_visit sampleFooOracle 5 fooTree st'
       = (Throw ("There was already a managed document data for file: "
                 +:+ fileName fooFile), st'')
       /\ emitted st'' = emitted st'.
Proof.
  apply (source_file_visited_once sampleFooOracle 5 fooFile
           [TreeNode (sampleNode 2 SyntaxKind.FunctionDeclaration)
              [TreeNode (sampleNode 3 SyntaxKind.Identifier) []];
            TreeNode (sampleNode 4 (SyntaxKind.Other 0))
              [TreeNode (sampleNode 5 SyntaxKind.Identifier) []]]
           (Visitor_new sampleFooOracle [] None (initialState 1 false "/")).2).
  - reflexivity.
  - vm_compute. reflexivity.
  - vm_compute. reflexivity.
Defined.

(** ** DataManager: a node is processed once *)

Lemma JsMap_get_delete_eq `{EqDecision K} {V} (m : list (K * V)) k :
  NoDup (JsMap.keys m) -> JsMap.get k (JsMap.delete k m) = None.
Proof.
  induction m as [|[k' v] m IH]; [done|]. cbn. intros Hnodup.
  apply NoDup_cons in Hnodup as [Hfresh Hnodup].
  destruct (decide (k = k')) as [<-|Hne].
  - destruct (JsMap.get k m) as [v'|] eqn:Hget; [|done].
    destruct Hfresh. apply JsMap_get_In, (in_map fst) in Hget.
    by apply list_elem_of_In.
  - cbn. rewrite decide_False by done. by apply IH.
Qed.

Lemma keeps_clearOnNode_nodeProcessed h node :
  keeps clearOnNode (SymbolData_nodeProcessed h node).
Proof. keeps_steps. Qed.

(** X17. A node is processed once. When [nodeProcessed(node)] has completed,
    the lifecycle map has no entry for the node any more, so a second
    [nodeProcessed(node)] ends no partition again: it returns at once and
    changes and emits nothing. The lifecycle map holds one entry for a
    node. *)
Theorem nodeProcessed_once (node : Node) (st st' : State) :
  NoDup (JsMap.keys (clearOnNode st)) ->
  DataManager_nodeProcessed node st = (Ok tt, st') ->
  JsMap.get (nodeId node) (clearOnNode st') = None
  /\ DataManager_nodeProcessed node st' = (Ok tt, st').
Proof.
  intros Hnodup Hrun.
  assert (JsMap.get (nodeId node) (clearOnNode st') = None) as Hnone.
  { unfold DataManager_nodeProcessed in Hrun. revert Hrun. run.
    destruct (JsMap.get (nodeId node) (clearOnNode st)) as [datas|] eqn:Hget;
      [|by intros [= <-]].
    intros Hrun. apply bind_Ok in Hrun as ([] & st1 & Hloop & Hrun).
    assert (clearOnNode st1 = clearOnNode st) as Hkeep.
    { change st1 with (Ok tt, st1).2. rewrite <- Hloop.
      apply (keeps_run clearOnNode). unfold keeps.
      apply preserves_forEach; [typeclasses eauto|]. intros symbolData.
      apply preserves_bind;
        [typeclasses eauto|apply keeps_clearOnNode_nodeProcessed|].
      intros cleared. destruct cleared; keeps_steps. }
    cbn in Hrun. injection Hrun as <-. fields. rewrite Hkeep.
    by apply JsMap_get_delete_eq. }
  split; [exact Hnone|].
  unfold DataManager_nodeProcessed. run. by rewrite Hnone.
Qed.

Lemma nodeProcessed_once_witness :
  let st := sampleState [sampleScoped] in
  let file := sampleFile 1 "/a.ts" in
  let st0 := (DataManager_manageLifeCycle file 0%nat st).2 in
  let st' := (DataManager_nodeProcessed file st0).2 in
  JsMap.get (nodeId file) (clearOnNode st') = None
  /\ DataManager_nodeProcessed file st' = (Ok tt, st').
Proof.
  apply (nodeProcessed_once (sampleFile 1 "/a.ts")
           (DataManager_manageLifeCycle (sampleFile 1 "/a.ts") 0%nat
              (sampleState [sampleScoped])).2).
  - apply (bool_decide_unpack _). vm_compute. reflexivity.
  - vm_compute. reflexivity.
Defined.

(** ** getOrCreateDocumentData: one DocumentData for a file *)

Lemma keeps_documentDatas_begin d : keeps documentDatas (DocumentData_begin d).
Proof. keeps_steps. Qed.

Lemma keeps_documentDatas_end d : keeps documentDatas (DocumentData_end d).
Proof. keeps_steps. Qed.

Lemma keeps_documentDatas_addDocument document :
  keeps documentDatas (ProjectData_addDocument document).
Proof. keeps_steps. Qed.

Lemma keeps_documentHeap_addDocument document :
  keeps documentHeap (ProjectData_addDocument document).
Proof. keeps_steps. Qed.

(** What a call leaves in the map of the manager: the map as it was when the
    file has an entry, the map with the new entry otherwise. *)
Lemma getOrCreateDocumentData_registration fileName document monikerPath
    externalLibrary st d st1 :
  DataManager_getOrCreateDocumentData fileName document monikerPath
    externalLibrary st = (Ok d, st1) ->
  (JsMap.get fileName (documentDatas st) = Some (Some d) /\ st1 = st)
  \/ (JsMap.get fileName (documentDatas st) = None
      /\ d = length (documentHeap st)
      /\ documentDatas st1 = JsMap.set fileName (Some d) (documentDatas st)
      /\ documentHeap st1
         = documentHeap st
           ++ [DocumentData_new document monikerPath externalLibrary]).
Proof.
  unfold DataManager_getOrCreateDocumentData, DataManager_getDocumentData. run.
  destruct (JsMap.get fileName (documentDatas st)) as [[d0|]|] eqn:Hget; run;
    [intros [= <- <-]; by left|discriminate|].
  intros Hrun. right. split; [done|].
  apply bind_Ok in Hrun as ([] & st2 & Hbegin & Hrun).
  apply bind_Ok in Hrun as ([] & st3 & Hadd & Hrun).
  injection Hrun as <- <-. split; [done|].
  pose proof (keeps_run documentDatas _ st2 (keeps_documentDatas_addDocument document))
    as Hdatas.
  pose proof (keeps_run documentHeap _ st2 (keeps_documentHeap_addDocument document))
    as Hheap.
  rewrite Hadd in Hdatas, Hheap. cbn [snd] in Hdatas, Hheap.
  match type of Hbegin with
  | _ ?s = _ =>
      pose proof (keeps_run documentDatas _ s (keeps_documentDatas_begin
                    (length (documentHeap st)))) as Hdatas';
      assert (documentHeap st2 = documentHeap s) as Hheap'
  end.
  { change st2 with (Ok tt, st2).2. rewrite <- Hbegin.
    apply (keeps_run documentHeap). keeps_steps. }
  rewrite Hbegin in Hdatas'. cbn [snd] in Hdatas'.
  rewrite Hdatas, Hdatas', Hheap, Hheap'. by fields.
Qed.

Lemma keeps_registration_getOrCreate fileName fileName' document monikerPath
    externalLibrary :
  fileName' <> fileName ->
  keeps (fun st => JsMap.get fileName (documentDatas st))
    (DataManager_getOrCreateDocumentData fileName' document monikerPath
       externalLibrary).
Proof.
  intros Hne. unfold DataManager_getOrCreateDocumentData. keeps_steps.
  intros s. cbn [modify snd]. fields. by rewrite JsMap_get_set_ne.
Qed.

Lemma keeps_registration_documemntProcessed fileName fileName' :
  fileName' <> fileName ->
  keeps (fun st => JsMap.get fileName (documentDatas st))
    (DataManager_documemntProcessed fileName').
Proof.
  intros Hne. unfold DataManager_documemntProcessed. keeps_steps.
  intros s. cbn [modify snd]. fields. by rewrite JsMap_get_set_ne.
Qed.

(** C10. [getOrCreateDocumentData] keeps one DocumentData for a file name.
    The handle a call returns is registered under the file name; when the
    file had no entry, the handle is new and holds the DocumentData the
    constructor builds from the arguments of that call. From then on, in
    every state where that registration is in place -- that is, until the
    document is processed, which replaces it by a tombstone --, a call for
    the file name returns that same handle, whatever the other arguments,
    and changes nothing: no second document vertex, no second begin event,
    no second entry in the contains buffer of the project. The registration
    stays in place through calls of [getOrCreateDocumentData] for any file
    name and through [documemntProcessed] for any other file name. *)
Theorem getOrCreateDocumentData_idempotent (st st1 : State) (fileName : string)
    (document : Vertex) (monikerPath : option string) (externalLibrary : bool)
    (d : DocumentDataRef) :
  DataManager_getOrCreateDocumentData fileName document monikerPath
    externalLibrary st = (Ok d, st1) ->
  JsMap.get fileName (documentDatas st1) = Some (Some d)
  /\ (JsMap.get fileName (documentDatas st) = None ->
        d = length (documentHeap st)
        /\ documentHeap st1 !! d
           = Some (DocumentData_new document monikerPath externalLibrary))
  /\ (forall st2,
        JsMap.get fileName (documentDatas st2) = Some (Some d) ->
        (forall document' monikerPath' externalLibrary',
           DataManager_getOrCreateDocumentData fileName document' monikerPath'
             externalLibrary' st2 = (Ok d, st2))
        /\ (forall fileName' document' monikerPath' externalLibrary',
              JsMap.get fileName
                (documentDatas
                   (DataManager_getOrCreateDocumentData fileName' document'
                      monikerPath' externalLibrary' st2).2)
              = Some (Some d))
        /\ (forall fileName',
              fileName' <> fileName ->
              JsMap.get fileName
                (documentDatas (DataManager_documemntProcessed fileName' st2).2)
              = Some (Some d))).
Proof.
  intros Hrun.
  assert (forall st2,
            JsMap.get fileName (documentDatas st2) = Some (Some d) ->
            forall document' monikerPath' externalLibrary',
              DataManager_getOrCreateDocumentData fileName document' monikerPath'
                externalLibrary' st2 = (Ok d, st2)) as Hagain.
  { intros st2 Hslot document' monikerPath' externalLibrary'.
    unfold DataManager_getOrCreateDocumentData, DataManager_getDocumentData.
    run. by rewrite Hslot. }
  assert (JsMap.get fileName (documentDatas st1) = Some (Some d)
          /\ (JsMap.get fileName (documentDatas st) = None ->
              d = length (documentHeap st)
              /\ documentHeap st1 !! d
                 = Some (DocumentData_new document monikerPath externalLibrary)))
    as [Hregistered Hcreated].
  { apply getOrCreateDocumentData_registration in Hrun
      as [[Hslot ->]|(Hnone & -> & Hdatas & Hheap)].
    - split; [exact Hslot|]. by rewrite Hslot.
    - split; [by rewrite Hdatas, JsMap_get_set_eq|]. intros _.
      split; [done|]. rewrite Hheap. apply lookup_snoc_length. }
  split; [exact Hregistered|]. split; [exact Hcreated|].
  intros st2 Hslot. split; [by apply Hagain|]. split.
  - intros fileName' document' monikerPath' externalLibrary'.
    destruct (decide (fileName' = fileName)) as [->|Hne];
      [by rewrite Hagain|].
    rewrite <- Hslot.
    apply (keeps_run (fun st => JsMap.get fileName (documentDatas st))).
    by apply keeps_registration_getOrCreate.
  - intros fileName' Hne. rewrite <- Hslot.
    apply (keeps_run (fun st => JsMap.get fileName (documentDatas st))).
    by apply keeps_registration_documemntProcessed.
Qed.

Lemma getOrCreateDocumentData_idempotent_witness :
  let st := initialState 5 true "/" in
  let doc := sampleDocument 4 "/a.ts" in
  let r := DataManager_getOrCreateDocumentData "/a.ts" doc None false st in
  r.1 = Ok 0%nat
  /\ JsMap.get "/a.ts" (documentDatas r.2) = Some (Some 0%nat)
  /\ documentHeap r.2 !! 0%nat = Some (DocumentData_new doc None false)
  /\ DataManager_getOrCreateDocumentData "/a.ts" (sampleDocument 9 "/a.ts")
       (Some "a") true r.2 = (Ok 0%nat, r.2).
Proof.
  intros st doc r.
  assert (DataManager_getOrCreateDocumentData "/a.ts" doc None false st
          = (Ok 0%nat, r.2)) as Hrun by (vm_compute; reflexivity).
  destruct (getOrCreateDocumentData_idempotent st r.2 "/a.ts" doc None false
              0%nat Hrun) as (Hregistered & Hcreated & Hlater).
  split; [vm_compute; reflexivity|]. split; [exact Hregistered|].
  split; [apply Hcreated; reflexivity|].
  apply (Hlater r.2 Hregistered).
Defined.
